(* ===== verification/_CoqProject ===== *)
-Q . S2P
Prelude.v
Pages.v
Stack.v
Json.v
Types.v
Text.v
Effects.v
Logic.v
LogicProps.v
Config.v
Resolve.v
ExpModels.v
Bucketing.v
BucketAlloc.v
BucketingProps.v
Samples.v
CacClient.v
CacToml.v
ExpChecks.v
CacStore.v
CacConfig.v
Contexts.v
Dimensions.v
DefaultConfigs.v
Functions.v
CacServing.v
QueryStrings.v
QueryStringProps.v
CacQueries.v
CacReduce.v
CacReduceProps.v
CacReduction.v
CacService.v
DimSpec.v
CacInv.v
CacRefine.v
CacProps.v
CacGenerated.v
CacChanges.v
CacServingProps.v
Store.v
Groups.v
Experiments.v
Queries.v
Service.v
Tenants.v
Http.v
Webhooks.v
Organisations.v
Internal.v
Platform.v
Reallocation.v
Spec.v
Refine.v
RefineExperiments.v
RefineGroups.v
ServiceProps.v
PlatformProps.v
Tenancy.v
ServerSamples.v
PlatformRun.v
ServiceClaims.v
ExpClaims.v
QueryClaims.v
CacServiceClaims.v
CacReduceClaims.v
CacServingClaims.v
ResolveClaims.v
BucketingClaims.v
TextClaims.v
PlatformClaims.v
CacTomlClaims.v
Polling.v
PollingClaims.v
Ffi.v
FfiClaims.v
Provider.v
ProviderClaims.v
Frontend.v
FrontendClaims.v
