(* ===== verification/Prelude.v ===== *)
(** * Superposition: a verification library

    Superposition manages the configuration of applications. A configuration
    has default values and contexts, conditions on dimensions under which some
    values are overridden; experiments assign overrides to a share of the
    requests. This library models, in Rocq, the crates that carry that logic
    and proves what makes them correct.

    ** The program and the files that model it

    Types ([crates/superposition_types]). [Json] has the values of
    [serde_json]; [Types] the conditions, overrides, contexts, dimensions and
    configurations of [config.rs] with their validating constructors; [Text]
    the validated newtypes and number formats of [database/models.rs],
    [lib.rs], [api.rs] and [custom_query.rs]; [Effects] the errors of
    [result.rs] and their HTTP answers; [ExpModels] the rows of
    [database/models/experimentation.rs].

    Resolution. [Logic] models [logic.rs]: matching a condition with a request
    and evaluating the cohort dimensions, which the code does with explicit
    stacks ([Stack] has the work-list loops). [Config] models the filters of
    [config.rs], [overridden.rs] and [contextual.rs]. [Resolve] models
    [crates/superposition_core/src/config.rs]: the overrides of the contexts
    that match, merged or replaced in order, onto the defaults. [CacClient]
    models [crates/cac_client]: the canonical text of a JSON value, and the
    client that caches resolved configurations.

    Assignment of variants. [Bucketing] has the default hasher of the standard
    library and models [superposition_core/src/experiment.rs] and
    [experimentation_client/src/lib.rs]: a request falls on one of a hundred
    buckets of each group, and the bucket names a variant.

    Clients. [Polling] has what the clients of configurations and of
    experiments ask the server, what they keep of its answers, and the factory
    that makes one for each tenant. [Ffi] models the foreign function
    interfaces of both clients and of [superposition_core]: pointers that may
    be null, texts that may not be UTF-8, and the errors kept for the caller.
    [Provider] models [crates/superposition_provider]: the answers of the SDK
    become the data of the core, a configuration and experiments are kept and
    refreshed, and flags of OpenFeature are resolved from them.

    The experimentation service ([crates/experimentation_platform]). [Store]
    has its state, the tables of experiments and groups, and its effects: a
    handler is a function from the world to a result and the world after it; a
    transaction that fails restores the tables; the clock, the id generator
    and the answers of the configuration service and of webhooks come from the
    class [Env], on which nothing is assumed. [ExpChecks] has the validations
    of [experiments/helpers.rs], [BucketAlloc] the allocation of buckets of
    [experiment_groups/helpers.rs], [Groups] and [Experiments] every handler
    of the two [handlers.rs] that writes, [Queries] those that read, and
    [Service] the requests and their routing.

    The configuration service ([crates/context_aware_config]). [CacStore] has
    its tables and the operations of [api/context.rs]; the clock, the ids and
    the node process that runs the users' functions come from the class [CacEnv]. [CacConfig] models [helpers.rs] and
    [validation_functions.rs]: the weight of a context, the configuration
    generated from the tables ([generate_cac]), the version stored after every
    change ([add_config_version]) and the functions run to validate a request.
    [Contexts] has the checks, operations and handlers of [api/context],
    [Dimensions] those of [api/dimension]; [DefaultConfigs] and [Functions] the
    handlers that write, the last also those of variables and type templates.
    [CacServing] models [api/config]: the handlers that serve a version and
    resolve a request in it, and the evaluation of remote cohorts; [CacReduce]
    the handler that reduces a
    configuration; [CacQueries] every listing and the audit log. [CacService]
    has the requests that write and their routing from a fresh workspace, and
    the copy of the configuration that a build option keeps in Redis, with the
    handler that answers from it; which of its writes arrive is a parameter.
    [Pages] has the pages that both services cut listings into and [Effects]
    the monad they share.

    Files. [CacToml] models [crates/cac_toml], a tool that resolves
    configurations written in TOML: the grammar of its context expressions,
    their evaluation and the resolution of a file.

    The server ([crates/superposition], [crates/service_utils]). [Tenants] has
    the tables of the platform: organisations, workspaces, and for each
    workspace a schema with the tables of both services and its webhooks.
    [Http] models the middlewares: who a request is from, with an identity
    provider for all users, one per organisation or none ([auth_n] and its
    authenticators), which workspace it names ([workspace_context.rs]) and
    whether the user may ([auth_z.rs]). [QueryStrings] models
    [custom_query.rs] and the derivation that writes queries. [Webhooks] has
    the handlers of webhooks and the call of one with its variables,
    [Organisations] those of organisations and workspaces.
    [Internal] makes the calls of the experimentation service what they are,
    requests that pass the middlewares and run a handler of the configuration
    service on the tables as they are then; [Platform] resolves a
    request with the variants of its experiments, routes every request
    that writes and runs experimentation handlers with these exchanges for
    their outside. The address the service calls itself at is taken to be the
    same process.

    The web interface ([crates/frontend]). [Frontend] has what it computes
    between the answers it reads and the pages it draws: types and inputs
    ([schema.rs], [components/input.rs]), conditions ([logic.rs]), listings in
    folders ([pages/default_config_list/utils.rs]), the queries of its pages,
    its alerts, the forms of contexts, overrides, variants and cohorts as state
    machines with a step for each callback, what each form offers as a
    predicate on its events, and the requests the forms send, built from the
    types that the services read.

    ** What the theorems show

    - [ResolveClaims]: matching is monotone and partial matching is matching of
      some completion; the evaluation of cohorts terminates on graphs that go
      to smaller positions, binds what it should and computes, for every
      cohort, the first definition that holds.
      A resolution is, key by key, the cascade of the values
      the matching contexts assign: they are overlaid on one another in order
      and the outcome once onto the default value; filters by prefix and by
      dimension do not change what they keep.
    - [PollingClaims]: the cached resolutions of the client are those of its
      current configuration, in every state it reaches, up to collisions of
      the cache key, which exist. A client that polls a server in use holds the
      configuration of the tables after each poll, up to changes within one
      second; a client of experiments finds the variants that the server finds.
      What polls miss: a version that is pinned, a change of a group alone.
    - [FfiClaims]: both interfaces of [superposition_core] answer the same
      resolution, and every call that fails leaves a message; where a null
      pointer is used unchecked.
    - [ProviderClaims]: what the SDK carries is read as the service sent it, so
      a provider that polled resolves as the service is configured, for the
      variants that the tables justify by the hash of the core library; without
      the service it resolves by its fallback, unless it was made with
      experimentation, and then it resolves nothing; which refresh never
      returns.
    - [BucketingClaims]: a reallocation gives every variant exactly its number
      of buckets and leaves those of others; how requests are
      served, and where variants starve.
    - [ServiceClaims]: [Spec] is an abstract machine with the steps that may
      happen to the two tables and [inv] what holds in its states. [Refine],
      [RefineExperiments] and [RefineGroups] show by rules for the monad that
      every handler performs nothing but steps, so whatever
      requests are served ([ServiceProps]) the tables stay consistent:
      traffic is exact, membership agrees in both tables, no bucket dangles,
      and an experiment lives as [status_step] says.
    - [ExpClaims]: what admission guarantees, what a creation stores
      and where isolation fails.
    - [QueryClaims]: the variants served in a reachable state are exactly
      those that the buckets and contexts justify; listings are sound and
      complete and their pages partition them.
    - [TextClaims]: round trips and bounds of texts, and of the queries the
      service writes to itself ([QueryStringProps]).
    - [CacServiceClaims]: [DimSpec] is an abstract machine for the positions,
      cohorts and graphs of the dimensions with its invariant; [CacInv] has
      the invariants of the other tables. [CacRefine] and [CacProps] show that
      every request performs steps of the machine and keeps the invariants:
      positions are exactly those below
      the number of dimensions, graphs hold exactly the cohorts, the reserved
      functions stay, a request that fails leaves no trace ([CacChanges]) and
      one that succeeds leaves a version of what it left, if it is of a kind that
      changes the configuration, and else the configuration as it was; an
      approved reduction is the exception. [CacGenerated]:
      every reachable state generates a configuration in which
      every request is resolved, to the value of the heaviest context.
    - [CacServingClaims]: but for approved reductions, after which no version
      is stored, an unconditional request is served the current configuration
      ([CacServingProps]), also from the copy in Redis when every
      write arrives and requests do not overlap (one run shows what a lost write
      does, one what two requests at once do); a pinned version stays, what an
      answer of 304 says, and the evaluation of remote cohorts ends with every
      cohort bound.
    - [CacReduceClaims]: a reduction changes no resolution, under either merge
      strategy, when the contexts that hold together are nested
      ([CacReduceProps], [CacReduction]: a row that is reduced repeats the value
      that the rows before it give, and repeating a value changes no cascade),
      and what happens when they are not.
    - [PlatformClaims]: whatever calls the server answers, the tables of every
      workspace are those of a sequence of requests to its two services, also
      where a handler of one asks the other, and the invariants of all hold
      together ([PlatformProps]); organisations, workspaces, schemas and pinned
      versions agree ([Tenancy]); a call touches only the workspace it names; who
      reaches a workspace, and what an identity provider makes of the calls of
      the service to itself.
    - [CacTomlClaims]: expressions are read as they are written, resolution is
      the cascade of the contexts that hold by priority, in the order that the
      reversed comparison of the code makes a heap give them, files whose expressions
      compare dimensions with literals are resolved without a panic, and which
      are not.
    - [FrontendClaims]: every key of a listing is found by opening folders;
      whatever is done in the forms of variants and cohorts, the checks of the
      service on the keys and variants ([ExpChecks]) and on the options of a
      cohort ([Dimensions]) pass; contexts, conditions and inputs are read back
      as they are shown; where the pages go wrong.
    - [Samples], [ServerSamples] and [PlatformRun] have the concrete runs at
      which the theorems are instantiated, the last from the creation of an
      organisation to the answers that the users of an experiment get.

    ** Conventions

    Maps are [gmap]s; where the code iterates over a hash map or over the rows
    of a query, the order is a parameter ([MapOrder], [RowOrder], [SetOrder])
    known only to be a permutation; a heap ([BinaryHeap]) gives the greatest
    item first by the comparison it is handed, in any order among equals.
    Loops over an explicit stack take fuel;
    [cohort_fuel], the unfolded size of the dependency graphs, is shown to be
    enough. Integers are [Z] or [N] with their wrap-around or their panic
    written out where they can overflow; a panic is an error value. Floats are
    their patterns with one zero, the sign of which is not modelled. Requests
    are served to completion one after the other: two requests interleaved
    between their statements are not modelled, nor are row locks.

    Parameters, because their code is not in the repository: JSON logic
    ([JsonLogic], [JsonLogicVariables]), JSON schemas ([JsonSchema]), the
    parser and printer of JSON ([JsonParse], [ConfigText], [JsonRefusal]) and
    the readers of records that the build derives ([ExpJson], [CoreJson],
    [DimensionInfoJson]), the texts of [time] ([ProviderText]), the
    text of an HTTP status ([StatusText]), blake3, the
    printing of floats, times ([Rfc2822Text]) and of values for debugging ([DebugText]), the
    matching of regular expressions, SQL's [LIKE] and [ILIKE] ([SqlLike],
    [OverrideSearch]), the cases of Unicode ([UnicodeCase]), the collation of
    the database ([Collation]), the decoder and the expressions of queries ([UrlEncoded], [RegexCaptures]), the JSON of
    a user ([UserText]), identity providers ([Provider], [LoginProvider]) and
    the policy of permissions ([Authorizer]), the syntax of headers and
    variables of a webhook ([HeaderSyntax], [VarRegex]), and the outside as
    [Env], [CacEnv], [PlatformEnv], [HookEnv] and [Network], by which calls of
    the service to itself may be lost before or after they are served.

    ** Not modelled

    Of the frontend what is drawn, its signals and routes, and the transport of
    its requests; the SDKs, which are generated, but for the records that the
    provider reads; the pool of connections, the decryption of
    secrets and the logs; of the clients the transport and the timers of their
    polls, and their locks: a method is one step; of the configuration service
    the triggers that write the audit log. Of the server, files and redirects
    of pages. *)

From Stdlib Require Export ZArith Lia Ascii.
From stdpp Require Export sorting pretty numbers.
From stdpp Require Export base tactics option list gmap strings fin_sets.

(** ** Errors as values *)

(** [core::result::Result]: the value or the error of a fallible operation. *)
Inductive result (E A : Type) : Type :=
  | Ok (a : A)
  | Err (e : E).
Arguments Ok {E A} a.
Arguments Err {E A} e.

#[export] Instance result_eq_dec {E A} `{EqDecision E, EqDecision A} : EqDecision (result E A).
Proof. solve_decision. Defined.

#[export] Instance result_ret {E} : MRet (result E) := λ A a, Ok a.
#[export] Instance result_bind {E} : MBind (result E) := λ A B f m,
  match m with Ok a => f a | Err e => Err e end.
#[export] Instance result_fmap {E} : FMap (result E) := λ A B f m,
  match m with Ok a => Ok (f a) | Err e => Err e end.

(** [Result::is_ok]. *)
Definition is_ok {E A} (r : result E A) : bool :=
  match r with Ok _ => true | Err _ => false end.

(** [Option::ok_or]. *)
Definition ok_or {E A} (o : option A) (e : E) : result E A :=
  match o with Some a => Ok a | None => Err e end.

(** [Result::map_err]. *)
Definition map_err {E F A} (f : E → F) (r : result E A) : result F A :=
  match r with Ok a => Ok a | Err e => Err (f e) end.

(** The [?]-and-continue shape of a Rust body that only checks. *)
Definition guard_or {E} (b : bool) (e : E) : result E unit :=
  if b then Ok tt else Err e.

Lemma guard_or_ok {E} b (e : E) u : guard_or b e = Ok u ↔ b = true.
Proof. destruct b, u; naive_solver. Qed.

Lemma result_bind_Ok {E A B} (f : A → result E B) a : Ok a ≫= f = f a.
Proof. done. Qed.

Lemma result_bind_ok {E A B} (f : A → result E B) m b :
  m ≫= f = Ok b ↔ ∃ a, m = Ok a ∧ f a = Ok b.
Proof. destruct m; naive_solver. Qed.

Lemma is_ok_true {E A} (r : result E A) : is_ok r = true ↔ ∃ a, r = Ok a.
Proof. destruct r; naive_solver. Qed.

(** [iter().map(f).collect::<Result<Vec<_>, _>>()]: the first error wins. *)
Fixpoint try_map {E A B} (f : A → result E B) (l : list A) : result E (list B) :=
  match l with
  | [] => Ok []
  | a :: l => b ← f a; bs ← try_map f l; Ok (b :: bs)
  end.

Lemma try_map_ok {E A B} (f : A → result E B) l bs :
  try_map f l = Ok bs ↔ Forall2 (λ a b, f a = Ok b) l bs.
Proof.
  revert bs. induction l as [|a l IH]; intros bs; simpl.
  - split; [intros [= <-]; constructor|]. by inversion 1.
  - rewrite result_bind_ok. setoid_rewrite result_bind_ok. split.
    + intros (b & Hb & bs' & Hbs & [= <-]). constructor; [done|]. by apply IH.
    + inversion 1; subst. eexists; split; [done|]. eexists; split; [by apply IH|done].
Qed.

Lemma try_map_length {E A B} (f : A → result E B) l bs :
  try_map f l = Ok bs → length bs = length l.
Proof. intros ?%try_map_ok. symmetry. by eapply Forall2_length. Qed.

(** ** Iteration order of hash maps

    A Rust [HashMap] enumerates its entries in an order the program cannot
    rely on. [map_order] is that order; all that is known about it is that it
    lists every entry exactly once. *)
Class MapOrder := map_order : ∀ {V : Type}, gmap string V → list (string * V).
Class MapOrderOk (O : MapOrder) : Prop :=
  map_order_perm : ∀ V (m : gmap string V), @map_order O V m ≡ₚ map_to_list m.

(** One admissible order, used by the witnesses. *)
Definition list_order : MapOrder := λ V m, map_to_list m.

#[export] Instance list_order_ok : MapOrderOk list_order.
Proof. by intros V m. Qed.

Section map_order.
Context {O : MapOrder} {Ook : MapOrderOk O} {V : Type}.
Implicit Types m : gmap string V.

Lemma elem_of_map_order m k v : (k, v) ∈ map_order m ↔ m !! k = Some v.
Proof. rewrite (map_order_perm (O:=O)). apply elem_of_map_to_list. Qed.

Lemma NoDup_fst_map_order m : NoDup (map_order m).*1.
Proof. rewrite (map_order_perm (O:=O)). apply NoDup_fst_map_to_list. Qed.
End map_order.

(** An update of a row that is there. *)
Lemma alter_found `{Countable K} {V} (f : V → V) (id : K) (m : gmap K V) v :
  m !! id = Some v → alter f id m = <[id := f v]> m.
Proof.
  intros Hv. apply map_eq. intros j. destruct (decide (id = j)) as [<-|Hne].
  - by rewrite lookup_alter_eq, lookup_insert_eq, Hv.
  - by rewrite lookup_alter_ne, lookup_insert_ne.
Qed.

(** ** Machine integers *)

Definition wrap8 (z : Z) : Z := z `mod` 2 ^ 8.
Definition wrap64 (z : Z) : Z := z `mod` 2 ^ 64.

Definition u8 (z : Z) : Prop := (0 ≤ z < 2 ^ 8)%Z.
Definition i32 (z : Z) : Prop := (- 2 ^ 31 ≤ z < 2 ^ 31)%Z.
Definition i64 (z : Z) : Prop := (- 2 ^ 63 ≤ z < 2 ^ 63)%Z.

Lemma wrap8_range z : u8 (wrap8 z).
Proof. apply Z.mod_pos_bound. lia. Qed.
Lemma wrap8_id z : u8 z → wrap8 z = z.
Proof. intros. by apply Z.mod_small. Qed.
Lemma wrap64_range z : (0 ≤ wrap64 z < 2 ^ 64)%Z.
Proof. apply Z.mod_pos_bound. lia. Qed.

(** ** Lists *)

(** [Iterator::all] and [Iterator::any] as Coq's [forallb] and [existsb]. *)
Lemma forallb_True {A} (f : A → bool) l :
  forallb f l = true ↔ ∀ x, x ∈ l → f x = true.
Proof. rewrite forallb_forall. by setoid_rewrite list_elem_of_In. Qed.

Lemma existsb_True {A} (f : A → bool) l :
  existsb f l = true ↔ ∃ x, x ∈ l ∧ f x = true.
Proof. rewrite existsb_exists. by setoid_rewrite list_elem_of_In. Qed.

Lemma forallb_map_to_list {V} (f : string * V → bool) (m : gmap string V) :
  forallb f (map_to_list m) = true ↔ ∀ k v, m !! k = Some v → f (k, v) = true.
Proof.
  rewrite forallb_True. split.
  - intros H k v Hk. apply H, elem_of_map_to_list, Hk.
  - intros H [k v] Hk%elem_of_map_to_list. auto.
Qed.

Lemma elem_of_filterb {A} (f : A → bool) l x : x ∈ List.filter f l ↔ x ∈ l ∧ f x = true.
Proof. by rewrite !list_elem_of_In, filter_In. Qed.

Lemma omap_pointwise {A B} (f g : A → option B) (l : list A) :
  (∀ x, f x = g x) → omap f l = omap g l.
Proof.
  intros Hfg. induction l as [|x l IH]; [done|]. cbn. rewrite Hfg.
  destruct (g x); [f_equal|]; exact IH.
Qed.

(** How many elements of a list satisfy a boolean test. *)
Definition countb {A} (p : A → bool) (l : list A) : nat := length (List.filter p l).

Lemma countb_app {A} (p : A → bool) l k : countb p (l ++ k) = countb p l + countb p k.
Proof. unfold countb. by rewrite List.filter_app, length_app. Qed.

Lemma countb_cons {A} (p : A → bool) x l :
  countb p (x :: l) = (if p x then 1 else 0) + countb p l.
Proof. unfold countb. simpl. by destruct (p x). Qed.

Lemma countb_le {A} (p : A → bool) l : countb p l ≤ length l.
Proof.
  induction l as [|x l IH]; [done|]. rewrite countb_cons. simpl. destruct (p x); lia.
Qed.

Lemma countb_insert {A} (p : A → bool) l i x y :
  l !! i = Some x →
  countb p (<[i:=y]> l) + (if p x then 1 else 0) = countb p l + (if p y then 1 else 0).
Proof.
  revert i. induction l as [|z l IH]; intros [|i] Hi; simplify_eq/=.
  - rewrite !countb_cons. lia.
  - rewrite !countb_cons. specialize (IH i Hi). lia.
Qed.

Lemma countb_ext {A} (p q : A → bool) l :
  (∀ x, x ∈ l → p x = q x) → countb p l = countb q l.
Proof.
  induction l as [|x l IH]; intros H; [done|].
  rewrite !countb_cons, IH by (intros; apply H; set_solver).
  by rewrite (H x) by set_solver.
Qed.

(** A list whose set is as large as the list repeats nothing. *)
Lemma NoDup_size_list_to_set (l : list string) :
  size (list_to_set l : gset string) = length l → NoDup l.
Proof.
  assert (∀ k : list string, size (list_to_set k : gset string) ≤ length k) as Hle.
  { induction k as [|x k IH]; [done|]. simpl. pose proof (size_union_alt {[x]} (list_to_set k : gset string)).
    pose proof (size_singleton (C:=gset string) x).
    assert (size (list_to_set k ∖ {[x]} : gset string) ≤ size (list_to_set k : gset string))
      by (apply subseteq_size; set_solver). lia. }
  induction l as [|x l IH]; intros Hs; [constructor|]. simpl in Hs.
  pose proof (Hle l) as Hl. destruct (decide (x ∈ l)) as [Hin|Hn].
  - assert ({[x]} ∪ list_to_set l = list_to_set l :> gset string) as E by set_solver.
    rewrite E in Hs. lia.
  - constructor; [done|]. apply IH.
    rewrite size_union, size_singleton in Hs by set_solver. lia.
Qed.

(** [str::starts_with]. *)
Fixpoint starts_with (s p : string) {struct p} : bool :=
  match p, s with
  | EmptyString, _ => true
  | String c p, String d s => bool_decide (c = d) && starts_with s p
  | String _ _, EmptyString => false
  end.

Lemma starts_with_prefix s p : starts_with s p = true ↔ ∃ t, s = (p +:+ t)%string.
Proof.
  revert s. induction p as [|c p IH]; intros s; simpl.
  - split; [|done]. intros _. by exists s.
  - destruct s as [|d s]; [split; [done|by intros [? [=]]]|].
    rewrite andb_true_iff, IH, bool_decide_eq_true. split.
    + intros [-> [t ->]]. by exists t.
    + intros [t [= -> ->]]. eauto.
Qed.

(** ** Automation *)

Create HintDb superposition.
Create HintDb reflect.
#[export] Hint Resolve wrap8_range wrap64_range : superposition.
#[export] Hint Rewrite @bool_decide_eq_true @andb_true_iff @orb_true_iff @negb_true_iff
  @forallb_True @existsb_True : reflect.

(** Turn boolean tests of the code into the propositions they decide. *)
Ltac breflect := repeat (autorewrite with reflect in *; simpl in *).

(** A closed decidable statement, by running its decision. *)
Ltac by_compute := apply (bool_decide_unpack _); vm_compute; exact I.

(** Case analysis on the first [match] of the goal or of a hypothesis. *)
Ltac case_goal :=
  match goal with
  | |- context [match ?x with _ => _ end] => destruct x eqn:?
  end.
Ltac case_hyp H :=
  match type of H with
  | context [match ?x with _ => _ end] => destruct x eqn:?
  end.
Ltac split_hyp H := repeat (case_hyp H; simplify_eq/=; try done).

(** * Texts taken apart

    The operations of Rust's [str] that the middlewares and the queries use:
    splitting at a character, searching for a text and replacing it. *)

Lemma append_assoc (r s t : string) : ((r +:+ s) +:+ t = r +:+ s +:+ t)%string.
Proof. induction r as [|c r IH]; [done|]. exact (f_equal (String c) IH). Qed.
Lemma append_empty (s : string) : (s +:+ "")%string = s.
Proof. induction s as [|c s IH]; [done|]. exact (f_equal (String c) IH). Qed.
Lemma string_length_app s t : String.length (s +:+ t) = String.length s + String.length t.
Proof. induction s as [|c s IH]; simpl; [done|by rewrite IH]. Qed.

(** [str::split] at a character. *)
Fixpoint split_at (c : ascii) (s : string) : list string :=
  match s with
  | EmptyString => [""]
  | String d s =>
      if bool_decide (d = c) then "" :: split_at c s
      else match split_at c s with
           | part :: parts => String d part :: parts
           | [] => []
           end
  end.

Fixpoint str_contains (s pat : string) : bool :=
  starts_with s pat || match s with EmptyString => false | String _ s => str_contains s pat end.

(** [str::replace] of a pattern that is not empty; the first [skip] characters
    are of a match. With an empty pattern the text is left, as it is when it
    is replaced by nothing. *)
Fixpoint replace_from (skip : nat) (pat by_ s : string) : string :=
  match s with
  | EmptyString => EmptyString
  | String c rest =>
      match skip with
      | S skip => replace_from skip pat by_ rest
      | O =>
          if negb (bool_decide (pat = "")) && starts_with s pat then
            by_ +:+ replace_from (String.length pat - 1) pat by_ rest
          else String c (replace_from 0 pat by_ rest)
      end
  end.
Definition str_replace (s pat by_ : string) : string := replace_from 0 pat by_ s.

(** Texts without a character. *)
Fixpoint lacks (c : ascii) (s : string) : bool :=
  match s with EmptyString => true | String d s => negb (bool_decide (d = c)) && lacks c s end.

Lemma lacks_app c s t : lacks c (s +:+ t) = lacks c s && lacks c t.
Proof.
  induction s as [|d s IH]; [done|].
  change (negb (bool_decide (d = c)) && lacks c (s +:+ t) =
    negb (bool_decide (d = c)) && lacks c s && lacks c t). by rewrite IH, andb_assoc.
Qed.

Lemma split_at_lacks c s : lacks c s = true → split_at c s = [s].
Proof.
  induction s as [|d s IH]; [done|]. cbn [lacks split_at]. intros [Hd Hs]%andb_true_iff.
  apply negb_true_iff in Hd. by rewrite Hd, IH.
Qed.

Lemma split_at_app c s t : lacks c s = true → split_at c (s +:+ String c t) = s :: split_at c t.
Proof.
  induction s as [|d s IH].
  - intros _. change (split_at c (String c t) = "" :: split_at c t). simpl.
    by rewrite bool_decide_eq_true_2.
  - intros [Hd Hs]%andb_true_iff. apply negb_true_iff in Hd.
    change (split_at c (String d (s +:+ String c t)) = String d s :: split_at c t).
    specialize (IH Hs). revert IH. generalize (s +:+ String c t) as r. intros r IH. simpl.
    by rewrite Hd, IH.
Qed.

Lemma split_at_nonempty c s : split_at c s ≠ [].
Proof. induction s as [|d s IH]; simpl; [done|]. case_bool_decide; [done|]. by destruct (split_at c s). Qed.

Lemma split_at_between c s t : split_at c (s +:+ String c t) = split_at c s ++ split_at c t.
Proof.
  induction s as [|d s IH].
  - change (split_at c (String c t) = "" :: split_at c t). simpl. by rewrite bool_decide_eq_true_2.
  - change (split_at c (String d (s +:+ String c t)) = split_at c (String d s) ++ split_at c t).
    cbn [split_at]. rewrite IH. case_bool_decide; [done|].
    pose proof (split_at_nonempty c s). by destruct (split_at c s).
Qed.

Lemma split_at_one c s x : split_at c s = [x] → s = x.
Proof.
  revert x. induction s as [|d s IH]; intros x; cbn [split_at]; [by intros [= <-]|].
  pose proof (split_at_nonempty c s). case_bool_decide; [by intros [= <- ?]|].
  destruct (split_at c s) as [|part [|]] eqn:E; [done| |done]. intros [= <-]. by rewrite (IH part).
Qed.

(** Where there is one such character, there is one way to take a text apart. *)
Lemma split_unique c s t s' t' : lacks c s' = true → lacks c t' = true →
  s +:+ String c t = s' +:+ String c t' → s = s' ∧ t = t'.
Proof.
  intros Hs Ht E. apply (f_equal (split_at c)) in E.
  rewrite split_at_between, (split_at_app c s') in E by done. rewrite (split_at_lacks c t') in E by done.
  pose proof (split_at_nonempty c s). pose proof (split_at_nonempty c t).
  destruct (split_at c s) as [|x [|x' xs]] eqn:Es; [done| |];
    destruct (split_at c t) as [|y ys] eqn:Et; try done.
  - injection E as -> -> ->. split; by eapply split_at_one.
  - apply (f_equal length) in E. simpl in E. rewrite length_app in E. simpl in E. lia.
Qed.
