(* ===== verification/Pages.v ===== *)
(** * Methods, rows and pages

    What the endpoints of both services share: the methods they answer, the
    rows of a query, which come in an order that the program does not control,
    their filters, and the pages that listings cut them into, [PaginatedResponse] of
    [crates/superposition_types/src/lib.rs]. *)

From S2P Require Import Prelude.

Inductive Method : Type := GET | POST.

(** The rows of a query come in an order the program does not control. *)
Class RowOrder := row_order : ∀ {V : Type}, gmap Z V → list (Z * V).
Class RowOrderOk (R : RowOrder) : Prop :=
  row_order_perm : ∀ V (m : gmap Z V), @row_order R V m ≡ₚ map_to_list m.

Definition list_rows : RowOrder := λ V m, map_to_list m.
#[export] Instance list_rows_ok : RowOrderOk list_rows.
Proof. by intros V m. Qed.

Section rows.
Context `{RowOrder} {Rok : RowOrderOk _}.

Lemma elem_of_rows {V} (m : gmap Z V) v : v ∈ (row_order m).*2 ↔ ∃ k, m !! k = Some v.
Proof.
  rewrite (row_order_perm (R:=_)), list_elem_of_fmap. split.
  - intros ([k v'] & -> & Hk%elem_of_map_to_list). eauto.
  - intros [k Hk%elem_of_map_to_list]. by exists (k, v).
Qed.
End rows.

(** ** Filters *)

(** SQL's [LIKE], with the pattern [%..%] around the text searched for. *)
Class SqlLike := sql_contains : string → string → bool.

(** A filter that is absent keeps every row. *)
Definition when {A} (o : option A) (p : A → bool) : bool :=
  match o with Some a => p a | None => true end.

(** ** Pages *)

Record Paginated (A : Type) : Type := mkPaginated {
  pr_total_pages : Z;
  pr_total_items : Z;
  pr_data : list A;
}.
Arguments mkPaginated {A} _ _ _.
Arguments pr_total_pages {A} _.
Arguments pr_total_items {A} _.
Arguments pr_data {A} _.

(** [(total as f64 / limit as f64).ceil() as i64], which is exact below
    [2^52]. *)
Definition ceil_div (total limit : Z) : Z := (- ((- total) `div` limit))%Z.

(** [get(start..end)] with [end] cut to the length. *)
Definition slice {A} (l : list A) (offset limit : Z) : list A :=
  let total_items := length l in
  let start := Z.to_nat offset in
  let end_ := Nat.min (Z.to_nat (offset + limit)) total_items in
  if start <=? end_ then take (end_ - start) (drop start l) else [].

Definition list_all {A} (l : list A) : Paginated A :=
  mkPaginated 1 (Z.of_nat (length l)) l.

Section pages.
Context {A : Type}.
Implicit Types l : list A.

Lemma ceil_div_bounds total limit :
  (0 < limit)%Z → (0 ≤ total)%Z →
  (0 ≤ ceil_div total limit)%Z ∧ (total ≤ ceil_div total limit * limit)%Z ∧
  (ceil_div total limit * limit < total + limit)%Z.
Proof.
  intros Hl Ht. unfold ceil_div.
  pose proof (Z.div_mod (- total) limit ltac:(lia)) as Hd.
  pose proof (Z.mod_pos_bound (- total) limit Hl) as Hm.
  set (q := ((- total) `div` limit)%Z) in *. nia.
Qed.

Lemma slice_take_drop l offset limit :
  (0 ≤ offset)%Z → (0 ≤ limit)%Z →
  slice l offset limit = take (Z.to_nat limit) (drop (Z.to_nat offset) l).
Proof.
  intros Ho Hl. unfold slice. rewrite Z2Nat.inj_add by done.
  destruct (Nat.leb_spec (Z.to_nat offset)
    (Nat.min (Z.to_nat offset + Z.to_nat limit) (length l))) as [Hle|Hgt].
  - destruct (decide (Z.to_nat offset + Z.to_nat limit ≤ length l)).
    + rewrite Nat.min_l by done. f_equal. lia.
    + rewrite Nat.min_r by lia. rewrite !take_ge; [done| |]; rewrite length_drop; lia.
  - rewrite drop_ge, take_nil by lia. done.
Qed.

(** [n] pages of [k] entries. *)
Lemma concat_pages l k n :
  concat ((λ i, take k (drop (i * k) l)) <$> seq 0 n) = take (n * k) l.
Proof.
  induction n as [|n IH]; [done|].
  rewrite seq_S, fmap_app, concat_app, IH. cbn [fmap list_fmap concat Nat.add].
  rewrite app_nil_r, take_take_drop. f_equal. lia.
Qed.
End pages.
