(* ===== verification/Stack.v ===== *)
(** * Work-list loops

    The traversals of the dependency graphs are written as
    [while let Some(x) = stack.pop() { ... stack.extend(..) }]. [stack_loop]
    is that loop: the head of the list is the top of the stack, so extending
    by a vector puts its last element on top. A cyclic graph makes the Rust
    loop run for ever; the fuel makes this visible as [None]. *)

From S2P Require Import Prelude.

Section stack_loop.
Context {I S : Type} (visit : I → S → S * list I).

Fixpoint stack_loop (fuel : nat) (stack : list I) (s : S) : option S :=
  match stack with
  | [] => Some s
  | i :: stack =>
      match fuel with
      | O => None
      | Datatypes.S fuel =>
          let (s', pushed) := visit i s in
          stack_loop fuel (reverse pushed ++ stack) s'
      end
  end.

(** Rule of invariants: what holds of the stack and the state and is kept
    by every visit holds of the final state. *)
Lemma stack_loop_inv (Inv : list I → S → Prop) :
  (∀ i stack s s' pushed, Inv (i :: stack) s → visit i s = (s', pushed) →
     Inv (reverse pushed ++ stack) s') →
  ∀ fuel stack s r, Inv stack s → stack_loop fuel stack s = Some r → Inv [] r.
Proof.
  intros Hstep fuel. induction fuel as [|fuel IH]; intros [|i stack] s r HI Hr;
    simplify_eq/=; [done..|].
  destruct (visit i s) as [s' pushed] eqn:Hv. eauto.
Qed.

(** More fuel does not change the outcome. *)
Lemma stack_loop_mono fuel fuel' stack s r :
  stack_loop fuel stack s = Some r → fuel ≤ fuel' → stack_loop fuel' stack s = Some r.
Proof.
  revert fuel' stack s. induction fuel as [|fuel IH]; intros fuel' [|i stack] s Hr Hle;
    destruct fuel'; simplify_eq/=; try done; [lia|].
  destruct (visit i s). apply IH; [done|lia].
Qed.

(** Termination: the loop needs no more fuel than the work on its stack, as
    long as the work of an item exceeds that of all it pushes. *)
Lemma stack_loop_total (work : I → nat) :
  (∀ i s, sum_list_with work (visit i s).2 < work i) →
  ∀ fuel stack s, sum_list_with work stack ≤ fuel → is_Some (stack_loop fuel stack s).
Proof.
  intros Hwork fuel. induction fuel as [|fuel IH]; intros [|i stack] s Hf; simpl in *;
    [by eexists| |by eexists|].
  - specialize (Hwork i s). lia.
  - specialize (Hwork i s). destruct (visit i s) as [s' pushed]; simpl in *. apply IH.
    rewrite sum_list_with_app, sum_list_with_reverse. lia.
Qed.
End stack_loop.

(** ** The work below a node of a ranked graph *)

Section tree_work.
Context (children : string → list string).

(** The number of nodes of the unfolding of the graph below [d], cut at
    depth [n]. *)
Fixpoint tree_work (n : nat) (d : string) : nat :=
  match n with
  | O => 1
  | S n => S (sum_list_with (tree_work n) (children d))
  end.

Context (rank : string → nat).
Context (Hrank : ∀ d e, e ∈ children d → rank e < rank d).

Lemma sum_list_with_ext {A} (f g : A → nat) l :
  (∀ x, x ∈ l → f x = g x) → sum_list_with f l = sum_list_with g l.
Proof.
  induction l as [|x l IH]; intros H; simpl; [done|].
  rewrite IH by (intros; apply H; set_solver). by rewrite (H x) by set_solver.
Qed.

Lemma tree_work_stable n d : rank d < n → tree_work n d = tree_work (S (rank d)) d.
Proof.
  revert d. induction (lt_wf n) as [n _ IH]; intros d Hd.
  destruct n as [|n]; [lia|]. simpl. f_equal. apply sum_list_with_ext.
  intros e He%Hrank.
  destruct (decide (rank d = n)) as [<-|Hne]; [done|].
  rewrite (IH n) by lia. symmetry. apply IH; lia.
Qed.

Definition node_work (d : string) : nat := tree_work (S (rank d)) d.

Lemma node_work_children d : sum_list_with node_work (children d) < node_work d.
Proof.
  unfold node_work at 2. simpl. apply Nat.lt_succ_r. apply Nat.eq_le_incl.
  apply sum_list_with_ext. intros e He%Hrank. symmetry. by apply tree_work_stable.
Qed.
End tree_work.
