(* ===== verification/Json.v ===== *)
(** * JSON values

    [serde_json::Value] and [serde_json::Map] as the program uses them: the
    data type, its equality, the accessors, and a structural induction
    principle. [Map<String, Value>] is a finite map ([gmap]): equality of two
    maps does not depend on the order of insertion, and the entries iterate in
    key order (serde_json is built without [preserve_order]). *)

From S2P Require Import Prelude.

(** [serde_json::Number]: integers that fit [u64], negative integers that fit
    [i64], and finite floats. A float is carried as its 64-bit pattern with
    the negative zero folded onto the positive one, so that equality of the
    patterns is the [==] of the floats (serde_json holds no NaN). The sign of a
    zero, which serde_json keeps and prints, is therefore not modelled. *)
Inductive Number : Type :=
  | PosInt (n : N)
  | NegInt (z : Z)
  | Float (bits : N).

#[export] Instance Number_eq_dec : EqDecision Number.
Proof. solve_decision. Defined.

Inductive Value : Type :=
  | VNull
  | VBool (b : bool)
  | VNumber (n : Number)
  | VString (s : string)
  | VArray (l : list Value)
  | VObject (m : gmap string Value).

Abbreviation Map := (gmap string Value).

(** ** Accessors *)

Definition as_object (v : Value) : option Map :=
  match v with VObject m => Some m | _ => None end.
Definition as_array (v : Value) : option (list Value) :=
  match v with VArray l => Some l | _ => None end.
Definition as_str (v : Value) : option string :=
  match v with VString s => Some s | _ => None end.
Definition as_bool (v : Value) : option bool :=
  match v with VBool b => Some b | _ => None end.
Definition is_object (v : Value) : bool :=
  match v with VObject _ => true | _ => false end.

Lemma is_object_spec v : is_object v = true ↔ ∃ m, v = VObject m.
Proof. destruct v; naive_solver. Qed.

(** ** Induction *)

Fixpoint value_size (v : Value) : nat :=
  match v with
  | VArray l => S (foldr (λ v n, value_size v + n) 0 l)
  | VObject m => S (map_fold (λ _ v n, value_size v + n) 0 m)
  | _ => 1
  end.

Lemma value_size_array l v : v ∈ l → value_size v < value_size (VArray l).
Proof.
  simpl. induction l as [|w l IH]; [by intros ?%elem_of_nil|].
  simpl. intros [->|Hv]%elem_of_cons; [lia|]. specialize (IH Hv). lia.
Qed.

Lemma value_size_object (m : Map) k v :
  m !! k = Some v → value_size v < value_size (VObject m).
Proof.
  simpl. intros Hk.
  rewrite (map_fold_delete_L _ _ k v m); [lia| |done]. intros. lia.
Qed.

Lemma Value_ind' (P : Value → Prop) :
  P VNull →
  (∀ b, P (VBool b)) →
  (∀ n, P (VNumber n)) →
  (∀ s, P (VString s)) →
  (∀ l, Forall P l → P (VArray l)) →
  (∀ m : Map, map_Forall (λ _, P) m → P (VObject m)) →
  ∀ v, P v.
Proof.
  intros Hnull Hbool Hnum Hstr Harr Hobj v.
  remember (value_size v) as n eqn:Hn. revert v Hn.
  induction (lt_wf n) as [n _ IH]; intros v ->. destruct v as [| | | |l|m]; try done.
  - apply Harr, Forall_forall. intros v Hv. apply (IH (value_size v)); [|done]. by apply value_size_array.
  - apply Hobj. intros k v Hk. apply (IH (value_size v)); [|done]. by eapply value_size_object.
Qed.

(** ** Equality

    The equality of values is decided through an injection into the generic
    trees of stdpp. *)

Definition value_leaf : Type := (bool + Number) + string.

Fixpoint value_enc (v : Value) : gen_tree value_leaf :=
  match v with
  | VNull => GenNode 0 []
  | VBool b => GenLeaf (inl (inl b))
  | VNumber n => GenLeaf (inl (inr n))
  | VString s => GenLeaf (inr s)
  | VArray l => GenNode 1 (map value_enc l)
  | VObject m => GenNode 2 (map_fold (λ k v r, GenLeaf (inr k) :: value_enc v :: r) [] m)
  end.

Fixpoint value_dec (t : gen_tree value_leaf) : Value :=
  match t with
  | GenLeaf (inl (inl b)) => VBool b
  | GenLeaf (inl (inr n)) => VNumber n
  | GenLeaf (inr s) => VString s
  | GenNode 0 _ => VNull
  | GenNode 1 l => VArray (map value_dec l)
  | GenNode _ l =>
      VObject ((fix go l := match l with
        | GenLeaf (inr k) :: t :: l => <[k:=value_dec t]> (go l)
        | _ => ∅
        end) l)
  end.

Lemma value_dec_enc v : value_dec (value_enc v) = v.
Proof.
  induction v as [| | | |l IH|m IH] using Value_ind'; simpl; try done.
  - f_equal. induction IH as [|v l Hv _ IH]; simpl; [done|]. by rewrite Hv, IH.
  - f_equal. revert IH. apply (map_fold_weak_ind (λ r m, map_Forall (λ _ v, value_dec (value_enc v) = v) m → _ r = m)); [done|].
    intros k v m' r Hk IH Hall. simpl.
    rewrite IH by (eapply map_Forall_insert_1_2; eauto). by rewrite (map_Forall_insert_1_1 _ _ _ _ Hall).
Qed.

#[export] Instance Value_eq_dec : EqDecision Value.
Proof.
  refine (λ v w, cast_if (decide (value_enc v = value_enc w))); [|congruence].
  by rewrite <-(value_dec_enc v), <-(value_dec_enc w), e.
Defined.
