(* ===== verification/Types.v ===== *)
(** * The configuration data model

    The data of [crates/superposition_types]: conditions and overrides with
    the validation of their two wrappers, contexts, dimensions, the
    configuration itself, the enums stored as text and the bounded newtypes. *)

From S2P Require Import Prelude Json.

(** ** Conditions and overrides

    [Condition] and [Overrides] are newtypes of [Map<String, Value>]; [Cac<_>]
    and [Exp<_>] are the same data after the validation of the service that
    receives it. A value of a wrapper is represented by the map inside. *)

Abbreviation Condition := (gmap string Value).
Abbreviation Overrides := (gmap string Value).

Module Overrides.
(** [Overrides::validate_data], used for both [Cac] and [Exp]. *)
Definition validate_data (override_map : Map) : result string Overrides :=
  if bool_decide (override_map = ∅) then Err "Override should not be empty"
  else Ok override_map.
End Overrides.

Module Condition.
Definition validate_data_for_cac (condition_map : Map) : result string Condition :=
  if bool_decide (condition_map = ∅) then Err "Context should not be empty"
  else Ok condition_map.

Definition validate_data_for_exp (condition_map : Map) : result string Condition :=
  match condition_map !! "variantIds" with
  | Some _ => Err "experiment's context should not contain variantIds dimension"
  | None => Ok condition_map
  end.

(** [Condition::contains]: every entry of [other] is an entry of [self]. The
    loop returns at the first entry that is missing or different. *)
Definition contains (self other : Condition) : result string bool :=
  Ok (forallb (λ '(key, value),
        match self !! key with
        | Some val => bool_decide (val = value)
        | None => false
        end) (map_to_list other)).

Lemma contains_spec self other : contains self other = Ok (bool_decide (other ⊆ self)).
Proof.
  unfold contains. f_equal. apply eq_bool_prop_intro.
  rewrite !Is_true_true, forallb_map_to_list, bool_decide_eq_true, map_subseteq_spec.
  split.
  - intros H k v Hk. specialize (H k v Hk). simpl in H.
    destruct (self !! k); [|done]. by apply bool_decide_eq_true in H as ->.
  - intros H k v Hk. simpl. rewrite (H k v Hk). by apply bool_decide_eq_true.
Qed.
End Condition.

(** [Cac::<T>::try_from] and [Exp::<T>::try_from] of the macro
    [impl_try_from_map]; [validate_db_data] is the same function in the default
    build (the feature [disable_db_data_validation] is off). *)
Definition cac_condition_try_from (map : Map) : result string Condition :=
  Condition.validate_data_for_cac map.
Definition exp_condition_try_from (map : Map) : result string Condition :=
  Condition.validate_data_for_exp map.
Definition cac_overrides_try_from (map : Map) : result string Overrides :=
  Overrides.validate_data map.
Definition exp_overrides_try_from (map : Map) : result string Overrides :=
  Overrides.validate_data map.

Lemma overrides_try_from_ok m o :
  Overrides.validate_data m = Ok o ↔ m ≠ ∅ ∧ o = m.
Proof. unfold Overrides.validate_data. case_bool_decide; naive_solver. Qed.

Lemma cac_condition_try_from_ok m c :
  cac_condition_try_from m = Ok c ↔ m ≠ ∅ ∧ c = m.
Proof.
  unfold cac_condition_try_from, Condition.validate_data_for_cac.
  case_bool_decide; naive_solver.
Qed.

Lemma exp_condition_try_from_ok m c :
  exp_condition_try_from m = Ok c ↔ m !! "variantIds" = None ∧ c = m.
Proof.
  unfold exp_condition_try_from, Condition.validate_data_for_exp.
  destruct (m !! "variantIds"); naive_solver.
Qed.

(** ** Dimensions *)

Inductive DimensionType : Type :=
  | Regular
  | LocalCohort (cohort_based_on : string)
  | RemoteCohort (cohort_based_on : string).

#[export] Instance DimensionType_eq_dec : EqDecision DimensionType.
Proof. solve_decision. Defined.

(** [matches!(_, DimensionType::LocalCohort(_))] and the like. *)
Definition is_local_cohort (t : DimensionType) : bool :=
  match t with LocalCohort _ => true | _ => false end.
Definition is_regular (t : DimensionType) : bool :=
  match t with Regular => true | _ => false end.

Module DimensionType.
(** [impl Display for DimensionType]. *)
Definition to_string (t : DimensionType) : string :=
  match t with
  | Regular => "REGULAR"
  | LocalCohort cohort_based_on => "LOCAL_COHORT:" +:+ cohort_based_on
  | RemoteCohort cohort_based_on => "REMOTE_COHORT:" +:+ cohort_based_on
  end.

(** [s.split(':').collect()]: never empty. *)
Fixpoint split_colon (s : string) : string * list string :=
  match s with
  | EmptyString => (EmptyString, [])
  | String c s =>
      let (first, rest) := split_colon s in
      if bool_decide (c = ":"%char) then (EmptyString, first :: rest)
      else (String c first, rest)
  end.

(** What [from_str] does: [parts[1]] panics when there is no second part. *)
Inductive outcome : Type :=
  | Parsed (t : DimensionType)
  | Invalid
  | Panic.

Definition from_str (s : string) : outcome :=
  let (first, rest) := split_colon s in
  if bool_decide (first = "REGULAR") then Parsed Regular
  else if bool_decide (first = "LOCAL_COHORT") then
    match rest with p :: _ => Parsed (LocalCohort p) | [] => Panic end
  else if bool_decide (first = "REMOTE_COHORT") then
    match rest with p :: _ => Parsed (RemoteCohort p) | [] => Panic end
  else Invalid.
End DimensionType.

(** [DependencyGraph(HashMap<String, Vec<String>>)]. *)
Abbreviation DependencyGraph := (gmap string (list string)).

Record DimensionInfo : Type := mkDimensionInfo {
  di_schema : Map;
  di_position : Z;
  di_dimension_type : DimensionType;
  di_dependency_graph : DependencyGraph;
  di_value_compute_function_name : option string;
}.

(** ** Contexts and the configuration *)

(** [OverrideWithKeys([String; 1])] is represented by its only element. *)
Module OverrideWithKeys.
Definition new (key : string) : string := key.
Definition get_key (o : string) : string := o.

Definition try_from (value : list string) : result string string :=
  match value with
  | [key] => Ok key
  | _ => Err ("OverrideWithKeys must contain exactly 1 element, got " +:+
              pretty (Z.of_nat (length value)))
  end.

(** [impl From<OverrideWithKeys> for Vec<String>]. *)
Definition to_vec (o : string) : list string := [o].
End OverrideWithKeys.

Record Context : Type := mkContext {
  c_id : string;
  c_condition : Condition;
  c_priority : Z;
  c_weight : Z;
  c_override_with_keys : string;
}.

Record Config : Type := mkConfig {
  contexts : list Context;
  overrides : gmap string Overrides;
  default_configs : Map;
  dimensions : gmap string DimensionInfo;
}.

(** [MergeStrategy] and [DimensionMatchStrategy] of the request parameters. *)
Inductive MergeStrategy : Type := MERGE | REPLACE.
Inductive DimensionMatchStrategy : Type := Exact | Subset.

#[export] Instance MergeStrategy_eq_dec : EqDecision MergeStrategy.
Proof. solve_decision. Defined.

Module MergeStrategy.
(** strum's [EnumString] with [snake_case], defaulting through
    [impl From<String>]. *)
Definition from_string (value : string) : MergeStrategy :=
  if bool_decide (value = "replace") then REPLACE else MERGE.
Definition to_string (m : MergeStrategy) : string :=
  match m with MERGE => "merge" | REPLACE => "replace" end.
End MergeStrategy.
