(* ===== verification/Text.v ===== *)
(** * Text: integers in decimal and the validated newtypes

    The conversions of [crates/superposition_types] between text and data:
    [str::parse] of the machine integers, [i64_formatter], and the newtypes
    whose [TryFrom] validates ([ChangeReason], [Description],
    [NonEmptyString], [Position], [I64Update], the regex-checked names).
    A Rust [String] is the byte string of its UTF-8 encoding: [len()] is the
    number of bytes. *)

From S2P Require Import Prelude Json.


(** ** [str::parse] for integers *)

(** [IntErrorKind], displayed. *)
Inductive IntErrorKind : Type := Empty | InvalidDigit | PosOverflow | NegOverflow.

Definition int_error (e : IntErrorKind) : string :=
  match e with
  | Empty => "cannot parse integer from empty string"
  | InvalidDigit => "invalid digit found in string"
  | PosOverflow => "number too large to fit in target type"
  | NegOverflow => "number too small to fit in target type"
  end.

Definition to_digit (c : ascii) : option Z :=
  let n := Z.of_N (N_of_ascii c) in
  if bool_decide (48 ≤ n < 58)%Z then Some (n - 48)%Z else None.

(** The loop over the digits: multiplication and addition are checked against
    the bounds of the type; [sgn] is the sign the digits are added with. *)
Fixpoint parse_digits (lo hi sgn : Z) (s : string) (acc : Z) : result IntErrorKind Z :=
  match s with
  | EmptyString => Ok acc
  | String c s =>
      let overflow := if bool_decide (sgn < 0)%Z then NegOverflow else PosOverflow in
      match to_digit c with
      | None => Err InvalidDigit
      | Some d =>
          let mul := (acc * 10)%Z in
          if bool_decide (lo ≤ mul ≤ hi)%Z then
            let sum := (mul + sgn * d)%Z in
            if bool_decide (lo ≤ sum ≤ hi)%Z then parse_digits lo hi sgn s sum
            else Err overflow
          else Err overflow
      end
  end.

Definition parse_int (lo hi : Z) (s : string) : result IntErrorKind Z :=
  match s with
  | EmptyString => Err Empty
  | String "-" EmptyString | String "+" EmptyString => Err InvalidDigit
  | String "-" s => parse_digits lo hi (-1) s 0
  | String "+" s => parse_digits lo hi 1 s 0
  | s => parse_digits lo hi 1 s 0
  end.

Definition parse_i32 : string → result IntErrorKind Z := parse_int (- 2 ^ 31) (2 ^ 31 - 1).
Definition parse_i64 : string → result IntErrorKind Z := parse_int (- 2 ^ 63) (2 ^ 63 - 1).

(** The value of a digit string. *)
Fixpoint digits_value (s : string) (acc : Z) : Z :=
  match s with
  | EmptyString => acc
  | String c s => digits_value s (acc * 10 + default 0 (to_digit c))%Z
  end.

Fixpoint all_digits (s : string) : bool :=
  match s with
  | EmptyString => true
  | String c s => bool_decide (is_Some (to_digit c)) && all_digits s
  end.

Lemma to_digit_range c d : to_digit c = Some d → (0 ≤ d < 10)%Z.
Proof. unfold to_digit. case_bool_decide; intros [= <-]; lia. Qed.

Lemma digits_value_mono s acc : (0 ≤ acc)%Z → (acc ≤ digits_value s acc)%Z.
Proof.
  revert acc. induction s as [|c s IH]; intros acc Hacc; simpl; [lia|].
  assert (0 ≤ default 0 (to_digit c))%Z.
  { destruct (to_digit c) eqn:E; simpl; [apply to_digit_range in E; lia|lia]. }
  etrans; [|apply IH]; lia.
Qed.

(** Digits whose value fits are read as that value. *)
Lemma parse_digits_pos lo hi s acc :
  (lo ≤ 0)%Z → (0 ≤ acc)%Z → all_digits s = true → (digits_value s acc ≤ hi)%Z →
  parse_digits lo hi 1 s acc = Ok (digits_value s acc).
Proof.
  intros Hlo. revert acc. induction s as [|c s IH]; intros acc Hacc Hd Hv; simpl in *; [done|].
  apply andb_true_iff in Hd as [[d Hc]%bool_decide_eq_true Hd]. rewrite Hc in *. simpl in *.
  pose proof (to_digit_range _ _ Hc).
  assert (acc * 10 + d ≤ digits_value s (acc * 10 + d))%Z by (apply digits_value_mono; lia).
  rewrite !bool_decide_true by lia. replace (acc * 10 + 1 * d)%Z with (acc * 10 + d)%Z by lia.
  apply IH; [lia|done|lia].
Qed.

Lemma parse_digits_neg lo hi s acc :
  (0 ≤ hi)%Z → (0 ≤ acc)%Z → all_digits s = true → (lo ≤ - digits_value s acc)%Z →
  parse_digits lo hi (-1) s (- acc) = Ok (- digits_value s acc)%Z.
Proof.
  intros Hhi. revert acc. induction s as [|c s IH]; intros acc Hacc Hd Hv; simpl in *; [done|].
  apply andb_true_iff in Hd as [[d Hc]%bool_decide_eq_true Hd]. rewrite Hc in *. simpl in *.
  pose proof (to_digit_range _ _ Hc).
  assert (acc * 10 + d ≤ digits_value s (acc * 10 + d))%Z by (apply digits_value_mono; lia).
  rewrite !bool_decide_true by lia.
  replace (- acc * 10 + -1 * d)%Z with (- (acc * 10 + d))%Z by lia.
  apply IH; [lia|done|lia].
Qed.

(** *** The decimal numerals of [to_string] *)

Lemma to_digit_pretty (d : N) :
  (d < 10)%N → to_digit (pretty_N_char d) = Some (Z.of_N d).
Proof.
  intros Hd. assert (d = 0 ∨ d = 1 ∨ d = 2 ∨ d = 3 ∨ d = 4 ∨ d = 5 ∨ d = 6 ∨ d = 7 ∨ d = 8 ∨ d = 9)%N
    as Hc by lia.
  repeat destruct Hc as [->|Hc]; subst; reflexivity.
Qed.

Lemma pretty_N_go_digits x s :
  (all_digits s = true → all_digits (pretty_N_go x s) = true) ∧
  ∀ acc, (0 < x)%N → digits_value (pretty_N_go x s) acc =
    digits_value s (digits_value (pretty_N_go x "") acc) ∧
    digits_value (pretty_N_go x "") 0 = Z.of_N x.
Proof.
  revert s. induction (N.lt_wf_0 x) as [x _ IH]. intros s.
  destruct (decide (x = 0)%N) as [->|Hx]; [split; [done|lia]|].
  rewrite (pretty_N_go_step x s), (pretty_N_go_step x "") by lia.
  assert (x `mod` 10 < 10)%N by (apply N.mod_lt; lia).
  assert (x `div` 10 < x)%N by (apply N.div_lt; lia).
  pose proof (to_digit_pretty (x `mod` 10)%N ltac:(done)) as Hd.
  split.
  - intros Hs. apply (IH (x `div` 10)%N); [done|]. simpl. rewrite Hd, Hs, bool_decide_true by eauto. done.
  - intros acc _. destruct (decide (x `div` 10 = 0)%N) as [E|Hne].
    + rewrite E, !pretty_N_go_0. simpl. rewrite Hd. simpl. split; [done|].
      pose proof (N.div_mod x 10 ltac:(lia)) as Hdm. rewrite E in Hdm.
      lia.
    + assert (0 < x `div` 10)%N as Hpos by (apply N.neq_0_lt_0; done).
      destruct (IH (x `div` 10)%N ltac:(done) (String (pretty_N_char (x `mod` 10)) s)) as [_ H1].
      destruct (IH (x `div` 10)%N ltac:(done) (String (pretty_N_char (x `mod` 10)) "")) as [_ H2].
      destruct (H1 acc Hpos) as [-> _]. destruct (H2 acc Hpos) as [-> _].
      destruct (H2 0%Z Hpos) as [-> ->]. simpl. rewrite Hd. simpl. split; [done|].
      pose proof (N.div_mod x 10 ltac:(lia)). lia.
Qed.

Lemma pretty_N_value (n : N) :
  all_digits (pretty n) = true ∧ digits_value (pretty n) 0 = Z.of_N n ∧
  ∃ c s, pretty n = String c s ∧ is_Some (to_digit c).
Proof.
  assert (all_digits (pretty n) = true ∧ digits_value (pretty n) 0 = Z.of_N n) as [Ha Hv].
  { unfold pretty, pretty_N. case_decide; [by subst|].
    destruct (pretty_N_go_digits n "") as [H1 H2]. split; [by apply H1|]. apply (H2 0%Z). lia. }
  split_and!; [done..|]. destruct (pretty n) as [|c s] eqn:E.
  - simpl in Hv. assert (n = 0%N) as -> by lia. done.
  - exists c, s. split; [done|]. simpl in Ha. apply andb_true_iff in Ha as [Hc _].
    by apply bool_decide_eq_true in Hc.
Qed.

Lemma parse_int_digit lo hi c s :
  is_Some (to_digit c) → parse_int lo hi (String c s) = parse_digits lo hi 1 (String c s) 0.
Proof.
  intros [d Hc]. unfold parse_int.
  destruct c as [[] [] [] [] [] [] [] []]; try done; destruct s; try done.
Qed.

(** Reading back a printed integer. *)
Lemma parse_int_pretty lo hi (z : Z) :
  (lo ≤ 0 ≤ hi)%Z → (lo ≤ z ≤ hi)%Z → parse_int lo hi (pretty z) = Ok z.
Proof.
  intros Hb Hz. destruct z as [|p|p].
  - change (pretty 0%Z) with "0". simpl. rewrite !bool_decide_true by lia. done.
  - change (pretty (Z.pos p)) with (pretty (N.pos p)).
    destruct (pretty_N_value (N.pos p)) as (Ha & Hv & c & s & E & Hc).
    rewrite E in *. rewrite parse_int_digit by done.
    rewrite parse_digits_pos; [by rewrite Hv|lia|lia|done|]. rewrite Hv. lia.
  - change (pretty (Z.neg p)) with (String "-" (pretty (N.pos p))).
    destruct (pretty_N_value (N.pos p)) as (Ha & Hv & c & s & E & Hc).
    assert (parse_int lo hi (String "-" (pretty (N.pos p))) =
            parse_digits lo hi (-1) (pretty (N.pos p)) (- 0)) as -> by (rewrite E; done).
    rewrite parse_digits_neg; [by rewrite Hv|lia|lia|done|]. rewrite Hv. lia.
Qed.

(** ** [i64_formatter] and [i64_vec_formatter] *)

Module i64_formatter.
Definition serialize (value : Z) : Value := VString (pretty value).

Definition deserialize (v : Value) : result string Z :=
  match v with
  | VString s => map_err (λ e, "Failed to parse i64: " +:+ int_error e) (parse_i64 s)
  | _ => Err "invalid type: expected a string"
  end.
End i64_formatter.

Module i64_vec_formatter.
Definition serialize (value : list Z) : Value := VArray (VString ∘ pretty <$> value).

(** [Vec::<String>::deserialize], then the parse of every element. *)
Definition strings (v : Value) : result string (list string) :=
  match v with
  | VArray l => try_map (λ v, ok_or (as_str v) "invalid type: expected a string") l
  | _ => Err "invalid type: expected a sequence"
  end.

Definition deserialize (v : Value) : result string (list Z) :=
  string_values ← strings v;
  try_map (λ s, map_err (λ e, "Failed to parse i64: " +:+ int_error e) (parse_i64 s))
    string_values.
End i64_vec_formatter.

(** ** Newtypes of [String] *)

Definition is_empty (s : string) : bool := bool_decide (s = "").

Lemma is_empty_false s : is_empty s = false ↔ s ≠ "".
Proof. unfold is_empty. by rewrite bool_decide_eq_false. Qed.

Module ChangeReason.
Definition CHANGE_REASON_CHAR_LIMIT : nat := 255.

Definition try_from (value : string) : result string string :=
  if is_empty value then Err "Empty reason not allowed"
  else
    let len := String.length value in
    if CHANGE_REASON_CHAR_LIMIT <? len then
      Err ("Reason longer than " +:+ pretty (Z.of_nat CHANGE_REASON_CHAR_LIMIT) +:+
           " characters not allowed, current length: " +:+ pretty (Z.of_nat len))
    else Ok value.

Definition valid (value : string) : Prop :=
  value ≠ "" ∧ String.length value ≤ CHANGE_REASON_CHAR_LIMIT.

Lemma change_reason_try_from_ok value v : try_from value = Ok v ↔ v = value ∧ valid value.
Proof.
  unfold try_from, valid. destruct (is_empty value) eqn:He.
  - apply bool_decide_eq_true in He. naive_solver.
  - apply is_empty_false in He. destruct (Nat.ltb_spec CHANGE_REASON_CHAR_LIMIT (String.length value)).
    + split; [done|]. intros (_ & _ & ?). lia.
    + naive_solver.
Qed.
End ChangeReason.

(** [char]s: a code point starts at every byte that is not a continuation byte
    ([10xxxxxx]). [take_chars n s] is [s.chars().take(n).collect()] on a
    well-formed UTF-8 string. *)
Definition is_continuation (c : ascii) : bool :=
  bool_decide (128 ≤ N_of_ascii c < 192)%N.

Fixpoint take_chars (n : nat) (s : string) : string :=
  match s with
  | EmptyString => EmptyString
  | String c s =>
      if is_continuation c then String c (take_chars n s)
      else match n with
           | O => EmptyString
           | S n => String c (take_chars n s)
           end
  end.

Definition is_ascii (c : ascii) : bool := bool_decide (N_of_ascii c < 128)%N.
Fixpoint all_ascii (s : string) : bool :=
  match s with EmptyString => true | String c s => is_ascii c && all_ascii s end.

Lemma is_ascii_not_continuation c : is_ascii c = true → is_continuation c = false.
Proof.
  unfold is_ascii, is_continuation.
  rewrite bool_decide_eq_true, bool_decide_eq_false. lia.
Qed.

(** On ASCII text a character is a byte. *)
Lemma take_chars_ascii n s :
  all_ascii s = true → take_chars n s = String.substring 0 n s.
Proof.
  revert n. induction s as [|c s IH]; intros n Ha; simpl in *; [by destruct n|].
  apply andb_true_iff in Ha as [Hc Ha]. rewrite is_ascii_not_continuation by done.
  destruct n as [|n]; [done|]. by rewrite IH.
Qed.

Lemma length_substring_0 n s : String.length (String.substring 0 n s) = n `min` String.length s.
Proof.
  revert n. induction s as [|c s IH]; intros [|n]; simpl; try done. by rewrite IH.
Qed.

Module Description.
Definition DESCRIPTION_CHAR_LIMIT : nat := 1024.

Definition try_from (value : string) : result string string :=
  if is_empty value then Err "Empty description not allowed"
  else
    let len := String.length value in
    if DESCRIPTION_CHAR_LIMIT <? len then
      Err ("Description longer than " +:+ pretty (Z.of_nat DESCRIPTION_CHAR_LIMIT) +:+
           " characters not allowed, current length: " +:+ pretty (Z.of_nat len))
    else Ok value.

Definition valid (value : string) : Prop :=
  value ≠ "" ∧ String.length value ≤ DESCRIPTION_CHAR_LIMIT.

(** [[String]::join(", ")]. *)
Fixpoint join (sep : string) (l : list string) : string :=
  match l with
  | [] => ""
  | [s] => s
  | s :: l => s +:+ sep +:+ join sep l
  end.

Definition try_from_change_reasons (change_reasons : list string) : result string string :=
  let description := join ", " change_reasons in
  if is_empty description then Err "Empty description not allowed"
  else match try_from description with
       | Ok desc => Ok desc
       | Err _ =>
           let truncated_desc :=
             take_chars (DESCRIPTION_CHAR_LIMIT - 3) description +:+ "..." in
           try_from truncated_desc
       end.

Lemma description_try_from_ok value v : try_from value = Ok v ↔ v = value ∧ valid value.
Proof.
  unfold try_from, valid. destruct (is_empty value) eqn:He.
  - apply bool_decide_eq_true in He. naive_solver.
  - apply is_empty_false in He. destruct (Nat.ltb_spec DESCRIPTION_CHAR_LIMIT (String.length value)).
    + split; [done|]. intros (_ & _ & ?). lia.
    + naive_solver.
Qed.

Lemma join_nonempty sep s l : s ≠ "" → join sep (s :: l) ≠ "".
Proof. destruct l, s; simpl; done. Qed.

(** [impl From<ChangeReason> for Description]. *)
Definition from_change_reason (value : string) : string := value.
End Description.

Module NonEmptyString.
Definition try_from (value : string) : result string string :=
  if is_empty value then Err "Empty value not allowed" else Ok value.
End NonEmptyString.

(** ** Positions and optional identifiers *)

Module Position.
Definition try_from (value : Z) : result string Z :=
  if bool_decide (value < 0)%Z then Err "Position should be greater than or equal to 0"
  else Ok value.

(** [value as i32] of a [u32]. *)
Definition from_u32 (value : Z) : Z :=
  if bool_decide (value < 2 ^ 31)%Z then value else (value - 2 ^ 32)%Z.
End Position.

Inductive I64Update : Type := Add (value : Z) | Remove.

Module I64Update.
Definition get_value (u : I64Update) : option Z :=
  match u with Add value => Some value | Remove => None end.

Definition deserialize (opt : Value) : result string I64Update :=
  match opt with
  | VNull => Ok Remove
  | VString val =>
      if bool_decide (val = "null") then Ok Remove
      else match parse_i64 val with
           | Ok config_version => Ok (Add config_version)
           | Err _ => Err "Expected a bigint string as the value."
           end
  | _ => Err "Expected a bigint string or null literal as the value."
  end.

Definition serialize (u : I64Update) : Value :=
  match u with
  | Add name => VString (pretty name)
  | Remove => VString "null"
  end.
End I64Update.

(** [deserialize_function_name]: [opt] is the outcome of
    [Value::deserialize]. *)
Definition deserialize_function_name (opt : result string Value)
    : result string (option (option string)) :=
  match opt with
  | Ok VNull => Ok (Some None)
  | Ok (VString func_name) =>
      if bool_decide (func_name = "null") then Ok (Some None) else Ok (Some (Some func_name))
  | Err _ => Ok None
  | Ok _ => Err "Expected a string or null literal as the function name."
  end.

(** ** Names checked by a regular expression

    The engine is the third-party crate [regex]: [regex_is_match re s] is
    [None] when [re] does not compile. *)

Class RegexEngine := regex_is_match : string → string → option bool.

Inductive RegexEnum : Type :=
  | DefaultConfigKey | DimensionName | FunctionName | TypeTemplateName | VariableName.

Module RegexEnum.
Definition ALPHANUMERIC_WITH_DOT : string :=
  "^[a-zA-Z0-9-_]([a-zA-Z0-9-_.]{0,254}[a-zA-Z0-9-_])?$".
Definition ALPHANUMERIC_WITH_DOT_WORDS : string :=
  "It can contain the following characters only [a-zA-Z0-9-_.] and it should not start or end with a '.' character.".
Definition ALPHANUMERIC_WITHOUT_DOT : string := "^[a-zA-Z0-9-_]{1,64}$".
Definition ALPHANUMERIC_WITHOUT_DOT_WORDS : string :=
  "It can contain the following characters only [a-zA-Z0-9-_]".
Definition UPPERCASE_ALPHANUMERIC : string := "^[A-Z][A-Z0-9_]{0,49}$".
Definition UPPERCASE_ALPHANUMERIC_WORDS : string :=
  "It can contain only uppercase letters, digits and underscores and must start with a letter and should be not be longer than 50 characters".

Definition to_string (self : RegexEnum) : string :=
  match self with
  | DefaultConfigKey | DimensionName => ALPHANUMERIC_WITH_DOT
  | FunctionName | TypeTemplateName => ALPHANUMERIC_WITHOUT_DOT
  | VariableName => UPPERCASE_ALPHANUMERIC
  end.

Definition get_error_message (self : RegexEnum) : string :=
  match self with
  | DefaultConfigKey | DimensionName => ALPHANUMERIC_WITH_DOT_WORDS
  | FunctionName | TypeTemplateName => ALPHANUMERIC_WITHOUT_DOT_WORDS
  | VariableName => UPPERCASE_ALPHANUMERIC_WORDS
  end.

Definition match_regex `{RegexEngine} (self : RegexEnum) (val : string) : result string unit :=
  match regex_is_match (to_string self) val with
  | None => Err "Something went wrong"
  | Some true => Ok tt
  | Some false =>
      Err (val +:+ " is invalid, it should obey the regex " +:+ to_string self +:+ ". " +:+
           get_error_message self)
  end.
End RegexEnum.

(** ** Pagination *)

Record PaginationParams : Type := mkPaginationParams {
  pg_count : option Z;
  pg_page : option Z;
  pg_all : option bool;
}.

Module PaginationParams.
Definition all_entries : PaginationParams := mkPaginationParams None None (Some true).

Definition reset_page (self : PaginationParams) : PaginationParams :=
  mkPaginationParams (pg_count self)
    (match pg_all self with Some true => None | _ => Some 1%Z end) (pg_all self).

Definition default : PaginationParams := mkPaginationParams (Some 10%Z) (Some 1%Z) None.

(** The checks of [deserialize], on the fields of its [Helper]. *)
Definition deserialize (helper : PaginationParams) : result string PaginationParams :=
  if bool_decide (pg_all helper = Some true) &&
     (bool_decide (is_Some (pg_count helper)) || bool_decide (is_Some (pg_page helper)))
  then Err "When 'all' is true, 'count' and 'page' parameters should not be provided"
  else if match pg_count helper with Some count => bool_decide (count ≤ 0)%Z | None => false end
  then Err "Count should be greater than 0."
  else if match pg_page helper with Some page => bool_decide (page ≤ 0)%Z | None => false end
  then Err "Page should be greater than 0."
  else Ok helper.
End PaginationParams.

Inductive SortBy : Type := Desc | Asc.
Definition SortBy_flip (s : SortBy) : SortBy := match s with Desc => Asc | Asc => Desc end.
