(* ===== verification/Effects.v ===== *)
(** * Errors of the services

    [crates/superposition_types/src/result.rs]: the error type of the handlers,
    the HTTP status and the message each error is answered with. *)

From S2P Require Import Prelude.

(** The part of [diesel::result::Error] the code distinguishes. *)
Inductive DieselError : Type :=
  | InvalidCString
  | DbNotFound
  | ConstraintViolation (message : string)
  | OtherDbError (message : string).

(** [ConstraintViolation] stands for the kinds [UniqueViolation],
    [CheckViolation], [NotNullViolation] and [ForeignKeyViolation] of
    [DatabaseError], which are answered alike. *)

Inductive AppError : Type :=
  | ValidationError (msg : string)
  | BadArgument (msg : string)
  | NotFound (msg : string)
  | DbError (e : DieselError)
  | ResponseError (message : string) (status_code : Z)
  | UnexpectedError (msg : string)
  | Forbidden (msg : string).

Module AppError.
Definition something_went_wrong : string := "Something went wrong".

Definition message (self : AppError) : string :=
  match self with
  | ValidationError msg | BadArgument msg | NotFound msg | Forbidden msg => msg
  | UnexpectedError _ => something_went_wrong
  | ResponseError message _ => message
  | DbError InvalidCString => something_went_wrong
  | DbError (ConstraintViolation message) => message
  | DbError _ => something_went_wrong
  end.

(** [error_response]: the status code and the message of the JSON body. *)
Definition error_response (self : AppError) : Z * string :=
  match self with
  | ValidationError msg | BadArgument msg => (400%Z, msg)
  | NotFound msg => (404%Z, msg)
  | Forbidden msg => (403%Z, msg)
  | UnexpectedError _ => (500%Z, something_went_wrong)
  | ResponseError message status_code => (status_code, message)
  | DbError InvalidCString => (503%Z, something_went_wrong)
  | DbError DbNotFound =>
      (404%Z, "No records found. Please refine or correct your search parameters")
  | DbError (ConstraintViolation message) => (409%Z, message)
  | DbError (OtherDbError _) => (500%Z, something_went_wrong)
  end.
End AppError.

(** [superposition::Result]. *)
Abbreviation Result := (result AppError).

(** The macros [bad_argument!] and [unexpected_error!]. *)
Definition bad_argument {A} (msg : string) : Result A := Err (BadArgument msg).
Definition unexpected_error {A} (msg : string) : Result A := Err (UnexpectedError msg).

(** [.map_err(|e| unexpected_error!(e))?]. *)
Definition or_unexpected {A} (r : result string A) : Result A := map_err UnexpectedError r.

(** * Effects

    The handlers of both services read and write tables, draw ids, read the
    clock and ask the outside. An effectful function is a function from the
    world [W] to its result and the world after it; an error ends it. [wp]
    reasons about what a computation does to the [tables] of the world. *)

Definition ST (W A : Type) : Type := W → Result A * W.

#[export] Instance ST_ret {W} : MRet (ST W) := λ A a w, (Ok a, w).
#[export] Instance ST_bind {W} : MBind (ST W) := λ A B f m w,
  match m w with
  | (Ok a, w) => f a w
  | (Err e, w) => (Err e, w)
  end.

Section effects.
Context {W : Type}.

Definition lift {A} (r : Result A) : ST W A := λ w, (r, w).
Definition fail {A} (e : AppError) : ST W A := λ w, (Err e, w).
Definition bad {A} (msg : string) : ST W A := fail (BadArgument msg).

(** Running a list of effects, for a [for] loop. *)
Fixpoint for_each {A} (f : A → ST W unit) (l : list A) : ST W unit :=
  match l with
  | [] => mret tt
  | a :: l => _ ← f a; for_each f l
  end.

(** [conn.transaction(...)]: an error restores the tables of the world it
    started from, by [restore before after]. *)
Definition transaction_by (restore : W → W → W) {A} (m : ST W A) : ST W A := λ w,
  match m w with
  | (Ok a, w') => (Ok a, w')
  | (Err e, w') => (Err e, restore w w')
  end.
End effects.

(** ** Weakest preconditions

    Run on any world whose tables are [t], [m] ends either with a value and
    tables that satisfy [Φ], or with an error and tables that satisfy [Ψ]; the
    rest of the world is quantified away. *)

Definition wp_on {W T A} (tables : W → T) (m : ST W A) (Φ : A → T → Prop) (Ψ : T → Prop)
    (t : T) : Prop :=
  ∀ w, tables w = t →
  match m w with
  | (Ok a, w') => Φ a (tables w')
  | (Err _, w') => Ψ (tables w')
  end.

(** A computation that never writes a table. *)
Class NeutralOn {W T A} (tables : W → T) (m : ST W A) : Prop :=
  neutral : ∀ w, tables (m w).2 = tables w.

Section rules.
Context {W T : Type} {tables : W → T} {A B : Type}.
Implicit Types (Φ : A → T → Prop) (Ψ : T → Prop) (t : T).
Abbreviation wp := (wp_on tables).

Lemma wp_ret a Φ Ψ t : Φ a t → wp (mret a) Φ Ψ t.
Proof. by intros H w <-. Qed.

Lemma wp_bind (m : ST W B) (f : B → ST W A) Φ Ψ t :
  wp m (λ b t', wp (f b) Φ Ψ t') Ψ t → wp (m ≫= f) Φ Ψ t.
Proof.
  intros H w Hw. specialize (H w Hw). unfold mbind, ST_bind.
  destruct (m w) as [[b|e] w']; [by apply H|done].
Qed.

Lemma wp_mono (m : ST W A) Φ Φ' Ψ Ψ' t :
  wp m Φ Ψ t → (∀ a t', Φ a t' → Φ' a t') → (∀ t', Ψ t' → Ψ' t') → wp m Φ' Ψ' t.
Proof. intros H H1 H2 w Hw. specialize (H w Hw). destruct (m w) as [[a|e] w']; auto. Qed.

Lemma wp_lift r Φ Ψ t : (∀ a, r = Ok a → Φ a t) → Ψ t → wp (lift r) Φ Ψ t.
Proof. intros H1 H2 w <-. destruct r; [by apply H1|done]. Qed.

Lemma wp_fail e Φ Ψ t : Ψ t → wp (fail e) Φ Ψ t.
Proof. by intros H w <-. Qed.

Lemma wp_bad msg Φ Ψ t : Ψ t → wp (bad msg) Φ Ψ t.
Proof. apply wp_fail. Qed.

Lemma wp_neutral (m : ST W A) Φ Ψ t :
  NeutralOn tables m → (∀ a, Φ a t) → Ψ t → wp m Φ Ψ t.
Proof.
  intros Hm H1 H2 w <-. specialize (Hm w). destruct (m w) as [[a|e] w']; simpl in Hm; by rewrite Hm.
Qed.

(** An error rolls the tables back. *)
Lemma wp_transaction_by restore (m : ST W A) Φ Ψ t :
  (∀ w w', tables (restore w w') = tables w) →
  wp m Φ (λ _, Ψ t) t → wp (transaction_by restore m) Φ Ψ t.
Proof.
  intros Hr H w Hw. specialize (H w Hw). unfold transaction_by.
  destruct (m w) as [[a|e] w']; [done|]. by rewrite Hr, Hw.
Qed.

#[global] Instance neutral_ret (a : A) : NeutralOn tables (mret a).
Proof. done. Qed.
#[global] Instance neutral_lift (r : Result A) : NeutralOn tables (lift r).
Proof. done. Qed.
#[global] Instance neutral_fail e : NeutralOn tables (fail (A:=A) e).
Proof. done. Qed.
#[global] Instance neutral_bad msg : NeutralOn tables (bad (A:=A) msg).
Proof. done. Qed.
#[global] Instance neutral_bind (m : ST W B) (f : B → ST W A) :
  NeutralOn tables m → (∀ b, NeutralOn tables (f b)) → NeutralOn tables (m ≫= f).
Proof.
  intros Hm Hf w. unfold mbind, ST_bind. specialize (Hm w).
  destruct (m w) as [[b|e] w']; simpl in *; [by rewrite (Hf b w')|done].
Qed.
End rules.

#[global] Instance neutral_for_each {W T A} (tables : W → T) (f : A → ST W unit) l :
  (∀ a, NeutralOn tables (f a)) → NeutralOn tables (for_each f l).
Proof. intros Hf. induction l; simpl; apply _. Qed.

(** Case analysis until the pieces are known to be neutral. *)
Ltac solve_neutral :=
  repeat first
    [ apply _
    | apply neutral_bind; [|intros]
    | apply neutral_for_each; intros
    | progress cbn beta zeta
    | match goal with |- NeutralOn _ (match ?x with _ => _ end) => destruct x end
    | match goal with |- NeutralOn _ (let '(_, _) := ?x in _) => destruct x end ].

(** ** Computations that fail without a trace *)

Class AtomicOn {W T A} (tables : W → T) (m : ST W A) : Prop :=
  atomic : ∀ w, match m w with (Err _, w') => tables w' = tables w | (Ok _, _) => True end.

(** A computation without errors. *)
Class Infallible {W A} (m : ST W A) : Prop := infallible : ∀ w, ∃ a w', m w = (Ok a, w').

Section atomic.
Context {W T : Type} {tables : W → T} {A B : Type}.

Lemma atomic_neutral (m : ST W A) : NeutralOn tables m → AtomicOn tables m.
Proof. intros Hm w. specialize (Hm w). by destruct (m w) as [[a|e] w']. Qed.

Lemma atomic_bind (m : ST W B) (f : B → ST W A) :
  NeutralOn tables m → (∀ b, AtomicOn tables (f b)) → AtomicOn tables (m ≫= f).
Proof.
  intros Hm Hf w. unfold mbind, ST_bind. specialize (Hm w).
  destruct (m w) as [[b|e] w']; [|done]. specialize (Hf b w').
  destruct (f b w') as [[a|e] w'']; [done|]. simpl in Hm. congruence.
Qed.

Lemma atomic_then (m : ST W B) (f : B → ST W A) :
  AtomicOn tables m → (∀ b, Infallible (f b)) → AtomicOn tables (m ≫= f).
Proof.
  intros Hm Hf w. unfold mbind, ST_bind. specialize (Hm w).
  destruct (m w) as [[b|e] w']; [|done]. by destruct (Hf b w') as (a & w'' & ->).
Qed.

Lemma atomic_transaction_by restore (m : ST W A) :
  (∀ w w', tables (restore w w') = tables w) → AtomicOn tables (transaction_by restore m).
Proof. intros Hr w. unfold transaction_by. by destruct (m w) as [[a|e] w']. Qed.

#[global] Instance infallible_ret (a : A) : Infallible (W:=W) (mret a).
Proof. intros w. by exists a, w. Qed.
#[global] Instance infallible_bind (m : ST W B) (f : B → ST W A) :
  Infallible m → (∀ b, Infallible (f b)) → Infallible (m ≫= f).
Proof.
  intros Hm Hf w. unfold mbind, ST_bind. destruct (Hm w) as (b & w' & ->). apply Hf.
Qed.
End atomic.

Ltac solve_infallible :=
  intros; cbn beta zeta;
  repeat match goal with |- Infallible (match ?x with _ => _ end) => destruct x end;
  cbn beta zeta; apply _.

Ltac solve_atomic :=
  repeat first
    [ apply _
    | apply atomic_neutral; solve_neutral; fail
    | apply atomic_bind; [solve_neutral; fail|intros]
    | apply atomic_then; [|solve_infallible; fail]
    | progress cbn beta zeta
    | match goal with |- AtomicOn _ (match ?x with _ => _ end) => destruct x end
    | match goal with |- AtomicOn _ (let '(_, _) := ?x in _) => destruct x end ].
