(* ===== verification/Logic.v ===== *)
(** * Condition matching and local cohorts

    [crates/superposition_types/src/logic.rs]: when a context's condition
    holds of the request's dimensions ([apply], [partial_apply]), and the
    evaluation of the local cohort dimensions over the dependency graphs
    ([evaluate_local_cohorts]). The JSON-logic interpreter is the third-party
    crate [juspay_jsonlogic]: it is the method of the class [JsonLogic]. *)

From S2P Require Import Prelude Stack Json Types.

(** ** Matching *)

(** The test of one entry of a condition: [None] is a dimension the context
    does not bind. *)
Definition dimension_matches (dimension : string) (value context_value : Value) : bool :=
  if bool_decide (dimension = "variantIds") then
    match context_value with
    | VArray context_values => bool_decide (value ∈ context_values)
    | _ => false
    end
  else bool_decide (context_value = value).

(** The loop over the entries returns [false] at the first that fails. *)
Definition apply_logic (condition context : Map) (partial : bool) : bool :=
  forallb (λ '(dimension, value),
    match context !! dimension with
    | Some context_value => dimension_matches dimension value context_value
    | None => partial
    end) (map_to_list condition).

Definition apply (condition context : Map) : bool := apply_logic condition context false.
Definition partial_apply (condition context : Map) : bool := apply_logic condition context true.

Lemma apply_spec c q :
  apply c q = true ↔
  ∀ d v, c !! d = Some v → ∃ cv, q !! d = Some cv ∧ dimension_matches d v cv = true.
Proof.
  unfold apply, apply_logic. rewrite forallb_map_to_list. split.
  - intros H d v Hd. specialize (H d v Hd). simpl in H.
    destruct (q !! d) as [cv|]; [eauto|done].
  - intros H d v Hd. destruct (H d v Hd) as (cv & Hq & Hm). simpl. by rewrite Hq.
Qed.

Lemma partial_apply_spec c q :
  partial_apply c q = true ↔
  ∀ d v cv, c !! d = Some v → q !! d = Some cv → dimension_matches d v cv = true.
Proof.
  unfold partial_apply, apply_logic. rewrite forallb_map_to_list. split.
  - intros H d v cv Hd Hq. specialize (H d v Hd). simpl in H. by rewrite Hq in H.
  - intros H d v Hd. simpl. destruct (q !! d) eqn:Hq; [eauto|done].
Qed.

(** A value of the dimension that satisfies the entry of a condition. *)
Definition satisfying_value (dimension : string) (value : Value) : Value :=
  if bool_decide (dimension = "variantIds") then VArray [value] else value.

Lemma satisfying_value_matches d v : dimension_matches d v (satisfying_value d v) = true.
Proof.
  unfold dimension_matches, satisfying_value.
  case_bool_decide; apply bool_decide_eq_true; set_solver.
Qed.

Lemma apply_empty q : apply ∅ q = true.
Proof. apply apply_spec. intros d v. by rewrite lookup_empty. Qed.

(** More dimensions in the request never turn a match off; fewer entries in
    the condition never do either. *)
Lemma apply_mono_query c q q' : q ⊆ q' → apply c q = true → apply c q' = true.
Proof.
  rewrite !apply_spec. intros Hsub H d v Hd. destruct (H d v Hd) as (cv & Hq & Hm).
  exists cv. split; [|done]. by eapply lookup_weaken.
Qed.

Lemma apply_mono_condition c c' q : c' ⊆ c → apply c q = true → apply c' q = true.
Proof. rewrite !apply_spec. intros Hsub H d v Hd. eapply H. by eapply lookup_weaken. Qed.

Lemma partial_apply_antimono c q q' :
  q ⊆ q' → partial_apply c q' = true → partial_apply c q = true.
Proof.
  rewrite !partial_apply_spec. intros Hsub H d v cv Hd Hq.
  eapply H; [done|]. by eapply lookup_weaken.
Qed.

Lemma apply_partial_apply c q : apply c q = true → partial_apply c q = true.
Proof.
  rewrite apply_spec, partial_apply_spec. intros H d v cv Hd Hq.
  destruct (H d v Hd) as (cv' & Hq' & Hm). by simplify_eq.
Qed.

(** The request completed with values that satisfy a condition. *)
Definition complete (c q : Map) : Map := q ∪ map_imap (λ d v, Some (satisfying_value d v)) c.

Lemma apply_complete c q : partial_apply c q = true → apply c (complete c q) = true.
Proof.
  rewrite partial_apply_spec, apply_spec. intros H d v Hd. unfold complete.
  destruct (q !! d) as [cv|] eqn:Hq.
  - exists cv. split; [by apply lookup_union_Some_l|]. eauto.
  - exists (satisfying_value d v). split; [|apply satisfying_value_matches].
    rewrite lookup_union_r by done. by rewrite map_lookup_imap, Hd.
Qed.

(** ** Local cohorts *)

(** [jsonlogic::apply(rule, data)] of the crate [juspay_jsonlogic]. *)
Class JsonLogic := jsonlogic_apply : Value → Value → result string Value.

Section cohorts.
Context `{JsonLogic}.

(** The loop of [_evaluate_local_cohort_dimension] over the cohort names: a
    name without a definition ends it with [None] (the [?] in its body). *)
Fixpoint first_matching_cohort (definitions_object : Map) (data : Value)
    (cohort_enums : list string) : option string :=
  match cohort_enums with
  | [] => None
  | cohort_option :: cohort_enums =>
      jsonlogic ← definitions_object !! cohort_option;
      match jsonlogic_apply jsonlogic data with
      | Ok (VBool true) => Some cohort_option
      | _ => first_matching_cohort definitions_object data cohort_enums
      end
  end.

(** The names in the [enum] of a cohort schema, [otherwise] left out. *)
Definition cohort_enums (enum : list Value) : list string :=
  List.filter (λ s, negb (bool_decide (s = "otherwise"))) (omap as_str enum).

Definition _evaluate_local_cohort_dimension (cohort_based_on : string)
    (cohort_based_on_value : Value) (schema : Map) : option string :=
  definitions_object ← (schema !! "definitions") ≫= as_object;
  enum ← (schema !! "enum") ≫= as_array;
  first_matching_cohort definitions_object
    (VObject {[ cohort_based_on := cohort_based_on_value ]}) (cohort_enums enum).

Definition evaluate_local_cohort_dimension (cohort_based_on : string)
    (cohort_based_on_value : Value) (schema : Map) : string :=
  default "otherwise"
    (_evaluate_local_cohort_dimension cohort_based_on cohort_based_on_value schema).

(** *** Depth-first evaluation below one dimension *)

(** An entry of the stack: the cohort dimension, the dimension it is based
    on, and the value of that one. *)
Definition cohort_item : Type := string * string * Value.

Definition cohort_children (dependency_graph : DependencyGraph) (dimension : string)
    (value : Value) : list cohort_item :=
  (λ d, (d, dimension, value)) <$> default [] (dependency_graph !! dimension).

(** The body of the [while let] of [evaluate_local_cohorts_dependency]. *)
Definition cohort_visit (dimensions : gmap string DimensionInfo) (query_data : Map)
    (item : cohort_item) (modified_context : Map) : Map * list cohort_item :=
  let '(cohort_dimension, based_on, based_on_val) := item in
  match dimensions !! cohort_dimension with
  | None => (modified_context, [])
  | Some dimension_info =>
      let cohort_val :=
        match di_dimension_type dimension_info with
        | LocalCohort _ =>
            Some (VString (evaluate_local_cohort_dimension based_on based_on_val
                             (di_schema dimension_info)))
        | _ => query_data !! cohort_dimension
        end in
      match cohort_val with
      | Some cohort_val =>
          (<[cohort_dimension := cohort_val]> modified_context,
           cohort_children (di_dependency_graph dimension_info) cohort_dimension cohort_val)
      | None => (modified_context, [])
      end
  end.

Definition evaluate_local_cohorts_dependency (fuel : nat) (dimension : string)
    (value : Value) (dependency_graph : DependencyGraph)
    (dimensions : gmap string DimensionInfo) (modified_context query_data : Map)
    : option Map :=
  stack_loop (cohort_visit dimensions query_data) fuel
    (reverse (cohort_children dependency_graph dimension value)) modified_context.
End cohorts.

(** *** Where to start *)

Section start.
Context {O : MapOrder}.

(** The body of the inner loop of [dimensions_to_start_from] for one root:
    the state is the vector of start dimensions found so far. *)
Definition start_visit (dimensions : gmap string DimensionInfo) (query_data : Map)
    (dependency_graph : DependencyGraph) (current_dimension : string)
    (start_dimensions : list string) : list string * list string :=
  if bool_decide (is_Some (query_data !! current_dimension)) then
    (start_dimensions ++ [current_dimension], [])
  else if match dimensions !! current_dimension with
          | Some data => is_local_cohort (di_dimension_type data)
          | None => false
          end then
    (start_dimensions ++ [current_dimension], [])
  else (start_dimensions, default [] (dependency_graph !! current_dimension)).

Fixpoint start_roots (fuel : nat) (dimensions : gmap string DimensionInfo)
    (query_data : Map) (regular_dimensions : list string)
    (start_dimensions : list string) : option (list string) :=
  match regular_dimensions with
  | [] => Some start_dimensions
  | root_dimension :: regular_dimensions =>
      let dependency_graph :=
        default ∅ (di_dependency_graph <$> (dimensions !! root_dimension)) in
      start_dimensions ←
        stack_loop (start_visit dimensions query_data dependency_graph) fuel
          [root_dimension] start_dimensions;
      start_roots fuel dimensions query_data regular_dimensions start_dimensions
  end.

Definition regular_dimensions (dimensions : gmap string DimensionInfo) : list string :=
  (List.filter (λ '(_, data), is_regular (di_dimension_type data))
     (map_order dimensions)).*1.

Definition dimensions_to_start_from (fuel : nat)
    (dimensions : gmap string DimensionInfo) (query_data : Map) : option (list string) :=
  start_roots fuel dimensions query_data (regular_dimensions dimensions) [].
End start.

(** *** The whole evaluation *)

Section evaluate.
Context {O : MapOrder} `{JsonLogic}.

(** One turn of the loop over the start dimensions. *)
Definition evaluate_start (fuel : nat) (dimensions : gmap string DimensionInfo)
    (query_data : Map) (modified_context : Map) (dimension_key : string) : option Map :=
  match query_data !! dimension_key, dimensions !! dimension_key with
  | Some value, Some dimension_info =>
      evaluate_local_cohorts_dependency fuel dimension_key value
        (di_dependency_graph dimension_info) dimensions
        (<[dimension_key := value]> modified_context) query_data
  | _, _ => Some modified_context
  end.

Fixpoint evaluate_starts (fuel : nat) (dimensions : gmap string DimensionInfo)
    (query_data : Map) (starts : list string) (modified_context : Map) : option Map :=
  match starts with
  | [] => Some modified_context
  | dimension_key :: starts =>
      modified_context ← evaluate_start fuel dimensions query_data modified_context
                           dimension_key;
      evaluate_starts fuel dimensions query_data starts modified_context
  end.

(** The last loop: local cohorts not yet set become [otherwise]. *)
Definition set_otherwise (dimensions : gmap string DimensionInfo)
    (modified_context : Map) : Map :=
  foldl (λ ctx '(dimension_key, dimension_info),
      if is_local_cohort (di_dimension_type dimension_info)
         && bool_decide (ctx !! dimension_key = None)
      then <[dimension_key := VString "otherwise"]> ctx
      else ctx)
    modified_context (map_order dimensions).

Definition evaluate_local_cohorts (fuel : nat) (dimensions : gmap string DimensionInfo)
    (query_data : Map) : option Map :=
  if bool_decide (dimensions = ∅) then Some query_data
  else
    starts ← dimensions_to_start_from fuel dimensions query_data;
    modified_context ← evaluate_starts fuel dimensions query_data starts ∅;
    Some (set_otherwise dimensions modified_context).
End evaluate.
