(* ===== verification/LogicProps.v ===== *)
(** * Correctness of the cohort evaluation

    Termination of the two traversals on graphs whose edges go to smaller
    positions, and what the evaluated context contains. *)

From S2P Require Import Prelude Stack Json Types Logic.

(** The dependents of a dimension, as the evaluation reads them: the entry of
    the dimension in its own graph. *)
Definition own_children (dims : gmap string DimensionInfo) (d : string) : list string :=
  match dims !! d with
  | Some info => default [] (di_dependency_graph info !! d)
  | None => []
  end.

Definition is_local (dims : gmap string DimensionInfo) (d : string) : bool :=
  match dims !! d with Some info => is_local_cohort (di_dimension_type info) | None => false end.

(** ** Termination *)

Definition position_of (dims : gmap string DimensionInfo) (d : string) : nat :=
  Z.to_nat (default 0%Z (di_position <$> dims !! d)).

Definition graph_children (g : DependencyGraph) (d : string) : list string :=
  default [] (g !! d).

(** Every edge of every stored graph goes to a dimension of smaller position;
    [validate_cohort_position] and [validate_position_wrt_dependency] check
    this on every write. *)
Definition graphs_decreasing (dims : gmap string DimensionInfo) : Prop :=
  ∀ root info cur e, dims !! root = Some info →
    e ∈ graph_children (di_dependency_graph info) cur →
    position_of dims e < position_of dims cur.

(** Enough fuel: the unfolded size of every graph. *)
Definition cohort_fuel (dims : gmap string DimensionInfo) : nat :=
  sum_list_with (λ '(d, info),
      node_work (own_children dims) (position_of dims) d +
      node_work (graph_children (di_dependency_graph info)) (position_of dims) d)
    (map_to_list dims).

Lemma sum_list_with_elem {A} (f : A → nat) l x : x ∈ l → f x ≤ sum_list_with f l.
Proof.
  induction l as [|y l IH]; [by intros ?%elem_of_nil|]. simpl.
  intros [->|Hx]%elem_of_cons; [lia|]. specialize (IH Hx). lia.
Qed.

Section termination.
Context {JL : JsonLogic} {O : MapOrder} {Ook : MapOrderOk O}.
Context (dims : gmap string DimensionInfo) (Hdec : graphs_decreasing dims).

Lemma own_children_decreasing d e :
  e ∈ own_children dims d → position_of dims e < position_of dims d.
Proof.
  unfold own_children. destruct (dims !! d) as [info|] eqn:Hd; [|set_solver].
  intros. by eapply Hdec.
Qed.

Lemma own_children_graph d info : dims !! d = Some info →
  own_children dims d = graph_children (di_dependency_graph info) d.
Proof. intros Hd. unfold own_children. by rewrite Hd. Qed.

Lemma cohort_fuel_entry d info : dims !! d = Some info →
  node_work (own_children dims) (position_of dims) d +
  node_work (graph_children (di_dependency_graph info)) (position_of dims) d
  ≤ cohort_fuel dims.
Proof.
  intros Hd. etrans; [|apply (sum_list_with_elem _ _ (d, info))]; [done|].
  by apply elem_of_map_to_list.
Qed.

Lemma sum_cohort_children (f : string → nat) g d v :
  sum_list_with (λ it, f it.1.1) (cohort_children g d v) =
  sum_list_with f (graph_children g d).
Proof.
  unfold cohort_children, graph_children. generalize (default [] (g !! d)) as l.
  induction l as [|x l IH]; [done|]. by rewrite fmap_cons; cbn; rewrite IH.
Qed.

Lemma cohort_visit_work q it ctx :
  sum_list_with (λ it, node_work (own_children dims) (position_of dims) it.1.1)
    (cohort_visit dims q it ctx).2
  < node_work (own_children dims) (position_of dims) it.1.1.
Proof.
  destruct it as [[e p] pv]. unfold cohort_visit. simpl.
  assert (0 < node_work (own_children dims) (position_of dims) e) by (unfold node_work; simpl; lia).
  destruct (dims !! e) as [info|] eqn:He; [|done].
  case_match; [|done]. simpl. rewrite sum_cohort_children.
  rewrite <-(own_children_graph e info He).
  apply node_work_children, own_children_decreasing.
Qed.

Lemma evaluate_start_total fuel q ctx d :
  cohort_fuel dims ≤ fuel → is_Some (evaluate_start fuel dims q ctx d).
Proof.
  intros Hf. unfold evaluate_start.
  destruct (q !! d) as [v|]; [|by eexists].
  destruct (dims !! d) as [info|] eqn:Hd; [|by eexists].
  apply (stack_loop_total _ (λ it, node_work (own_children dims) (position_of dims) it.1.1));
    [intros; apply cohort_visit_work|].
  rewrite sum_list_with_reverse. pose proof (cohort_fuel_entry d info Hd) as Hw.
  pose proof (node_work_children _ _ own_children_decreasing d) as Hc.
  rewrite sum_cohort_children, <-(own_children_graph d info Hd). lia.
Qed.

Lemma evaluate_starts_total fuel q starts ctx :
  cohort_fuel dims ≤ fuel → is_Some (evaluate_starts fuel dims q starts ctx).
Proof.
  intros Hf. revert ctx. induction starts as [|d starts IH]; intros ctx; simpl; [by eexists|].
  destruct (evaluate_start_total fuel q ctx d Hf) as [ctx' ->]. apply IH.
Qed.

Lemma start_roots_total fuel q roots acc :
  cohort_fuel dims ≤ fuel → (∀ d, d ∈ roots → is_Some (dims !! d)) →
  is_Some (start_roots fuel dims q roots acc).
Proof.
  intros Hf. revert acc. induction roots as [|root roots IH]; intros acc Hroots; simpl;
    [by eexists|].
  destruct (Hroots root) as [info Hd]; [set_solver|]. rewrite Hd. simpl.
  set (g := di_dependency_graph info).
  assert (∀ d e, e ∈ graph_children g d → position_of dims e < position_of dims d) as Hg.
  { intros d e. by eapply Hdec. }
  destruct (stack_loop_total (start_visit dims q g)
    (node_work (graph_children g) (position_of dims))) with (fuel:=fuel) (stack:=[root]) (s:=acc)
    as [acc' ->].
  - intros d s. pose proof (node_work_children _ _ Hg d) as Hw.
    unfold start_visit. repeat case_match; simpl in *; try (unfold node_work; simpl; lia); done.
  - pose proof (cohort_fuel_entry root info Hd) as Hw. fold g in Hw.
    change (node_work (graph_children g) (position_of dims) root + 0 ≤ fuel). lia.
  - apply IH. set_solver.
Qed.

Lemma regular_dimensions_spec d :
  d ∈ regular_dimensions dims ↔
  ∃ info, dims !! d = Some info ∧ is_regular (di_dimension_type info) = true.
Proof.
  unfold regular_dimensions. rewrite list_elem_of_fmap. split.
  - intros ([d' info] & -> & Hin). apply list_elem_of_In, filter_In in Hin as [Hin Hr].
    apply list_elem_of_In, elem_of_map_order in Hin. eauto.
  - intros (info & Hd & Hr). exists (d, info). split; [done|].
    apply list_elem_of_In, filter_In. split; [|done].
    by apply list_elem_of_In, elem_of_map_order.
Qed.

Lemma evaluate_local_cohorts_is_Some fuel q :
  cohort_fuel dims ≤ fuel → is_Some (evaluate_local_cohorts fuel dims q).
Proof.
  intros Hf. unfold evaluate_local_cohorts. case_bool_decide; [by eexists|].
  unfold dimensions_to_start_from.
  destruct (start_roots_total fuel q (regular_dimensions dims) []) as [starts ->]; [done| |].
  { intros d (info & Hd & _)%regular_dimensions_spec. by eexists. }
  simpl. destruct (evaluate_starts_total fuel q starts ∅ Hf) as [ctx ->].
  by eexists.
Qed.
End termination.

(** ** What the evaluated context binds *)

Section content.
Context {JL : JsonLogic} {O : MapOrder} {Ook : MapOrderOk O}.
Context (dims : gmap string DimensionInfo) (q : Map).

(** The value of a cohort computed from that of the dimension it is based
    on. *)
Definition cohort_of (p : string) (pv : Value) (info : DimensionInfo) : Value :=
  VString (evaluate_local_cohort_dimension p pv (di_schema info)).

(** The bindings the evaluation may produce: those of the request, and the
    cohorts computed from such a binding along an edge of the graphs. *)
Inductive computed : string → Value → Prop :=
  | computed_query d info v :
      dims !! d = Some info → q !! d = Some v → computed d v
  | computed_cohort d info p pv :
      dims !! d = Some info → is_local_cohort (di_dimension_type info) = true →
      d ∈ own_children dims p → computed p pv → computed d (cohort_of p pv info).

Definition justified (ctx : Map) (d : string) (v : Value) : Prop :=
  ∃ info, dims !! d = Some info ∧
    (q !! d = Some v ∨
     is_local_cohort (di_dimension_type info) = true ∧
     ∃ p pv, d ∈ own_children dims p ∧ is_Some (ctx !! p) ∧ computed p pv ∧
       v = cohort_of p pv info).

Lemma justified_computed ctx d v : justified ctx d v → computed d v.
Proof.
  intros (info & Hd & [Hq|(Hl & p & pv & Hc & _ & Hp & ->)]);
    [by eapply computed_query|by eapply computed_cohort].
Qed.

Lemma justified_mono ctx ctx' d v :
  (∀ p, is_Some (ctx !! p) → is_Some (ctx' !! p)) →
  justified ctx d v → justified ctx' d v.
Proof. unfold justified. naive_solver. Qed.

(** A dependent for which there is nothing left to do. *)
Definition settled (ctx : Map) (e : string) : Prop :=
  is_Some (ctx !! e) ∨ dims !! e = None ∨ is_local dims e = false ∧ q !! e = None.

(** The invariant of the depth-first loop. *)
Record cohort_inv (stack : list cohort_item) (ctx : Map) : Prop := {
  ci_items : ∀ e p pv, (e, p, pv) ∈ stack →
    e ∈ own_children dims p ∧ is_Some (ctx !! p) ∧ computed p pv;
  ci_just : ∀ d v, ctx !! d = Some v → justified ctx d v;
  ci_closed : ∀ p e, is_Some (ctx !! p) → e ∈ own_children dims p →
    settled ctx e ∨ ∃ pv, (e, p, pv) ∈ stack;
}.

Lemma settled_mono ctx ctx' e :
  (∀ p, is_Some (ctx !! p) → is_Some (ctx' !! p)) → settled ctx e → settled ctx' e.
Proof. unfold settled. naive_solver. Qed.

Lemma insert_is_Some (ctx : Map) d v p : is_Some (ctx !! p) → is_Some (<[d:=v]> ctx !! p).
Proof. intros. destruct (decide (d = p)) as [->|]; [rewrite lookup_insert_eq; by eexists|by rewrite lookup_insert_ne]. Qed.

Lemma cohort_children_own d info v : dims !! d = Some info →
  ∀ e p pv, (e, p, pv) ∈ cohort_children (di_dependency_graph info) d v ↔
    e ∈ own_children dims d ∧ p = d ∧ pv = v.
Proof.
  intros Hd e p pv. unfold cohort_children, own_children. rewrite Hd, list_elem_of_fmap.
  naive_solver.
Qed.

(** Binding a dimension and putting its dependents on the stack. *)
Lemma cohort_inv_bind stack ctx d info v pushed :
  dims !! d = Some info → justified (<[d:=v]> ctx) d v →
  pushed ≡ₚ cohort_children (di_dependency_graph info) d v →
  (∀ e p pv, (e, p, pv) ∈ stack →
    e ∈ own_children dims p ∧ is_Some (ctx !! p) ∧ computed p pv) →
  (∀ d' v', ctx !! d' = Some v' → justified ctx d' v') →
  (∀ p e, is_Some (ctx !! p) → e ∈ own_children dims p →
    settled ctx e ∨ e = d ∨ ∃ pv, (e, p, pv) ∈ stack) →
  cohort_inv (pushed ++ stack) (<[d:=v]> ctx).
Proof.
  intros Hd Hjd Hpushed Hitems Hjust Hclosed.
  pose proof (insert_is_Some ctx d v) as Hmono.
  split.
  - intros e p pv [Hin|Hin]%elem_of_app.
    + rewrite Hpushed, (cohort_children_own d info v Hd) in Hin. destruct Hin as (? & -> & ->).
      split; [done|]. split; [rewrite lookup_insert_eq; by eexists|].
      by eapply justified_computed.
    + destruct (Hitems e p pv Hin) as (? & ? & ?). eauto.
  - intros d' v'. destruct (decide (d = d')) as [<-|Hne].
    + rewrite lookup_insert_eq. by intros [= <-].
    + rewrite lookup_insert_ne by done. intros Hv'. eapply justified_mono; eauto.
  - intros p e Hp He. destruct (decide (p = d)) as [->|Hne].
    + right. exists v. apply elem_of_app. left.
      by rewrite Hpushed, (cohort_children_own d info v Hd).
    + rewrite lookup_insert_ne in Hp by done.
      destruct (Hclosed p e Hp He) as [Hs|[->|[pv Hin]]].
      * left. by eapply settled_mono.
      * left. left. rewrite lookup_insert_eq. by eexists.
      * right. exists pv. apply elem_of_app. by right.
Qed.

Lemma cohort_visit_inv it stack ctx ctx' pushed :
  cohort_inv (it :: stack) ctx → cohort_visit dims q it ctx = (ctx', pushed) →
  cohort_inv (reverse pushed ++ stack) ctx'.
Proof.
  intros [Hitems Hjust Hclosed] Hv. destruct it as [[d p] pv].
  destruct (Hitems d p pv) as (Hdp & Hp & Hcomp); [set_solver|].
  assert (∀ e p pv, (e, p, pv) ∈ stack →
    e ∈ own_children dims p ∧ is_Some (ctx !! p) ∧ computed p pv) as Hitems'.
  { intros e p' pv' Hin. apply Hitems. set_solver. }
  assert (∀ p e, is_Some (ctx !! p) → e ∈ own_children dims p →
    settled ctx e ∨ e = d ∨ ∃ pv, (e, p, pv) ∈ stack) as Hclosed'.
  { intros p' e Hp' He. destruct (Hclosed p' e Hp' He) as [|[pv' [[= -> -> ->]|]%elem_of_cons]]; eauto. }
  assert (settled ctx d → cohort_inv stack ctx) as Hskip.
  { intros Hd. split; [done..|]. intros p' e Hp' He.
    destruct (Hclosed' p' e Hp' He) as [|[->|]]; auto. }
  unfold cohort_visit in Hv. destruct (dims !! d) as [info|] eqn:Hd; simplify_eq/=.
  2:{ apply Hskip. right. by left. }
  destruct (di_dimension_type info) eqn:Ht.
  2:{ simplify_eq. eapply cohort_inv_bind; [done| |by rewrite reverse_Permutation|done..].
      exists info. split; [done|]. right. rewrite Ht. split; [done|].
      exists p, pv. split_and!; try done. by apply insert_is_Some. }
  all: destruct (q !! d) as [v|] eqn:Hq; simplify_eq;
    [eapply cohort_inv_bind; [done| |by rewrite reverse_Permutation|done..];
     exists info; auto
    |apply Hskip; right; right; unfold is_local; rewrite Hd, Ht; done].
Qed.

(** The invariant between two start dimensions. *)
Lemma evaluate_start_inv fuel ctx ctx' d :
  cohort_inv [] ctx → evaluate_start fuel dims q ctx d = Some ctx' → cohort_inv [] ctx'.
Proof.
  intros Hinv Hev. pose proof Hinv as [_ Hjust Hclosed]. unfold evaluate_start in Hev.
  destruct (q !! d) as [v|] eqn:Hq; [|by simplify_eq].
  destruct (dims !! d) as [info|] eqn:Hd; [|by simplify_eq].
  unfold evaluate_local_cohorts_dependency in Hev.
  eapply (stack_loop_inv _ cohort_inv); [|shelve|exact Hev].
  { intros. by eapply cohort_visit_inv. }
  Unshelve. rewrite <-(app_nil_r (reverse _)).
  eapply cohort_inv_bind; [done| |by rewrite reverse_Permutation|set_solver|done|].
  - exists info. auto.
  - intros p e Hp He. destruct (Hclosed p e Hp He) as [|[pv []%elem_of_nil]]. auto.
Qed.

Lemma evaluate_starts_inv fuel starts ctx ctx' :
  cohort_inv [] ctx → evaluate_starts fuel dims q starts ctx = Some ctx' →
  cohort_inv [] ctx'.
Proof.
  revert ctx. induction starts as [|d starts IH]; intros ctx Hinv Hev; simplify_eq/=; [done|].
  apply bind_Some in Hev as (ctx1 & H1 & H2). eauto using evaluate_start_inv.
Qed.
End content.

Section result.
Context {JL : JsonLogic} {O : MapOrder} {Ook : MapOrderOk O}.
Context (dims : gmap string DimensionInfo) (q : Map).

Lemma start_roots_mono fuel roots acc starts d :
  d ∈ acc → start_roots fuel dims q roots acc = Some starts → d ∈ starts.
Proof.
  revert acc. induction roots as [|root roots IH]; intros acc Hd Hs; simplify_eq/=; [done|].
  apply bind_Some in Hs as (acc' & H1 & H2). eapply IH, H2.
  refine (stack_loop_inv _ (λ _ acc, d ∈ acc) _ _ _ _ _ Hd H1).
  intros i _ s s' pushed Hin Hv. unfold start_visit in Hv.
  repeat case_match; simplify_eq; set_solver.
Qed.

(** A root the request binds is a start. *)
Lemma start_roots_root fuel roots acc starts d :
  d ∈ roots → is_Some (q !! d) → start_roots fuel dims q roots acc = Some starts →
  d ∈ starts.
Proof.
  intros Hin Hq. revert acc. induction roots as [|root roots IH]; intros acc Hs;
    [by apply elem_of_nil in Hin|].
  simpl in Hs. apply bind_Some in Hs as (acc' & H1 & H2).
  apply elem_of_cons in Hin as [->|Hin]; [|by eapply IH].
  eapply start_roots_mono, H2. destruct fuel as [|fuel]; [done|]. simpl in H1.
  unfold start_visit in H1. rewrite bool_decide_eq_true_2 in H1 by done.
  destruct fuel; simplify_eq/=; set_solver.
Qed.

Lemma evaluate_start_bound fuel ctx ctx' d p :
  evaluate_start fuel dims q ctx d = Some ctx' → is_Some (ctx !! p) → is_Some (ctx' !! p).
Proof.
  intros Hev Hp. unfold evaluate_start in Hev.
  destruct (q !! d) as [v|] eqn:Hq; [|by simplify_eq].
  destruct (dims !! d) as [info|] eqn:Hd; [|by simplify_eq].
  refine (stack_loop_inv _ (λ _ (c : Map), is_Some (c !! p)) _ _ _ _ _ _ Hev);
    [|by apply insert_is_Some].
  intros [[e p'] pv] _ s s' pushed Hin Hv. unfold cohort_visit in Hv.
  repeat case_match; simplify_eq; auto using insert_is_Some.
Qed.

Lemma evaluate_start_self fuel ctx ctx' d :
  evaluate_start fuel dims q ctx d = Some ctx' →
  is_Some (q !! d) → is_Some (dims !! d) → is_Some (ctx' !! d).
Proof.
  intros Hev [v Hq] [info Hd]. unfold evaluate_start in Hev. rewrite Hq, Hd in Hev.
  refine (stack_loop_inv _ (λ _ (c : Map), is_Some (c !! d)) _ _ _ _ _ _ Hev);
    [|rewrite lookup_insert_eq; by eexists].
  intros [[e p'] pv] _ s s' pushed Hin Hv. unfold cohort_visit in Hv.
  repeat case_match; simplify_eq; auto using insert_is_Some.
Qed.

Lemma evaluate_starts_bound fuel starts ctx ctx' p :
  evaluate_starts fuel dims q starts ctx = Some ctx' →
  is_Some (ctx !! p) ∨ p ∈ starts ∧ is_Some (q !! p) ∧ is_Some (dims !! p) →
  is_Some (ctx' !! p).
Proof.
  revert ctx. induction starts as [|d starts IH]; intros ctx Hev Hp; simplify_eq/=.
  { destruct Hp as [|[[]%elem_of_nil _]]; done. }
  apply bind_Some in Hev as (ctx1 & H1 & H2). apply (IH ctx1); [done|].
  destruct Hp as [Hp|([->|Hin]%elem_of_cons & Hq & Hd)].
  - left. by eapply evaluate_start_bound.
  - left. by eapply evaluate_start_self.
  - by right.
Qed.

(** The last loop. *)
Lemma set_otherwise_lookup ctx d :
  set_otherwise dims ctx !! d =
    match ctx !! d with
    | Some v => Some v
    | None => if is_local dims d then Some (VString "otherwise") else None
    end.
Proof.
  unfold set_otherwise, is_local.
  assert (∀ l, NoDup l.*1 → ∀ ctx : Map,
    foldl (λ ctx '(key, info),
        if is_local_cohort (di_dimension_type info) && bool_decide (ctx !! key = None)
        then <[key := VString "otherwise"]> ctx else ctx) ctx l !! d =
    match ctx !! d with
    | Some v => Some v
    | None => if match (list_to_map l : gmap string DimensionInfo) !! d with
                 | Some info => is_local_cohort (di_dimension_type info) | None => false end
              then Some (VString "otherwise") else None
    end) as Hgen.
  { induction l as [|[k info] l IH]; intros Hnd ctx0; simpl.
    { rewrite lookup_empty. by destruct (ctx0 !! d). }
    apply NoDup_cons in Hnd as [Hk Hnd]. rewrite IH by done.
    destruct (decide (k = d)) as [->|Hne].
    - rewrite lookup_insert_eq.
      assert ((list_to_map l : gmap string DimensionInfo) !! d = None) as ->
        by by apply not_elem_of_list_to_map.
      destruct (is_local_cohort (di_dimension_type info)); simpl; [|by destruct (ctx0 !! d)].
      destruct (ctx0 !! d) eqn:Hc; simpl; [by rewrite Hc|by rewrite lookup_insert_eq].
    - rewrite lookup_insert_ne by done.
      by destruct (is_local_cohort _ && _); [rewrite lookup_insert_ne by done|]. }
  rewrite Hgen by apply NoDup_fst_map_order.
  assert (list_to_map (map_order dims) = dims) as ->; [|done].
  apply map_eq. intros k. apply option_eq. intros v.
  rewrite <-elem_of_list_to_map by apply NoDup_fst_map_order. apply elem_of_map_order.
Qed.

(** The result is the context of the start loop, closed under the invariant,
    with the remaining local cohorts set to [otherwise]. *)
Lemma evaluate_local_cohorts_inv fuel r :
  dims ≠ ∅ → evaluate_local_cohorts fuel dims q = Some r →
  ∃ ctx, cohort_inv dims q [] ctx ∧
    (∀ d, r !! d = match ctx !! d with Some v => Some v
                   | None => if is_local dims d then Some (VString "otherwise") else None end) ∧
    (∀ d info, dims !! d = Some info → is_regular (di_dimension_type info) = true →
       is_Some (q !! d) → is_Some (ctx !! d)).
Proof.
  intros Hne Hev. unfold evaluate_local_cohorts in Hev.
  rewrite bool_decide_eq_false_2 in Hev by done.
  apply bind_Some in Hev as (starts & Hs & Hev).
  apply bind_Some in Hev as (ctx & Hc & [= <-]).
  exists ctx. split_and!.
  - eapply evaluate_starts_inv, Hc. split.
    + intros e p pv []%elem_of_nil.
    + intros d v. by rewrite lookup_empty.
    + intros p e [v Hp]. by rewrite lookup_empty in Hp.
  - intros d. apply set_otherwise_lookup.
  - intros d info Hd Hr Hq. eapply evaluate_starts_bound; [exact Hc|]. right.
    split_and!; [|done|by eexists].
    eapply start_roots_root; [|done|exact Hs].
    apply regular_dimensions_spec. eauto.
Qed.

Lemma computed_nonlocal d v : computed dims q d v → is_local dims d = false → q !! d = Some v.
Proof. unfold is_local. destruct 1 as [|? ? ? ? Hd Hl]; [done|]. rewrite Hd. congruence. Qed.

Lemma justified_nonlocal ctx d v :
  justified dims q ctx d v → is_local dims d = false → q !! d = Some v.
Proof. intros Hj. eapply computed_nonlocal. by eapply justified_computed. Qed.
End result.
