(* ===== verification/Config.v ===== *)
(** * Filters on a configuration

    [crates/superposition_types/src/overridden.rs], [contextual.rs] and the
    methods of [Config] in [config.rs]: keeping the keys with a prefix, the
    items whose condition can hold, and both on a whole configuration. *)

From S2P Require Import Prelude Json Types Logic.

(** ** Collecting into a map *)

(** [iter().collect::<HashMap<_, _>>()]: a later entry replaces an earlier one
    with the same key. *)
Definition collect_map {V} (l : list (string * V)) : gmap string V :=
  foldl (λ m '(k, v), <[k:=v]> m) ∅ l.

Lemma collect_map_app {V} (l l' : list (string * V)) k v :
  k ∉ l'.*1 → collect_map (l ++ (k, v) :: l') !! k = Some v.
Proof.
  unfold collect_map. rewrite foldl_app. simpl.
  generalize (foldl (λ m '(k, v), <[k:=v]> m) (∅ : gmap string V) l) as m. intros m Hk.
  assert (<[k:=v]> m !! k = Some v) as Hm by apply lookup_insert_eq. revert Hm.
  generalize (<[k:=v]> m) as m'. clear m.
  induction l' as [|[k' v'] l' IH]; intros m' Hm; simpl in *; [done|].
  apply IH; [set_solver|]. rewrite lookup_insert_ne by set_solver. done.
Qed.

Lemma collect_map_None {V} (l : list (string * V)) k :
  k ∉ l.*1 → collect_map l !! k = None.
Proof.
  unfold collect_map. assert ((∅ : gmap string V) !! k = None) as Hm by apply lookup_empty.
  revert Hm. generalize (∅ : gmap string V) as m.
  induction l as [|[k' v'] l IH]; intros m Hm Hk; simpl in *; [done|].
  apply IH; [|set_solver]. rewrite lookup_insert_ne by set_solver. done.
Qed.

Lemma collect_map_Some {V} (l : list (string * V)) k v :
  collect_map l !! k = Some v → (k, v) ∈ l.
Proof.
  induction l as [|[k' v'] l IH] using rev_ind; [by unfold collect_map; simpl; rewrite lookup_empty|].
  unfold collect_map in *. rewrite foldl_app. simpl. intros Hk.
  apply lookup_insert_Some in Hk as [[<- <-]|[_ Hk]]; set_solver.
Qed.

Lemma collect_map_is_Some {V} (l : list (string * V)) k :
  is_Some (collect_map l !! k) ↔ k ∈ l.*1.
Proof.
  split.
  - intros [v Hv%collect_map_Some]. apply list_elem_of_fmap. by exists (k, v).
  - intros Hk. destruct (collect_map l !! k) eqn:Hn; [by eexists|].
    exfalso. induction l as [|[k' v'] l IH] using rev_ind; [by apply elem_of_nil in Hk|].
    unfold collect_map in *. rewrite foldl_app in Hn. simpl in Hn.
    rewrite fmap_app in Hk. apply lookup_insert_None in Hn as [Hn Hne]. set_solver.
Qed.

Lemma collect_list_to_map {V} (l : list (string * V)) : NoDup l.*1 → collect_map l = list_to_map l.
Proof.
  intros Hl. apply map_eq. intros k. apply option_eq. intros v. split.
  - intros Hv%collect_map_Some. by apply elem_of_list_to_map.
  - intros Hv%elem_of_list_to_map; [|done].
    assert (is_Some (collect_map l !! k)) as [v' Hv'].
    { apply collect_map_is_Some, list_elem_of_fmap. by exists (k, v). }
    rewrite Hv'. f_equal. apply collect_map_Some in Hv'.
    apply elem_of_list_to_map in Hv, Hv'; [congruence|done..].
Qed.

(** Entries collected under a key of their own. *)
Lemma collect_keyed {V} (key : V → string) (l : list V) : NoDup (key <$> l) →
  (∀ k x, collect_map ((λ x, (key x, x)) <$> l) !! k = Some x ↔ x ∈ l ∧ k = key x) ∧
  map_to_list (collect_map ((λ x, (key x, x)) <$> l)) ≡ₚ (λ x, (key x, x)) <$> l.
Proof.
  intros Hnd. assert (NoDup ((λ x, (key x, x)) <$> l).*1) as Hl by by rewrite <- list_fmap_compose.
  rewrite collect_list_to_map by done. split; [|by apply map_to_list_to_map].
  intros k x. rewrite <- elem_of_list_to_map by done. rewrite list_elem_of_fmap. naive_solver.
Qed.

(** A loop over a hash map that collects another and stops at the first
    error. *)
Definition try_collect {O : MapOrder} {E A B} (f : string → A → result E B) (m : gmap string A)
    : result E (gmap string B) :=
  entries ← try_map (λ '(key, a), b ← f key a; Ok (key, b)) (map_order m);
  Ok (collect_map entries).

(** Entries that are read as they were written. *)
Lemma try_collect_image {O : MapOrder} {Ook : MapOrderOk O} {E A B} (f : string → B → result E A) (g : A → B) (m : gmap string A) :
  (∀ k a, m !! k = Some a → f k (g a) = Ok a) → try_collect f (g <$> m) = Ok m.
Proof.
  intros Hf. unfold try_collect.
  assert (∃ l, try_map (λ '(key, a), b ← f key a; Ok (key, b)) (map_order (g <$> m)) = Ok l ∧
    NoDup l.*1 ∧ ∀ k a, (k, a) ∈ l ↔ m !! k = Some a) as (l & Hl & Hnd & Hin).
  { set (get k := m !! k).
    exists (omap (λ '(k, _), (k,.) <$> get k) (map_order (g <$> m))).
    assert (∀ l, (∀ kb, kb ∈ l → ∃ a, m !! kb.1 = Some a ∧ kb.2 = g a) →
      try_map (λ '(key, a), b ← f key a; Ok (key, b)) l =
        Ok (omap (λ '(k, _), (k,.) <$> get k) l) ∧
      (omap (λ '(k, _), (k,.) <$> get k) l).*1 = l.*1) as Hmap.
    { induction l as [|[k b] l IH]; [done|]. intros Hall. destruct IH as [IH1 IH2].
      { intros kb Hkb. apply Hall. by right. }
      destruct (Hall (k, b)) as (a & Ha & Hb); [by left|]. cbn in Ha, Hb. subst b.
      cbn. unfold get in *. rewrite Ha, (Hf _ _ Ha). cbn. cbn in IH1. rewrite IH1. cbn.
      split; [done|]. f_equal. exact IH2. }
    destruct (Hmap (map_order (g <$> m))) as [H1 H2].
    { intros [k b] Hkb%elem_of_map_order. rewrite lookup_fmap in Hkb.
      apply fmap_Some in Hkb as (a & Ha & ->). by exists a. }
    split_and!; [exact H1|rewrite H2; apply NoDup_fst_map_order|].
    intros k a. rewrite list_elem_of_omap. split.
    - intros ([k' b] & _ & Hk). unfold get in Hk. destruct (m !! k') eqn:Ek; [|done]. by simplify_eq/=.
    - intros Ha. exists (k, g a). rewrite elem_of_map_order, lookup_fmap, Ha. split; [done|].
      unfold get. by rewrite Ha. }
  rewrite Hl. cbn. f_equal. rewrite collect_list_to_map by done.
  apply map_eq. intros k. apply option_eq. intros a. by rewrite <- elem_of_list_to_map, Hin.
Qed.

(** A function of the key collected over a list of keys. *)
Lemma collect_map_fn {V} (f : string → option V) (keys : list string) k :
  collect_map (omap (λ k, (k,.) <$> f k) keys) !! k = if decide (k ∈ keys) then f k else None.
Proof.
  apply option_eq. intros v.
  assert (∀ v, (k, v) ∈ omap (λ k, (k,.) <$> f k) keys ↔ k ∈ keys ∧ f k = Some v) as Hin.
  { intros v'. rewrite list_elem_of_omap. split.
    - intros (k' & Hk' & Hf). destruct (f k') eqn:Hfk; naive_solver.
    - intros [Hk Hf]. exists k. by rewrite Hf. }
  split.
  - intros Hv%collect_map_Some. apply Hin in Hv as [Hk Hf]. by rewrite decide_True.
  - case_decide as Hk; [|done]. intros Hf.
    destruct (collect_map (omap (λ k, (k,.) <$> f k) keys) !! k) as [v'|] eqn:Hc.
    + apply collect_map_Some, Hin in Hc as [_ Hf']. congruence.
    + exfalso. eapply is_Some_None. rewrite <-Hc. apply collect_map_is_Some, list_elem_of_fmap.
      exists (k, v). split; [done|]. by apply Hin.
Qed.

(** ** Prefixes *)

Definition has_prefix (prefix_list : gset string) (key : string) : bool :=
  existsb (starts_with key) (elements prefix_list).

Lemma has_prefix_spec ps key :
  has_prefix ps key = true ↔ ∃ p t, p ∈ ps ∧ key = (p +:+ t)%string.
Proof.
  unfold has_prefix. rewrite existsb_True. setoid_rewrite elem_of_elements.
  setoid_rewrite starts_with_prefix. naive_solver.
Qed.

Definition filter_config_keys_by_prefix (overrides : Map) (prefix_list : gset string) : Map :=
  filter (λ '(key, _), has_prefix prefix_list key = true) overrides.

Lemma filter_config_keys_lookup m ps k :
  filter_config_keys_by_prefix m ps !! k = if has_prefix ps k then m !! k else None.
Proof.
  unfold filter_config_keys_by_prefix. rewrite map_lookup_filter.
  destruct (m !! k) as [v|] eqn:Hk; simpl; [|by destruct (has_prefix ps k)].
  destruct (has_prefix ps k) eqn:Hp.
  - by rewrite option_guard_True.
  - by rewrite option_guard_False.
Qed.

(** ** Items with a condition *)

(** The trait [Contextual]. *)
Class Contextual (A : Type) := get_condition : A → Condition.

#[export] Instance Context_contextual : Contextual Context := c_condition.

Section contextual.
Context {A : Type} `{Contextual A}.

Definition filter_by_eval (contexts : list A) (dimension_data : Map) : list A :=
  List.filter (λ context, partial_apply (get_condition context) dimension_data) contexts.

Definition filter_exact_match (contexts : list A) (dimension_data : Map) : list A :=
  List.filter (λ context,
      apply (get_condition context) dimension_data
      && (size (get_condition context) =? size dimension_data)) contexts.

Definition filter_by_dimension (contexts : list A) (dimension_keys : list string) : list A :=
  List.filter (λ context,
      forallb (λ dimension, bool_decide (is_Some (get_condition context !! dimension)))
        dimension_keys) contexts.
End contextual.

(** The trait [Overridden]: the overrides of the item cut to the prefixes, and
    validated again. *)
Definition filter_keys_by_prefix (overrides : Overrides) (prefix_list : gset string)
    : result string Overrides :=
  Overrides.validate_data (filter_config_keys_by_prefix overrides prefix_list).

(** ** [impl Config] *)

Module Config.
Section config.
Context {O : MapOrder} `{JsonLogic}.

Definition filter_by_dimensions (fuel : nat) (self : Config) (dimension_data : Map)
    : option Config :=
  modified_context ← evaluate_local_cohorts fuel (dimensions self) dimension_data;
  let filtered_context := filter_by_eval (contexts self) modified_context in
  let filtered_overrides :=
    collect_map (omap (λ ele,
        let override_with_key := OverrideWithKeys.get_key (c_override_with_keys ele) in
        (override_with_key,.) <$> (overrides self !! override_with_key))
      filtered_context) in
  Some (mkConfig filtered_context filtered_overrides (default_configs self)
          (dimensions self)).
End config.

Definition filter_default_by_prefix (self : Config) (prefix_list : gset string) : Map :=
  filter_config_keys_by_prefix (default_configs self) prefix_list.

(** The loop inserts, for every entry of the overrides, what is left of it
    under the same key, unless nothing is left. *)
Definition filter_by_prefix (self : Config) (prefix_list : gset string) : Config :=
  let filtered_default_config := filter_default_by_prefix self prefix_list in
  let filtered_overrides : gmap string Overrides :=
    omap (λ ov : Overrides,
        match cac_overrides_try_from (filter_config_keys_by_prefix ov prefix_list) with
        | Ok filtered_overrides_map => Some filtered_overrides_map
        | Err _ => None
        end) (overrides self) in
  let filtered_context :=
    List.filter (λ context,
        bool_decide (is_Some (filtered_overrides !!
          OverrideWithKeys.get_key (c_override_with_keys context)))) (contexts self) in
  mkConfig filtered_context filtered_overrides filtered_default_config (dimensions self).
End Config.

Lemma filter_by_prefix_overrides_lookup self ps k :
  overrides (Config.filter_by_prefix self ps) !! k =
    ov ← overrides self !! k;
    let kept := filter_config_keys_by_prefix ov ps in
    if decide (kept = ∅) then None else Some kept.
Proof.
  simpl. rewrite lookup_omap. destruct (overrides self !! k) as [ov|]; simpl; [|done].
  unfold cac_overrides_try_from, Overrides.validate_data.
  case_bool_decide; by case_decide.
Qed.

Lemma filter_by_dimensions_override_lookup (self : Config) (ctxs : list Context) k :
  collect_map (omap (λ ele,
      let key := OverrideWithKeys.get_key (c_override_with_keys ele) in
      (key,.) <$> (overrides self !! key)) ctxs) !! k =
  if decide (k ∈ c_override_with_keys <$> ctxs) then overrides self !! k else None.
Proof.
  rewrite <-(collect_map_fn (λ k, overrides self !! k)). do 2 f_equal.
  induction ctxs as [|c ctxs IH]; [done|]. unfold OverrideWithKeys.get_key in *.
  cbn -[lookup]. destruct (overrides self !! c_override_with_keys c); cbn -[lookup];
    [f_equal|]; exact IH.
Qed.
