(* ===== verification/Resolve.v ===== *)
(** * Resolution of a configuration

    [crates/superposition_core/src/config.rs]: the deep merge, the collection
    of the overrides of the contexts that apply, their application to the
    default configuration, and the two entry points [eval_config] and
    [eval_config_with_reasoning]. *)

From S2P Require Import Prelude Json Types Logic Config.

(** ** Deep merge *)

(** [merge(doc, patch)]: the final value of the mutated [doc]. The loop over
    the entries of the patch merges each into
    [map.entry(key).or_insert(Value::Null)]. *)
Fixpoint merge (doc patch : Value) {struct patch} : Value :=
  match patch with
  | VObject patch =>
      let map := match doc with VObject map => map | _ => ∅ end in
      VObject (map_fold (λ key value map,
                  <[key := merge (default VNull (map !! key)) value]> map) map patch)
  | _ => patch
  end.

Definition object_or_empty (v : Value) : Map :=
  match v with VObject m => m | _ => ∅ end.

Lemma map_fold_pointwise {A B} (f : string → A → option B → option B) (m0 : gmap string B)
    (m : gmap string A) k :
  map_fold (λ k v acc, partial_alter (f k v) k acc) m0 m !! k =
    match m !! k with Some v => f k v (m0 !! k) | None => m0 !! k end.
Proof.
  revert k. apply (map_fold_weak_ind (λ (r : gmap string B) (m : gmap string A), ∀ k,
    r !! k = match m !! k with Some v => f k v (m0 !! k) | None => m0 !! k end)).
  - intros k. by rewrite lookup_empty.
  - intros i v m' r Hi IH k. destruct (decide (i = k)) as [->|Hne].
    + rewrite lookup_partial_alter_eq, lookup_insert_eq, IH, Hi. done.
    + by rewrite lookup_partial_alter_ne, lookup_insert_ne.
Qed.

Lemma map_fold_insert_lookup {A B} (g : string → A → option B → B) (m0 : gmap string B)
    (m : gmap string A) k :
  map_fold (λ k v (acc : gmap string B), <[k := g k v (acc !! k)]> acc) m0 m !! k =
    match m !! k with Some v => Some (g k v (m0 !! k)) | None => m0 !! k end.
Proof.
  revert k. apply (map_fold_weak_ind (λ (r : gmap string B) (m : gmap string A), ∀ k,
    r !! k = match m !! k with Some v => Some (g k v (m0 !! k)) | None => m0 !! k end)).
  - intros k. by rewrite lookup_empty.
  - intros i v m' r Hi IH k. destruct (decide (i = k)) as [->|Hne].
    + by rewrite !lookup_insert_eq, IH, Hi.
    + by rewrite !lookup_insert_ne.
Qed.

(** The merge of an object, entry by entry. *)
Lemma merge_object doc p :
  ∃ m, merge doc (VObject p) = VObject m ∧
    ∀ k, m !! k = match p !! k with
                  | Some v => Some (merge (default VNull (object_or_empty doc !! k)) v)
                  | None => object_or_empty doc !! k
                  end.
Proof.
  eexists. split; [reflexivity|]. intros k.
  exact (map_fold_insert_lookup (λ _ v o, merge (default VNull o) v) _ _ k).
Qed.

Lemma merge_non_object doc p : is_object p = false → merge doc p = p.
Proof. by destruct p. Qed.

(** ** Overrides of the contexts that apply *)

(** [replace_top_level]: the final [doc], and whether [on_override] was
    called. *)
Definition replace_top_level (doc : Map) (patch : Value) : Map * bool :=
  match as_object patch with
  | Some patch_map => (map_fold (λ key value doc, <[key:=value]> doc) doc patch_map, true)
  | None => (doc, false)
  end.

Lemma replace_top_level_object doc p : replace_top_level doc (VObject p) = (p ∪ doc, true).
Proof.
  unfold replace_top_level. simpl. f_equal. apply map_eq. intros k.
  rewrite (map_fold_insert_lookup (λ _ v _, v)), lookup_union.
  by destruct (p !! k), (doc !! k).
Qed.

(** [as_object_mut().unwrap()] on a value that is not an object panics. *)
Definition unwrap_panic : string := "called `Option::unwrap()` on a `None` value".

Section get_overrides.
Context (query_data : Map) (overrides : gmap string Overrides)
  (merge_strategy : MergeStrategy).

(** One turn of the loop: the state is [required_overrides] and the contexts
    handed to [on_override_select], in order. *)
Definition override_step (required_overrides : Value) (selected : list Context)
    (context : Context) : result string (Value * list Context) :=
  if apply (c_condition context) query_data then
    let override_key := OverrideWithKeys.get_key (c_override_with_keys context) in
    match overrides !! override_key with
    | Some overriden_value =>
        match merge_strategy with
        | REPLACE =>
            doc ← ok_or (as_object required_overrides) unwrap_panic;
            let '(doc, called) := replace_top_level doc (VObject overriden_value) in
            Ok (VObject doc, if called : bool then selected ++ [context] else selected)
        | MERGE =>
            Ok (merge required_overrides (VObject overriden_value), selected ++ [context])
        end
    | None => Ok (required_overrides, selected)
    end
  else Ok (required_overrides, selected).

Fixpoint override_loop (contexts : list Context) (required_overrides : Value)
    (selected : list Context) : result string (Value * list Context) :=
  match contexts with
  | [] => Ok (required_overrides, selected)
  | context :: contexts =>
      '(required_overrides, selected) ← override_step required_overrides selected context;
      override_loop contexts required_overrides selected
  end.

Definition get_overrides (contexts : list Context) : result string (Map * list Context) :=
  '(required_overrides, selected) ← override_loop contexts (VObject ∅) [];
  match required_overrides with
  | VObject map => Ok (map, selected)
  | _ => Err "Failed to create overrides map"
  end.

(** *** What it computes *)

(** The context takes part: its condition holds and its override exists. *)
Definition selects (context : Context) : bool :=
  apply (c_condition context) query_data &&
  bool_decide (is_Some (overrides !! c_override_with_keys context)).

(** The value a context assigns to a key. *)
Definition assigns (k : string) (context : Context) : option Value :=
  if apply (c_condition context) query_data
  then (overrides !! c_override_with_keys context) ≫= (.!! k)
  else None.

(** The values assigned to a key, from the least to the most specific. *)
Definition assigned (k : string) (contexts : list Context) : list Value :=
  omap (assigns k) contexts.

Definition overlay_one (o : option Value) (v : Value) : Value :=
  match merge_strategy with
  | REPLACE => v
  | MERGE => merge (default VNull o) v
  end.

(** Their combination by the strategy. *)
Definition overlay (o : option Value) (vs : list Value) : option Value :=
  foldl (λ o v, Some (overlay_one o v)) o vs.

Lemma override_step_spec m selected context :
  ∃ m', override_step (VObject m) selected context =
          Ok (VObject m', selected ++ if selects context then [context] else []) ∧
        ∀ k, m' !! k = match assigns k context with
                       | Some v => Some (overlay_one (m !! k) v)
                       | None => m !! k
                       end.
Proof.
  unfold override_step, selects, assigns, OverrideWithKeys.get_key.
  destruct (apply (c_condition context) query_data); simpl.
  2:{ exists m. by rewrite app_nil_r. }
  destruct (overrides !! c_override_with_keys context) as [ov|] eqn:Hov; simpl.
  2:{ exists m. by rewrite app_nil_r. }
  unfold overlay_one. destruct merge_strategy.
  - destruct (merge_object (VObject m) ov) as (m' & Hm' & Hk). simpl in Hm'.
    eexists. split; [reflexivity|]. simplify_eq. intros k. rewrite Hk. simpl.
    by destruct (ov !! k).
  - exists (ov ∪ m). simpl.
    pose proof (replace_top_level_object m ov) as Hr.
    unfold replace_top_level in Hr. simpl in Hr. simplify_eq. rewrite H.
    split; [done|]. intros k. rewrite lookup_union. by destruct (ov !! k), (m !! k).
Qed.

Lemma override_loop_spec contexts m selected :
  ∃ m', override_loop contexts (VObject m) selected =
          Ok (VObject m', selected ++ List.filter selects contexts) ∧
        ∀ k, m' !! k = overlay (m !! k) (assigned k contexts).
Proof.
  revert m selected. induction contexts as [|context contexts IH]; intros m selected.
  { exists m. simpl. by rewrite app_nil_r. }
  cbn [override_loop]. destruct (override_step_spec m selected context) as (m1 & -> & Hm1).
  cbn. destruct (IH m1 (selected ++ if selects context then [context] else []))
    as (m' & -> & Hm'). exists m'. split.
  - f_equal. f_equal. rewrite <-(assoc_L (++)). f_equal. by destruct (selects context).
  - intros k. rewrite Hm', Hm1. unfold assigned. simpl.
    by destruct (assigns k context).
Qed.

(** [get_overrides] never fails. *)
Lemma get_overrides_spec contexts :
  ∃ m, get_overrides contexts = Ok (m, List.filter selects contexts) ∧
       ∀ k, m !! k = overlay None (assigned k contexts).
Proof.
  unfold get_overrides. destruct (override_loop_spec contexts ∅ []) as (m & -> & Hm).
  exists m. split; [done|]. intros k. by rewrite Hm, lookup_empty.
Qed.
End get_overrides.

(** ** Onto the default configuration *)

(** An override of a key that is not a default configuration key is logged and
    skipped. *)
Definition merge_overrides_on_default_config (default_config overrides : Map)
    (merge_strategy : MergeStrategy) : Map :=
  map_fold (λ key val (default_config : Map),
      match default_config !! key with
      | Some og_val =>
          match merge_strategy with
          | REPLACE => <[key:=val]> default_config
          | MERGE => <[key:=merge og_val val]> default_config
          end
      | None => default_config
      end) default_config overrides.

Lemma merge_overrides_lookup dc ov strategy k :
  merge_overrides_on_default_config dc ov strategy !! k =
    og ← dc !! k;
    Some (match ov !! k with Some v => overlay_one strategy (Some og) v | None => og end).
Proof.
  unfold merge_overrides_on_default_config. revert k.
  apply (map_fold_weak_ind (λ (r : Map) (ov : Map), ∀ k, r !! k = og ← dc !! k;
    Some (match ov !! k with Some v => overlay_one strategy (Some og) v | None => og end))).
  - intros k. rewrite lookup_empty. by destruct (dc !! k).
  - intros i v ov' r Hi IH k. destruct (decide (i = k)) as [->|Hne].
    + rewrite lookup_insert_eq. pose proof (IH k) as Hk. rewrite Hi in Hk.
      destruct (dc !! k) as [og|]; simpl in *; rewrite Hk; [|done].
      unfold overlay_one. by destruct strategy; rewrite lookup_insert_eq.
    + rewrite lookup_insert_ne by done. rewrite <-IH.
      destruct (r !! i); [|done]. by destruct strategy; rewrite lookup_insert_ne.
Qed.

(** ** The entry points *)

Section eval.
Context {O : MapOrder} `{JsonLogic}.

(** The [if let Some(prefixes) = filter_prefixes] of both entry points. *)
Definition apply_filter_prefixes (config : Config) (filter_prefixes : option (list string))
    : Config :=
  match filter_prefixes with
  | Some prefixes =>
      if bool_decide (prefixes = []) then config
      else Config.filter_by_prefix config (list_to_set prefixes)
  | None => config
  end.

(** The result is [None] when the cohort evaluation runs out of fuel. *)
Definition eval_config (fuel : nat) (default_config : Map) (contexts : list Context)
    (overrides : gmap string Overrides) (dimensions : gmap string DimensionInfo)
    (query_data : Map) (merge_strategy : MergeStrategy)
    (filter_prefixes : option (list string)) : option (result string Map) :=
  let config := apply_filter_prefixes
    (mkConfig contexts overrides default_config dimensions) filter_prefixes in
  modified_query_data ← evaluate_local_cohorts fuel (Types.dimensions config) query_data;
  Some ('(overrides_map, _) ←
          get_overrides modified_query_data (Types.overrides config) merge_strategy
            (Types.contexts config);
        Ok (merge_overrides_on_default_config (default_configs config) overrides_map
              merge_strategy)).

(** An entry of the reasoning: [json!({"context": .., "override": ..})]. *)
Definition reasoning_entry (context : Context) : Value :=
  VObject (<["context" := VObject (c_condition context)]>
    {[ "override" := VArray (VString <$> OverrideWithKeys.to_vec (c_override_with_keys context)) ]}).

Definition eval_config_with_reasoning (fuel : nat) (default_config : Map)
    (contexts : list Context) (overrides : gmap string Overrides)
    (dimensions : gmap string DimensionInfo) (query_data : Map)
    (merge_strategy : MergeStrategy) (filter_prefixes : option (list string))
    : option (result string Map) :=
  let config := apply_filter_prefixes
    (mkConfig contexts overrides default_config dimensions) filter_prefixes in
  modified_query_data ← evaluate_local_cohorts fuel (Types.dimensions config) query_data;
  Some ('(overrides_map, selected) ←
          get_overrides modified_query_data (Types.overrides config) merge_strategy
            (Types.contexts config);
        let result_config :=
          merge_overrides_on_default_config (default_configs config) overrides_map
            merge_strategy in
        Ok (<["metadata" := VArray (reasoning_entry <$> selected)]> result_config)).
End eval.

(** * Lemmas on resolution shared by its theorems *)

(** The cascade: the values assigned to a key are overlaid on one another, from
    the first to the last, and the outcome is overlaid once onto the default
    value. Under [MERGE] this is not the overlay of the default with one value
    after the other: a value that is no object is dropped by an object after it,
    and then leaves the default in place. *)
Definition cascade (strategy : MergeStrategy) (d : Value) (vs : list Value) : Value :=
  match overlay strategy None vs with
  | Some v => overlay_one strategy (Some d) v
  | None => d
  end.

Lemma overlay_replace o vs :
  overlay REPLACE o vs = match last vs with Some v => Some v | None => o end.
Proof.
  unfold overlay. revert o. induction vs as [|v vs IH]; intros o; [done|].
  cbn [foldl]. rewrite IH. destruct vs as [|v' vs]; [done|].
  change (last (v :: v' :: vs)) with (last (v' :: vs)).
  by destruct (last (v' :: vs)) eqn:Hl; [|apply last_None in Hl].
Qed.

Lemma cascade_replace d vs : cascade REPLACE d vs = default d (last vs).
Proof. unfold cascade. rewrite overlay_replace. by destruct (last vs). Qed.

(** *** Values assigned again *)

(** The deep merge is idempotent: applying the same override twice, at any
    depth of nesting, changes nothing. *)
Lemma merge_idempotent (doc patch : Value) :
  merge (merge doc patch) patch = merge doc patch.
Proof.
  revert doc. induction patch as [| | | | |m IH] using Value_ind'; intros doc; try done.
  destruct (merge_object doc m) as (m1 & -> & H1).
  destruct (merge_object (VObject m1) m) as (m2 & -> & H2). simpl in H2.
  f_equal. apply map_eq. intros k. rewrite H2, H1.
  destruct (m !! k) as [v|] eqn:Hk; [|done]. simpl. f_equal. by apply (IH k v Hk).
Qed.

Lemma merge_null (v : Value) : merge VNull v = v.
Proof.
  induction v as [| | | | |m IH] using Value_ind'; try done.
  destruct (merge_object VNull m) as (m1 & -> & H1). f_equal. apply map_eq. intros k. rewrite H1.
  unfold object_or_empty. rewrite lookup_empty. destruct (m !! k) as [v|] eqn:Hk; [|done].
  cbn. f_equal. by apply (IH k v Hk).
Qed.

Lemma merge_self (v : Value) : merge v v = v.
Proof. rewrite <- (merge_null v) at 1 3. apply merge_idempotent. Qed.

(** A value that may be missing, merged onto one that may be. *)
Definition merge_onto (d o : option Value) : option Value :=
  match o with Some v => Some (merge (default VNull d) v) | None => d end.

Definition entry_of (o : option Value) (k : string) : option Value :=
  object_or_empty (default VNull o) !! k.

Lemma merge_onto_entry d o k :
  merge_onto (entry_of d k) (entry_of o k) =
  match merge_onto d o with Some (VObject m) => m !! k | _ => entry_of d k end.
Proof.
  destruct o as [[| | | | |m]|]; try done; cbn [merge_onto]; unfold entry_of at 2;
    cbn [object_or_empty default from_option id].
  - destruct (merge_object (default VNull d) m) as (m' & -> & Hk). rewrite Hk.
    by destruct (m !! k).
  - unfold entry_of. by destruct d as [[]|].
Qed.

(** What two values do to a third one decides what they do after a patch. *)
Lemma merge_onto_patched (v : Value) d x y :
  merge_onto d x = merge_onto d y →
  merge_onto d (Some (merge (default VNull x) v)) = merge_onto d (Some (merge (default VNull y) v)).
Proof.
  revert d x y. induction v as [| | | | |m IH] using Value_ind'; intros d x y Hxy; try done.
  cbn [merge_onto].
  destruct (merge_object (default VNull x) m) as (m1 & -> & H1).
  destruct (merge_object (default VNull y) m) as (m2 & -> & H2).
  destruct (merge_object (default VNull d) m1) as (m3 & -> & H3).
  destruct (merge_object (default VNull d) m2) as (m4 & -> & H4).
  do 2 f_equal. apply map_eq. intros k. rewrite H3, H4, H1, H2.
  assert (merge_onto (entry_of d k) (entry_of x k) = merge_onto (entry_of d k) (entry_of y k)) as He
    by by rewrite !merge_onto_entry, Hxy.
  destruct (m !! k) as [v|] eqn:Hk; [|exact He]. exact (IH k v Hk _ _ _ He).
Qed.

Lemma overlay_merge_onto d x y vs :
  merge_onto d x = merge_onto d y →
  merge_onto d (overlay MERGE x vs) = merge_onto d (overlay MERGE y vs).
Proof.
  unfold overlay. revert x y. induction vs as [|v vs IH]; intros x y Hxy; [done|].
  apply IH. by apply merge_onto_patched.
Qed.

Lemma cascade_merge d vs : Some (cascade MERGE d vs) = merge_onto (Some d) (overlay MERGE None vs).
Proof. unfold cascade. by destruct (overlay _ _ _). Qed.

(** Assigning to a key the value it has anyway changes nothing, whatever is
    assigned later. *)
Lemma cascade_repeated strategy d vs us :
  cascade strategy d (vs ++ default d (last vs) :: us) = cascade strategy d (vs ++ us).
Proof.
  destruct strategy; cycle 1.
  { rewrite !cascade_replace, !last_app, last_cons.
    by destruct (last us), (last vs). }
  destruct vs as [|v vs _] using rev_ind.
  - cbn. apply (inj Some). rewrite !cascade_merge. symmetry.
    change (overlay MERGE None (d :: us)) with (overlay MERGE (Some (merge VNull d)) us).
    apply overlay_merge_onto. cbn. by rewrite merge_null, merge_self.
  - rewrite last_snoc. cbn [default]. unfold cascade, overlay. rewrite <- !(assoc_L (++)), !foldl_app.
    cbn. by rewrite merge_idempotent.
Qed.

Lemma overlay_is_Some strategy o vs : is_Some o → is_Some (overlay strategy o vs).
Proof.
  unfold overlay. revert o. induction vs as [|v vs IH]; intros o Ho; [done|].
  apply IH. by eexists.
Qed.

(** Scalars overlay the same way under both strategies. *)
Lemma overlay_flat o vs :
  Forall (λ v, is_object v = false) vs → overlay MERGE o vs = overlay REPLACE o vs.
Proof.
  unfold overlay. intros Hf. revert o. induction Hf as [|v vs Hv _ IH]; intros o; [done|].
  cbn [foldl]. unfold overlay_one at 2 4. by rewrite merge_non_object.
Qed.

(** Dropping elements on which a partial map is undefined. *)
Lemma omap_filter {A B} (f g : A → option B) (p : A → bool) l :
  (∀ x, x ∈ List.filter p l → f x = g x) →
  (∀ x, x ∈ l → p x = false → g x = None) →
  omap f (List.filter p l) = omap g l.
Proof.
  induction l as [|x l IH]; intros Hf Hg; [done|]. cbn [List.filter] in *.
  assert (omap f (List.filter p l) = omap g l) as E.
  { apply IH; [intros y Hy; apply Hf; destruct (p x); set_solver|set_solver]. }
  destruct (p x) eqn:Hp; cbn.
  - rewrite (Hf x) by set_solver. destruct (g x); [f_equal|]; exact E.
  - rewrite (Hg x) by set_solver. exact E.
Qed.

(** Where the last value of a partial map comes from. *)
Lemma last_omap {A B} (f : A → option B) l :
  (last (omap f l) = None ∧ ∀ x, x ∈ l → f x = None) ∨
  ∃ before x after v, l = before ++ x :: after ∧ f x = Some v ∧
    last (omap f l) = Some v ∧ ∀ y, y ∈ after → f y = None.
Proof.
  induction l as [|x l IH] using rev_ind.
  { left. split; [done|]. by intros ? ?%elem_of_nil. }
  rewrite omap_app.
  assert (omap f [x] = match f x with Some v => [v] | None => [] end) as -> by done.
  destruct (f x) as [v|] eqn:Hx.
  - right. exists l, x, [], v. split_and!; [done..|by rewrite last_snoc|by intros ? ?%elem_of_nil].
  - rewrite app_nil_r. destruct IH as [[Hl Hn]|(before & y & after & v & -> & Hy & Hl & Hn)].
    + left. split; [done|]. intros y. rewrite elem_of_app, list_elem_of_singleton. naive_solver.
    + right. exists before, y, (after ++ [x]), v. rewrite <-(assoc_L (++)).
      split_and!; [done..|]. intros z. rewrite elem_of_app, list_elem_of_singleton. naive_solver.
Qed.

Lemma cascade_flat d vs :
  Forall (λ v, is_object v = false) vs → cascade MERGE d vs = cascade REPLACE d vs.
Proof.
  intros Hf. unfold cascade. rewrite overlay_flat by done. rewrite overlay_replace.
  destruct (last vs) as [v|] eqn:Hl; [|done]. apply merge_non_object.
  rewrite Forall_forall in Hf. by apply Hf, last_Some_elem_of.
Qed.

Section keys.
Context (mq : Map).

Lemma assigns_Some (ovs : gmap string Overrides) k c v :
  assigns mq ovs k c = Some v ↔
  apply (c_condition c) mq = true ∧
  ∃ ov, ovs !! c_override_with_keys c = Some ov ∧ ov !! k = Some v.
Proof.
  unfold assigns. destruct (apply _ _); [|naive_solver]. rewrite bind_Some. naive_solver.
Qed.

(** Where the last assigned value comes from. *)
Lemma last_assigned (ovs : gmap string Overrides) k ctxs :
  (last (assigned mq ovs k ctxs) = None ∧ ∀ c, c ∈ ctxs → assigns mq ovs k c = None) ∨
  ∃ before c after v, ctxs = before ++ c :: after ∧ assigns mq ovs k c = Some v ∧
    last (assigned mq ovs k ctxs) = Some v ∧ ∀ c', c' ∈ after → assigns mq ovs k c' = None.
Proof. apply last_omap. Qed.

(** Cutting a configuration to prefixes leaves the assignments of the keys
    kept as they are. *)
Lemma assigned_filter_by_prefix (config : Config) ps k :
  has_prefix ps k = true →
  assigned mq (overrides (Config.filter_by_prefix config ps)) k
    (contexts (Config.filter_by_prefix config ps)) =
  assigned mq (overrides config) k (contexts config).
Proof.
  intros Hk. unfold assigned.
  assert (∀ c, (overrides (Config.filter_by_prefix config ps) !! c_override_with_keys c) ≫= (.!! k) =
               (overrides config !! c_override_with_keys c) ≫= (.!! k)) as Hov.
  { intros c. rewrite filter_by_prefix_overrides_lookup.
    destruct (overrides config !! c_override_with_keys c) as [ov|]; [|done]. simpl.
    assert (filter_config_keys_by_prefix ov ps !! k = ov !! k) as Hf
      by by rewrite filter_config_keys_lookup, Hk.
    case_decide as He; simpl; [|done]. by rewrite <-Hf, He, lookup_empty. }
  apply omap_filter.
  - intros c _. unfold assigns. by rewrite Hov.
  - intros c _ Hin. unfold assigns. rewrite <-Hov.
    apply bool_decide_eq_false, eq_None_not_Some in Hin. unfold OverrideWithKeys.get_key in Hin.
    simpl in *. rewrite Hin. by destruct (apply _ _).
Qed.

(** Filtering by a request [mq] keeps the assignments under any completion
    of it. *)
Lemma assigned_filter_by_eval (mq' : Map) (ovs ovs' : gmap string Overrides) k
    (ctxs : list Context) :
  mq ⊆ mq' →
  (∀ c, c ∈ filter_by_eval ctxs mq → ovs' !! c_override_with_keys c = ovs !! c_override_with_keys c) →
  assigned mq' ovs' k (filter_by_eval ctxs mq) = assigned mq' ovs k ctxs.
Proof.
  intros Hsub Hov. unfold assigned. apply omap_filter.
  - intros c Hc. unfold assigns. by rewrite Hov.
  - intros c _ Hp. unfold assigns.
    destruct (apply (c_condition c) mq') eqn:Ha; [|done].
    apply apply_partial_apply, (partial_apply_antimono _ _ _ Hsub) in Ha.
    unfold get_condition, Context_contextual in Hp. congruence.
Qed.
End keys.

(** The keys that a request with the prefixes [prefixes] asks for. *)
Definition asked_for (prefixes : option (list string)) (k : string) : bool :=
  match prefixes with
  | None | Some [] => true
  | Some ps => has_prefix (list_to_set ps) k
  end.

Lemma filtered_key (config : Config) (prefixes : option (list string)) (mq : Map) strategy k :
  let cut := apply_filter_prefixes config prefixes in
  (d ← default_configs cut !! k;
     Some (cascade strategy d (assigned mq (overrides cut) k (contexts cut)))) =
  if asked_for prefixes k
  then d ← default_configs config !! k;
       Some (cascade strategy d (assigned mq (overrides config) k (contexts config)))
  else None.
Proof.
  destruct prefixes as [[|p ps]|]; [done| |done]. cbn zeta. unfold apply_filter_prefixes.
  rewrite bool_decide_false by done. unfold asked_for.
  cbn [default_configs Config.filter_by_prefix]. unfold Config.filter_default_by_prefix.
  rewrite filter_config_keys_lookup. destruct (has_prefix _ k) eqn:Hk; [|done].
  by rewrite assigned_filter_by_prefix.
Qed.

Section eval.
Context {JL : JsonLogic} {O : MapOrder} {Ook : MapOrderOk O}.

Lemma eval_config_spec fuel dc ctxs ovs dims q strategy prefixes mq :
  evaluate_local_cohorts fuel dims q = Some mq →
  let config := apply_filter_prefixes (mkConfig ctxs ovs dc dims) prefixes in
  ∃ r, eval_config fuel dc ctxs ovs dims q strategy prefixes = Some (Ok r) ∧
    (∀ k, r !! k = d ← default_configs config !! k;
                   Some (cascade strategy d (assigned mq (overrides config) k (contexts config)))) ∧
    eval_config_with_reasoning fuel dc ctxs ovs dims q strategy prefixes =
      Some (Ok (<["metadata" := VArray (reasoning_entry <$>
                   List.filter (selects mq (overrides config)) (contexts config))]> r)).
Proof.
  intros Hev config. unfold eval_config, eval_config_with_reasoning. fold config.
  assert (dimensions config = dims) as ->.
  { unfold config, apply_filter_prefixes. destruct prefixes; [by case_bool_decide|done]. }
  rewrite Hev. cbn [mbind option_bind].
  destruct (get_overrides_spec mq (overrides config) strategy (contexts config)) as (m & -> & Hm).
  eexists. split; [reflexivity|]. split; [|reflexivity].
  intros k. rewrite merge_overrides_lookup. unfold cascade. by rewrite Hm.
Qed.

(** The value of each key, however the configuration is cut to prefixes. *)
Lemma eval_config_lookup fuel dc ctxs ovs dims q strategy prefixes mq :
  evaluate_local_cohorts fuel dims q = Some mq →
  ∃ r, eval_config fuel dc ctxs ovs dims q strategy prefixes = Some (Ok r) ∧
    ∀ k, r !! k = if asked_for prefixes k
                  then d ← dc !! k; Some (cascade strategy d (assigned mq ovs k ctxs))
                  else None.
Proof.
  intros Hmq. destruct (eval_config_spec fuel dc ctxs ovs dims q strategy prefixes mq Hmq)
    as (r & Hr & Hk & _).
  exists r. split; [done|]. intros k. rewrite Hk. apply (filtered_key (mkConfig ctxs ovs dc dims)).
Qed.
End eval.
