(* ===== verification/ExpModels.v ===== *)
(** * The experimentation data model

    [crates/superposition_types/src/database/models/experimentation.rs]:
    experiments with their status machine, traffic percentages, variants,
    experiment groups and their hundred buckets. Timestamps are integers. *)

From S2P Require Import Prelude Json Types Text Config.

(** ** Status *)

Inductive ExperimentStatusType : Type :=
  | CREATED | INPROGRESS | PAUSED | CONCLUDED | DISCARDED.

#[export] Instance ExperimentStatusType_eq_dec : EqDecision ExperimentStatusType.
Proof. solve_decision. Defined.

Module ExperimentStatusType.
Definition active (self : ExperimentStatusType) : bool :=
  match self with
  | CREATED | INPROGRESS => true
  | CONCLUDED | DISCARDED | PAUSED => false
  end.

Definition active_list : list ExperimentStatusType := [CREATED; INPROGRESS].

Definition concludable (self : ExperimentStatusType) : bool :=
  match self with
  | INPROGRESS => true
  | CREATED | CONCLUDED | DISCARDED | PAUSED => false
  end.

Definition discardable (self : ExperimentStatusType) : bool :=
  match self with
  | CREATED | PAUSED | INPROGRESS => true
  | CONCLUDED | DISCARDED => false
  end.

Definition pausable (self : ExperimentStatusType) : bool :=
  match self with
  | INPROGRESS => true
  | CREATED | CONCLUDED | DISCARDED | PAUSED => false
  end.

Definition resumable (self : ExperimentStatusType) : bool :=
  match self with
  | PAUSED => true
  | CREATED | INPROGRESS | CONCLUDED | DISCARDED => false
  end.

(** strum's [Display] with [UPPERCASE]. *)
Definition to_string (self : ExperimentStatusType) : string :=
  match self with
  | CREATED => "CREATED" | INPROGRESS => "INPROGRESS" | PAUSED => "PAUSED"
  | CONCLUDED => "CONCLUDED" | DISCARDED => "DISCARDED"
  end.
End ExperimentStatusType.

Inductive ExperimentType : Type := EDefault | DeleteOverrides.

#[export] Instance ExperimentType_eq_dec : EqDecision ExperimentType.
Proof. solve_decision. Defined.

Module ExperimentType.
(** strum's [Display] with [SCREAMING_SNAKE_CASE]. *)
Definition to_string (self : ExperimentType) : string :=
  match self with EDefault => "DEFAULT" | DeleteOverrides => "DELETE_OVERRIDES" end.
End ExperimentType.

(** ** Traffic *)

Module TrafficPercentage.
Definition range_error : string :=
  "Traffic percentage must be a number between 0 and 100 (both inclusive)".

(** [validate]: [val] is an [i32] or a [u8]; the conversion to [u8] fails
    outside of its range. *)
Definition validate (val : Z) : result string unit :=
  value ← (if bool_decide (0 ≤ val < 2 ^ 8)%Z then Ok val else Err range_error);
  if bool_decide (100 < value)%Z then Err range_error else Ok tt.

(** [value as u8] after the validation. *)
Definition try_from (value : Z) : result string Z :=
  _ ← validate value; Ok (wrap8 value).

Definition try_from_string (value : string) : result string Z :=
  match parse_i32 value with
  | Ok percent => try_from percent
  | Err err => Err ("Traffic percent could not be parsed. reason: " +:+ int_error err)
  end.

Definition check_max_allowed (self variants_count : Z) : result string unit :=
  let max := if bool_decide (variants_count < 2)%Z then 100%Z else (100 `div` variants_count)%Z in
  if bool_decide (max < self)%Z then
    Err ("The traffic_percentage cannot exceed " +:+ pretty max +:+
         ". Provide a traffic percentage less than " +:+ pretty max)
  else Ok tt.

Definition compare_old (self old : Z) : result string unit :=
  if negb (bool_decide (self = 0)%Z) && bool_decide (self = old)%Z
  then Err "The traffic percentage is same as provided"
  else Ok tt.

Lemma traffic_percentage_try_from_ok z t : try_from z = Ok t ↔ t = z ∧ (0 ≤ z ≤ 100)%Z.
Proof.
  unfold try_from, validate.
  destruct (decide (0 ≤ z < 2 ^ 8)%Z) as [Hz|Hz].
  - rewrite bool_decide_true by done. simpl. rewrite wrap8_id by done. case_bool_decide; simpl.
    + split; [done|lia].
    + split; [intros [= <-]; split; [done|lia]|by intros [-> _]].
  - rewrite bool_decide_false by done. simpl. split; [done|]. lia.
Qed.

Lemma check_max_allowed_ok t n :
  check_max_allowed t n = Ok tt ↔
  (t ≤ if bool_decide (n < 2)%Z then 100 else 100 `div` n)%Z.
Proof. unfold check_max_allowed. case_bool_decide as E; [split; [done|lia]|split; [lia|done]]. Qed.
End TrafficPercentage.

(** ** Variants *)

Inductive VariantType : Type := CONTROL | EXPERIMENTAL.

#[export] Instance VariantType_eq_dec : EqDecision VariantType.
Proof. solve_decision. Defined.

Record Variant : Type := mkVariant {
  v_id : string;
  v_variant_type : VariantType;
  v_context_id : option string;
  v_override_id : option string;
  v_overrides : Overrides;
}.

#[export] Instance Variant_eq_dec : EqDecision Variant.
Proof. solve_decision. Defined.

Abbreviation Variants := (list Variant).

(** [Variant::filter_keys_by_prefix], through [Overridden]. *)
Definition variant_filter_keys_by_prefix (self : Variant) (prefix_list : gset string)
    : result string Overrides :=
  filter_keys_by_prefix (v_overrides self) prefix_list.

(** ** Experiments *)

Record MetricSource : Type := mkGrafana {
  ms_base_url : string;
  ms_dashboard_uid : string;
  ms_dashboard_slug : string;
  ms_variant_id_alias : option string;
}.

Record Metrics : Type := mkMetrics {
  m_enabled : bool;
  m_source : option MetricSource;
}.

#[export] Instance MetricSource_eq_dec : EqDecision MetricSource.
Proof. solve_decision. Defined.
#[export] Instance Metrics_eq_dec : EqDecision Metrics.
Proof. solve_decision. Defined.

Module Metrics.
Definition source (self : Metrics) : option MetricSource :=
  if m_enabled self then m_source self else None.

(** The check of [deserialize], on the fields of its helper. *)
Definition deserialize (helper : Metrics) : result string Metrics :=
  if m_enabled helper && bool_decide (m_source helper = None)
  then Err "`source` must be provided when enabled is true"
  else Ok (mkMetrics (m_enabled helper) (m_source helper)).
End Metrics.

Record Experiment : Type := mkExperiment {
  e_id : Z;
  e_created_at : Z;
  e_created_by : string;
  e_last_modified : Z;
  e_name : string;
  e_experiment_type : ExperimentType;
  e_override_keys : list string;
  e_status : ExperimentStatusType;
  e_traffic_percentage : Z;
  e_started_at : option Z;
  e_started_by : option string;
  e_context : Condition;
  e_variants : Variants;
  e_last_modified_by : string;
  e_chosen_variant : option string;
  e_description : string;
  e_change_reason : string;
  e_metrics : Metrics;
  e_experiment_group_id : option Z;
}.

#[export] Instance Experiment_eq_dec : EqDecision Experiment.
Proof. solve_decision. Defined.

#[export] Instance Experiment_contextual : Contextual Experiment := e_context.

(** ** Groups and buckets *)

Inductive GroupType : Type := UserCreated | SystemGenerated.

#[export] Instance GroupType_eq_dec : EqDecision GroupType.
Proof. solve_decision. Defined.

Record Bucket : Type := mkBucket {
  b_variant_id : string;
  b_experiment_id : string;
}.

#[export] Instance Bucket_eq_dec : EqDecision Bucket.
Proof. solve_decision. Defined.

(** [Buckets([Option<Bucket>; 100])]: a list, of length 100. *)
Abbreviation Buckets := (list (option Bucket)).

Module Buckets.
Definition default : Buckets := replicate 100 None.

Definition try_from (value : list (option Bucket)) : result string Buckets :=
  let size := length value in
  if bool_decide (size = 100) then Ok value
  else Err ("Buckets must contain exactly 100 elements, got " +:+ pretty (Z.of_nat size)).
End Buckets.

Record ExperimentGroup : Type := mkExperimentGroup {
  g_id : Z;
  g_context_hash : string;
  g_name : string;
  g_description : string;
  g_change_reason : string;
  g_context : Condition;
  g_traffic_percentage : Z;
  g_member_experiment_ids : list Z;
  g_created_at : Z;
  g_created_by : string;
  g_last_modified_at : Z;
  g_last_modified_by : string;
  g_buckets : Buckets;
  g_group_type : GroupType;
}.

#[export] Instance ExperimentGroup_eq_dec : EqDecision ExperimentGroup.
Proof. solve_decision. Defined.
