(* ===== verification/Bucketing.v ===== *)
(** * Assignment of variants to a request

    First the default hasher of the standard library: [std::hash::DefaultHasher] is SipHash-1-3 with two zero keys over the
    stream of bytes the value writes: a [str] writes its bytes and [0xff], an
    [i64] its eight bytes in little-endian order. Words are 64 bits wide. *)

From S2P Require Import Prelude Json Types Logic Config ExpModels.

Open Scope Z_scope.

Definition rotl64 (x : Z) (n : Z) : Z :=
  Z.lor (wrap64 (Z.shiftl x n)) (Z.shiftr x (64 - n)).

Record sip_state : Type := mkSip { sv0 : Z; sv1 : Z; sv2 : Z; sv3 : Z }.

Definition sip_round (s : sip_state) : sip_state :=
  let v0 := wrap64 (sv0 s + sv1 s) in
  let v2 := wrap64 (sv2 s + sv3 s) in
  let v1 := Z.lxor (rotl64 (sv1 s) 13) v0 in
  let v0 := rotl64 v0 32 in
  let v3 := Z.lxor (rotl64 (sv3 s) 16) v2 in
  let v0 := wrap64 (v0 + v3) in
  let v3 := Z.lxor (rotl64 v3 21) v0 in
  let v2 := wrap64 (v2 + v1) in
  let v1 := Z.lxor (rotl64 v1 17) v2 in
  let v2 := rotl64 v2 32 in
  mkSip v0 v1 v2 v3.

Definition sip_init (k0 k1 : Z) : sip_state :=
  mkSip (Z.lxor k0 0x736f6d6570736575) (Z.lxor k1 0x646f72616e646f6d)
    (Z.lxor k0 0x6c7967656e657261) (Z.lxor k1 0x7465646279746573).

(** One 64-bit block, one round. *)
Definition sip_absorb (s : sip_state) (m : Z) : sip_state :=
  let s := sip_round (mkSip (sv0 s) (sv1 s) (sv2 s) (Z.lxor (sv3 s) m)) in
  mkSip (Z.lxor (sv0 s) m) (sv1 s) (sv2 s) (sv3 s).

Fixpoint le_bytes (bs : list Z) : Z :=
  match bs with
  | [] => 0
  | b :: bs => Z.lor b (Z.shiftl (le_bytes bs) 8)
  end.

(** Full blocks; the last block holds the rest and the length in its top
    byte. *)
Fixpoint sip_blocks (fuel : nat) (s : sip_state) (len : Z) (bs : list Z) : sip_state :=
  match fuel with
  | O => s
  | S fuel =>
      if (length bs <? 8)%nat
      then sip_absorb s (Z.lor (Z.shiftl (wrap8 len) 56) (le_bytes bs))
      else sip_blocks fuel (sip_absorb s (le_bytes (take 8 bs))) len (drop 8 bs)
  end.

Definition siphash13 (k0 k1 : Z) (bs : list Z) : Z :=
  let s := sip_blocks (S (length bs)) (sip_init k0 k1) (Z.of_nat (length bs)) bs in
  let s := mkSip (sv0 s) (sv1 s) (Z.lxor (sv2 s) 0xff) (sv3 s) in
  let s := sip_round (sip_round (sip_round s)) in
  Z.lxor (Z.lxor (sv0 s) (sv1 s)) (Z.lxor (sv2 s) (sv3 s)).

(** The first vector of the reference implementation: the empty input under
    the key [00 01 .. 0f]. *)
Example siphash13_empty :
  siphash13 0x0706050403020100 0x0f0e0d0c0b0a0908 [] = 0xabac0158050fc4dc.
Proof. by vm_compute. Qed.

(** [str::hash] and [i64::hash]. *)
Fixpoint str_bytes (s : string) : list Z :=
  match s with
  | EmptyString => []
  | String c s => Z.of_N (N_of_ascii c) :: str_bytes s
  end.
Definition hash_str (s : string) : list Z := str_bytes s ++ [0xff].
Definition hash_i64 (z : Z) : list Z :=
  (λ i, wrap8 (Z.shiftr (wrap64 z) (8 * Z.of_nat i))) <$> seq 0 8.

Definition default_hash (bs : list Z) : Z := siphash13 0 0 bs.

#[global] Arguments siphash13 : simpl never.
#[global] Arguments default_hash : simpl never.

Close Scope Z_scope.

(** ** From a request to its variants

    [crates/superposition_core/src/experiment.rs] and
    [crates/experimentation_client/src/lib.rs]: hashing the targeting key into
    a bucket of every group whose context applies, and the variants of the
    buckets hit. The two crates run the same code on different record types;
    the classes [BucketGroup] and [BucketExperiment] name the fields they use. *)

(** ** The records of the two crates *)

Record FfiExperiment : Type := mkFfiExperiment {
  fe_id : string;
  fe_traffic_percentage : Z;
  fe_variants : Variants;
  fe_context : Condition;
  fe_status : ExperimentStatusType;
}.

(** [impl From<Experiment> for FfiExperiment]. *)
Definition FfiExperiment_from (experiment : Experiment) : FfiExperiment :=
  mkFfiExperiment (pretty (e_id experiment)) (e_traffic_percentage experiment)
    (e_variants experiment) (e_context experiment) (e_status experiment).

Record FfiExperimentGroup : Type := mkFfiExperimentGroup {
  fg_id : string;
  fg_context : Condition;
  fg_traffic_percentage : Z;
  fg_member_experiment_ids : list string;
  fg_group_type : GroupType;
  fg_buckets : Buckets;
}.

(** [impl From<ExperimentGroup> for FfiExperimentGroup]. *)
Definition FfiExperimentGroup_from (experiment_group : ExperimentGroup) : FfiExperimentGroup :=
  mkFfiExperimentGroup (pretty (g_id experiment_group)) (g_context experiment_group)
    (g_traffic_percentage experiment_group)
    (pretty <$> g_member_experiment_ids experiment_group)
    (g_group_type experiment_group) (g_buckets experiment_group).

(** The answer of the server, [ExperimentResponse]. *)
Record ExperimentResponse : Type := mkExperimentResponse {
  r_id : string;
  r_experiment : Experiment;
  r_metrics_url : option string;
  r_experiment_group_id : option string;
}.

(** ** The bucket index *)

(** superposition_core: the group id is a string. *)
Definition calculate_bucket_index (identifier group_id : string) : Z :=
  (default_hash (hash_str identifier ++ hash_str group_id) `mod` 100)%Z.

(** experimentation_client: the group id is an [i64]. *)
Definition client_calculate_bucket_index (identifier : string) (group_id : Z) : Z :=
  (default_hash (hash_str identifier ++ hash_i64 group_id) `mod` 100)%Z.

#[global] Arguments calculate_bucket_index : simpl never.
#[global] Arguments client_calculate_bucket_index : simpl never.

Class BucketGroup (G : Type) := {
  bg_index : string → G → Z;
  bg_context : G → Condition;
  bg_traffic_percentage : G → Z;
  bg_group_type : G → GroupType;
  bg_buckets : G → Buckets;
  bg_index_range : ∀ identifier g, (0 ≤ bg_index identifier g < 100)%Z;
}.

Class BucketExperiment (E : Type) := {
  be_id : E → string;
  be_context : E → Condition;
  be_traffic_percentage : E → Z;
  be_variants : E → Variants;
  be_set_variants : E → Variants → E;
  be_set_variants_id : ∀ e vs, be_id (be_set_variants e vs) = be_id e;
  be_set_variants_context : ∀ e vs, be_context (be_set_variants e vs) = be_context e;
}.

#[export] Program Instance FfiExperimentGroup_bucket : BucketGroup FfiExperimentGroup := {|
  bg_index identifier g := calculate_bucket_index identifier (fg_id g);
  bg_context := fg_context;
  bg_traffic_percentage := fg_traffic_percentage;
  bg_group_type := fg_group_type;
  bg_buckets := fg_buckets;
|}.
Next Obligation. intros. apply Z.mod_pos_bound. lia. Qed.

#[export] Program Instance ExperimentGroup_bucket : BucketGroup ExperimentGroup := {|
  bg_index identifier g := client_calculate_bucket_index identifier (g_id g);
  bg_context := g_context;
  bg_traffic_percentage := g_traffic_percentage;
  bg_group_type := g_group_type;
  bg_buckets := g_buckets;
|}.
Next Obligation. intros. apply Z.mod_pos_bound. lia. Qed.

#[export] Program Instance FfiExperiment_bucket : BucketExperiment FfiExperiment := {|
  be_id := fe_id;
  be_context := fe_context;
  be_traffic_percentage := fe_traffic_percentage;
  be_variants := fe_variants;
  be_set_variants e vs :=
    mkFfiExperiment (fe_id e) (fe_traffic_percentage e) vs (fe_context e) (fe_status e);
|}.
Next Obligation. done. Qed.
Next Obligation. done. Qed.

Definition experiment_set_variants (e : Experiment) (vs : Variants) : Experiment :=
  mkExperiment (e_id e) (e_created_at e) (e_created_by e) (e_last_modified e) (e_name e)
    (e_experiment_type e) (e_override_keys e) (e_status e) (e_traffic_percentage e)
    (e_started_at e) (e_started_by e) (e_context e) vs (e_last_modified_by e)
    (e_chosen_variant e) (e_description e) (e_change_reason e) (e_metrics e)
    (e_experiment_group_id e).

#[export] Program Instance ExperimentResponse_bucket : BucketExperiment ExperimentResponse := {|
  be_id := r_id;
  be_context r := e_context (r_experiment r);
  be_traffic_percentage r := e_traffic_percentage (r_experiment r);
  be_variants r := e_variants (r_experiment r);
  be_set_variants r vs :=
    mkExperimentResponse (r_id r) (experiment_set_variants (r_experiment r) vs)
      (r_metrics_url r) (r_experiment_group_id r);
|}.
Next Obligation. done. Qed.
Next Obligation. done. Qed.

(** ** Buckets hit *)

Section buckets.
Context {G : Type} `{BucketGroup G}.

(** The closure of the [filter_map]: the toss and the bucket. *)
Definition applicable_bucket (context : Map) (identifier : string) (exp_group : G)
    : option (Z * Bucket) :=
  let hashed_percentage := bg_index identifier exp_group in
  let valid_context := apply (bg_context exp_group) context in
  let res := valid_context &&
    bool_decide (wrap8 hashed_percentage ≤ bg_traffic_percentage exp_group)%Z in
  if res then
    b ← bg_buckets exp_group !! Z.to_nat hashed_percentage ≫= id;
    if bool_decide (bg_group_type exp_group = SystemGenerated) then Some (hashed_percentage, b)
    else if bool_decide (0 < bg_traffic_percentage exp_group)%Z then
      Some ((hashed_percentage * 100) `div` bg_traffic_percentage exp_group, b)%Z
    else None
  else None.

Definition get_applicable_buckets_from_group (experiment_groups : list G) (context : Map)
    (identifier : string) : list (Z * Bucket) :=
  if bool_decide (identifier = "") then []
  else omap (applicable_bucket context identifier) experiment_groups.
End buckets.

(** ** Experiments *)

Section experiments.
Context {E : Type} `{BucketExperiment E}.

Definition applicable_variant (experiments : gmap string E) (context : Map)
    (hit : Z * Bucket) : option string :=
  let '(toss, bucket) := hit in
  exp ← experiments !! b_experiment_id bucket;
  let valid_context := apply (be_context exp) context in
  let res := valid_context &&
    bool_decide (toss ≤ be_traffic_percentage exp * Z.of_nat (length (be_variants exp)))%Z in
  if res then Some (b_variant_id bucket) else None.

Definition get_applicable_variants_from_group_response (experiments : gmap string E)
    (context : Map) (bucket_response : list (Z * Bucket)) : list string :=
  omap (applicable_variant experiments context) bucket_response.

(** A variant keeps the overrides under the prefixes, and is dropped when
    none is left. *)
Definition variant_by_prefix (prefix_list : gset string) (variant : Variant) : option Variant :=
  match variant_filter_keys_by_prefix variant prefix_list with
  | Ok filtered_overrides_map =>
      Some (mkVariant (v_id variant) (v_variant_type variant) (v_context_id variant)
              (v_override_id variant) filtered_overrides_map)
  | Err _ => None
  end.

Definition filter_experiments_by_prefix (experiments : list E) (filter_prefixes : list string)
    : list E :=
  let prefix_list : gset string := list_to_set filter_prefixes in
  omap (λ experiment,
      let variants := omap (variant_by_prefix prefix_list) (be_variants experiment) in
      if negb (bool_decide (variants = [])) then Some (be_set_variants experiment variants)
      else None) experiments.

(** The experiments of a request, by the matching function of the crate. *)
Definition satisfied_experiments (matches : Map → Map → bool) (experiments : list E)
    (context : Map) (filter_prefixes : option (list string)) : list E :=
  let running_experiments := List.filter (λ exp, matches (be_context exp) context) experiments in
  match filter_prefixes with
  | Some prefix_list => filter_experiments_by_prefix running_experiments prefix_list
  | None => running_experiments
  end.
End experiments.

(** superposition_core matches partially, experimentation_client fully. *)
Definition get_satisfied_experiments (experiments : list FfiExperiment) (context : Map)
    (filter_prefixes : option (list string)) : list FfiExperiment :=
  satisfied_experiments partial_apply experiments context filter_prefixes.

Definition client_get_satisfied_experiments (experiments : list ExperimentResponse)
    (context : Map) (prefix : option (list string)) : list ExperimentResponse :=
  satisfied_experiments apply experiments context prefix.

(** [get_filtered_satisfied_experiments] of the client. *)
Definition client_get_filtered_satisfied_experiments (experiments : list ExperimentResponse)
    (context : Map) (prefix : option (list string)) : list ExperimentResponse :=
  satisfied_experiments (λ c context,
      if bool_decide (c = ∅) then true else partial_apply c context)
    experiments context prefix.

(** ** The entry points *)

Section entry.
Context {O : MapOrder} {JL : JsonLogic}.
Context {G E : Type} `{BucketGroup G} `{BucketExperiment E}.

(** From the evaluated context to the variants. *)
Definition variants_of_context (satisfied : list E) (experiment_groups : list G) (context : Map)
    (identifier : string) : list string :=
  let buckets := get_applicable_buckets_from_group experiment_groups context identifier in
  let experiments := collect_map ((λ exp, (be_id exp, exp)) <$> satisfied) in
  get_applicable_variants_from_group_response experiments context buckets.
End entry.

Section clients.
Context {O : MapOrder} {JL : JsonLogic}.

Definition get_applicable_variants (fuel : nat) (dimensions_info : gmap string DimensionInfo)
    (experiments : list FfiExperiment) (experiment_groups : list FfiExperimentGroup)
    (query_data : Map) (identifier : string) (prefix : option (list string))
    : option (list string) :=
  context ← evaluate_local_cohorts fuel dimensions_info query_data;
  Some (variants_of_context (get_satisfied_experiments experiments context prefix)
          experiment_groups context identifier).

(** The client holds its experiments and groups in hash maps keyed by id. *)
Definition client_get_applicable_variant (fuel : nat)
    (experiments : gmap string ExperimentResponse) (groups : gmap string ExperimentGroup)
    (dimensions_info : gmap string DimensionInfo) (context : Map) (identifier : string)
    (prefix : option (list string)) : option (list string) :=
  let experiment_groups := (map_order groups).*2 in
  context ← evaluate_local_cohorts fuel dimensions_info context;
  Some (variants_of_context
          (client_get_satisfied_experiments (map_order experiments).*2 context prefix)
          experiment_groups context identifier).
End clients.
