(* ===== verification/BucketAlloc.v ===== *)
(** * Allocation of the buckets of a group

    [update_bucket_allocation] of
    [crates/experimentation_platform/src/api/experiment_groups/helpers.rs].
    The vectors of mutable references into the bucket array are lists of
    indices into it. *)

From S2P Require Import Prelude Types Text Effects ExpModels.

(** [Vec::pop]. *)
Definition vec_pop {A} (l : list A) : option A * list A :=
  match reverse l with
  | [] => (None, l)
  | x :: r => (Some x, reverse r)
  end.

(** The bucket is held by one of the experiment's variants. *)
Definition is_current (experiment : Experiment) (bucket : option Bucket) : bool :=
  match bucket with
  | Some buck => existsb (λ v, bool_decide (v_id v = b_variant_id buck)) (e_variants experiment)
  | None => false
  end.

Definition is_unassigned (bucket : option Bucket) : bool :=
  match bucket with Some _ => false | None => true end.

(** The indices of the buckets that satisfy a test, in order, as the loop over
    [exp_group_buckets.iter_mut()] collects them. *)
Fixpoint indices_from (i : nat) (p : option Bucket → bool) (buckets : Buckets) : list nat :=
  match buckets with
  | [] => []
  | b :: buckets =>
      if p b then i :: indices_from (S i) p buckets else indices_from (S i) p buckets
  end.

Definition indices_of : (option Bucket → bool) → Buckets → list nat := indices_from 0.

Definition held_by (variant_id : string) (bucket : option Bucket) : bool :=
  match bucket with
  | Some b => bool_decide (b_variant_id b = variant_id)
  | None => false
  end.

(** One turn of the inner loop of [assign_additional_buckets]. *)
Definition assign_one (experiment : Experiment) (variant : Variant)
    (st : list nat * Buckets) : list nat * Buckets :=
  let '(unassigned_buckets, buckets) := st in
  match vec_pop unassigned_buckets with
  | (Some i, rest) =>
      (rest, <[i := Some (mkBucket (v_id variant) (pretty (e_id experiment)))]> buckets)
  | (None, rest) => (rest, buckets)
  end.

Definition assign_additional_buckets (unassigned_buckets : list nat) (buckets : Buckets)
    (experiment : Experiment) (additional_needed : nat) : Result Buckets :=
  if length unassigned_buckets <? additional_needed then
    bad_argument ("Not enough empty buckets to accommodate the updated traffic percentage. Required additional: "
      +:+ pretty (Z.of_nat additional_needed) +:+ ", Available: "
      +:+ pretty (Z.of_nat (length unassigned_buckets)))
  else
    let variants := e_variants experiment in
    let variants_len := length variants in
    let unassigned_buckets := reverse unassigned_buckets in
    Ok (foldl (λ st variant,
            Nat.iter (additional_needed / variants_len) (assign_one experiment variant) st)
          (unassigned_buckets, buckets) variants).2.

(** One turn of the inner loop of [unassign_excess_buckets]: the last of the
    current buckets that the variant still holds is emptied. *)
Definition unassign_one (current_buckets : list nat) (variant : Variant) (buckets : Buckets)
    : Buckets :=
  match List.find (λ i, held_by (v_id variant) (buckets !! i ≫= id)) (reverse current_buckets) with
  | Some i => <[i := None]> buckets
  | None => buckets
  end.

Definition unassign_excess_buckets (current_buckets : list nat) (buckets : Buckets)
    (experiment : Experiment) (excess_count : nat) : Buckets :=
  let variants := e_variants experiment in
  let variants_len := length variants in
  foldl (λ buckets variant,
      Nat.iter (excess_count / variants_len) (unassign_one current_buckets variant) buckets)
    buckets variants.

(** The buckets after the update, or the error, which leaves them as they
    were. *)
Definition update_bucket_allocation (experiment : Experiment) (exp_group_buckets : Buckets)
    (exp_traffic_percentage : Z) : Result Buckets :=
  let current_exp_buckets := indices_of (is_current experiment) exp_group_buckets in
  let unassigned_buckets := indices_of is_unassigned exp_group_buckets in
  let required_bucket_count :=
    Z.to_nat exp_traffic_percentage * length (e_variants experiment) in
  let current_bucket_count := length current_exp_buckets in
  match Nat.compare required_bucket_count current_bucket_count with
  | Gt =>
      assign_additional_buckets unassigned_buckets exp_group_buckets experiment
        (required_bucket_count - current_bucket_count)
  | Lt =>
      Ok (unassign_excess_buckets current_exp_buckets exp_group_buckets experiment
            (current_bucket_count - required_bucket_count))
  | Eq => Ok exp_group_buckets
  end.

(** ** Counting *)

Lemma vec_pop_snoc {A} (l : list A) x : vec_pop (l ++ [x]) = (Some x, l).
Proof. unfold vec_pop. rewrite reverse_snoc, reverse_involutive. done. Qed.

Lemma vec_pop_reverse_cons {A} (l : list A) x : vec_pop (reverse (x :: l)) = (Some x, reverse l).
Proof. rewrite reverse_cons. apply vec_pop_snoc. Qed.

Lemma length_indices_of p bs : length (indices_of p bs) = countb p bs.
Proof.
  unfold indices_of. generalize 0. induction bs as [|b bs IH]; intros k; [done|].
  rewrite countb_cons. simpl. destruct (p b); simpl; by rewrite IH.
Qed.

Lemma elem_of_indices_from k p bs i :
  i ∈ indices_from k p bs ↔ k ≤ i ∧ ∃ b, bs !! (i - k) = Some b ∧ p b = true.
Proof.
  revert k. induction bs as [|b bs IH]; intros k; simpl.
  - split; [by intros ?%elem_of_nil|]. intros (_ & ? & ? & _). done.
  - assert (i ∈ (if p b then k :: indices_from (S k) p bs else indices_from (S k) p bs) ↔
            (i = k ∧ p b = true) ∨ i ∈ indices_from (S k) p bs) as -> by (destruct (p b); set_solver).
    rewrite IH. split.
    + intros [[-> Hp]|(Hk & c & Hc & Hp)].
      * split; [done|]. rewrite Nat.sub_diag. eauto.
      * split; [lia|]. replace (i - k) with (S (i - S k)) by lia. eauto.
    + intros (Hk & c & Hc & Hp). destruct (decide (i = k)) as [->|Hne].
      * rewrite Nat.sub_diag in Hc. simplify_eq/=. by left.
      * right. split; [lia|]. replace (i - k) with (S (i - S k)) in Hc by lia. eauto.
Qed.

Lemma elem_of_indices_of p bs i :
  i ∈ indices_of p bs ↔ ∃ b, bs !! i = Some b ∧ p b = true.
Proof. unfold indices_of. rewrite elem_of_indices_from, Nat.sub_0_r. naive_solver lia. Qed.

Lemma NoDup_indices_of p bs : NoDup (indices_of p bs).
Proof.
  unfold indices_of. generalize 0. induction bs as [|b bs IH]; intros k; simpl; [constructor|].
  destruct (p b); [|done]. constructor; [|done]. intros [? _]%elem_of_indices_from. lia.
Qed.

(** How many buckets a variant holds. *)
Definition held (variant_id : string) (buckets : Buckets) : nat := countb (held_by variant_id) buckets.

Definition variant_ids (experiment : Experiment) : list string := v_id <$> e_variants experiment.

Lemma held_by_iff w b : held_by w b = true ↔ ∃ bk, b = Some bk ∧ b_variant_id bk = w.
Proof.
  unfold held_by. destruct b as [bk|]; [|naive_solver].
  rewrite bool_decide_eq_true. naive_solver.
Qed.

Lemma is_current_iff e b :
  is_current e b = true ↔ ∃ bk, b = Some bk ∧ b_variant_id bk ∈ variant_ids e.
Proof.
  unfold is_current, variant_ids. destruct b as [bk|]; [|naive_solver].
  rewrite existsb_True. setoid_rewrite bool_decide_eq_true. setoid_rewrite list_elem_of_fmap.
  naive_solver.
Qed.

Lemma countb_sum_or {A} (p q r : A → bool) l :
  (∀ x, p x = q x || r x) → (∀ x, q x = true → r x = true → False) →
  countb p l = countb q l + countb r l.
Proof.
  intros Hp Hd. induction l as [|x l IH]; [done|]. rewrite !countb_cons, IH, Hp.
  specialize (Hd x). destruct (q x), (r x); simpl; lia.
Qed.

(** The buckets of the experiment are those of its variants. *)
Lemma current_count e bs :
  NoDup (variant_ids e) →
  countb (is_current e) bs = sum_list_with (λ w, held w bs) (variant_ids e).
Proof.
  unfold variant_ids, is_current, held. generalize (e_variants e) as vs.
  induction vs as [|v vs IH]; intros Hnd; [|rewrite fmap_cons; cbn [sum_list_with]].
  - induction bs as [|[b|] bs IHb]; [done|..]; by rewrite countb_cons.
  - rewrite fmap_cons in Hnd. apply NoDup_cons in Hnd as [Hv Hnd].
    rewrite <-IH by done. apply countb_sum_or.
    + intros [b|]; [|done]. simpl. f_equal. apply bool_decide_ext. naive_solver.
    + intros [b|]; [|done]. simpl. intros Hb1%bool_decide_eq_true (v' & Hv' & Hb)%existsb_True.
      apply bool_decide_eq_true in Hb. apply Hv, list_elem_of_fmap. exists v'.
      split; [congruence|done].
Qed.

(** ** Assigning *)

Definition fresh_bucket (e : Experiment) (v : Variant) : option Bucket :=
  Some (mkBucket (v_id v) (pretty (e_id e))).

Lemma held_insert w i b b' bs :
  bs !! i = Some b →
  held w (<[i:=b']> bs) + (if held_by w b then 1 else 0) = held w bs + (if held_by w b' then 1 else 0).
Proof. apply countb_insert. Qed.

Lemma assign_one_step e v i us bs :
  assign_one e v (reverse (i :: us), bs) = (reverse us, <[i := fresh_bucket e v]> bs).
Proof. unfold assign_one. by rewrite vec_pop_reverse_cons. Qed.

(** What [k] turns do to a stack of distinct empty buckets. *)
Lemma assign_iter e v k us bs :
  NoDup us → (∀ i, i ∈ us → bs !! i = Some None) → k ≤ length us →
  ∃ bs', Nat.iter k (assign_one e v) (reverse us, bs) = (reverse (drop k us), bs') ∧
    length bs' = length bs ∧
    (∀ i, i ∉ take k us → bs' !! i = bs !! i) ∧
    (∀ i, i ∈ take k us → bs' !! i = Some (fresh_bucket e v)) ∧
    ∀ w, held w bs' = held w bs + if decide (w = v_id v) then k else 0.
Proof.
  revert us bs. induction k as [|k IH]; intros us bs Hnd Hnone Hk.
  { exists bs. rewrite drop_0, take_0. split_and!; try done; [set_solver|]. intros w. case_decide; lia. }
  destruct us as [|i us]; [simpl in Hk; lia|]. rewrite Nat.iter_succ_r, assign_one_step.
  apply NoDup_cons in Hnd as [Hi Hnd]. pose proof (Hnone i) as Hbi. specialize (Hbi ltac:(set_solver)).
  destruct (IH us (<[i := fresh_bucket e v]> bs)) as (bs' & -> & Hlen & Hout & Hin & Hheld); [done| |simpl in Hk; lia|].
  { intros j Hj. rewrite list_lookup_insert_ne; [apply Hnone; set_solver|]. intros ->. done. }
  exists bs'. simpl. split; [done|]. rewrite length_insert in Hlen. split; [done|].
  assert (i ∉ take k us) as Hik by (intros Hik; apply Hi; eapply subseteq_take; eauto).
  split_and!.
  - intros j Hj. rewrite Hout by set_solver. apply list_lookup_insert_ne. set_solver.
  - intros j [->|Hj]%elem_of_cons; [|by apply Hin]. rewrite Hout by done.
    apply list_lookup_insert_eq. by eapply lookup_lt_Some.
  - intros w. rewrite Hheld. pose proof (held_insert w i None (fresh_bucket e v) bs Hbi) as Hh.
    simpl in Hh. destruct (decide (w = v_id v)) as [->|Hne].
    + rewrite bool_decide_true in Hh by done. lia.
    + rewrite bool_decide_false in Hh by done. lia.
Qed.

Lemma assign_variants e vs k us bs :
  NoDup us → (∀ i, i ∈ us → bs !! i = Some None) → k * length vs ≤ length us →
  ∃ bs', foldl (λ st variant, Nat.iter k (assign_one e variant) st) (reverse us, bs) vs =
      (reverse (drop (k * length vs) us), bs') ∧
    length bs' = length bs ∧
    (∀ i, i ∉ take (k * length vs) us → bs' !! i = bs !! i) ∧
    ∀ w, held w bs' = held w bs + k * countb (λ v, bool_decide (v_id v = w)) vs.
Proof.
  revert us bs. induction vs as [|v vs IH]; intros us bs Hnd Hnone Hk.
  { exists bs. simpl. rewrite Nat.mul_0_r, drop_0. split_and!; try done.
    intros w. unfold countb. simpl. lia. }
  simpl in Hk. cbn [foldl].
  pose proof Hnd as Hnd'. rewrite <-(take_drop k us) in Hnd'.
  apply NoDup_app in Hnd' as (_ & Hdisj & Hdrop).
  destruct (assign_iter e v k us bs Hnd Hnone) as (bs1 & -> & Hlen1 & Hout1 & _ & Hheld1); [nia|].
  destruct (IH (drop k us) bs1) as (bs' & -> & Hlen & Hout & Hheld).
  - done.
  - intros i Hi. rewrite Hout1; [apply Hnone; eapply subseteq_drop; eauto|].
    intros Hi'. by eapply Hdisj.
  - rewrite length_drop. nia.
  - exists bs'. simpl length. split; [|split; [congruence|split]].
    + rewrite drop_drop. do 3 f_equal. nia.
    + intros i Hi. rewrite Hout, Hout1; [done| |].
      * intros Hi'. apply Hi. replace (k * S (length vs)) with (k + k * length vs) by nia.
        rewrite <-(take_take_drop us). set_solver.
      * intros Hi'. apply Hi. replace (k * S (length vs)) with (k + k * length vs) by nia.
        rewrite <-(take_take_drop us). set_solver.
    + intros w. rewrite Hheld, Hheld1, countb_cons. case_decide; case_bool_decide; try congruence; lia.
Qed.

(** ** Emptying *)

(** Every bucket the variant holds is among the current ones. *)
Definition covers (cur : list nat) (w : string) (bs : Buckets) : Prop :=
  ∀ i b, bs !! i = Some b → held_by w b = true → i ∈ cur.

Lemma held_pos w bs : 0 < held w bs → ∃ i b, bs !! i = Some b ∧ held_by w b = true.
Proof.
  unfold held. induction bs as [|b bs IH]; [unfold countb; simpl; lia|].
  rewrite countb_cons. destruct (held_by w b) eqn:Hb; [by exists 0, b|].
  intros (i & c & Hi & Hc)%IH. by exists (S i), c.
Qed.

Lemma unassign_one_step cur v bs :
  covers cur (v_id v) bs → 0 < held (v_id v) bs →
  ∃ i b, unassign_one cur v bs = <[i := None]> bs ∧ bs !! i = Some b ∧ held_by (v_id v) b = true.
Proof.
  intros Hcov (i & b & Hi & Hb)%held_pos. unfold unassign_one.
  destruct (List.find _ (reverse cur)) as [j|] eqn:Hf.
  - apply List.find_some in Hf as [_ Hj]. exists j. destruct (bs !! j) as [c|] eqn:Hc; [|done].
    by exists c.
  - exfalso. assert (i ∈ reverse cur) as Hin%list_elem_of_In by (apply elem_of_reverse; eauto).
    apply (List.find_none _ _ Hf) in Hin. rewrite Hi in Hin. simpl in Hin. congruence.
Qed.

(** [bs'] is [bs] with some of the buckets of the given variants emptied. *)
Definition emptied (ids : list string) (bs bs' : Buckets) : Prop :=
  length bs' = length bs ∧
  (∀ i b, bs !! i = Some (Some b) → b_variant_id b ∉ ids → bs' !! i = Some (Some b)) ∧
  (∀ i b, bs' !! i = Some (Some b) → bs !! i = Some (Some b)).

Lemma emptied_refl ids bs : emptied ids bs bs.
Proof. split_and!; eauto. Qed.

Lemma emptied_trans ids ids' bs bs' bs'' :
  emptied ids bs bs' → emptied ids' bs' bs'' → emptied (ids ++ ids') bs bs''.
Proof.
  intros (L1 & K1 & O1) (L2 & K2 & O2). split_and!; [congruence| |eauto].
  intros i b Hi Hb. apply not_elem_of_app in Hb as [? ?]. eauto.
Qed.

Lemma emptied_insert w bs i b :
  bs !! i = Some b → held_by w b = true → emptied [w] bs (<[i := None]> bs).
Proof.
  intros Hi (bk & -> & <-)%held_by_iff. split_and!.
  - apply length_insert.
  - intros j c Hj Hc. rewrite list_lookup_insert_ne; [done|]. intros ->. simplify_eq. set_solver.
  - intros j c. destruct (decide (i = j)) as [->|Hne].
    + rewrite list_lookup_insert_eq by (by eapply lookup_lt_Some). done.
    + by rewrite list_lookup_insert_ne.
Qed.

Lemma covers_emptied ids cur w bs bs' : emptied ids bs bs' → covers cur w bs → covers cur w bs'.
Proof.
  intros (_ & _ & Ho) Hc i b Hi Hb. apply held_by_iff in Hb as (bk & -> & Hbk).
  apply (Hc i (Some bk)); [eauto|]. apply held_by_iff. eauto.
Qed.

Lemma unassign_iter cur v k bs :
  covers cur (v_id v) bs → k ≤ held (v_id v) bs →
  let bs' := Nat.iter k (unassign_one cur v) bs in
  emptied [v_id v] bs bs' ∧
  ∀ w, held w bs' + (if decide (w = v_id v) then k else 0) = held w bs.
Proof.
  revert bs. induction k as [|k IH]; intros bs Hcov Hk; cbn zeta.
  { split; [apply emptied_refl|]. intros w. case_decide; simpl; lia. }
  rewrite Nat.iter_succ_r.
  destruct (unassign_one_step cur v bs) as (i & b & -> & Hi & Hb); [done|lia|].
  pose proof (emptied_insert _ _ _ _ Hi Hb) as He.
  assert (∀ w, held w (<[i:=None]> bs) + (if decide (w = v_id v) then 1 else 0) = held w bs) as Hh.
  { intros w. pose proof (held_insert w i b None bs Hi) as Hh. simpl in Hh.
    apply held_by_iff in Hb as (bk & -> & Hbk). simpl in Hh.
    rewrite Hbk in Hh. destruct (decide (w = v_id v)) as [->|Hne].
    - rewrite bool_decide_true in Hh by done. lia.
    - rewrite bool_decide_false in Hh by done. lia. }
  destruct (IH (<[i:=None]> bs)) as [He' Hh'].
  - by eapply covers_emptied.
  - specialize (Hh (v_id v)). rewrite decide_True in Hh by done. lia.
  - split.
    + destruct He as (L1 & K1 & O1), He' as (L2 & K2 & O2). split_and!; [congruence|eauto|eauto].
    + intros w. specialize (Hh w). specialize (Hh' w). case_decide; lia.
Qed.

Lemma unassign_variants cur k vs bs :
  NoDup (v_id <$> vs) → (∀ v, v ∈ vs → covers cur (v_id v) bs ∧ k ≤ held (v_id v) bs) →
  let bs' := foldl (λ buckets variant, Nat.iter k (unassign_one cur variant) buckets) bs vs in
  emptied (v_id <$> vs) bs bs' ∧
  ∀ w, held w bs' + (if decide (w ∈ v_id <$> vs) then k else 0) = held w bs.
Proof.
  revert bs. induction vs as [|v vs IH]; intros bs Hnd Hvs; cbn zeta.
  { split; [apply emptied_refl|]. intros w. rewrite decide_False by set_solver. simpl. lia. }
  rewrite fmap_cons in *. apply NoDup_cons in Hnd as [Hv Hnd]. cbn [foldl].
  destruct (Hvs v) as [Hc Hk]; [set_solver|].
  destruct (unassign_iter cur v k bs Hc Hk) as [He Hh].
  set (bs1 := Nat.iter k (unassign_one cur v) bs) in *.
  destruct (IH bs1 Hnd) as [He' Hh'].
  { intros v' Hv'. destruct (Hvs v') as [Hc' Hk']; [set_solver|].
    split; [by eapply covers_emptied|]. specialize (Hh (v_id v')).
    rewrite decide_False in Hh; [lia|]. intros Heq. apply Hv, list_elem_of_fmap. eauto. }
  split; [exact (emptied_trans [v_id v] _ _ _ _ He He')|].
  intros w. specialize (Hh w). specialize (Hh' w).
  destruct (decide (w = v_id v)) as [->|Hne].
  - rewrite decide_True by set_solver. rewrite decide_False in Hh' by done. lia.
  - destruct (decide (w ∈ v_id <$> vs)).
    + rewrite decide_True by set_solver. lia.
    + rewrite decide_False by set_solver. lia.
Qed.

(** ** The update *)

Lemma countb_ids vs w :
  NoDup (v_id <$> vs) → w ∈ v_id <$> vs → countb (λ v, bool_decide (v_id v = w)) vs = 1.
Proof.
  induction vs as [|v vs IH]; [by intros _ ?%elem_of_nil|]. rewrite fmap_cons, countb_cons.
  intros [Hv Hnd]%NoDup_cons [->|Hw]%elem_of_cons.
  - rewrite bool_decide_true by done. f_equal.
    assert (countb (λ v', bool_decide (v_id v' = v_id v)) vs = countb (λ _, false) vs) as ->.
    { apply countb_ext. intros v' Hv'. apply bool_decide_false. intros Heq. apply Hv.
      apply list_elem_of_fmap. eauto. }
    clear. induction vs; [done|]. by rewrite countb_cons.
  - rewrite IH by done. rewrite bool_decide_false; [done|]. intros <-. done.
Qed.

Lemma sum_list_with_const {A} (f : A → nat) l c :
  (∀ x, x ∈ l → f x = c) → sum_list_with f l = length l * c.
Proof.
  induction l as [|x l IH]; intros Hf; simpl; [done|].
  rewrite IH by set_solver. rewrite Hf by set_solver. done.
Qed.

(** Each variant of the experiment holds [c] buckets. *)
Definition balanced (e : Experiment) (c : nat) (bs : Buckets) : Prop :=
  ∀ w, w ∈ variant_ids e → held w bs = c.

(** The buckets held by other variants are as before. *)
Definition others_kept (e : Experiment) (bs bs' : Buckets) : Prop :=
  length bs' = length bs ∧
  ∀ i b, bs !! i = Some (Some b) → b_variant_id b ∉ variant_ids e → bs' !! i = Some (Some b).

Lemma assign_additional_ok e bs k n :
  n = length (e_variants e) → 0 < n → NoDup (variant_ids e) →
  n * k ≤ countb is_unassigned bs →
  ∃ bs', assign_additional_buckets (indices_of is_unassigned bs) bs e (n * k) = Ok bs' ∧
    others_kept e bs bs' ∧ ∀ w, w ∈ variant_ids e → held w bs' = held w bs + k.
Proof.
  intros -> Hn Hnd Hk. set (n := length (e_variants e)) in *.
  unfold assign_additional_buckets. rewrite length_indices_of.
  destruct (Nat.ltb_spec (countb is_unassigned bs) (n * k)); [lia|].
  fold n. replace (n * k / n) with k by (rewrite Nat.mul_comm, Nat.div_mul; lia).
  destruct (assign_variants e (e_variants e) k (indices_of is_unassigned bs) bs)
    as (bs' & -> & Hlen & Hout & Hheld).
  - apply NoDup_indices_of.
  - intros i (b & Hi & Hb)%elem_of_indices_of. by destruct b.
  - rewrite length_indices_of. fold n. lia.
  - exists bs'. split; [done|]. split; [split; [done|]|].
    + intros i b Hi _. rewrite Hout; [done|]. intros Hin.
      assert (i ∈ indices_of is_unassigned bs) as (c & Hc & Hcn)%elem_of_indices_of
        by (eapply subseteq_take; eauto).
      by simplify_eq.
    + intros w Hw. rewrite Hheld, (countb_ids _ _ Hnd Hw). lia.
Qed.

Lemma unassign_excess_ok e bs k n :
  n = length (e_variants e) → 0 < n → NoDup (variant_ids e) →
  (∀ w, w ∈ variant_ids e → k ≤ held w bs) →
  let bs' := unassign_excess_buckets (indices_of (is_current e) bs) bs e (n * k) in
  others_kept e bs bs' ∧ ∀ w, w ∈ variant_ids e → held w bs' = held w bs - k.
Proof.
  intros -> Hn Hnd Hk. set (n := length (e_variants e)) in *. cbn zeta.
  unfold unassign_excess_buckets. fold n.
  replace (n * k / n) with k by (rewrite Nat.mul_comm, Nat.div_mul; lia).
  destruct (unassign_variants (indices_of (is_current e) bs) k (e_variants e) bs Hnd)
    as [(Hlen & Hkeep & _) Hh].
  - intros v Hv. assert (v_id v ∈ variant_ids e) as Hid by (apply list_elem_of_fmap; eauto).
    split; [|by apply Hk]. intros i b Hi (bk & -> & Hbk)%held_by_iff.
    apply elem_of_indices_of. eexists. split; [done|]. apply is_current_iff. exists bk.
    by rewrite Hbk.
  - split; [by split|]. intros w Hw. specialize (Hh w). rewrite decide_True in Hh by done. lia.
Qed.

(** The outcome of an update on a balanced allocation. *)
Lemma update_bucket_allocation_balanced e bs c t :
  NoDup (variant_ids e) → e_variants e ≠ [] → balanced e c bs → (0 ≤ t)%Z →
  let n := length (e_variants e) in
  (n * Z.to_nat t ≤ n * c + countb is_unassigned bs →
   ∃ bs', update_bucket_allocation e bs t = Ok bs' ∧ others_kept e bs bs' ∧
          balanced e (Z.to_nat t) bs') ∧
  (n * c + countb is_unassigned bs < n * Z.to_nat t →
   ∃ msg, update_bucket_allocation e bs t = Err (BadArgument msg)).
Proof.
  intros Hnd Hne Hbal Ht n.
  assert (0 < n) as Hn by (unfold n; destruct (e_variants e); [done|simpl; lia]).
  assert (length (indices_of (is_current e) bs) = n * c) as Hcur.
  { rewrite length_indices_of, current_count, (sum_list_with_const _ _ c) by done.
    unfold variant_ids. by rewrite length_fmap. }
  unfold update_bucket_allocation. rewrite Hcur. fold n. set (t' := Z.to_nat t).
  replace (t' * n) with (n * t') by lia.
  destruct (Nat.compare_spec (n * t') (n * c)) as [Heq|Hlt|Hgt].
  - split; [|nia]. intros _. exists bs. split; [done|]. split; [split; eauto|].
    intros w Hw. rewrite (Hbal w Hw). nia.
  - split; [|nia]. intros _. replace (n * c - n * t') with (n * (c - t')) by nia.
    destruct (unassign_excess_ok e bs (c - t') n) as [Hk Hh]; try done.
    { intros w Hw. rewrite (Hbal w Hw). lia. }
    eexists. split; [reflexivity|]. split; [done|]. intros w Hw. rewrite Hh, Hbal by done. nia.
  - replace (n * t' - n * c) with (n * (t' - c)) by nia. split.
    + intros Hroom. destruct (assign_additional_ok e bs (t' - c) n) as (bs' & -> & Hk & Hh);
        try done; [nia|].
      exists bs'. split; [done|]. split; [done|]. intros w Hw. rewrite Hh, Hbal by done. nia.
    + intros Hroom. unfold assign_additional_buckets. rewrite length_indices_of.
      destruct (Nat.ltb_spec (countb is_unassigned bs) (n * (t' - c))); [|nia].
      by eexists.
Qed.
