(* ===== verification/BucketingProps.v ===== *)
(** * Lemmas on buckets and selection *)

From S2P Require Import Prelude Json Types Text Effects Logic Config ExpModels Bucketing BucketAlloc.

(** ** A fresh group is filled from the front *)

Lemma assign_front e v k m pre :
  k ≤ m →
  Nat.iter k (assign_one e v) (reverse (seq (length pre) m), pre ++ replicate m None) =
  (reverse (seq (length pre + k) (m - k)),
   pre ++ replicate k (fresh_bucket e v) ++ replicate (m - k) None).
Proof.
  revert m pre. induction k as [|k IH]; intros m pre Hk.
  { by rewrite Nat.add_0_r, Nat.sub_0_r. }
  destruct m as [|m]; [lia|]. rewrite Nat.iter_succ_r. cbn [seq replicate]. rewrite assign_one_step.
  replace (<[length pre:=fresh_bucket e v]> (pre ++ None :: replicate m None))
    with ((pre ++ [fresh_bucket e v]) ++ replicate m None).
  2:{ rewrite <-(assoc_L (++)). replace (length pre) with (length pre + 0) by lia.
      by rewrite insert_app_r. }
  replace (S (length pre)) with (length (pre ++ [fresh_bucket e v]))
    by (rewrite length_app; simpl; lia).
  rewrite IH by lia. rewrite length_app. simpl. rewrite <-(assoc_L (++)). simpl.
  do 3 f_equal. lia.
Qed.

Definition filled (e : Experiment) (t : nat) (vs : Variants) : Buckets :=
  flat_map (λ v, replicate t (fresh_bucket e v)) vs.

Lemma length_filled e t vs : length (filled e t vs) = t * length vs.
Proof.
  unfold filled. induction vs as [|v vs IH]; simpl; [lia|].
  rewrite length_app, length_replicate, IH. lia.
Qed.

Lemma assign_front_variants e t vs m pre :
  t * length vs ≤ m →
  foldl (λ st variant, Nat.iter t (assign_one e variant) st)
    (reverse (seq (length pre) m), pre ++ replicate m None) vs =
  (reverse (seq (length pre + t * length vs) (m - t * length vs)),
   pre ++ filled e t vs ++ replicate (m - t * length vs) None).
Proof.
  revert m pre. induction vs as [|v vs IH]; intros m pre Hm; simpl in *.
  { by rewrite Nat.mul_0_r, Nat.add_0_r, Nat.sub_0_r. }
  rewrite assign_front by nia. rewrite (assoc_L (++)).
  replace (length pre + t) with (length (pre ++ replicate t (fresh_bucket e v)))
    by (rewrite length_app, length_replicate; lia).
  rewrite IH by nia. rewrite length_app, length_replicate. unfold filled. simpl.
  rewrite <-!(assoc_L (++)). f_equal; [do 2 f_equal; nia|]. do 4 f_equal. nia.
Qed.

Lemma indices_from_empty k m : indices_from k is_unassigned (replicate m None) = seq k m.
Proof. revert k. induction m as [|m IH]; intros k; simpl; [done|]. by rewrite IH. Qed.

Lemma indices_from_none_current e k m : indices_from k (is_current e) (replicate m None) = [].
Proof. revert k. induction m as [|m IH]; intros k; simpl; [done|]. by rewrite IH. Qed.

(** The first [t] buckets go to the first variant, the next [t] to the second,
    and so on. *)
Lemma update_bucket_allocation_fresh e t :
  e_variants e ≠ [] → (0 ≤ t)%Z → Z.to_nat t * length (e_variants e) ≤ 100 →
  update_bucket_allocation e Buckets.default t =
    Ok (filled e (Z.to_nat t) (e_variants e) ++
        replicate (100 - Z.to_nat t * length (e_variants e)) None).
Proof.
  intros Hne Ht Hle. unfold update_bucket_allocation, Buckets.default, indices_of.
  rewrite indices_from_none_current, indices_from_empty. cbn [length].
  set (n := length (e_variants e)) in *. set (k := Z.to_nat t) in *.
  assert (0 < n) as Hn by (unfold n; destruct (e_variants e); [done|simpl; lia]).
  destruct (Nat.compare_spec (k * n) 0) as [Heq|?|Hgt]; [|lia|].
  - assert (k = 0) as -> by nia. rewrite Nat.sub_0_r.
    assert (filled e 0 (e_variants e) = []) as ->; [|done].
    unfold filled. clear. induction (e_variants e) as [|v vs IH]; [done|]. exact IH.
  - unfold assign_additional_buckets. rewrite length_seq, Nat.sub_0_r.
    destruct (Nat.ltb_spec 100 (k * n)); [lia|]. fold n. rewrite Nat.div_mul by lia.
    pose proof (assign_front_variants e k (e_variants e) 100 [] Hle) as Hf. fold n in Hf.
    cbn [length app] in Hf. by rewrite Hf.
Qed.

Lemma filled_lookup e t vs i :
  0 < t → filled e t vs !! i = fresh_bucket e <$> vs !! (i / t).
Proof.
  intros Ht. unfold filled. revert i. induction vs as [|v vs IH]; intros i; simpl; [done|].
  destruct (decide (i < t)) as [Hi|Hi].
  - rewrite lookup_app_l by (by rewrite length_replicate). rewrite Nat.div_small by done.
    simpl. by apply lookup_replicate_2.
  - rewrite lookup_app_r by (rewrite length_replicate; lia). rewrite length_replicate, IH.
    assert (i / t = S ((i - t) / t)) as ->; [|done].
    replace i with ((i - t) + 1 * t) at 1 by lia. rewrite Nat.div_add by lia. lia.
Qed.

(** ** Selection through one bucket *)

Section select.
Context {G E : Type} `{BucketGroup G} `{BucketExperiment E}.

(** The variants a request obtains from one group. *)
Definition variants_from_group (experiments : gmap string E) (context : Map)
    (identifier : string) (g : G) : list string :=
  get_applicable_variants_from_group_response experiments context
    (get_applicable_buckets_from_group [g] context identifier).

(** Selection as one partial function of the group. *)
Definition selected_variant (experiments : gmap string E) (context : Map)
    (identifier : string) (g : G) : option string :=
  applicable_bucket context identifier g ≫= applicable_variant experiments context.

Lemma omap_omap {A B C} (f : A → option B) (h : B → option C) (l : list A) :
  omap h (omap f l) = omap (λ a, f a ≫= h) l.
Proof.
  induction l as [|a l IH]; [done|]. cbn. destruct (f a) as [b|]; cbn; [|exact IH].
  destruct (h b); [f_equal|]; exact IH.
Qed.

Lemma response_selected (experiments : gmap string E) (gs : list G) context identifier :
  identifier ≠ "" →
  get_applicable_variants_from_group_response experiments context
    (get_applicable_buckets_from_group gs context identifier) =
  omap (selected_variant experiments context identifier) gs.
Proof.
  intros Hne. unfold get_applicable_variants_from_group_response, get_applicable_buckets_from_group.
  rewrite bool_decide_false by done. apply omap_omap.
Qed.

(** The toss a group makes of the index. *)
Definition toss_of (g : G) (identifier : string) : Z :=
  if bool_decide (bg_group_type g = SystemGenerated) then bg_index identifier g
  else (bg_index identifier g * 100) `div` bg_traffic_percentage g.

(** The request falls on the bucket [b] of the group. *)
Record hits (g : G) (context : Map) (identifier : string) (b : Bucket) : Prop := {
  hi_context : apply (bg_context g) context = true;
  hi_traffic : (bg_index identifier g ≤ bg_traffic_percentage g)%Z;
  hi_bucket : bg_buckets g !! Z.to_nat (bg_index identifier g) = Some (Some b);
  hi_toss : bg_group_type g = SystemGenerated ∨ (0 < bg_traffic_percentage g)%Z;
}.

Lemma applicable_bucket_Some context identifier (g : G) toss b :
  applicable_bucket context identifier g = Some (toss, b) ↔
  hits g context identifier b ∧ toss = toss_of g identifier.
Proof.
  pose proof (bg_index_range identifier g) as Hr.
  unfold applicable_bucket, toss_of. rewrite wrap8_id by (unfold u8; lia). split.
  - intros Hb. case_hyp Hb; [|done]. breflect. destruct Heqb0 as [Hap Hle].
    apply bind_Some in Hb as (b' & Hbk & Hb). apply bind_Some in Hbk as (ob & Hbk & Hob).
    simpl in Hob. subst ob.
    case_bool_decide as Hg; [|case_bool_decide; [|done]]; simplify_eq; split; try done;
      split; auto.
  - intros [[Hap Hle Hbk Hg] ->].
    rewrite Hap, bool_decide_true by done. simpl. rewrite Hbk. simpl.
    destruct (bool_decide (bg_group_type g = SystemGenerated)) eqn:Hs; [done|].
    apply bool_decide_eq_false in Hs. destruct Hg as [?|Hg]; [done|].
    by rewrite bool_decide_true.
Qed.

Lemma selected_variant_Some (experiments : gmap string E) context identifier (g : G) vid :
  selected_variant experiments context identifier g = Some vid ↔
  ∃ b exp,
    hits g context identifier b ∧ experiments !! b_experiment_id b = Some exp ∧
    apply (be_context exp) context = true ∧
    (toss_of g identifier ≤
      be_traffic_percentage exp * Z.of_nat (length (be_variants exp)))%Z ∧
    vid = b_variant_id b.
Proof.
  unfold selected_variant, applicable_variant. rewrite bind_Some. split.
  - intros ([toss b] & Hb & Hv). apply applicable_bucket_Some in Hb as [Hb ->].
    apply bind_Some in Hv as (exp & Hexp & Hv). case_hyp Hv; [|done]. breflect.
    destruct Heqb0 as [Hap Htr]. simplify_eq. exists b, exp. by split_and!.
  - intros (b & exp & Hb & Hexp & Hap & Htr & ->).
    exists (toss_of g identifier, b). split; [by apply applicable_bucket_Some|].
    rewrite Hexp. simpl. by rewrite Hap, bool_decide_true.
Qed.

(** A variant without a bucket at an index up to the traffic of the group is
    out of reach. *)
Lemma unreachable_variant (g : G) vid :
  forallb (λ h, negb (held_by vid (bg_buckets g !! h ≫= id)))
    (seq 0 (S (Z.to_nat (bg_traffic_percentage g)))) = true →
  ∀ (experiments : gmap string E) context identifier,
    vid ∉ get_applicable_variants_from_group_response experiments context
      (get_applicable_buckets_from_group [g] context identifier).
Proof.
  intros Hall experiments context identifier Hin.
  destruct (decide (identifier = "")) as [->|Hne].
  { unfold get_applicable_buckets_from_group in Hin. rewrite bool_decide_true in Hin by done.
    by apply elem_of_nil in Hin. }
  rewrite response_selected in Hin by done. apply list_elem_of_omap in Hin as (g' & Hg & Hsel).
  apply list_elem_of_singleton in Hg as ->.
  apply selected_variant_Some in Hsel as (b & exp & [_ Hle Hb _] & _ & _ & _ & Hv).
  pose proof (bg_index_range identifier g).
  apply (proj1 (forallb_True _ _)) with (x:=Z.to_nat (bg_index identifier g)) in Hall.
  2:{ apply elem_of_seq. lia. }
  rewrite Hb in Hall. simpl in Hall. rewrite bool_decide_true in Hall by done. done.
Qed.
End select.

(** ** The experiments of a request *)

Section satisfied.
Context {E : Type} `{BucketExperiment E}.

(** What the filter on prefixes makes of one experiment. *)
Definition prefix_step (prefix : option (list string)) (e : E) : option E :=
  match prefix with
  | None => Some e
  | Some ps =>
      let variants := omap (variant_by_prefix (list_to_set ps)) (be_variants e) in
      if negb (bool_decide (variants = [])) then Some (be_set_variants e variants) else None
  end.

Lemma prefix_step_id prefix e e' : prefix_step prefix e = Some e' → be_id e' = be_id e.
Proof.
  unfold prefix_step. destruct prefix; [|by intros [= ->]].
  case_match; [|done]. intros [= <-]. apply be_set_variants_id.
Qed.

Lemma prefix_step_context prefix e e' :
  prefix_step prefix e = Some e' → be_context e' = be_context e.
Proof.
  unfold prefix_step. destruct prefix; [|by intros [= ->]].
  case_match; [|done]. intros [= <-]. apply be_set_variants_context.
Qed.

Lemma satisfied_experiments_omap matches (experiments : list E) context prefix :
  satisfied_experiments matches experiments context prefix =
  omap (prefix_step prefix) (List.filter (λ e, matches (be_context e) context) experiments).
Proof.
  unfold satisfied_experiments, filter_experiments_by_prefix, prefix_step.
  destruct prefix; [done|]. induction (List.filter _ experiments) as [|e l IH]; [done|].
  cbn. f_equal. exact IH.
Qed.

(** Looking an experiment up among those of a request. *)
Lemma collect_satisfied matches (experiments : list E) context prefix id' :
  NoDup (be_id <$> experiments) → ∀ e',
  collect_map ((λ exp, (be_id exp, exp)) <$>
    satisfied_experiments matches experiments context prefix) !! id' = Some e' ↔
  ∃ e, e ∈ experiments ∧ be_id e = id' ∧ matches (be_context e) context = true ∧
    prefix_step prefix e = Some e'.
Proof.
  intros Hnd e'. rewrite satisfied_experiments_omap.
  set (l := omap _ _).
  assert (∀ x, x ∈ l ↔ ∃ e, e ∈ experiments ∧ matches (be_context e) context = true ∧
    prefix_step prefix e = Some x) as Hl.
  { intros x. unfold l. rewrite list_elem_of_omap. setoid_rewrite elem_of_filterb. naive_solver. }
  assert (∀ x y, x ∈ l → y ∈ l → be_id x = be_id y → x = y) as Hinj.
  { intros x y (e1 & H1 & _ & P1)%Hl (e2 & H2 & _ & P2)%Hl Hxy.
    assert (be_id e1 = be_id e2) as Heq
      by (rewrite <-(prefix_step_id _ _ _ P1), <-(prefix_step_id _ _ _ P2); done).
    assert (e1 = e2) as ->; [|congruence].
    apply list_elem_of_lookup in H1 as [i H1], H2 as [j H2].
    assert (i = j) as ->; [|congruence]. eapply NoDup_lookup; [exact Hnd| |].
    - rewrite list_lookup_fmap, H1. done.
    - rewrite list_lookup_fmap, H2. simpl. by rewrite Heq. }
  split.
  - intros Hc%collect_map_Some. apply list_elem_of_fmap in Hc as (x & [= -> ->] & Hx).
    apply Hl in Hx as (e & He & Hm & Hp). exists e. split_and!; try done.
    symmetry. by eapply prefix_step_id.
  - intros (e & He & <- & Hm & Hp).
    assert (e' ∈ l) as Hx by (apply Hl; eauto).
    assert (is_Some (collect_map ((λ exp, (be_id exp, exp)) <$> l) !! be_id e)) as [x Hc].
    { apply collect_map_is_Some. rewrite <-list_fmap_compose. apply list_elem_of_fmap.
      exists e'. split; [|done]. simpl. symmetry. by eapply prefix_step_id. }
    rewrite Hc. f_equal.
    apply collect_map_Some, list_elem_of_fmap in Hc as (y & [= Hid ->] & Hy).
    apply Hinj; [done..|]. rewrite <-Hid. symmetry. by eapply prefix_step_id.
Qed.
End satisfied.
