(* ===== verification/Samples.v ===== *)
(** * Concrete data for the witnesses

    A small workspace: a regular dimension [clientId], the local cohort
    [tier] computed from it, and the reserved [variantIds]. The JSON-logic
    interpreter is instantiated with the one rule shape the cohort uses,
    [{"==": [{"var": d}, literal]}]. *)

From S2P Require Import Prelude Json Types Text Effects Logic LogicProps Config Resolve ExpModels Bucketing BucketAlloc.

(** Evaluation of [{"==": [{"var": d}, literal]}] on an object. *)
Definition jl_equals : JsonLogic := λ rule data,
  match as_object rule ≫= (.!! "==") with
  | Some (VArray [VObject var; literal]) =>
      match var !! "var", as_object data with
      | Some (VString d), Some fields =>
          Ok (VBool (bool_decide (default VNull (fields !! d) = literal)))
      | _, _ => Err "unsupported"
      end
  | _ => Err "unsupported"
  end.

Definition rule_equals (d : string) (literal : Value) : Value :=
  VObject {[ "==" := VArray [VObject {[ "var" := VString d ]}; literal] ]}.

Definition str (s : string) : Value := VString s.

Definition tier_schema : Map :=
  <["type" := str "string"]>
  (<["enum" := VArray [str "gold"; str "silver"; str "otherwise"]]>
  {[ "definitions" := VObject
      (<["gold" := rule_equals "clientId" (str "acme")]>
       {[ "silver" := rule_equals "clientId" (str "bolt") ]}) ]}).

Definition client_info : DimensionInfo :=
  mkDimensionInfo {[ "type" := str "string" ]} 2 Regular
    (<["clientId" := ["tier"]]> {[ "tier" := [] ]}) None.
Definition tier_info : DimensionInfo :=
  mkDimensionInfo tier_schema 1 (LocalCohort "clientId") ∅ None.
Definition variant_info : DimensionInfo :=
  mkDimensionInfo {[ "type" := str "array" ]} 0 Regular ∅ None.

Definition sample_dims : gmap string DimensionInfo :=
  <["clientId" := client_info]> (<["tier" := tier_info]> {[ "variantIds" := variant_info ]}).

Lemma sample_dims_nonempty : sample_dims ≠ ∅.
Proof. by_compute. Qed.

Lemma sample_dims_lookup d info : sample_dims !! d = Some info →
  (d = "clientId" ∧ info = client_info) ∨ (d = "tier" ∧ info = tier_info) ∨
  (d = "variantIds" ∧ info = variant_info).
Proof.
  unfold sample_dims.
  rewrite !lookup_insert_Some, lookup_singleton_Some. naive_solver.
Qed.

Lemma sample_graphs_decreasing : graphs_decreasing sample_dims.
Proof.
  intros root info cur e Hr He.
  apply sample_dims_lookup in Hr as [[-> ->]|[[-> ->]|[-> ->]]];
    unfold graph_children in He; simpl in He.
  - destruct (decide (cur = "clientId")) as [->|H1].
    { rewrite lookup_insert_eq in He. apply list_elem_of_singleton in He as ->. vm_compute. lia. }
    rewrite lookup_insert_ne in He by done.
    destruct (decide (cur = "tier")) as [->|H2].
    { rewrite lookup_singleton_eq in He. by apply elem_of_nil in He. }
    rewrite lookup_singleton_ne in He by done. by apply elem_of_nil in He.
  - rewrite lookup_empty in He. by apply elem_of_nil in He.
  - rewrite lookup_empty in He. by apply elem_of_nil in He.
Qed.

Lemma sample_own_children p e : e ∈ own_children sample_dims p ↔ p = "clientId" ∧ e = "tier".
Proof.
  unfold own_children. destruct (sample_dims !! p) as [info|] eqn:Hp.
  - apply sample_dims_lookup in Hp as [[-> ->]|[[-> ->]|[-> ->]]]; simpl.
    + rewrite lookup_insert_eq. simpl. set_solver.
    + rewrite lookup_empty. simpl. set_solver.
    + rewrite lookup_empty. simpl. set_solver.
  - split; [by intros ?%elem_of_nil|intros [-> ->]]. done.
Qed.

(** The request of a gold client. *)
Definition sample_query : Map := {[ "clientId" := str "acme" ]}.

Definition sample_evaluated : Map :=
  <["clientId" := str "acme"]> {[ "tier" := str "gold" ]}.

Example sample_evaluates :
  evaluate_local_cohorts (O:=list_order) (H:=jl_equals) (cohort_fuel sample_dims)
    sample_dims sample_query = Some sample_evaluated.
Proof. by_compute. Qed.

(** A configuration of it: [limits] is an object, overridden for the gold
    tier and for the client; [silver] clients have a context of their own. *)
Definition num (n : N) : Value := VNumber (PosInt n).

Definition sample_defaults : Map :=
  <["limits" := VObject (<["day" := num 10]> {[ "month" := num 100 ]})]>
  {[ "fee" := VBool false ]}.
Definition sample_gold_limits : Value := VObject {[ "month" := num 700 ]}.
Definition sample_merged_limits : Value :=
  VObject (<["day" := num 50]> {[ "month" := num 700 ]}).

Definition sample_overrides : gmap string Overrides :=
  <["o1" := {[ "limits" := VObject {[ "day" := num 50 ]} ]}]>
  (<["o2" := {[ "limits" := sample_gold_limits ]}]>
  {[ "o3" := {[ "fee" := VBool true ]} ]}).

Definition sample_contexts : list Context :=
  [mkContext "c1" {[ "clientId" := str "acme" ]} 0 0 "o1";
   mkContext "c3" {[ "tier" := str "silver" ]} 1 1 "o3";
   mkContext "c2" {[ "tier" := str "gold" ]} 2 2 "o2"].

(** Its resolution under [REPLACE]. *)
Definition sample_replaced : Map :=
  <["limits" := sample_gold_limits]> {[ "fee" := VBool false ]}.

Example sample_replace_resolves :
  eval_config (O:=list_order) (H:=jl_equals) (cohort_fuel sample_dims) sample_defaults
    sample_contexts sample_overrides sample_dims sample_query REPLACE None =
  Some (Ok sample_replaced).
Proof. by_compute. Qed.

Definition sample_config : Config :=
  mkConfig sample_contexts sample_overrides sample_defaults sample_dims.

(** * Concrete experiments and groups for the witnesses *)

Definition sample_variant (id : string) (t : VariantType) : Variant :=
  mkVariant id t (Some ("ctx-" +:+ id)) (Some ("ovr-" +:+ id)) {[ "fee" := VBool true ]}.

Definition sample_variants : Variants :=
  [sample_variant "7-control" CONTROL; sample_variant "7-test" EXPERIMENTAL].

Definition sample_experiment : Experiment :=
  mkExperiment 7 0 "ana@x.io" 0 "fee test" EDefault ["fee"] INPROGRESS 50 (Some 1%Z)
    (Some "ana@x.io") ∅ sample_variants "ana@x.io" None "d" "r" (mkMetrics false None) (Some 9%Z).

(** The buckets of a group in which the experiment holds [t] each. *)
Definition sample_buckets (t : nat) : Buckets :=
  match update_bucket_allocation sample_experiment Buckets.default (Z.of_nat t) with
  | Ok bs => bs
  | Err _ => []
  end.

Definition sample_group (group_type : GroupType) (traffic : Z) (buckets : Buckets)
    : ExperimentGroup :=
  mkExperimentGroup 9 "h" "g" "d" "r" ∅ traffic [7%Z] 0 "ana@x.io" 0 "ana@x.io" buckets group_type.

Definition sample_response (traffic : Z) : ExperimentResponse :=
  mkExperimentResponse "7"
    (mkExperiment 7 0 "ana@x.io" 0 "fee test" EDefault ["fee"] INPROGRESS traffic (Some 1%Z)
      (Some "ana@x.io") ∅ sample_variants "ana@x.io" None "d" "r" (mkMetrics false None) (Some 9%Z))
    None (Some "9").

Lemma sample_variant_ids_NoDup : NoDup (variant_ids sample_experiment).
Proof. by_compute. Qed.

Lemma sample_balanced : balanced sample_experiment 50 (sample_buckets 50).
Proof.
  intros w Hw. unfold variant_ids in Hw. simpl in Hw.
  apply elem_of_cons in Hw as [->|Hw]; [by vm_compute|].
  apply list_elem_of_singleton in Hw as ->. by vm_compute.
Qed.
