(* ===== verification/CacClient.v ===== *)
(** * The configuration client

    First the canonical text of a JSON value, [json_to_sorted_string] of [crates/cac_client/src/utils.rs], from which
    context ids and cache keys are made. How a float prints is left to
    [FloatText]. *)

From S2P Require Import Prelude Json Types Logic Config Resolve.

(** [ryu]'s shortest decimal of a finite float. *)
Class FloatText := float_to_string : N → string.

(** [Ord for str]: byte by byte, a prefix first. *)
Fixpoint str_leb (s t : string) {struct s} : bool :=
  match s, t with
  | EmptyString, _ => true
  | String _ _, EmptyString => false
  | String c s, String d t =>
      bool_decide (N_of_ascii c < N_of_ascii d)%N ||
      (bool_decide (c = d) && str_leb s t)
  end.

Definition str_le (s t : string) : Prop := str_leb s t = true.

#[export] Instance str_le_dec : RelDecision str_le.
Proof. intros s t. unfold str_le. apply _. Defined.

(** [Vec::sort] and [sorted_by_key]. *)
Definition sort_strings (l : list string) : list string := merge_sort str_le l.
Definition key_le {V} (x y : string * V) : Prop := str_le x.1 y.1.

#[export] Instance key_le_dec {V} : RelDecision (@key_le V).
Proof. intros x y. unfold key_le. apply _. Defined.

Definition sorted_entries {V} (m : gmap string V) : list (string * V) :=
  merge_sort key_le (map_to_list m).

(** [[T]::join]. *)
Fixpoint join (sep : string) (l : list string) : string :=
  match l with
  | [] => ""
  | [s] => s
  | s :: l => s +:+ sep +:+ join sep l
  end.

Section text.
Context `{FloatText}.

Definition number_to_string (n : Number) : string :=
  match n with
  | PosInt n => pretty n
  | NegInt z => pretty z
  | Float bits => float_to_string bits
  end.

(** The entries of an object are rendered before they are sorted, which makes
    the recursion structural; the order is that of the keys. *)
Fixpoint json_to_sorted_string (v : Value) : string :=
  match v with
  | VObject m =>
      foldr (λ '(i, p) new_str, i +:+ ":" +:+ p +:+ "$" +:+ new_str) ""
        (sorted_entries (json_to_sorted_string <$> m))
  | VString m => m
  | VNumber m => number_to_string m
  | VBool b => if b then "true" else "false"
  | VNull => "null"
  | VArray m => join "," (sort_strings (map json_to_sorted_string m))
  end.
End text.

(** [blake3::hash(_).to_string()] is a parameter. *)
Class Blake3 := blake3_hash : string → string.

(** [hash] of [crates/experimentation_platform/src/api/experiments/helpers.rs]
    and of [crates/context_aware_config/src/api/context/helpers.rs]. *)
Definition hash `{FloatText} `{Blake3} (val : Value) : string :=
  blake3_hash (json_to_sorted_string val).

(** ** The order of strings *)

Lemma str_leb_refl s : str_leb s s = true.
Proof.
  induction s as [|c s IH]; simpl; [done|].
  rewrite (bool_decide_true (c = c)) by done. by rewrite IH, orb_true_r.
Qed.

Lemma str_leb_total s t : str_leb s t = true ∨ str_leb t s = true.
Proof.
  revert t. induction s as [|c s IH]; intros [|d t]; simpl; eauto.
  rewrite !orb_true_iff, !andb_true_iff, !bool_decide_eq_true.
  destruct (N.lt_trichotomy (N_of_ascii c) (N_of_ascii d)) as [?|[Heq|?]]; eauto.
  assert (c = d) as -> by (by rewrite <-(ascii_N_embedding c), Heq, ascii_N_embedding).
  destruct (IH t); eauto.
Qed.

Lemma str_leb_antisym s t : str_leb s t = true → str_leb t s = true → s = t.
Proof.
  revert t. induction s as [|c s IH]; intros [|d t]; simpl; try done.
  rewrite !orb_true_iff, !andb_true_iff, !bool_decide_eq_true.
  intros [?|[-> ?]] [?|[? ?]]; subst; try lia. f_equal. eauto.
Qed.

Lemma str_leb_trans s t u : str_leb s t = true → str_leb t u = true → str_leb s u = true.
Proof.
  revert t u. induction s as [|c s IH]; intros [|d t] [|e u]; simpl; try done.
  rewrite !orb_true_iff, !andb_true_iff, !bool_decide_eq_true.
  intros [?|[-> ?]] [?|[-> ?]]; [left; lia|by left|by left|right]. eauto.
Qed.

#[export] Instance str_le_total : Total str_le.
Proof. intros s t. apply str_leb_total. Qed.
#[export] Instance str_le_trans : Transitive str_le.
Proof. intros s t u. apply str_leb_trans. Qed.
#[export] Instance str_le_antisym : AntiSymm eq str_le.
Proof. intros s t. apply str_leb_antisym. Qed.

(** Sorting forgets the order of the input. *)
Lemma sort_strings_perm l l' : l ≡ₚ l' → sort_strings l = sort_strings l'.
Proof.
  intros Hp. unfold sort_strings. eapply (StronglySorted_unique str_le).
  - apply StronglySorted_merge_sort; apply _.
  - apply StronglySorted_merge_sort; apply _.
  - by rewrite !merge_sort_Permutation.
Qed.

(** Values that differ only in the order of arrays, at any depth. *)
Inductive array_perm : Value → Value → Prop :=
  | ap_refl v : array_perm v v
  | ap_array l l1 l' : Forall2 array_perm l l1 → l1 ≡ₚ l' → array_perm (VArray l) (VArray l')
  | ap_object (m m' : Map) :
      (∀ k, option_Forall2 array_perm (m !! k) (m' !! k)) → array_perm (VObject m) (VObject m').

(** ** Entries in order *)

Lemma elem_of_sorted_entries {V} (m : gmap string V) k v : (k, v) ∈ sorted_entries m ↔ m !! k = Some v.
Proof. unfold sorted_entries. rewrite merge_sort_Permutation. apply elem_of_map_to_list. Qed.

(** ** The client and its cache

    [crates/cac_client]: its copy of the resolution ([eval.rs]), and the client
    that keeps the last configuration fetched and a cache of resolutions
    ([lib.rs]). Every method holds the locks it needs from its first read to
    its last write, so a method is one step. *)

(** ** [eval.rs] *)

(** [merge] and [replace_top_level] are the text of superposition_core's. *)
Definition cac_merge (doc patch : Value) : Value := merge doc patch.
Definition cac_replace_top_level (doc : Map) (patch : Value) : Map * bool :=
  replace_top_level doc patch.

(** How the status code of an answer prints, with its reason. *)
Class StatusText := status_to_string : Z → string.

Section eval.
Context {O : MapOrder} {JL : JsonLogic}.

(** [get_overrides] of this crate hands the value over unchecked. *)
Definition cac_get_overrides (query_data : Map) (contexts : list Context)
    (overrides : gmap string Overrides) (merge_strategy : MergeStrategy)
    : result string (Value * list Context) :=
  override_loop query_data overrides merge_strategy contexts (VObject ∅) [].

(** [serde_json::from_value::<Map<_, _>>]. *)
Definition from_value (v : Value) : result string Map :=
  match v with
  | VObject m => Ok m
  | _ => Err "invalid type: expected a map"
  end.

Definition eval_cac (fuel : nat) (config : Config) (query_data : Map)
    (merge_strategy : MergeStrategy) : option (result string Map) :=
  modified_query_data ← evaluate_local_cohorts fuel (dimensions config) query_data;
  Some ('(required_overrides, _) ←
          cac_get_overrides modified_query_data (contexts config) (overrides config) merge_strategy;
        overrides ← from_value required_overrides;
        Ok (merge_overrides_on_default_config (default_configs config) overrides merge_strategy)).

Definition eval_cac_with_reasoning (fuel : nat) (config : Config) (query_data : Map)
    (merge_strategy : MergeStrategy) : option (result string Map) :=
  modified_query_data ← evaluate_local_cohorts fuel (dimensions config) query_data;
  Some ('(required_overrides, selected) ←
          cac_get_overrides modified_query_data (contexts config) (overrides config) merge_strategy;
        applied_overrides ← from_value required_overrides;
        Ok (<["metadata" := VArray (reasoning_entry <$> selected)]>
             (merge_overrides_on_default_config (default_configs config) applied_overrides
                merge_strategy))).

(** Both are the functions of [superposition_core]. *)
Lemma eval_cac_eval_config fuel (config : Config) (q : Map) (strategy : MergeStrategy) :
  eval_cac fuel config q strategy =
    eval_config fuel (default_configs config) (contexts config) (overrides config)
      (dimensions config) q strategy None ∧
  eval_cac_with_reasoning fuel config q strategy =
    eval_config_with_reasoning fuel (default_configs config) (contexts config) (overrides config)
      (dimensions config) q strategy None.
Proof.
  unfold eval_cac, eval_config, eval_cac_with_reasoning, eval_config_with_reasoning. simpl.
  destruct (evaluate_local_cohorts fuel (dimensions config) q) as [mq|]; [|done]. simpl.
  unfold get_overrides, cac_get_overrides.
  destruct (override_loop_spec mq (overrides config) strategy (contexts config) ∅ [])
    as (m & -> & _). done.
Qed.

(** ** [lib.rs] *)

Record Client : Type := mkClient {
  cl_tenant : string;
  cl_last_modified : Z;
  cl_config : Config;
  cl_config_cache : gmap string Map;
}.

(** What [fetch] obtains: an error of the transport, or a status with the
    [last-modified] header and the body. *)
Inductive FetchOutcome : Type :=
  | SendError (message : string)
  | Fetched (status : Z) (last_modified : option Z) (body : result string Config).

Context {ST : StatusText}.

Definition fetch (self : Client) (response : FetchOutcome)
    : result string (option Z * result string Config) :=
  match response with
  | SendError message => Err message
  | Fetched status last_modified body =>
      if bool_decide (status = 304%Z) then
        Err (cl_tenant self +:+ " CAC: skipping update, remote not modified")
      else if bool_decide (status = 200%Z) then Ok (last_modified, body)
      else Err (cl_tenant self +:+ " CAC: fetch failed, status: " +:+ status_to_string status)
  end.

(** [update_cac]: the client afterwards. A body that does not parse leaves the
    configuration and the cache alone. *)
Definition update_cac (self : Client) (response : FetchOutcome) : result string string * Client :=
  match fetch self response with
  | Err e => (Err e, self)
  | Ok (last_modified_at, body) =>
      match body with
      | Err e => (Err e, self)
      | Ok config =>
          (Ok (cl_tenant self +:+ ": CAC updated successfully"),
           mkClient (cl_tenant self) (default (cl_last_modified self) last_modified_at) config ∅)
      end
  end.

Definition get_full_config_state_with_filter (fuel : nat) (self : Client)
    (query_data : option Map) (prefix : option (list string)) : option Config :=
  let config :=
    match prefix with
    | Some prefix_list => Config.filter_by_prefix (cl_config self) (list_to_set prefix_list)
    | None => cl_config self
    end in
  match query_data with
  | Some query_map =>
      if bool_decide (query_map = ∅) then Some config
      else Config.filter_by_dimensions fuel config query_map
  | None => Some config
  end.

Context `{FloatText}.

(** The key of the cache. *)
Definition cache_key (query_data : Map) (filter_keys : option (list string))
    (merge_strategy : MergeStrategy) : string :=
  let filter_keys_concat :=
    match filter_keys with
    | Some vec => join "," (sort_strings (elements (list_to_set vec : gset string)))
    | None => "null"
    end in
  json_to_sorted_string (VObject query_data) +:+ "?" +:+ MergeStrategy.to_string merge_strategy
    +:+ "?" +:+ filter_keys_concat.

Definition keyed_config (config : Config) (filter_keys : option (list string)) : Config :=
  match filter_keys with
  | Some keys => Config.filter_by_prefix config (list_to_set keys)
  | None => config
  end.

(** [None] when the cohort evaluation runs out of fuel. *)
Definition get_resolved_config (fuel : nat) (self : Client) (query_data : Map)
    (filter_keys : option (list string)) (merge_strategy : MergeStrategy)
    : option (result string Map * Client) :=
  let hash_key := cache_key query_data filter_keys merge_strategy in
  match cl_config_cache self !! hash_key with
  | Some value => Some (Ok value, self)
  | None =>
      let config := keyed_config (cl_config self) filter_keys in
      evaled ← eval_cac fuel config query_data merge_strategy;
      match evaled with
      | Err e => Some (Err e, self)
      | Ok evaled_cac =>
          Some (Ok evaled_cac,
            mkClient (cl_tenant self) (cl_last_modified self) (cl_config self)
              (<[hash_key := evaled_cac]> (cl_config_cache self)))
      end
  end.

Definition get_default_config (self : Client) (filter_keys : option (list string)) : Map :=
  match filter_keys with
  | Some keys => Config.filter_default_by_prefix (cl_config self) (list_to_set keys)
  | None => default_configs (cl_config self)
  end.

(** *** The client over time

    Between calls the cache may drop entries (capacity, time to live, time to
    idle), and the polling loop may update the configuration. *)
Inductive client_step (fuel : nat) : Client → Client → Prop :=
  | step_resolve self q keys strategy res self' :
      get_resolved_config fuel self q keys strategy = Some (res, self') →
      client_step fuel self self'
  | step_update self response :
      client_step fuel self (update_cac self response).2
  | step_evict self cache :
      cache ⊆ cl_config_cache self →
      client_step fuel self
        (mkClient (cl_tenant self) (cl_last_modified self) (cl_config self) cache).

(** The client as [new] makes it: nothing cached. *)
Definition new_client (tenant : string) (last_modified : Z) (config : Config) : Client :=
  mkClient tenant last_modified config ∅.

(** Every cached value is the resolution, under the configuration held, of
    some request with that key. *)
Definition cache_sound (fuel : nat) (self : Client) : Prop :=
  ∀ key value, cl_config_cache self !! key = Some value →
  ∃ q keys strategy, cache_key q keys strategy = key ∧
    eval_cac fuel (keyed_config (cl_config self) keys) q strategy = Some (Ok value).

Lemma cache_sound_step fuel self self' :
  cache_sound fuel self → client_step fuel self self' → cache_sound fuel self'.
Proof.
  intros Hs Hstep. destruct Hstep as [self q keys strategy res self' Hr|self response|self cache Hsub].
  - unfold get_resolved_config in Hr. case_match; [by simplify_eq|].
    apply bind_Some in Hr as ([v|e] & Hev & Hr); simplify_eq; [|done].
    intros key value. simpl. intros [[<- <-]|[_ Hk]]%lookup_insert_Some; [|by apply Hs].
    by exists q, keys, strategy.
  - unfold update_cac. destruct (fetch self response) as [[lm [config|e]]|e]; simpl; [|done..].
    intros key value. simpl. by rewrite lookup_empty.
  - intros key value. simpl. intros Hk. apply Hs. by eapply lookup_weaken.
Qed.

Lemma cache_sound_reachable fuel self self' :
  rtc (client_step fuel) self self' → cache_sound fuel self → cache_sound fuel self'.
Proof. induction 1; eauto using cache_sound_step. Qed.
End eval.
