(* ===== verification/CacToml.v ===== *)
(** * Configurations in TOML files

    [crates/cac_toml/src/lib.rs]: the grammar of context expressions, their
    evaluation on the dimensions of a request, and the resolution of a file.
    The grammar is a parsing expression grammar: choices are ordered and
    repetitions take what they can. Tables keep the order of the file. A panic
    is an error value. Floats are kept as their 64 bits; reading and comparing
    them is a parameter, as is the order in which a heap hands out items of
    one priority. *)

From S2P Require Import Prelude Text CacClient.

(** [toml::Value]; a date is kept as its text. *)
Inductive TomlValue : Type :=
  | TString (s : string)
  | TInteger (z : Z)
  | TFloat (bits : N)
  | TBoolean (b : bool)
  | TDatetime (text : string)
  | TArray (items : list TomlValue)
  | TTable (entries : list (string * TomlValue)).

Fixpoint assoc {A} (key : string) (l : list (string * A)) : option A :=
  match l with
  | [] => None
  | (k, a) :: l => if bool_decide (k = key) then Some a else assoc key l
  end.

(** [Value::get] with a key, [Value::as_table]. *)
Definition toml_get (v : TomlValue) (key : string) : option TomlValue :=
  match v with TTable entries => assoc key entries | _ => None end.
Definition as_table (v : TomlValue) : option (list (string * TomlValue)) :=
  match v with TTable entries => Some entries | _ => None end.

(** [f64]. *)
Class F64 := {
  f64_parse : string → option N;
  f64_lt : N → N → bool;
  f64_le : N → N → bool;
  f64_eq : N → N → bool;
}.

(** ** The grammar *)

Abbreviation Parser A := (string → option (A * string)).

Fixpoint strip_prefix (p s : string) : option string :=
  match p, s with
  | EmptyString, _ => Some s
  | String c p, String d s => if bool_decide (c = d) then strip_prefix p s else None
  | String _ _, EmptyString => None
  end.

(** [c*] for a class of characters. *)
Fixpoint span (f : ascii → bool) (s : string) : string * string :=
  match s with
  | String c rest => if f c then let '(taken, rest) := span f rest in (String c taken, rest) else ("", s)
  | EmptyString => ("", "")
  end.
Definition span1 (f : ascii → bool) : Parser string := λ s,
  let '(taken, rest) := span f s in if bool_decide (taken = "") then None else Some (taken, rest).

Definition ascii_digit (c : ascii) : bool :=
  let n := nat_of_ascii c in (48 <=? n) && (n <=? 57).
Definition ascii_alphanumeric (c : ascii) : bool :=
  let n := nat_of_ascii c in
  ascii_digit c || ((65 <=? n) && (n <=? 90)) || ((97 <=? n) && (n <=? 122)).
(** The rules [char] and [whitespace]. *)
Definition char_rule (c : ascii) : bool :=
  ascii_alphanumeric c || bool_decide (c = "."%char) || bool_decide (c = "_"%char).
Definition whitespace (c : ascii) : bool :=
  bool_decide (c = " "%char) || bool_decide (c = ascii_of_nat 9) || bool_decide (c = ascii_of_nat 10).
Definition skip_whitespace (s : string) : string := (span whitespace s).2.

(** The pairs of a parse, with the text each is made of. *)
Inductive Term : Type :=
  | BoolLiteral (text : string)
  | StringLiteral (text : string)
  | FloatLiteral (text : string)
  | IntegerLiteral (text : string)
  | Dimension_ (text : string).

Record Comparison : Type := mkComparison {
  cp_left : Term;
  cp_operator : string;
  cp_right : Term;
}.

(** One pair and those after it. *)
Definition LogicalAnd : Type := Comparison * list Comparison.
Definition LogicalOr : Type := LogicalAnd * list LogicalAnd.

Definition or_parse {A} (p q : Parser A) : Parser A := λ s,
  match p s with Some r => Some r | None => q s end.

Definition literal (text : string) : Parser string := λ s, (λ rest, (text, rest)) <$> strip_prefix text s.

Definition bool_literal : Parser Term := λ s,
  '(text, s) ← or_parse (literal "true") (literal "false") s; Some (BoolLiteral text, s).
Definition string_literal : Parser Term := λ s,
  s ← strip_prefix "'" s; '(chars, s) ← span1 char_rule s; s ← strip_prefix "'" s;
  Some (StringLiteral ("'" +:+ chars +:+ "'"), s).
Definition float : Parser Term := λ s,
  '(whole, s) ← span1 ascii_digit s; s ← strip_prefix "." s; '(part, s) ← span1 ascii_digit s;
  Some (FloatLiteral (whole +:+ "." +:+ part), s).
Definition integer : Parser Term := λ s,
  '(digits, s) ← span1 ascii_digit s; Some (IntegerLiteral digits, s).
Definition dimension_rule : Parser Term := λ s,
  s ← strip_prefix "$" s; '(chars, s) ← span1 char_rule s; Some (Dimension_ ("$" +:+ chars), s).

Definition term : Parser Term :=
  or_parse bool_literal (or_parse string_literal (or_parse float (or_parse integer dimension_rule))).

Definition comparison_operator : Parser string :=
  or_parse (literal ">=") (or_parse (literal "<=") (or_parse (literal "<")
    (or_parse (literal ">") (or_parse (literal "==") (literal "!="))))).

Definition comparison : Parser Comparison := λ s,
  '(l, s) ← term s;
  '(operator, s) ← comparison_operator (skip_whitespace s);
  '(r, s) ← term (skip_whitespace s);
  Some (mkComparison l operator r, s).

(** [(whitespace* ~ sep ~ whitespace* ~ p)*]: a turn that fails takes nothing. *)
Fixpoint many {A} (fuel : nat) (sep : string) (p : Parser A) (s : string) : list A * string :=
  match fuel with
  | O => ([], s)
  | S fuel =>
      match s' ← strip_prefix sep (skip_whitespace s); p (skip_whitespace s') with
      | Some (a, rest) => let '(l, rest) := many fuel sep p rest in (a :: l, rest)
      | None => ([], s)
      end
  end.

Definition separated {A} (sep : string) (p : Parser A) : Parser (A * list A) := λ s,
  '(a, s) ← p s; let '(l, s) := many (String.length s) sep p s in Some ((a, l), s).

Definition logical_and : Parser LogicalAnd := separated "&&" comparison.
Definition logical_or : Parser LogicalOr := separated "||" logical_and.

(** [CACParser::parse(Rule::expression, ..)]. *)
Definition parse_expression (s : string) : option LogicalOr :=
  '(e, s) ← logical_or (skip_whitespace s);
  if bool_decide (skip_whitespace s = "") then Some e else None.

(** ** Evaluation *)

Section evaluation.
Context `{F64}.
Variable dimensions : gmap string TomlValue.

(** A value, or a panic, and the dimensions seen so far. *)
Abbreviation Evaluated := (result string (TomlValue * list string)).

Definition operator_value (operator : string) (lt gt eq le ge : bool) : result string TomlValue :=
  if bool_decide (operator = "<") then Ok (TBoolean lt)
  else if bool_decide (operator = ">") then Ok (TBoolean gt)
  else if bool_decide (operator = "==") then Ok (TBoolean eq)
  else if bool_decide (operator = "!=") then Ok (TBoolean (negb eq))
  else if bool_decide (operator = ">=") then Ok (TBoolean ge)
  else if bool_decide (operator = "<=") then Ok (TBoolean le)
  else Err "Invalid comparison operator".

Definition compare_integers (operator : string) (lhs rhs : Z) : result string TomlValue :=
  operator_value operator (bool_decide (lhs < rhs)%Z) (bool_decide (rhs < lhs)%Z)
    (bool_decide (lhs = rhs)) (bool_decide (lhs ≤ rhs)%Z) (bool_decide (rhs ≤ lhs)%Z).
Definition compare_floats (operator : string) (lhs rhs : N) : result string TomlValue :=
  operator_value operator (f64_lt lhs rhs) (f64_lt rhs lhs) (f64_eq lhs rhs) (f64_le lhs rhs)
    (f64_le rhs lhs).
Definition compare_strings (operator : string) (lhs rhs : string) : result string TomlValue :=
  operator_value operator (negb (str_leb rhs lhs)) (negb (str_leb lhs rhs)) (bool_decide (lhs = rhs))
    (str_leb lhs rhs) (str_leb rhs lhs).

(** [unwrap_or_default]. *)
Definition integer_or_default (s : string) : Z :=
  match parse_i64 s with Ok z => z | Err _ => 0%Z end.
Definition float_or_default (s : string) : N := default 0%N (f64_parse s).

Definition compare_values (operator : string) (lhs rhs : TomlValue) : result string TomlValue :=
  match lhs, rhs with
  | TInteger lhs, TInteger rhs => compare_integers operator lhs rhs
  | TString lhs, TString rhs => compare_strings operator lhs rhs
  | TFloat lhs, TFloat rhs => compare_floats operator lhs rhs
  | TString lhs, TInteger rhs => compare_integers operator (integer_or_default lhs) rhs
  | TString lhs, TFloat rhs => compare_floats operator (float_or_default lhs) rhs
  | TBoolean false, _ => Ok (TBoolean false)
  | TBoolean true, _ => Ok (TBoolean true)
  | _, _ => Err "Comparison between non-numeric values"
  end.

Definition evaluate_term (t : Term) (extracted_dimensions : list string) : Evaluated :=
  match t with
  | Dimension_ text =>
      let dimension := String.substring 1 (String.length text - 1) text in
      Ok (default (TBoolean false) (dimensions !! dimension), extracted_dimensions ++ [dimension])
  | BoolLiteral text =>
      if bool_decide (text = "true") then Ok (TBoolean true, extracted_dimensions)
      else if bool_decide (text = "false") then Ok (TBoolean false, extracted_dimensions)
      else Err ("Unknown identifier: " +:+ text)
  | StringLiteral text =>
      Ok (TString (String.substring 1 (String.length text - 2) text), extracted_dimensions)
  | IntegerLiteral text =>
      match parse_i64 text with
      | Ok z => Ok (TInteger z, extracted_dimensions)
      | Err _ => Err "called `Result::unwrap()` on an `Err` value"
      end
  | FloatLiteral text =>
      match f64_parse text with
      | Some f => Ok (TFloat f, extracted_dimensions)
      | None => Err "called `Result::unwrap()` on an `Err` value"
      end
  end.

Definition evaluate_comparison (c : Comparison) (extracted_dimensions : list string) : Evaluated :=
  '(l, ex) ← evaluate_term (cp_left c) extracted_dimensions;
  '(r, ex) ← evaluate_term (cp_right c) ex;
  v ← compare_values (cp_operator c) l r;
  Ok (v, ex).

(** The [for] loops of [&&] and [||], which evaluate every operand. *)
Fixpoint combine_operands {A} (eval : A → list string → Evaluated) (op : bool → bool → bool)
    (message : string) (result : TomlValue) (pairs : list A) (ex : list string) : Evaluated :=
  match pairs with
  | [] => Ok (result, ex)
  | operand :: pairs =>
      '(next_value, ex) ← eval operand ex;
      match result, next_value with
      | TBoolean lhs, TBoolean rhs =>
          combine_operands eval op message (TBoolean (op lhs rhs)) pairs ex
      | _, _ => Err message
      end
  end.

Definition evaluate_operands {A} (eval : A → list string → Evaluated) (op : bool → bool → bool)
    (message : string) (pairs : A * list A) (ex : list string) : Evaluated :=
  '(result, ex) ← eval (pairs.1) ex;
  combine_operands eval op message result (pairs.2) ex.

Definition evaluate_and : LogicalAnd → list string → Evaluated :=
  evaluate_operands evaluate_comparison andb "AND operation requires boolean values".
Definition evaluate_context_expression : LogicalOr → list string → Evaluated :=
  evaluate_operands evaluate_and orb "OR operation requires boolean values".
End evaluation.

(** [unwrap] of the priority of each dimension. *)
Definition compute_priority (dimensions : list string) (allowed_dimensions : gmap string Z)
    : result string Z :=
  foldl (λ priority dimension,
      p ← priority;
      q ← ok_or (allowed_dimensions !! dimension) "called `Option::unwrap()` on a `None` value";
      Ok (p + q)%Z) (Ok 0%Z) dimensions.

(** ** Files *)

Record ContextualOverride : Type := mkContextualOverride {
  co_expression : string;
  co_extracted_dimensions : list string;
  co_overrides : TomlValue;
  co_priority : Z;
}.

Record ContextAwareConfig : Type := mkContextAwareConfig {
  ca_dimension_priority : gmap string Z;
  ca_default_config : gmap string TomlValue;
  ca_toml_value : TomlValue;
}.

(** The sections: an entry has the fields that are demanded of it. *)
Fixpoint check_defaults (entries : list (string * TomlValue)) (default_config : gmap string TomlValue)
    : option (gmap string TomlValue) :=
  match entries with
  | [] => Some default_config
  | (key, value) :: entries =>
      v ← toml_get value "value";
      _ ← toml_get value "schema";
      check_defaults entries (<[key := v]> default_config)
  end.

Fixpoint check_dimensions (entries : list (string * TomlValue)) (index : Z)
    (dimension_priority : gmap string Z) : option (gmap string Z) :=
  match entries with
  | [] => Some dimension_priority
  | (key, value) :: entries =>
      _ ← toml_get value "schema";
      check_dimensions entries (index + 1) (<[key := index]> dimension_priority)
  end.

(** The overrides of a context that is not a table are not looked at. *)
Definition check_context (default_config : gmap string TomlValue) (entry : string * TomlValue) : bool :=
  bool_decide (is_Some (parse_expression entry.1)) &&
  match as_table entry.2 with
  | Some contextual_overrides =>
      forallb (λ o, bool_decide (is_Some (default_config !! o.1))) contextual_overrides
  | None => true
  end.

(** [parse], on the value of the file: the first section that fails makes it
    an error. *)
Definition check (toml_value : TomlValue) : option ContextAwareConfig :=
  default_table ← toml_get toml_value "default-config" ≫= as_table;
  default_config ← check_defaults default_table ∅;
  dimension_table ← toml_get toml_value "dimensions" ≫= as_table;
  dimension_priority ← check_dimensions dimension_table 1 ∅;
  contexts ← toml_get toml_value "context" ≫= as_table;
  if forallb (check_context default_config) contexts then
    Some (mkContextAwareConfig dimension_priority default_config toml_value)
  else None.

(** ** Resolution *)

(** [Ord for ContextualOverride]: the items are compared the other way round. *)
Definition contextual_override_cmp (self other : ContextualOverride) : Datatypes.comparison :=
  (co_priority other ?= co_priority self)%Z.

(** What the documentation asks of an implementation of [Ord]. *)
Record TotalOrd {A} (cmp : A → A → Datatypes.comparison) : Prop := {
  cmp_dual x y : cmp y x = CompOpp (cmp x y);
  cmp_trans x y z : cmp x y ≠ Lt → cmp y z ≠ Lt → cmp x z ≠ Lt;
}.

(** The items that popping a [BinaryHeap] until it is empty gives, for a type
    that is compared by [cmp]: each of them once, and none that is less than
    one after it. The order of equals is not specified. *)
Class BinaryHeap := heap_drain : ∀ {A}, (A → A → Datatypes.comparison) → list A → list A.
Class BinaryHeapOk (B : BinaryHeap) : Prop := {
  heap_perm {A} (cmp : A → A → Datatypes.comparison) l : heap_drain cmp l ≡ₚ l;
  heap_greatest_first {A} (cmp : A → A → Datatypes.comparison) l :
    TotalOrd cmp → StronglySorted (λ x y, cmp x y ≠ Lt) (heap_drain cmp l);
}.

Section resolution.
Context `{F64} `{BinaryHeap}.

(** The override of a context, when its expression holds. *)
Definition choose_override (self : ContextAwareConfig) (dimensions : gmap string TomlValue)
    (entry : string * TomlValue) : result string (option ContextualOverride) :=
  match parse_expression entry.1 with
  | None => Ok None
  | Some expression =>
      '(value, extracted_dimensions) ← evaluate_context_expression dimensions expression [];
      match value with
      | TBoolean true =>
          priority ← compute_priority extracted_dimensions (ca_dimension_priority self);
          Ok (Some (mkContextualOverride entry.1 extracted_dimensions entry.2 priority))
      | _ => Ok None
      end
  end.

Definition chosen_overrides (self : ContextAwareConfig) (dimensions : gmap string TomlValue)
    : result string (list ContextualOverride) :=
  chosen ← try_map (choose_override self dimensions)
             (default [] (toml_get (ca_toml_value self) "context" ≫= as_table));
  Ok (omap (M:=list) id chosen).

(** The keys of the default configuration that an item overrides. *)
Definition merge_item (default_config merged_data : gmap string TomlValue)
    (item : ContextualOverride) : gmap string TomlValue :=
  map_imap (λ key _, toml_get (co_overrides item) key) default_config ∪ merged_data.

Definition get_resolved_config (self : ContextAwareConfig) (dimensions : gmap string TomlValue)
    : result string (gmap string TomlValue) :=
  chosen ← chosen_overrides self dimensions;
  Ok (foldl (merge_item (ca_default_config self)) (ca_default_config self)
        (heap_drain contextual_override_cmp chosen)).
End resolution.
