(* ===== verification/ExpChecks.v ===== *)
(** * Checks on experiments

    The pure part of
    [crates/experimentation_platform/src/api/experiments/helpers.rs]: variant
    types, override keys and their coverage, the overlap of contexts and the
    admission of an experiment next to the active ones, and the checks of
    delete experiments against a resolved configuration. *)

From S2P Require Import Prelude Json Types Text Effects ExpModels CacClient.

(** ** Variants and keys *)

Definition check_variant_types (variants : list Variant) : Result unit :=
  let control_variant_cnt :=
    countb (λ v, bool_decide (v_variant_type v = CONTROL)) variants in
  let experimental_variant_cnt :=
    countb (λ v, bool_decide (v_variant_type v = EXPERIMENTAL)) variants in
  if (1 <? control_variant_cnt) || (control_variant_cnt =? 0) then
    bad_argument "Experiment should have exactly 1 control variant. Ensure only one control variant is present"
  else if experimental_variant_cnt <? 1 then
    bad_argument "Experiment should have at least 1 experimental variant. Ensure only one control variant is present"
  else Ok tt.

(** The loop inserts the keys one by one. *)
Fixpoint insert_all (override_keys : list string) (key_set : gset string) : bool :=
  match override_keys with
  | [] => true
  | key :: override_keys =>
      if bool_decide (key ∈ key_set) then false else insert_all override_keys ({[key]} ∪ key_set)
  end.

Definition validate_override_keys (override_keys : list string) : Result unit :=
  if insert_all override_keys ∅ then Ok tt
  else bad_argument "override_keys are not unique. Remove duplicate entries in override_keys".

Lemma insert_all_spec keys set :
  insert_all keys set = true ↔ NoDup keys ∧ ∀ k, k ∈ keys → k ∉ set.
Proof.
  revert set. induction keys as [|k keys IH]; intros set; simpl.
  - split; [|done]. intros _. split; [constructor|]. by intros ? ?%elem_of_nil.
  - case_bool_decide as Hk; [|rewrite IH, NoDup_cons]; split.
    + done.
    + intros [_ Hd]. exfalso. apply (Hd k); set_solver.
    + intros [Hnd Hd]. split_and!; [intros Hin; apply (Hd k Hin); set_solver|done|set_solver].
    + intros [[? ?] Hd]. split; [done|]. set_solver.
Qed.

(** [HashSet<String>] of the keys of a map. *)
Definition extract_override_keys (overrides : Map) : gset string := dom overrides.

(** The keys of an [Overrides] are looked up one by one; the lengths agree. *)
Definition check_variant_override_coverage (variant_override : Overrides)
    (override_keys : list string) : bool :=
  if negb (size variant_override =? length override_keys) then false
  else forallb (λ override_key, bool_decide (is_Some (variant_override !! override_key)))
         override_keys.

Definition check_variants_override_coverage (variant_overrides : list Overrides)
    (override_keys : list string) : bool :=
  forallb (λ variant_override, check_variant_override_coverage variant_override override_keys)
    variant_overrides.

Lemma check_variant_override_coverage_iff (ov : Overrides) keys :
  NoDup keys →
  check_variant_override_coverage ov keys = true ↔ dom ov = list_to_set keys.
Proof.
  intros Hnd. unfold check_variant_override_coverage.
  assert (size (list_to_set keys : gset string) = length keys) as Hsize
    by by apply size_list_to_set.
  destruct (Nat.eqb_spec (size ov) (length keys)) as [Hs|Hs]; simpl.
  - rewrite forallb_True. setoid_rewrite bool_decide_eq_true. setoid_rewrite <-elem_of_dom.
    split.
    + intros H. symmetry. apply set_subseteq_size_eq.
      * intros k Hk%elem_of_list_to_set. auto.
      * rewrite size_dom. lia.
    + intros H k Hk. rewrite H. by apply elem_of_list_to_set.
  - split; [done|]. intros H. rewrite <-size_dom, H in Hs. lia.
Qed.

(** ** Contexts *)

(** The keys of the smaller context, compared until the first difference. *)
Definition are_overlapping_contexts (context_a context_b : Condition) : Result bool :=
  let ref_keys := if size context_b <? size context_a then context_b else context_a in
  Ok (forallb (λ '(key, _),
        match context_a !! key, context_b !! key with
        | Some a, Some b => bool_decide (a = b)
        | _, _ => false
        end) (map_to_list ref_keys)).

Lemma ref_keys_spec (a b c : Condition) :
  c = a ∨ c = b →
  forallb (λ '(key, _),
      match a !! key, b !! key with
      | Some x, Some y => bool_decide (x = y)
      | _, _ => false
      end) (map_to_list c) = true ↔ c ⊆ a ∧ c ⊆ b.
Proof.
  intros Hc. rewrite forallb_map_to_list, !map_subseteq_spec. split.
  - intros H. assert (∀ k v, c !! k = Some v → a !! k = Some v ∧ b !! k = Some v) as Hab.
    { intros k v Hk. specialize (H k v Hk). simpl in H.
      destruct (a !! k) as [x|] eqn:Ha, (b !! k) as [y|] eqn:Hb; try done.
      apply bool_decide_eq_true in H as ->. destruct Hc; simplify_eq; auto. }
    split; intros k v Hk; by apply Hab.
  - intros [Ha Hb] k v Hk. simpl. rewrite (Ha k v Hk), (Hb k v Hk). by apply bool_decide_eq_true.
Qed.

Lemma are_overlapping_contexts_spec a b :
  are_overlapping_contexts a b = Ok (bool_decide (a ⊆ b ∨ b ⊆ a)).
Proof.
  unfold are_overlapping_contexts. f_equal. apply eq_bool_prop_intro.
  rewrite !Is_true_true, bool_decide_eq_true.
  assert (∀ x y : Condition, x ⊆ y → size x ≤ size y) as Hsize by (intros; by apply map_subseteq_size).
  destruct (Nat.ltb_spec (size b) (size a)) as [Hlt|Hle]; rewrite ref_keys_spec by eauto.
  - split; [naive_solver|]. intros [Hab|Hba]; [|done]. specialize (Hsize _ _ Hab). lia.
  - split; [naive_solver|]. intros [Hab|Hba]; [done|]. specialize (Hsize _ _ Hba).
    assert (a = b) as ->; [|done]. symmetry. apply map_subseteq_size_eq; [done|lia].
Qed.

Definition add_variant_dimension_to_ctx (context : Condition) (variant : string) : Value :=
  VObject (<["variantIds" := VString variant]> context).

(** ** Admission next to the active experiments *)

Record ExperimentationFlags : Type := mkFlags {
  allow_same_keys_overlapping_ctx : bool;
  allow_diff_keys_overlapping_ctx : bool;
  allow_same_keys_non_overlapping_ctx : bool;
}.

Definition invalid_experiment_reason : string :=
  "This current context overlaps with an existing experiment or the keys in the context are overlapping".

(** The verdict on one active experiment. *)
Definition compatible (flags : ExperimentationFlags) (are_overlapping have_intersecting_key_set
    same_key_set : bool) : bool :=
  let valid_experiment := true in
  let valid_experiment :=
    if negb (allow_diff_keys_overlapping_ctx flags)
    then valid_experiment && (negb are_overlapping || same_key_set) else valid_experiment in
  let valid_experiment :=
    if negb (allow_same_keys_overlapping_ctx flags)
    then valid_experiment && negb (are_overlapping && have_intersecting_key_set)
    else valid_experiment in
  if negb (allow_same_keys_non_overlapping_ctx flags)
  then valid_experiment && (are_overlapping || negb have_intersecting_key_set)
  else valid_experiment.

(** The loop stops at the first active experiment that is not compatible. *)
Fixpoint check_active (context : Condition) (override_keys : list string)
    (flags : ExperimentationFlags) (active_experiments : list Experiment)
    : Result (bool * string) :=
  match active_experiments with
  | [] => Ok (true, "")
  | active_experiment :: active_experiments =>
      active_exp_context ← map_err UnexpectedError
        (exp_condition_try_from (e_context active_experiment));
      are_overlapping ← are_overlapping_contexts context active_exp_context;
      let contains key := bool_decide (key ∈ override_keys) in
      let have_intersecting_key_set := existsb contains (e_override_keys active_experiment) in
      let same_key_set := forallb contains (e_override_keys active_experiment) in
      if compatible flags are_overlapping have_intersecting_key_set same_key_set
      then check_active context override_keys flags active_experiments
      else Ok (false, invalid_experiment_reason)
  end.

Definition is_valid_experiment (context : Condition) (override_keys : list string)
    (flags : ExperimentationFlags) (active_experiments : list Experiment)
    : Result (bool * string) :=
  if negb (allow_same_keys_overlapping_ctx flags) || negb (allow_diff_keys_overlapping_ctx flags)
     || negb (allow_same_keys_non_overlapping_ctx flags)
  then check_active context override_keys flags active_experiments
  else Ok (true, "").

(** ** Delete experiments *)

(** The keys of the delete variants, collected unless one is unknown. *)
Fixpoint collect_delete_keys (control_variant_overrides : Overrides) (override_keys : list string)
    (keys : list string) (delete_keys : gset string) : option (gset string) :=
  match keys with
  | [] => Some delete_keys
  | key :: keys =>
      if negb (bool_decide (key ∈ override_keys)) then None
      else if negb (bool_decide (is_Some (control_variant_overrides !! key))) then None
      else collect_delete_keys control_variant_overrides override_keys keys ({[key]} ∪ delete_keys)
  end.

Definition validate_variants_delete_keys (control_variant_overrides : Overrides)
    (variant_delete_overrides : list Overrides) (override_keys : list string) : bool :=
  let keys := variant_delete_overrides ≫= λ delete_variant, (map_to_list delete_variant).*1 in
  match collect_delete_keys control_variant_overrides override_keys keys ∅ with
  | None => false
  | Some delete_keys => size delete_keys =? size control_variant_overrides
  end.

Lemma collect_delete_keys_spec control override_keys keys acc :
  collect_delete_keys control override_keys keys acc =
  if bool_decide (Forall (λ k, k ∈ override_keys ∧ is_Some (control !! k)) keys)
  then Some (list_to_set keys ∪ acc) else None.
Proof.
  revert acc. induction keys as [|k keys IH]; intros acc; cbn [collect_delete_keys].
  - rewrite bool_decide_true by constructor. f_equal. set_solver.
  - rewrite (bool_decide_ext _ _ (Forall_cons _ k keys)).
    destruct (decide (k ∈ override_keys)) as [Hk|Hk].
    2:{ rewrite (bool_decide_false (k ∈ _)) by done. cbn [negb]. rewrite bool_decide_false by (intros [[? ?] ?]; done). done. }
    rewrite (bool_decide_true (k ∈ _)) by done. cbn [negb].
    destruct (decide (is_Some (control !! k))) as [Hc|Hc].
    2:{ rewrite (bool_decide_false (is_Some _)) by done. cbn [negb]. rewrite bool_decide_false by (intros [[? ?] ?]; done). done. }
    rewrite (bool_decide_true (is_Some _)) by done. cbn [negb]. rewrite IH.
    destruct (decide (Forall (λ k, k ∈ override_keys ∧ is_Some (control !! k)) keys)) as [HF|HF].
    + rewrite !bool_decide_true by done. f_equal. set_solver.
    + by rewrite !bool_decide_false by (try intros [_ ?]; done).
Qed.

(** Every override has the value of the source. *)
Definition validate_keys_from_source (variant_override : Overrides) (source : Map) : bool :=
  forallb (λ '(override_key, value),
      match source !! override_key with
      | Some val => bool_decide (val = value)
      | None => false
      end) (map_to_list variant_override).

Lemma validate_keys_from_source_spec ov source :
  validate_keys_from_source ov source = true ↔ ov ⊆ source.
Proof.
  unfold validate_keys_from_source. rewrite forallb_map_to_list, map_subseteq_spec. split.
  - intros H k v Hk. specialize (H k v Hk). simpl in H. destruct (source !! k); [|done].
    by apply bool_decide_eq_true in H as ->.
  - intros H k v Hk. simpl. rewrite (H k v Hk). by apply bool_decide_eq_true.
Qed.

Definition validate_variants_delete_override_value (delete_variant_overrides : list Overrides)
    (resolved_config : Map) : bool :=
  forallb (λ override_, validate_keys_from_source override_ resolved_config)
    delete_variant_overrides.

Definition validate_variants_control_override_value (control_variant_overrides : Overrides)
    (current_context_overrides : Map) : bool :=
  validate_keys_from_source control_variant_overrides current_context_overrides.

(** [validate_delete_experiment_variants] once the override of the context and
    the partially resolved configuration were fetched. *)
Definition check_delete_experiment_variants (current_override partial_resolved_config : Map)
    (variants : list Variant) : Result unit :=
  control_variant_override ← ok_or
    (v_overrides <$> List.find (λ v, bool_decide (v_variant_type v = CONTROL)) variants)
    (BadArgument "No control variant found");
  let other_variants_overrides :=
    v_overrides <$> List.filter (λ v, negb (bool_decide (v_variant_type v = CONTROL))) variants in
  if negb (validate_variants_delete_keys control_variant_override other_variants_overrides
             (map_to_list current_override).*1) then
    bad_argument "Variant delete keys are not valid. Ensure the keys are present in the context"
  else if negb (validate_variants_delete_override_value other_variants_overrides
                  partial_resolved_config) then
    bad_argument "Inconsistent value for variant's overrides delete keys"
  else if negb (validate_variants_control_override_value control_variant_override
                  current_override) then
    bad_argument "Inconsistent value for variant's overrides keys"
  else Ok tt.

(** ** Control overrides *)

(** The entries that differ from the resolved configuration; the first key
    that is missing there is an error. *)
Fixpoint mismatched_overrides (resolved_config : Map) (entries : list (string * Value))
    (acc : Map) : Result Map :=
  match entries with
  | [] => Ok acc
  | (key, value) :: entries =>
      match resolved_config !! key with
      | Some resolved_value =>
          if bool_decide (resolved_value = value)
          then mismatched_overrides resolved_config entries acc
          else mismatched_overrides resolved_config entries (<[key := resolved_value]> acc)
      | None =>
          bad_argument ("Control variant overrides do not match resolved config for key: " +:+ key)
      end
  end.

(** [serde_json::to_string] is a parameter. *)
Class JsonText := json_to_string : Value → string.

(** [validate_control_overrides] once the configuration was resolved. *)
Definition check_control_overrides `{JsonText} (control_overrides : Overrides)
    (resolved_config : Map) : Result unit :=
  mismatched ← mismatched_overrides resolved_config (sorted_entries control_overrides) ∅;
  if negb (bool_decide (mismatched = ∅)) then
    bad_argument ("Outdated control variant overrides. Please update the control variant's overrides with: "
      +:+ json_to_string (VObject mismatched) +:+ ".")
  else Ok tt.
