(* ===== verification/CacStore.v ===== *)
(** * The configuration service's state and effects

    The operations on contexts that are exchanged between the services
    ([crates/superposition_types/src/api/context.rs]), then the state of the
    configuration service. The handlers of [crates/context_aware_config] read
    and write the tables [contexts], [default_configs] and [dimensions], and
    append to [config_versions]; [functions], [variables] and [type_templates]
    are edited row by row. The rows are those of
    [crates/superposition_types/src/database/models/cac.rs] and [others.rs].
    Running the code of a function in a process of [node] is a parameter, as
    are the clock and the ids. *)

From S2P Require Import Prelude Json Types Text Effects Config CacClient.

(** ** Operations on contexts *)

Inductive Identifier : Type :=
  | IContext (context : Condition)
  | Id (id : string).

Record UpdateRequest : Type := mkUpdateRequest {
  u_context : Identifier;
  u_override : Overrides;
  u_description : option string;
  u_change_reason : string;
}.

Record PutRequest : Type := mkPutRequest {
  p_context : Condition;
  p_override : Overrides;
  p_description : option string;
  p_change_reason : string;
}.

Record MoveRequest : Type := mkMoveRequest {
  mv_context : Condition;
  mv_description : option string;
  mv_change_reason : string;
}.

Inductive ContextAction : Type :=
  | Put (request : PutRequest)
  | Replace (request : UpdateRequest)
  | Delete (id : string)
  | Move (id : string) (request : MoveRequest).

(** A row of the table [contexts]. The weight is a [BigDecimal] that is always
    a natural number. *)
Record DbContext : Type := mkDbContext {
  x_id : string;
  x_value : Condition;
  x_override_id : string;
  x_created_at : Z;
  x_created_by : string;
  x_override : Overrides;
  x_last_modified_at : Z;
  x_last_modified_by : string;
  x_weight : N;
  x_description : string;
  x_change_reason : string;
}.

#[export] Instance DbContext_eq_dec : EqDecision DbContext.
Proof. solve_decision. Defined.

#[export] Instance DbContext_contextual : Contextual DbContext := x_value.

Inductive ContextBulkResponse : Type :=
  | RPut (context : DbContext)
  | RReplace (context : DbContext)
  | RDelete (id : string)
  | RMove (context : DbContext).

(** ** Rows *)

Record Dimension : Type := mkDimension {
  dm_dimension : string;
  dm_created_at : Z;
  dm_created_by : string;
  dm_schema : Map;
  dm_value_validation_function_name : option string;
  dm_last_modified_at : Z;
  dm_last_modified_by : string;
  dm_position : Z;
  dm_description : string;
  dm_change_reason : string;
  dm_dependency_graph : DependencyGraph;
  dm_value_compute_function_name : option string;
  dm_dimension_type : DimensionType;
}.

Record DefaultConfig : Type := mkDefaultConfig {
  dc_key : string;
  dc_value : Value;
  dc_created_at : Z;
  dc_created_by : string;
  dc_schema : Map;
  dc_value_validation_function_name : option string;
  dc_last_modified_at : Z;
  dc_last_modified_by : string;
  dc_description : string;
  dc_change_reason : string;
  dc_value_compute_function_name : option string;
}.

Inductive FunctionType : Type :=
  | ValueValidation | ValueCompute | ContextValidation | ChangeReasonValidation.

#[export] Instance FunctionType_eq_dec : EqDecision FunctionType.
Proof. solve_decision. Defined.

Inductive FunctionRuntimeVersion : Type := V1.

Record Function : Type := mkFunction {
  fn_function_name : string;
  fn_published_code : option string;
  fn_draft_code : string;
  fn_description : string;
  fn_published_runtime_version : option FunctionRuntimeVersion;
  fn_draft_runtime_version : FunctionRuntimeVersion;
  fn_published_at : option Z;
  fn_draft_edited_at : Z;
  fn_published_by : option string;
  fn_draft_edited_by : string;
  fn_last_modified_at : Z;
  fn_last_modified_by : string;
  fn_change_reason : string;
  fn_function_type : FunctionType;
  fn_created_by : string;
  fn_created_at : Z;
}.

(** What the handlers of the other tables read of a row of [functions]. *)
Record FunctionInfo : Type := mkFunctionInfo {
  fi_function_name : string;
  fi_function_type : FunctionType;
  fi_published_code : option string;
  fi_published_runtime_version : option FunctionRuntimeVersion;
}.

Definition function_info (f : Function) : FunctionInfo :=
  mkFunctionInfo (fn_function_name f) (fn_function_type f) (fn_published_code f)
    (fn_published_runtime_version f).

(** The constants and secrets that the code of functions may use. *)
Record Variable_ : Type := mkVariable {
  vr_name : string;
  vr_value : string;
  vr_description : string;
  vr_change_reason : string;
  vr_created_at : Z;
  vr_last_modified_at : Z;
  vr_created_by : string;
  vr_last_modified_by : string;
}.

Record TypeTemplate : Type := mkTypeTemplate {
  tt_type_name : string;
  tt_type_schema : Map;
  tt_created_by : string;
  tt_created_at : Z;
  tt_last_modified_at : Z;
  tt_last_modified_by : string;
  tt_description : string;
  tt_change_reason : string;
}.

(** The configuration is stored as JSON; the value is kept here. *)
Record ConfigVersion : Type := mkConfigVersion {
  cv_id : Z;
  cv_config : Config;
  cv_config_hash : string;
  cv_tags : option (list string);
  cv_created_at : Z;
  cv_description : string;
}.

(** ** Functions written by users *)

Inductive KeyType : Type := ConfigKey | KDimension.

Record FunctionEnvironment : Type := mkFunctionEnvironment {
  fe_env_context : Map;
  fe_env_overrides : Map;
}.

Inductive FunctionExecutionRequest : Type :=
  | ValueValidationFunctionRequest (key : string) (value : Value) (type : KeyType)
      (environment : FunctionEnvironment)
  | ValueComputeFunctionRequest (name prefix : string) (type : KeyType)
      (environment : FunctionEnvironment)
  | ContextValidationFunctionRequest (environment : FunctionEnvironment)
  | ChangeReasonValidationFunctionRequest (change_reason : string).

Definition CONTEXT_VALIDATION_FN_NAME : string := "context_validation".
Definition CHANGE_REASON_VALIDATION_FN_NAME : string := "change_reason_validation".

Definition function_identifier (self : FunctionExecutionRequest) : string :=
  match self with
  | ValueValidationFunctionRequest key _ _ _ => key
  | ValueComputeFunctionRequest name _ _ _ => name
  | ContextValidationFunctionRequest _ => CONTEXT_VALIDATION_FN_NAME
  | ChangeReasonValidationFunctionRequest _ => CHANGE_REASON_VALIDATION_FN_NAME
  end.

(** ** The outside *)

(** A process of [node]: it could not be started, or it exited, with success
    or not and with what it printed. *)
Inductive NodeOutcome : Type :=
  | SpawnError (message : string)
  | Exited (success : bool) (stdout stderr : string).

(** [cac_run_node] runs the script that calls the code, variables included,
    with the request; [cac_check_node] the one that checks that the code
    defines a function. *)
Class CacEnv := {
  cac_now : nat → Z;
  cac_snowflake : nat → Result Z;
  cac_run_node : nat → string → FunctionExecutionRequest → FunctionRuntimeVersion → NodeOutcome;
  cac_check_node : nat → string → NodeOutcome;
}.

(** [serde_json::from_str]. *)
Class JsonParse := json_from_str : string → option Value.

(** The crate [jsonschema], draft 7: whether a schema compiles, and the
    messages of a validation that fails. *)
Class JsonSchema := {
  schema_compile : Value → result string unit;
  schema_validate : Value → Value → result (list string) unit;
}.

(** [json!(config).to_string()]. *)
Class ConfigText := config_to_string : Config → string.

(** The settings of the workspace that the handlers read. *)
Record Settings : Type := mkSettings {
  st_mandatory_dimensions : option (list string);
  st_enable_context_validation : bool;
  st_enable_change_reason_validation : bool;
  st_config_version : option Z;
}.

(** ** The world *)

Record CacWorld : Type := mkCacWorld {
  k_contexts : gmap string DbContext;
  k_default_configs : gmap string DefaultConfig;
  k_dimensions : gmap string Dimension;
  k_versions : gmap Z ConfigVersion;
  k_functions : gmap string Function;
  k_variables : gmap string Variable_;
  k_type_templates : gmap string TypeTemplate;
  k_ticks : nat;
  k_ids : nat;
  k_runs : nat;
}.

Abbreviation C := (ST CacWorld).

Definition set_contexts (w : CacWorld) (xs : gmap string DbContext) : CacWorld :=
  mkCacWorld xs (k_default_configs w) (k_dimensions w) (k_versions w) (k_functions w)
    (k_variables w) (k_type_templates w) (k_ticks w) (k_ids w) (k_runs w).
Definition set_default_configs (w : CacWorld) (ds : gmap string DefaultConfig) : CacWorld :=
  mkCacWorld (k_contexts w) ds (k_dimensions w) (k_versions w) (k_functions w) (k_variables w)
    (k_type_templates w) (k_ticks w) (k_ids w) (k_runs w).
Definition set_dimensions (w : CacWorld) (ds : gmap string Dimension) : CacWorld :=
  mkCacWorld (k_contexts w) (k_default_configs w) ds (k_versions w) (k_functions w)
    (k_variables w) (k_type_templates w) (k_ticks w) (k_ids w) (k_runs w).
Definition set_versions (w : CacWorld) (vs : gmap Z ConfigVersion) : CacWorld :=
  mkCacWorld (k_contexts w) (k_default_configs w) (k_dimensions w) vs (k_functions w)
    (k_variables w) (k_type_templates w) (k_ticks w) (k_ids w) (k_runs w).
Definition set_functions (w : CacWorld) (fs : gmap string Function) : CacWorld :=
  mkCacWorld (k_contexts w) (k_default_configs w) (k_dimensions w) (k_versions w) fs
    (k_variables w) (k_type_templates w) (k_ticks w) (k_ids w) (k_runs w).
Definition set_variables (w : CacWorld) (vs : gmap string Variable_) : CacWorld :=
  mkCacWorld (k_contexts w) (k_default_configs w) (k_dimensions w) (k_versions w) (k_functions w)
    vs (k_type_templates w) (k_ticks w) (k_ids w) (k_runs w).
Definition set_type_templates (w : CacWorld) (ts : gmap string TypeTemplate) : CacWorld :=
  mkCacWorld (k_contexts w) (k_default_configs w) (k_dimensions w) (k_versions w) (k_functions w)
    (k_variables w) ts (k_ticks w) (k_ids w) (k_runs w).

Definition cac_rollback (before after : CacWorld) : CacWorld :=
  mkCacWorld (k_contexts before) (k_default_configs before) (k_dimensions before)
    (k_versions before) (k_functions before) (k_variables before) (k_type_templates before)
    (k_ticks after) (k_ids after) (k_runs after).

Definition cac_transaction {A} (m : C A) : C A := transaction_by cac_rollback m.

Section effects.
Context `{CacEnv}.

Definition cac_clock : C Z := λ w,
  (Ok (cac_now (k_ticks w)),
   mkCacWorld (k_contexts w) (k_default_configs w) (k_dimensions w) (k_versions w) (k_functions w)
     (k_variables w) (k_type_templates w) (S (k_ticks w)) (k_ids w) (k_runs w)).

Definition cac_new_id : C Z := λ w,
  (cac_snowflake (k_ids w),
   mkCacWorld (k_contexts w) (k_default_configs w) (k_dimensions w) (k_versions w) (k_functions w)
     (k_variables w) (k_type_templates w) (k_ticks w) (S (k_ids w)) (k_runs w)).

(** A process of [node] started by [run]. *)
Definition start_node (run : nat → NodeOutcome) : C NodeOutcome := λ w,
  (Ok (run (k_runs w)),
   mkCacWorld (k_contexts w) (k_default_configs w) (k_dimensions w) (k_versions w) (k_functions w)
     (k_variables w) (k_type_templates w) (k_ticks w) (k_ids w) (S (k_runs w))).
End effects.

(** ** Queries and statements *)

Definition cac_no_row {A} : Result A := Err (DbError DbNotFound).
Definition cac_duplicate_key {A} : Result A :=
  Err (DbError (ConstraintViolation "duplicate key value violates unique constraint")).

Definition found {A} (o : option A) : Result A :=
  match o with Some a => Ok a | None => cac_no_row end.

(** The whole table; the order of the rows is that of [map_order]. *)
Definition all_contexts `{MapOrder} : C (list DbContext) := λ w, (Ok (map_order (k_contexts w)).*2, w).
Definition all_dimensions `{MapOrder} : C (list Dimension) :=
  λ w, (Ok (map_order (k_dimensions w)).*2, w).

Definition find_context (id : string) : C DbContext := λ w, (found (k_contexts w !! id), w).
Definition find_default_config (key : string) : C DefaultConfig :=
  λ w, (found (k_default_configs w !! key), w).
Definition find_dimension (name : string) : C Dimension := λ w, (found (k_dimensions w !! name), w).
Definition count_dimensions : C Z := λ w, (Ok (Z.of_nat (size (k_dimensions w))), w).
Definition default_configs_table : C (gmap string DefaultConfig) := λ w, (Ok (k_default_configs w), w).
Definition dimensions_table : C (gmap string Dimension) := λ w, (Ok (k_dimensions w), w).
(** The column [function_info] of every row. *)
Definition functions_table : C (gmap string FunctionInfo) :=
  λ w, (Ok (function_info <$> k_functions w), w).

(** An insertion that violates the primary key is told apart by the caller. *)
Definition try_insert_context (x : DbContext) : C bool := λ w,
  match k_contexts w !! x_id x with
  | Some _ => (Ok false, w)
  | None => (Ok true, set_contexts w (<[x_id x := x]> (k_contexts w)))
  end.

(** An update that returns the row. *)
Definition update_context (id : string) (f : DbContext → DbContext) : C DbContext := λ w,
  match k_contexts w !! id with
  | Some x => (Ok (f x), set_contexts w (<[id := f x]> (k_contexts w)))
  | None => (cac_no_row, w)
  end.
(** An update that only reports errors. *)
Definition execute_update_context (id : string) (f : DbContext → DbContext) : C unit :=
  λ w, (Ok tt, set_contexts w (alter f id (k_contexts w))).
(** A deletion that returns the row, and one that returns how many went. *)
Definition remove_context (id : string) : C DbContext := λ w,
  match k_contexts w !! id with
  | Some x => (Ok x, set_contexts w (delete id (k_contexts w)))
  | None => (cac_no_row, w)
  end.
Definition execute_delete_context (id : string) : C nat := λ w,
  (Ok (match k_contexts w !! id with Some _ => 1 | None => 0 end),
   set_contexts w (delete id (k_contexts w))).

Definition insert_default_config (d : DefaultConfig) : C unit := λ w,
  match k_default_configs w !! dc_key d with
  | Some _ => (cac_duplicate_key, w)
  | None => (Ok tt, set_default_configs w (<[dc_key d := d]> (k_default_configs w)))
  end.
Definition update_default_config (key : string) (f : DefaultConfig → DefaultConfig)
    : C DefaultConfig := λ w,
  match k_default_configs w !! key with
  | Some d => (Ok (f d), set_default_configs w (<[key := f d]> (k_default_configs w)))
  | None => (cac_no_row, w)
  end.
Definition execute_delete_default_config (key : string) : C nat := λ w,
  (Ok (match k_default_configs w !! key with Some _ => 1 | None => 0 end),
   set_default_configs w (delete key (k_default_configs w))).

Definition insert_dimension (d : Dimension) : C Dimension := λ w,
  match k_dimensions w !! dm_dimension d with
  | Some _ => (cac_duplicate_key, w)
  | None => (Ok d, set_dimensions w (<[dm_dimension d := d]> (k_dimensions w)))
  end.
Definition update_dimension (name : string) (f : Dimension → Dimension) : C Dimension := λ w,
  match k_dimensions w !! name with
  | Some d => (Ok (f d), set_dimensions w (<[name := f d]> (k_dimensions w)))
  | None => (cac_no_row, w)
  end.
(** [UPDATE dimensions SET .. WHERE p]. *)
Definition update_dimensions_where (p : Dimension → bool) (f : Dimension → Dimension) : C unit :=
  λ w, (Ok tt, set_dimensions w ((λ d, if p d then f d else d) <$> k_dimensions w)).
Definition execute_delete_dimension (name : string) : C nat := λ w,
  (Ok (match k_dimensions w !! name with Some _ => 1 | None => 0 end),
   set_dimensions w (delete name (k_dimensions w))).

Definition insert_version (v : ConfigVersion) : C unit := λ w,
  match k_versions w !! cv_id v with
  | Some _ => (cac_duplicate_key, w)
  | None => (Ok tt, set_versions w (<[cv_id v := v]> (k_versions w)))
  end.
