(* ===== verification/CacConfig.v ===== *)
(** * Weights, versions and validations of the configuration service

    [crates/context_aware_config/src/helpers.rs]: the weight of a context, the
    configuration generated from the tables and the version stored after every
    change; and the functions written by users that validate changes, with
    [api/functions/helpers.rs] and [validation_function_executor] of
    [api/context/helpers.rs]. *)

From S2P Require Import Prelude Stack Json Types Text Effects Logic LogicProps Config CacClient CacStore.

(** ** Weights *)

(** [position as u32] of an [i32]. *)
Definition as_u32 (position : Z) : N := Z.to_N (position `mod` 2 ^ 32).

(** The [BigDecimal] of [2^index]. *)
Definition calculate_weight_from_index (index : N) : N := (2 ^ index)%N.

(** The loop over the [HashSet] of the dimensions of a condition. *)
Fixpoint add_weights (dimension_position_map : gmap string DimensionInfo)
    (dimensions : list string) (weight : N) : result string N :=
  match dimensions with
  | [] => Ok weight
  | dimension :: dimensions =>
      position ← ok_or (di_position <$> dimension_position_map !! dimension)
        ("Dimension:" +:+ dimension +:+ " not found in Dimension schema map");
      add_weights dimension_position_map dimensions
        (weight + calculate_weight_from_index (as_u32 position))
  end.

Definition calculate_context_weight `{MapOrder} (cond : Value)
    (dimension_position_map : gmap string DimensionInfo) : result string N :=
  add_weights dimension_position_map (map_order (default ∅ (as_object cond))).*1 0.

(** ** The generated configuration *)

(** [fetch_dimensions_info_map] of [api/dimension/utils.rs]. *)
Definition dimension_info (d : Dimension) : DimensionInfo :=
  mkDimensionInfo (dm_schema d) (dm_position d) (dm_dimension_type d) (dm_dependency_graph d)
    (dm_value_compute_function_name d).

Definition dimensions_info (ds : gmap string Dimension) : gmap string DimensionInfo :=
  dimension_info <$> ds.

Definition fetch_dimensions_info_map : C (gmap string DimensionInfo) :=
  ds ← dimensions_table; mret (dimensions_info ds).

(** [order_by((weight.asc(), created_at.asc()))]. *)
Definition before (x y : DbContext) : Prop :=
  (x_weight x < x_weight y)%N ∨ x_weight x = x_weight y ∧ (x_created_at x ≤ x_created_at y)%Z.

#[export] Instance before_dec : RelDecision before.
Proof. intros x y. unfold before. apply _. Defined.

(** A row as a context of the configuration; [index as i32]. *)
Definition generated_context (index : nat) (x : DbContext)
    : Result (Context * (string * Overrides)) :=
  condition ← or_unexpected (cac_condition_try_from (x_value x));
  override_ ← or_unexpected (cac_overrides_try_from (x_override x));
  Ok (mkContext (x_id x) condition (Z.of_nat index) (Z.of_nat index)
        (OverrideWithKeys.new (x_override_id x)),
      (x_override_id x, override_)).

Fixpoint generated_contexts (index : nat) (xs : list DbContext)
    : Result (list (Context * (string * Overrides))) :=
  match xs with
  | [] => Ok []
  | x :: xs =>
      y ← generated_context index x;
      ys ← generated_contexts (S index) xs;
      Ok (y :: ys)
  end.

Definition generate_cac `{MapOrder} (xs : gmap string DbContext)
    (ds : gmap string DefaultConfig) (dims : gmap string Dimension) : Result Config :=
  rows ← generated_contexts 0 (merge_sort before (map_order xs).*2);
  Ok (mkConfig rows.*1 (collect_map rows.*2) (dc_value <$> ds) (dimensions_info dims)).

Section versions.
Context `{CacEnv} `{MapOrder} `{Blake3} `{ConfigText}.

Definition generate : C Config := λ w,
  (generate_cac (k_contexts w) (k_default_configs w) (k_dimensions w), w).

Definition add_config_version (tags : option (list string)) (description : string) : C Z :=
  version_id ← cac_new_id;
  config ← generate;
  time ← cac_clock;
  _ ← insert_version (mkConfigVersion version_id config (blake3_hash (config_to_string config))
        tags time description);
  mret version_id.
End versions.

(** ** Tags of a change *)

Definition CONFIG_TAG_REGEX : string := "^[a-zA-Z0-9_-]{1,64}$".

(** [val.split(c)]: never empty. *)
Fixpoint split_char (sep : ascii) (s : string) : string * list string :=
  match s with
  | EmptyString => (EmptyString, [])
  | String c s =>
      let (first, rest) := split_char sep s in
      if bool_decide (c = sep) then (EmptyString, first :: rest)
      else (String c first, rest)
  end.

Definition parse_config_tags `{RegexEngine} (config_tags : option string)
    : Result (option (list string)) :=
  match regex_is_match CONFIG_TAG_REGEX "" with
  | None => unexpected_error "Something went wrong"
  | Some _ =>
      match config_tags with
      | None => Ok None
      | Some val =>
          let (first, rest) := split_char "," val in
          tags ← try_map (λ s,
            if bool_decide (regex_is_match CONFIG_TAG_REGEX s = Some true) then Ok s
            else bad_argument "Invalid config_tags value") (first :: rest);
          Ok (Some tags)
      end
  end.

(** ** Functions written by users *)

(** [generate_vars_template]: the values are not escaped. *)
Definition quote (s : string) : string := String "034" EmptyString +:+ s +:+ String "034" EmptyString.
Definition new_line : string := String "010" EmptyString.

(** [{:?}] of a text. The characters beyond ASCII are those that print as they
    are; the few that the standard library escapes among them are not told
    apart. *)
Definition debug_digit (n : N) : ascii :=
  ascii_of_N (if (n <? 10)%N then 48 + n else 87 + n).

Definition debug_char (c : ascii) : string :=
  let n := N_of_ascii c in
  let escaped (c : ascii) := String "092" (String c EmptyString) in
  if bool_decide (n = 0)%N then escaped "0"%char
  else if bool_decide (n = 9)%N then escaped "t"%char
  else if bool_decide (n = 10)%N then escaped "n"%char
  else if bool_decide (n = 13)%N then escaped "r"%char
  else if bool_decide (n = 34 ∨ n = 92)%N then escaped c
  else if bool_decide (n < 16)%N then escaped "u"%char +:+ "{" +:+ String (debug_digit n) "}"
  else if bool_decide (n < 32 ∨ n = 127)%N then
    escaped "u"%char +:+ "{" +:+ String (debug_digit (n / 16)) (String (debug_digit (n mod 16)) "}")
  else String c EmptyString.

Fixpoint debug_chars (s : string) : string :=
  match s with
  | EmptyString => EmptyString
  | String c s => debug_char c +:+ debug_chars s
  end.

Definition debug_str (s : string) : string := quote (debug_chars s).

Definition generate_vars_template (vars : list (string * string)) : string :=
  match vars with
  | [] => ""
  | _ => "const VARS = {" +:+ new_line +:+
      join ("," +:+ new_line) ((λ '(k, v), quote k +:+ ":" +:+ quote v) <$> vars) +:+
      new_line +:+ "};"
  end.

(** [stdout.trim()], of ASCII white space. *)
Definition is_space (c : ascii) : bool :=
  let n := N_of_ascii c in bool_decide (n = 32 ∨ 9 ≤ n ≤ 13)%N.
Fixpoint trim_start (s : string) : string :=
  match s with
  | String c s' => if is_space c then trim_start s' else s
  | EmptyString => EmptyString
  end.
Fixpoint trim_end (s : string) : string :=
  match s with
  | EmptyString => EmptyString
  | String c s =>
      match trim_end s with
      | EmptyString => if is_space c then EmptyString else String c EmptyString
      | s => String c s
      end
  end.
Definition trim (s : string) : string := trim_end (trim_start s).

(** [str::replace] of one character by another. *)
Fixpoint replace_char (a b : ascii) (s : string) : string :=
  match s with
  | EmptyString => EmptyString
  | String c s => String (if bool_decide (c = a) then b else c) (replace_char a b s)
  end.

Section functions.
Context `{CacEnv} `{MapOrder} `{JsonParse}.

Definition inject_variables_into_code (code : string) : C string := λ w,
  let vars := (λ '(_, v), (vr_name v, vr_value v)) <$> map_order (k_variables w) in
  (Ok (generate_vars_template vars +:+ new_line +:+ new_line +:+ code), w).

(** What is made of the end of the process: the output is what follows the
    last [|], with quotes for apostrophes; text that is not JSON counts as
    [null]. *)
Definition read_outcome (outcome : NodeOutcome) : result (string * option string) (Value * string) :=
  match outcome with
  | SpawnError e => Err ("js_eval error: " +:+ e, None)
  | Exited success stdout stderr =>
      if negb success then Err (stderr, Some stdout)
      else
        let (first, rest) := split_char "|" (trim stdout) in
        let stdout_vec := first :: rest in
        let fn_output := replace_char "'" (ascii_of_N 34) (default "" (last stdout_vec)) in
        Ok (default VNull (json_from_str fn_output), join new_line (removelast stdout_vec))
  end.

Definition execute_fn (code_str : string) (args : FunctionExecutionRequest)
    (runtime_version : FunctionRuntimeVersion)
    : C (result (string * option string) (Value * string)) :=
  code ← inject_variables_into_code code_str;
  outcome ← start_node (λ n, cac_run_node n code args runtime_version);
  mret (read_outcome outcome).

Definition compile_fn (code_str : string) : C unit :=
  outcome ← start_node (λ n, cac_check_node n code_str);
  match outcome with
  | SpawnError e => fail (UnexpectedError ("js_eval error: " +:+ e))
  | Exited success _ stderr => if success then mret tt else fail (ValidationError stderr)
  end.

Definition get_published_function_code (f_name : string) : C FunctionInfo :=
  functions ← functions_table; lift (found (functions !! f_name)).

Definition get_first_function_by_type (function_type : FunctionType) : C FunctionInfo :=
  functions ← functions_table;
  lift (found (head (List.filter (λ f, bool_decide (fi_function_type f = function_type))
                       (map_order functions).*2))).

Definition validation_function_executor (fun_name function : string)
    (args : FunctionExecutionRequest) (runtime_version : FunctionRuntimeVersion) : C unit :=
  outcome ← execute_fn function args runtime_version;
  match outcome with
  | Err (err, stdout) =>
      fail (ValidationError ("Function " +:+ fun_name +:+ " validation failed for " +:+
        function_identifier args +:+ " with error " +:+ err +:+ ". " +:+ default "" stdout))
  | Ok (fn_output, _) =>
      if default false (as_bool fn_output) then mret tt
      else fail (ValidationError ("Validation function " +:+ fun_name +:+
        " returned false, please check your inputs"))
  end.

(** The published code of a function, run when there is any. *)
Definition run_published (name : string) (function : FunctionInfo)
    (args : FunctionExecutionRequest) : C unit :=
  match fi_published_code function, fi_published_runtime_version function with
  | Some function_code, Some published_runtime_version =>
      validation_function_executor name function_code args published_runtime_version
  | _, _ => mret tt
  end.

Definition validate_change_reason (settings : Settings) (change_reason : string) : C unit :=
  if negb (st_enable_change_reason_validation settings) then mret tt
  else
    change_reason_validation_function ← get_first_function_by_type ChangeReasonValidation;
    run_published CHANGE_REASON_VALIDATION_FN_NAME change_reason_validation_function
      (ChangeReasonValidationFunctionRequest change_reason).

(** [get_functions_map]: the function of each key, when it exists. *)
Definition get_functions_map (keys_function_array : list (string * string))
    : C (gmap string FunctionInfo) :=
  functions ← functions_table;
  mret (collect_map (omap (λ '(key, function_name), (key,.) <$> functions !! function_name)
    keys_function_array)).

(** The validation functions of the keys of a map, run in key order. *)
Definition run_value_functions (functions_map : gmap string FunctionInfo) (type : KeyType)
    (environment : FunctionEnvironment) (values : Map) : C unit :=
  for_each (λ '(key, value),
      match functions_map !! key with
      | Some function =>
          run_published (fi_function_name function) function
            (ValueValidationFunctionRequest key value type environment)
      | None => mret tt
      end) (sorted_entries values).
End functions.
