(* ===== verification/Contexts.v ===== *)
(** * Contexts of the configuration service

    [crates/context_aware_config/src/api/context]: the validations of
    [validations.rs] and [helpers.rs], the operations of [operations.rs] and
    the handlers of [handlers.rs] that write. *)

From S2P Require Import Prelude Stack Json Types Text Effects Logic LogicProps Config Resolve CacClient ExpChecks CacStore CacConfig.

Record User : Type := mkUser { user_email : string; user_username : string }.

(** [{:?}] of a [Vec<String>]. *)
Definition debug_strings (l : list string) : string :=
  "[" +:+ join ", " (debug_str <$> l) +:+ "]".

Definition first_or_empty (l : list string) : string := default "" (head l).

Definition validation_error {A} (msg : string) : Result A := Err (ValidationError msg).

(** The changes of a row by an update. *)
Definition set_override (x : DbContext) (override_ : Overrides) (override_id : string) (time : Z)
    (by_ description change_reason : string) : DbContext :=
  mkDbContext (x_id x) (x_value x) override_id (x_created_at x) (x_created_by x) override_
    time by_ (x_weight x) description change_reason.
Definition set_condition (x : DbContext) (id : string) (value : Condition) (weight : N) (time : Z)
    (by_ description change_reason : string) : DbContext :=
  mkDbContext id value (x_override_id x) (x_created_at x) (x_created_by x) (x_override x)
    time by_ weight description change_reason.
Definition set_weight (x : DbContext) (weight : N) (time : Z) (by_ : string) : DbContext :=
  mkDbContext (x_id x) (x_value x) (x_override_id x) (x_created_at x) (x_created_by x)
    (x_override x) time by_ weight (x_description x) (x_change_reason x).
Definition touch_context (x : DbContext) (time : Z) (by_ : string) : DbContext :=
  set_weight x (x_weight x) time by_.

(** [UPDATE contexts SET id = .. WHERE id = ..] that returns the row: [None]
    when the new id belongs to another row. *)
Definition try_move_context (old new : string) (f : DbContext → DbContext) : C (option DbContext) :=
  λ w,
  match k_contexts w !! old with
  | None => (cac_no_row, w)
  | Some x =>
      if bool_decide (new ≠ old ∧ is_Some (k_contexts w !! new)) then (Ok None, w)
      else (Ok (Some (f x)), set_contexts w (<[new := f x]> (delete old (k_contexts w))))
  end.

Section contexts.
Context `{CacEnv} `{JsonParse} `{MapOrder} `{FloatText} `{Blake3} `{ConfigText} `{JsonText} `{JsonSchema}.

(** ** Validations *)

Definition validate_condition_with_mandatory_dimensions (context_map : Map)
    (mandatory_dimensions : list string) : Result unit :=
  if forallb (λ dimension, bool_decide (is_Some (context_map !! dimension))) mandatory_dimensions
  then Ok tt
  else validation_error ("The context should contain all the mandatory dimensions : " +:+
         debug_strings mandatory_dimensions +:+ ".").

(** The message for every dimension of the condition that can be derived from
    one of the required ones. *)
Definition derived_messages (dimensions : gmap string DimensionInfo)
    (required_dimensions invalid_dimensions : list string) : list string :=
  dim_key ← required_dimensions;
  match dimensions !! dim_key with
  | Some d =>
      (λ invalid_dimension,
        invalid_dimension +:+ " can be derived from " +:+ dim_key +:+ " dimension") <$>
      List.filter (λ invalid_dimension,
        bool_decide (is_Some (di_dependency_graph d !! invalid_dimension))) invalid_dimensions
  | None => []
  end.

(** [cohort_fuel] is enough for the graphs of every state reached; a graph
    with a cycle would not end. *)
Definition validate_condition_with_dependent_dimensions
    (dimensions : gmap string DimensionInfo) (context_map : Map) : Result unit :=
  required_dimensions ← ok_or (dimensions_to_start_from (cohort_fuel dimensions) dimensions context_map)
    (UnexpectedError "the dimensions do not terminate");
  let invalid_dimensions :=
    List.filter (λ dimension_key, negb (bool_decide (dimension_key ∈ required_dimensions)))
      (sorted_entries context_map).*1 in
  let error_messages := derived_messages dimensions required_dimensions invalid_dimensions in
  if negb (bool_decide (error_messages = [])) then
    validation_error ("Cohort Dimension(s): [ " +:+ join ", " error_messages +:+
      " ] using the cohort definitions. Hence, usage of this/these dimension(s) is not allowed.")
  else Ok tt.

Definition validate_context_jsonschema (dimension_value dimension_schema : Value) : Result unit :=
  _ ← map_err (λ _, BadArgument "Error encountered: invalid jsonschema for dimension.")
    (schema_compile dimension_schema);
  map_err (λ verrors, ValidationError ("failed to validate dimension value " +:+
      json_to_string dimension_value +:+ ": " +:+ first_or_empty verrors))
    (schema_validate dimension_schema dimension_value).

(** The [for] loops over the entries of a map, which end at the first error. *)
Fixpoint check_entries (f : string → Value → Result unit) (l : list (string * Value)) : Result unit :=
  match l with
  | [] => Ok tt
  | (k, v) :: l => _ ← f k v; check_entries f l
  end.

Definition validate_dimensions (cond : Map) (dimension_schema_map : gmap string DimensionInfo)
    : Result unit :=
  check_entries (λ dimension value,
      dimension_data ← ok_or (dimension_schema_map !! dimension)
        (BadArgument ("No matching dimension (" +:+ dimension +:+ ") found"));
      validate_context_jsonschema value (VObject (di_schema dimension_data)))
    (sorted_entries cond).

Definition override_entry_ok (table : gmap string DefaultConfig) (key : string) (value : Value)
    : Result unit :=
  schema ← ok_or (dc_schema <$> table !! key)
    (BadArgument ("failed to get schema for config key " +:+ key));
  _ ← map_err (λ _, BadArgument ("failed to compile (" +:+ key +:+ ") config key schema"))
    (schema_compile (VObject schema));
  map_err (λ verrors, ValidationError ("schema validation failed for " +:+ key +:+ ": " +:+
      first_or_empty verrors))
    (schema_validate (VObject schema) value).

Definition validate_override_with_default_configs (override_ : Overrides) : C unit :=
  table ← default_configs_table;
  lift (check_entries (override_entry_ok table) (sorted_entries override_)).

Definition validate_condition_with_functions (context_map override_ : Map)
    (is_context_validation_enabled : bool) : C unit :=
  table ← dimensions_table;
  let new_keys_function_array :=
    omap (λ '(key, _), (key,.) <$> ((table !! key) ≫= dm_value_validation_function_name))
      (sorted_entries context_map) in
  context_validation_function ← get_first_function_by_type ContextValidation;
  let environment := mkFunctionEnvironment context_map override_ in
  _ ← (if is_context_validation_enabled then
         run_published CONTEXT_VALIDATION_FN_NAME context_validation_function
           (ContextValidationFunctionRequest environment)
       else mret tt);
  dimension_functions_map ← get_functions_map new_keys_function_array;
  run_value_functions dimension_functions_map KDimension environment context_map.

Definition validate_override_with_functions (override_ context : Map) : C unit :=
  table ← default_configs_table;
  let new_keys_function_array :=
    omap (λ '(key, _), (key,.) <$> ((table !! key) ≫= dc_value_validation_function_name))
      (sorted_entries override_) in
  default_config_functions_map ← get_functions_map new_keys_function_array;
  run_value_functions default_config_functions_map ConfigKey
    (mkFunctionEnvironment context override_) override_.

Definition validate_ctx (settings : Settings) (condition : Condition) (override_ : Overrides)
    : C (gmap string DimensionInfo) :=
  _ ← lift (validate_condition_with_mandatory_dimensions condition
    (default [] (st_mandatory_dimensions settings)));
  dimension_info_map ← fetch_dimensions_info_map;
  _ ← lift (validate_condition_with_dependent_dimensions dimension_info_map condition);
  _ ← lift (validate_dimensions condition dimension_info_map);
  _ ← validate_condition_with_functions condition override_ (st_enable_context_validation settings);
  mret dimension_info_map.

Definition query_description (context : Value) : C string :=
  existing_context ← find_context (hash context);
  mret (x_description existing_context).

(** ** Operations *)

Definition or_went_wrong {A} (r : result string A) : Result A :=
  map_err (λ _, UnexpectedError "Something Went Wrong") r.

Definition create_ctx_from_put_req (settings : Settings) (req : PutRequest)
    (req_description : string) (user : User) : C DbContext :=
  let ctx_condition := p_context req in
  let r_override := p_override req in
  dimension_data_map ← validate_ctx settings ctx_condition r_override;
  _ ← validate_override_with_default_configs r_override;
  _ ← validate_override_with_functions r_override ctx_condition;
  weight ← lift (or_went_wrong (calculate_context_weight (VObject ctx_condition) dimension_data_map));
  created_at ← cac_clock;
  last_modified_at ← cac_clock;
  mret (mkDbContext (hash (VObject ctx_condition)) ctx_condition (hash (VObject r_override))
    created_at (user_email user) r_override last_modified_at (user_email user) weight
    req_description (p_change_reason req)).

Definition db_update_override (ctx : DbContext) (user : User) : C DbContext :=
  time ← cac_clock;
  update_context (x_id ctx) (λ x, set_override x (x_override ctx) (x_override_id ctx) time
    (user_email user) (x_description ctx) (x_change_reason ctx)).

Definition replace_override_of_existing_ctx (ctx : DbContext) (user : User) : C DbContext :=
  db_update_override (set_override ctx (x_override ctx) (hash (VObject (x_override ctx)))
    (x_last_modified_at ctx) (x_last_modified_by ctx) (x_description ctx) (x_change_reason ctx)) user.

Definition update_override_of_existing_ctx (ctx : DbContext) (user : User) : C DbContext :=
  existing ← find_context (x_id ctx);
  let new_override := merge (VObject (x_override existing)) (VObject (x_override ctx)) in
  override_ ← lift (or_unexpected
    (cac_overrides_try_from (default ∅ (as_object new_override))));
  db_update_override (set_override ctx override_ (hash new_override)
    (x_last_modified_at ctx) (x_last_modified_by ctx) (x_description ctx) (x_change_reason ctx)) user.

(** The savepoint before the insertion undoes an insertion that failed, which
    changed nothing. *)
Definition upsert (settings : Settings) (req : PutRequest) (description : string) (user : User)
    (replace : bool) : C DbContext :=
  new_ctx ← create_ctx_from_put_req settings req description user;
  inserted ← try_insert_context new_ctx;
  if inserted : bool then mret new_ctx
  else if replace then replace_override_of_existing_ctx new_ctx user
  else update_override_of_existing_ctx new_ctx user.

Definition update (req : UpdateRequest) (user : User) : C DbContext :=
  '(context_id, context) ←
    (match u_context req with
     | IContext context => mret (hash (VObject context), context)
     | Id id => ctx_value ← find_context id; mret (id, x_value ctx_value)
     end);
  let r_override := u_override req in
  _ ← validate_override_with_default_configs r_override;
  _ ← validate_override_with_functions r_override context;
  time ← cac_clock;
  update_context context_id (λ x, set_override x r_override (hash (VObject r_override)) time
    (user_email user) (default (x_description x) (u_description req)) (u_change_reason req)).

(** [r#move], in a transaction. *)
Definition move (settings : Settings) (old_ctx_id : string) (req : MoveRequest)
    (req_description : string) (user : User) : C DbContext :=
  let ctx_condition := mv_context req in
  let new_ctx_id := hash (VObject ctx_condition) in
  dimension_data_map ← validate_ctx settings ctx_condition ∅;
  weight ← lift (or_went_wrong (calculate_context_weight (VObject ctx_condition) dimension_data_map));
  time ← cac_clock;
  context ← try_move_context old_ctx_id new_ctx_id (λ x,
    set_condition x new_ctx_id ctx_condition weight time (user_email user) req_description
      (mv_change_reason req));
  match context with
  | Some ctx => mret ctx
  | None =>
      deleted_ctxt ← remove_context old_ctx_id;
      created_at ← cac_clock;
      last_modified_at ← cac_clock;
      update_override_of_existing_ctx
        (mkDbContext new_ctx_id ctx_condition (x_override_id deleted_ctxt) created_at
          (user_email user) (x_override deleted_ctxt) last_modified_at (user_email user) weight
          req_description (mv_change_reason req)) user
  end.

Definition delete_context (ctx_id : string) (user : User) : C unit :=
  time ← cac_clock;
  _ ← execute_update_context ctx_id (λ x, touch_context x time (user_email user));
  deleted_row ← execute_delete_context ctx_id;
  if deleted_row =? 0 then fail (NotFound ("Context Id `" +:+ ctx_id +:+ "` doesn't exists"))
  else mret tt.
End contexts.

(** * The handlers of contexts

    The handlers of [crates/context_aware_config/src/api/context/handlers.rs]
    but [list_handler]. The copy of the configuration in Redis, a build
    option, is not modelled. *)

Section handlers.
Context `{CacEnv} `{JsonParse} `{MapOrder} `{FloatText} `{Blake3} `{ConfigText} `{JsonText} `{JsonSchema}.
Context `{RegexEngine}.

(** The description of a request, or the one stored. *)
Definition description_or_query (description : option string) (context : Condition) : C string :=
  match description with
  | Some val => mret val
  | None => λ w,
      match query_description (VObject context) w with
      | (Err (DbError DbNotFound), w) =>
          (bad_argument "Description is required when context does not exist", w)
      | r => r
      end
  end.

Definition ctx_create_handler (settings : Settings) (config_tags : option string) (req : PutRequest)
    (user : User) : C (DbContext * Z) :=
  tags ← lift (parse_config_tags config_tags);
  description ← description_or_query (p_description req) (p_context req);
  _ ← validate_change_reason settings (p_change_reason req);
  cac_transaction (
    put_response ← upsert settings req description user false;
    version_id ← add_config_version tags (Description.from_change_reason (p_change_reason req));
    mret (put_response, version_id)).

Definition ctx_update_handler (settings : Settings) (config_tags : option string)
    (req : UpdateRequest) (user : User) : C (DbContext * Z) :=
  tags ← lift (parse_config_tags config_tags);
  _ ← validate_change_reason settings (u_change_reason req);
  cac_transaction (
    override_resp ← update req user;
    version_id ← add_config_version tags (Description.from_change_reason (u_change_reason req));
    mret (override_resp, version_id)).

Definition ctx_move_handler (settings : Settings) (ctx_id : string) (config_tags : option string)
    (req : MoveRequest) (user : User) : C (DbContext * Z) :=
  tags ← lift (parse_config_tags config_tags);
  description ← description_or_query (mv_description req) (mv_context req);
  _ ← validate_change_reason settings (mv_change_reason req);
  cac_transaction (
    move_response ← move settings ctx_id req description user;
    version_id ← add_config_version tags
      (Description.from_change_reason (x_change_reason move_response));
    mret (move_response, version_id)).

Definition ctx_delete_handler (ctx_id : string) (config_tags : option string) (user : User) : C Z :=
  tags ← lift (parse_config_tags config_tags);
  cac_transaction (
    _ ← find_context ctx_id;
    _ ← delete_context ctx_id user;
    config_version_desc ← lift (or_unexpected (Description.try_from
      ("Deleted context by " +:+ user_username user)));
    add_config_version tags config_version_desc).

Definition get_from_condition_handler (req : Map) : C DbContext := find_context (hash (VObject req)).
Definition ctx_get_handler (ctx_id : string) : C DbContext := find_context ctx_id.

(** ** Bulk operations *)

(** One action: its answer and its change reason. *)
Definition bulk_action (settings : Settings) (user : User) (action : ContextAction)
    : C (ContextBulkResponse * string) :=
  match action with
  | Put put_req =>
      _ ← validate_change_reason settings (p_change_reason put_req);
      description ← (match p_description put_req with
                     | None => query_description (VObject (p_context put_req))
                     | Some description => mret description
                     end);
      put_resp ← upsert settings put_req description user false;
      mret (RPut put_resp, p_change_reason put_req)
  | Replace update_request =>
      update_resp ← update update_request user;
      mret (RReplace update_resp, u_change_reason update_request)
  | Delete ctx_id =>
      _ ← find_context ctx_id;
      deleted_row ← execute_delete_context ctx_id;
      change_reason ← lift (or_unexpected (ChangeReason.try_from
        ("Context deleted by " +:+ user_email user)));
      if deleted_row =? 0 then bad ("context with id " +:+ ctx_id +:+ " not found")
      else mret (RDelete (ctx_id +:+ " deleted succesfully"), change_reason)
  | Move old_ctx_id move_req =>
      description ← (match mv_description move_req with
                     | Some val => mret val
                     | None => query_description (VObject (mv_context move_req))
                     end);
      move_context_resp ← move settings old_ctx_id move_req description user;
      mret (RMove move_context_resp, x_change_reason move_context_resp)
  end.

Fixpoint bulk_actions (settings : Settings) (user : User) (ops : list ContextAction)
    : C (list (ContextBulkResponse * string)) :=
  match ops with
  | [] => mret []
  | action :: ops =>
      r ← bulk_action settings user action;
      rs ← bulk_actions settings user ops;
      mret (r :: rs)
  end.

(** [Description::default()]. *)
Definition default_description : string := "Description not provided".

Definition bulk_operations_handler (settings : Settings) (config_tags : option string)
    (ops : list ContextAction) (user : User) : C (list ContextBulkResponse * Z) :=
  tags ← lift (parse_config_tags config_tags);
  cac_transaction (
    rs ← bulk_actions settings user ops;
    version_id ← add_config_version tags
      (match Description.try_from_change_reasons rs.*2 with
       | Ok description => description
       | Err _ => default_description
       end);
    mret (rs.*1, version_id)).

(** ** Weights *)

Record WeightRecomputeResponse : Type := mkWeightRecomputeResponse {
  wr_id : string;
  wr_condition : Condition;
  wr_old_weight : N;
  wr_new_weight : N;
}.

Definition recomputed (dimension_info_map : gmap string DimensionInfo) (context : DbContext)
    : Result WeightRecomputeResponse :=
  val ← map_err (λ _, UnexpectedError "Something went wrong")
    (calculate_context_weight (VObject (x_value context)) dimension_info_map);
  Ok (mkWeightRecomputeResponse (x_id context) (x_value context) (x_weight context) val).

Definition weight_recompute_handler (config_tags : option string) (user : User)
    : C (list WeightRecomputeResponse * Z) :=
  result ← all_contexts;
  dimension_info_map ← fetch_dimensions_info_map;
  tags ← lift (parse_config_tags config_tags);
  response ← lift (try_map (recomputed dimension_info_map) result);
  last_modified_time ← cac_clock;
  config_version_id ← cac_transaction (
    _ ← for_each (λ r, execute_update_context (wr_id r) (λ x,
          set_weight x (wr_new_weight r) last_modified_time (user_email user))) response;
    config_version_desc ← lift (or_unexpected (Description.try_from "Recomputed weight"));
    add_config_version tags config_version_desc);
  mret (response, config_version_id).

Definition ctx_validate_handler (settings : Settings) (context : Condition) : C unit :=
  _ ← validate_ctx settings context ∅;
  mret tt.
End handlers.
