(* ===== verification/Dimensions.v ===== *)
(** * Dimensions of the configuration service

    [crates/context_aware_config/src/api/dimension]: the dependency graphs of
    [utils.rs], the validations of [validations.rs] and the handlers of
    [handlers.rs] but [list_handler]. *)

From S2P Require Import Prelude Stack Json Types Text Effects Logic LogicProps Config CacClient ExpChecks CacStore CacConfig Contexts.

(** ** Rows *)

(** [Position]s move by SQL arithmetic. *)
Definition set_position (d : Dimension) (position : Z) (time : Z) (by_ : string) : Dimension :=
  mkDimension (dm_dimension d) (dm_created_at d) (dm_created_by d) (dm_schema d)
    (dm_value_validation_function_name d) time by_ position (dm_description d)
    (dm_change_reason d) (dm_dependency_graph d) (dm_value_compute_function_name d)
    (dm_dimension_type d).
Definition touch_dimension (d : Dimension) (time : Z) (by_ : string) : Dimension :=
  set_position d (dm_position d) time by_.
(** The last statement of a deletion does not touch the times. *)
Definition shift_down (d : Dimension) : Dimension :=
  set_position d (dm_position d - 1) (dm_last_modified_at d) (dm_last_modified_by d).
Definition set_graph (d : Dimension) (graph : DependencyGraph) (reason : string) (time : Z)
    (by_ : string) : Dimension :=
  mkDimension (dm_dimension d) (dm_created_at d) (dm_created_by d) (dm_schema d)
    (dm_value_validation_function_name d) time by_ (dm_position d) (dm_description d)
    reason graph (dm_value_compute_function_name d) (dm_dimension_type d).

Record DimensionCreate : Type := mkDimensionCreate {
  nd_dimension : string;
  nd_position : Z;
  nd_schema : Map;
  nd_value_validation_function_name : option string;
  nd_description : string;
  nd_change_reason : string;
  nd_value_compute_function_name : option string;
  nd_dimension_type : DimensionType;
}.

Record DimensionUpdate : Type := mkDimensionUpdate {
  ud_position : option Z;
  ud_schema : option Map;
  ud_value_validation_function_name : option (option string);
  ud_value_compute_function_name : option (option string);
  ud_description : option string;
  ud_change_reason : string;
}.

(** [AsChangeset] of the update request: absent fields keep their column. *)
Definition apply_update (req : DimensionUpdate) (d : Dimension) (time : Z) (by_ : string)
    : Dimension :=
  mkDimension (dm_dimension d) (dm_created_at d) (dm_created_by d)
    (default (dm_schema d) (ud_schema req))
    (default (dm_value_validation_function_name d) (ud_value_validation_function_name req))
    time by_ (default (dm_position d) (ud_position req))
    (default (dm_description d) (ud_description req)) (ud_change_reason req)
    (dm_dependency_graph d)
    (default (dm_value_compute_function_name d) (ud_value_compute_function_name req))
    (dm_dimension_type d).

(** The names of [jsonlogic]'s variables in a rule, of the crate
    [juspay_jsonlogic]: parsing the rule or collecting the names can fail. *)
Class JsonLogicVariables := {
  jsonlogic_parse : Value → result string unit;
  jsonlogic_variable_names : Value → result string (list string);
}.

(** [{:?}] of an object. *)
Class DebugText := debug_map : Map → string.

(** ** Dependency graphs *)

(** One turn of the loop of [create_connections_with_dependents], on the name
    and the graph of the dimension: its new graph when it changes. *)
Definition graph_after_creation (cohorted_dimension dimension_name name : string)
    (graph : DependencyGraph) : option DependencyGraph :=
  let graph :=
    if bool_decide (name = cohorted_dimension) && bool_decide (graph !! cohorted_dimension = None)
    then <[cohorted_dimension := []]> graph
    else graph in
  match graph !! cohorted_dimension with
  | Some current_deps =>
      Some (<[dimension_name := []]>
        (<[cohorted_dimension := current_deps ++ [dimension_name]]> graph))
  | None => None
  end.

(** One turn of the loop of [remove_connections_with_dependents]. *)
Definition graph_after_removal (deleted_dimension_name cohorted_dimension name : string)
    (graph : DependencyGraph) : option DependencyGraph :=
  let graph := delete deleted_dimension_name graph in
  match graph !! cohorted_dimension with
  | Some current_deps =>
      let current_deps := List.filter (λ d, negb (bool_decide (d = deleted_dimension_name)))
        current_deps in
      if bool_decide (current_deps = []) && bool_decide (name = cohorted_dimension)
      then Some (delete cohorted_dimension graph)
      else Some (<[cohorted_dimension := current_deps]> graph)
  | None => if bool_decide (name = cohorted_dimension) then Some graph else None
  end.

Section dimensions.
Context `{CacEnv} `{JsonParse} `{MapOrder} `{FloatText} `{Blake3} `{ConfigText} `{JsonText} `{JsonSchema}.
Context `{RegexEngine} `{JsonLogicVariables} `{DebugText}.

Definition update_dimensions_in_db (dim : Dimension) (graph : DependencyGraph)
    (reason user_email : string) : C unit :=
  reason ← lift (or_unexpected (ChangeReason.try_from reason));
  time ← cac_clock;
  update_dimensions_where (λ d, bool_decide (dm_dimension d = dm_dimension dim))
    (λ _, set_graph dim graph reason time user_email).

(** The loops over the dimensions, which were loaded before. *)
Definition update_graphs (graph_of : string → DependencyGraph → option DependencyGraph) (reason user_email : string)
    : C unit :=
  dimensions_vector ← all_dimensions;
  for_each (λ dim,
      match graph_of (dm_dimension dim) (dm_dependency_graph dim) with
      | Some graph => update_dimensions_in_db dim graph reason user_email
      | None => mret tt
      end) dimensions_vector.

Definition create_connections_with_dependents (cohorted_dimension dimension_name user_email : string)
    : C unit :=
  update_graphs (graph_after_creation cohorted_dimension dimension_name)
    ("System Auto updated the dependency graph due to the creation of " +:+ dimension_name)
    user_email.

Definition remove_connections_with_dependents (deleted_dimension_name cohorted_dimension
    user_email : string) : C unit :=
  update_graphs (graph_after_removal deleted_dimension_name cohorted_dimension)
    ("System Auto updated the dependency graph due to the removal of " +:+ deleted_dimension_name)
    user_email.

Definition get_dimension_usage_context_ids (key : string) : C (list string) :=
  result ← all_contexts;
  ids ← lift (try_map (λ context,
      condition ← or_unexpected (cac_condition_try_from (x_value context));
      Ok (if bool_decide (is_Some (condition !! key)) then [x_id context] else [])) result);
  mret (concat ids).

(** ** Validations *)

Definition validate_dimension_position (dimension_name : string) (dimension_position max_allowed : Z)
    : Result unit :=
  if bool_decide (dimension_name = "variantIds") then
    if bool_decide (dimension_position = 0)%Z then Ok tt
    else validation_error "variantIds' position should be equal to 0"
  else if bool_decide (dimension_position = 0)%Z then
    validation_error "Oth position is reserved for variantIds"
  else if bool_decide (max_allowed < dimension_position)%Z then
    validation_error "position value exceeds total number of dimensions"
  else Ok tt.

(** The loop over the dependents of the dimension. *)
Fixpoint check_dependents (dimensions_info : gmap string DimensionInfo) (position : Z)
    (dependent_dimensions : list string) : Result unit :=
  match dependent_dimensions with
  | [] => Ok tt
  | dep_dimension :: dependent_dimensions =>
      dep_dimension_info ← ok_or (dimensions_info !! dep_dimension)
        (UnexpectedError ("Dependent Dimension " +:+ dep_dimension +:+
          " not found while validating position with respect to dependencies"));
      if bool_decide (position ≤ di_position dep_dimension_info)%Z then
        validation_error ("Position value invalid: position must be greater than the position of dependent dimension "
          +:+ dep_dimension +:+ " which is " +:+ pretty (di_position dep_dimension_info))
      else check_dependents dimensions_info position dependent_dimensions
  end.

Definition validate_position_wrt_dependency (dimension_name : string) (position : Z) : C unit :=
  dimensions_info ← fetch_dimensions_info_map;
  dimension ← lift (ok_or (dimensions_info !! dimension_name)
    (UnexpectedError ("Dimension " +:+ dimension_name +:+
      " not found while validating position with respect to dependencies")));
  lift (match di_dependency_graph dimension !! dimension_name with
        | None => Ok tt
        | Some dependent_dimensions => check_dependents dimensions_info position dependent_dimensions
        end).

(** The schemas [get_meta_schema] and [get_cohort_meta_schema], as values. *)
Definition strings (l : list string) : Value := VArray (VString <$> l).

Definition meta_schema : Value :=
  VObject {[ "type" := VString "object";
    "properties" := VObject {[ "type" := VObject {[ "enum" :=
      strings ["boolean"; "number"; "integer"; "string"; "array"; "null"] ]} ]};
    "required" := strings ["type"] ]}.

Definition cohort_meta_schema : Value :=
  VObject {[ "type" := VString "object";
    "properties" := VObject {[
      "type" := VObject {[ "type" := VString "string" ]};
      "enum" := VObject {[ "type" := VString "array";
        "items" := VObject {[ "type" := VString "string" ]};
        "contains" := VObject {[ "const" := VString "otherwise" ]};
        "minContains" := VNumber (PosInt 1);
        "uniqueItems" := VBool true ]};
      "definitions" := VObject {[ "type" := VString "object";
        "not" := VObject {[ "required" := strings ["otherwise"] ]} ]} ]};
    "required" := strings ["type"; "enum"; "definitions"] ]}.

(** The compilation error is printed with [{:?}]; its text is part of the
    parameter. *)
Definition validate_against (validation_schema schema : Value) : Result unit :=
  _ ← map_err (λ e, ValidationError ("Invalid JSON schema (failed to compile): " +:+ e))
    (schema_compile schema);
  map_err (λ verrors, ValidationError ("schema validation failed: " +:+ first_or_empty verrors))
    (schema_validate validation_schema schema).

Definition validate_jsonschema (schema : Value) : Result unit := validate_against meta_schema schema.

Definition is_primitive (v : Value) : bool :=
  match v with
  | VString s => negb (bool_decide (s = "array")) && negb (bool_decide (s = "object"))
  | _ => false
  end.

Definition allow_primitive_types (schema : Map) : Result unit :=
  let primitive :=
    match default VNull (schema !! "type") with
    | VString type_val => is_primitive (VString type_val)
    | VArray arr => forallb is_primitive arr
    | _ => false
    end in
  if primitive then Ok tt
  else validation_error ("Invalid schema: expected a primitive type or an array of primitive types, found: "
    +:+ debug_map schema).

(** [schema.get(key)], [None] on what is not an object. *)
Definition schema_field (schema : Value) (key : string) : option Value :=
  m ← as_object schema; m !! key.

Definition validate_cohort_jsonschema (schema : Value) : Result (list string) :=
  _ ← validate_against cohort_meta_schema schema;
  enum ← ok_or (v ← schema_field schema "enum"; as_array v)
    (ValidationError "Cohort schema must have an 'enum' field of type array");
  Ok (omap as_str (enum : list Value)).

Definition does_dimension_exist_for_cohorting (dim : string) : C Dimension := λ w,
  (match k_dimensions w !! dim with
   | Some d =>
       match dm_dimension_type d with
       | LocalCohort _ =>
           validation_error ("Dimension " +:+ dm_dimension d +:+
             " is a local cohort and cannot be used in cohorting")
       | _ => Ok d
       end
   | None =>
       validation_error ("Dimension " +:+ dim +:+
         " used in cohort schema has not been created or does not exist. Please create the dimension first before using it in cohort schema.")
   end, w).

Definition validate_cohort_position (position : Z) (based_on_dimension : Dimension) (create : bool)
    : Result unit :=
  if create && bool_decide (dm_position based_on_dimension < position)%Z then
    validation_error ("While creating dimension, Cohort dimension position " +:+ pretty position +:+
      " must be less than or equal to the position " +:+ pretty (dm_position based_on_dimension) +:+
      " of the dimension it is based on")
  else if negb create && bool_decide (dm_position based_on_dimension ≤ position)%Z then
    validation_error ("While updating dimension, Cohort dimension position " +:+ pretty position +:+
      " must be less than the position " +:+ pretty (dm_position based_on_dimension) +:+
      " of the dimension it is based on")
  else Ok tt.

Definition check_fn_published (fn_name : string) : C unit :=
  function ← get_published_function_code fn_name;
  match fi_published_code function with
  | Some _ => mret tt
  | None => fail (ValidationError ("Function " +:+ fn_name +:+
      " doesn't exist / function code not published yet."))
  end.

Definition validate_validation_function (function : option string) : C unit :=
  match function with Some func_name => check_fn_published func_name | None => mret tt end.

Definition validate_value_compute_function (dimension_type : DimensionType)
    (function : option string) : C unit :=
  match dimension_type, function with
  | LocalCohort _, Some _ =>
      fail (ValidationError "Value Compute function should not be provided for local cohort dimensions")
  | RemoteCohort _, None =>
      fail (ValidationError "Value Compute function must be provided for remote cohort dimensions")
  | _, Some func_name => check_fn_published func_name
  | _, None => mret tt
  end.

(** The number of cohorts and the names agree with the enum. [len() - 1]
    panics on an empty enum, which the meta schema excludes; the counts differ
    then. *)
Definition check_cohort_options (cohort_options enum_options : list string) : Result unit :=
  if negb (Z.of_nat (length cohort_options) =? Z.of_nat (length enum_options) - 1)%Z then
    validation_error ("The definition of the cohort and the enum options do not match. Some enum options do not have a definition, found "
      +:+ pretty (Z.of_nat (length cohort_options)) +:+ " cohorts and " +:+
      pretty (Z.of_nat (length enum_options) - 1)%Z +:+ " enum options (not including otherwise)")
  else
    match List.find (λ cohort, negb (bool_decide (cohort ∈ enum_options))) cohort_options with
    | Some cohort =>
        validation_error ("Cohort " +:+ cohort +:+ " does not have a corresponding enum option")
    | None => Ok tt
    end.

(** The dimensions the rules of the cohorts use, without repetition. *)
Definition rule_dimensions (cohort_option : string) (expression : Value) : Result (list string) :=
  _ ← map_err (λ e, ValidationError ("Invalid JSON Logic schema for cohort " +:+ cohort_option +:+
      ", found: " +:+ e)) (jsonlogic_parse expression);
  map_err (λ e, ValidationError ("Invalid JSON Logic in cohort " +:+ cohort_option +:+
      ", error while parsing variable names: " +:+ e)) (jsonlogic_variable_names expression).

Definition validate_cohort_schema (cohort_schema : Value) (cohort_based_on : string) : C Dimension :=
  if bool_decide (cohort_based_on = "") then
    fail (ValidationError "Please specify a valid dimension that this cohort can derive from. Refer our API docs for examples")
  else
    enum_options ← lift (validate_cohort_jsonschema cohort_schema);
    definitions ← lift (ok_or (schema_field cohort_schema "definitions")
      (ValidationError "Local cohorts require the jsonlogic rules to be written in the `definitions` field. Refer our API docs for examples"));
    match definitions with
    | VObject logic =>
        if bool_decide (logic = ∅) then
          fail (ValidationError "Empty object is not allowed as a schema, mention at least one cohort")
        else
          let entries := sorted_entries logic in
          _ ← lift (check_cohort_options entries.*1 enum_options);
          used ← lift (try_map (λ '(cohort_option, expression),
            rule_dimensions cohort_option expression) entries);
          match elements (list_to_set (concat used) : gset string) with
          | [] => fail (ValidationError "No dimensions used in cohort schema, one dimension is required")
          | [dim] =>
              based_on_dimension ← does_dimension_exist_for_cohorting dim;
              if negb (bool_decide (dim = cohort_based_on)) then
                fail (ValidationError ("Dimension used in cohort schema (" +:+ dim +:+
                  ") does not match the dimension specified in cohort_based_on (" +:+
                  cohort_based_on +:+ ")"))
              else mret based_on_dimension
          | dimensions_used =>
              fail (ValidationError ("Multiple dimensions used in cohort schema and that is not allowed: "
                +:+ debug_strings dimensions_used))
          end
    | _ =>
        fail (ValidationError ("Invalid JSON Logic schema: expected an object, found: " +:+
          json_to_string definitions))
    end.
End dimensions.

(** * The handlers of dimensions

    The handlers of [crates/context_aware_config/src/api/dimension/handlers.rs]
    but [list_handler]. *)

Section handlers.
Context `{CacEnv} `{JsonParse} `{MapOrder} `{FloatText} `{Blake3} `{ConfigText} `{JsonText} `{JsonSchema}.
Context `{RegexEngine} `{JsonLogicVariables} `{DebugText}.

Definition is_mandatory (settings : Settings) (name : string) : bool :=
  bool_decide (name ∈ default [] (st_mandatory_dimensions settings)).

(** The checks of a schema by the type of the dimension. *)
Definition check_schema (schema : Map) : Result unit :=
  _ ← allow_primitive_types schema; validate_jsonschema (VObject schema).

Definition check_new_dimension (req : DimensionCreate) : C unit :=
  match nd_dimension_type req with
  | Regular => lift (check_schema (nd_schema req))
  | RemoteCohort cohort_based_on =>
      _ ← lift (check_schema (nd_schema req));
      based_on_dimension ← does_dimension_exist_for_cohorting cohort_based_on;
      lift (validate_cohort_position (nd_position req) based_on_dimension true)
  | LocalCohort cohort_based_on =>
      based_on_dimension ← validate_cohort_schema (VObject (nd_schema req)) cohort_based_on;
      lift (validate_cohort_position (nd_position req) based_on_dimension true)
  end.

(** What a cohort is based on. *)
Definition cohort_base (t : DimensionType) : option string :=
  match t with LocalCohort base | RemoteCohort base => Some base | Regular => None end.

Definition new_dimension (req : DimensionCreate) (user : User) (created_at last_modified_at : Z)
    : Dimension :=
  mkDimension (nd_dimension req) created_at (user_email user) (nd_schema req)
    (nd_value_validation_function_name req) last_modified_at (user_email user) (nd_position req)
    (nd_description req) (nd_change_reason req) ∅ (nd_value_compute_function_name req)
    (nd_dimension_type req).

(** The tables after a creation: the positions from the new one on make room,
    the graphs above a cohort learn of it. The function names were checked, so
    the foreign keys hold. *)
Definition store_dimension (dimension_data : Dimension) (user : User) : C Dimension :=
  time ← cac_clock;
  _ ← update_dimensions_where (λ d, bool_decide (dm_position dimension_data ≤ dm_position d)%Z)
    (λ d, set_position d (dm_position d + 1) time (user_email user));
  _ ← (match cohort_base (dm_dimension_type dimension_data) with
       | Some cohort_based_on =>
           create_connections_with_dependents cohort_based_on (dm_dimension dimension_data)
             (user_email user)
       | None => mret tt
       end);
  insert_dimension dimension_data.

Definition dim_create_handler (settings : Settings) (config_tags : option string)
    (create_req : DimensionCreate) (user : User) : C (Dimension * bool * Z) :=
  tags ← lift (parse_config_tags config_tags);
  _ ← validate_change_reason settings (nd_change_reason create_req);
  num_rows ← count_dimensions;
  _ ← lift (validate_dimension_position (nd_dimension create_req) (nd_position create_req) num_rows);
  _ ← check_new_dimension create_req;
  _ ← validate_validation_function (nd_value_validation_function_name create_req);
  _ ← validate_value_compute_function (nd_dimension_type create_req)
    (nd_value_compute_function_name create_req);
  created_at ← cac_clock;
  last_modified_at ← cac_clock;
  cac_transaction (
    inserted_dimension ← store_dimension (new_dimension create_req user created_at last_modified_at)
      user;
    version_id ← add_config_version tags
      (Description.from_change_reason (nd_change_reason create_req));
    mret (inserted_dimension, is_mandatory settings (dm_dimension inserted_dimension), version_id)).

Definition dim_get_handler (settings : Settings) (name : string) : C (Dimension * bool) :=
  result ← find_dimension name;
  mret (result, is_mandatory settings (dm_dimension result)).

(** ** Update *)

Definition check_updated_schema (dimension_data : Dimension) (new_schema : Map) : C unit :=
  match dm_dimension_type dimension_data with
  | Regular | RemoteCohort _ => lift (check_schema new_schema)
  | LocalCohort cohort_based_on =>
      _ ← validate_cohort_schema (VObject new_schema) cohort_based_on; mret tt
  end.

Definition check_updated_position (dimension_data : Dimension) (new_position : Z) : C unit :=
  match cohort_base (dm_dimension_type dimension_data) with
  | None => mret tt
  | Some cohort_based_on =>
      based_on_dimension ← does_dimension_exist_for_cohorting cohort_based_on;
      lift (validate_cohort_position new_position based_on_dimension false)
  end.

(** An optional field of an update and its check. *)
Definition check_field {A} (field : option A) (check : A → C unit) : C unit :=
  match field with Some a => check a | None => mret tt end.

(** The dimension steps aside, the ones between shift, and the last update of
    the handler puts it in its place. *)
Definition reposition (name : string) (previous_position new_position num_rows : Z) (user : User)
    : C unit :=
  time ← cac_clock;
  _ ← update_dimension name (λ d, set_position d (num_rows + 100) time (user_email user));
  time ← cac_clock;
  if bool_decide (previous_position < new_position)%Z then
    update_dimensions_where (λ d,
        bool_decide (previous_position < dm_position d)%Z && bool_decide (dm_position d ≤ new_position)%Z)
      (λ d, set_position d (dm_position d - 1) time (user_email user))
  else
    update_dimensions_where (λ d,
        bool_decide (dm_position d < previous_position)%Z && bool_decide (new_position ≤ dm_position d)%Z)
      (λ d, set_position d (dm_position d + 1) time (user_email user)).

Definition store_updated (name : string) (dimension_data : Dimension) (update_req : DimensionUpdate)
    (num_rows : Z) (user : User) : C Dimension :=
  _ ← check_field (ud_position update_req) (λ new_position,
    _ ← lift (validate_dimension_position name new_position (num_rows - 1));
    _ ← validate_position_wrt_dependency name new_position;
    reposition name (dm_position dimension_data) new_position num_rows user);
  time ← cac_clock;
  update_dimension name (λ d, apply_update update_req d time (user_email user)).

Definition dim_update_handler (settings : Settings) (name : string) (config_tags : option string)
    (update_req : DimensionUpdate) (user : User) : C (Dimension * bool * Z) :=
  tags ← lift (parse_config_tags config_tags);
  _ ← validate_change_reason settings (ud_change_reason update_req);
  dimension_data ← find_dimension name;
  num_rows ← count_dimensions;
  _ ← check_field (ud_schema update_req) (check_updated_schema dimension_data);
  _ ← check_field (ud_position update_req) (check_updated_position dimension_data);
  _ ← check_field (ud_value_validation_function_name update_req) validate_validation_function;
  _ ← check_field (ud_value_compute_function_name update_req)
    (validate_value_compute_function (dm_dimension_type dimension_data));
  cac_transaction (
    result ← store_updated name dimension_data update_req num_rows user;
    version_id ← add_config_version tags
      (Description.from_change_reason (dm_change_reason dimension_data));
    mret (result, is_mandatory settings (dm_dimension result), version_id)).

(** ** Deletion *)

Definition erase_dimension (name : string) (dimension_data : Dimension) (user : User) : C unit :=
  if negb (bool_decide (dm_dependency_graph dimension_data = ∅)) then
    bad ("The dimension " +:+ dm_dimension dimension_data +:+
      " currently has other dimensions that are using it in their cohort definitions. To delete this dimension, you need to delete these cohorts")
  else
    _ ← (match cohort_base (dm_dimension_type dimension_data) with
         | Some cohort_based_on =>
             remove_connections_with_dependents (dm_dimension dimension_data) cohort_based_on
               (user_email user)
         | None => mret tt
         end);
    time ← cac_clock;
    _ ← update_dimensions_where (λ d, bool_decide (dm_dimension d = name))
      (λ d, touch_dimension d time (user_email user));
    deleted_row ← execute_delete_dimension name;
    _ ← update_dimensions_where (λ d,
      bool_decide (dm_position dimension_data < dm_position d)%Z) shift_down;
    if deleted_row =? 0 then fail (NotFound ("Dimension `" +:+ name +:+ "` doesn't exists"))
    else mret tt.

Definition dim_delete_handler (name : string) (config_tags : option string) (user : User) : C Z :=
  tags ← lift (parse_config_tags config_tags);
  dimension_data ← find_dimension name;
  context_ids ← get_dimension_usage_context_ids name;
  if bool_decide (context_ids = []) then
    cac_transaction (
      _ ← erase_dimension name dimension_data user;
      config_version_desc ← lift (or_unexpected (Description.try_from
        ("Dimension Deleted by " +:+ user_email user)));
      add_config_version tags config_version_desc)
  else bad ("Given key already in use in contexts: " +:+ join "," context_ids).
End handlers.
