(* ===== verification/DefaultConfigs.v ===== *)
(** * Default configurations

    The handlers of
    [crates/context_aware_config/src/api/default_config/handlers.rs] but
    [list_handler]. *)

From S2P Require Import Prelude Stack Json Types Text Effects Logic LogicProps Config CacClient ExpChecks CacStore CacConfig Contexts Dimensions.

Record DefaultConfigCreateRequest : Type := mkDefaultConfigCreate {
  rd_key : string;
  rd_value : Value;
  rd_schema : Map;
  rd_value_validation_function_name : option string;
  rd_description : string;
  rd_change_reason : string;
  rd_value_compute_function_name : option string;
}.

Record DefaultConfigUpdateRequest : Type := mkDefaultConfigUpdate {
  rq_value : option Value;
  rq_schema : option Map;
  rq_value_validation_function_name : option (option string);
  rq_value_compute_function_name : option (option string);
  rq_description : option string;
  rq_change_reason : string;
}.

(** [AsChangeset] of the update request: absent fields keep their column. *)
Definition apply_default_update (req : DefaultConfigUpdateRequest) (d : DefaultConfig) (time : Z)
    (by_ : string) : DefaultConfig :=
  mkDefaultConfig (dc_key d) (default (dc_value d) (rq_value req)) (dc_created_at d)
    (dc_created_by d) (default (dc_schema d) (rq_schema req))
    (default (dc_value_validation_function_name d) (rq_value_validation_function_name req))
    time by_ (default (dc_description d) (rq_description req)) (rq_change_reason req)
    (default (dc_value_compute_function_name d) (rq_value_compute_function_name req)).

Section handlers.
Context `{CacEnv} `{JsonParse} `{MapOrder} `{FloatText} `{Blake3} `{ConfigText} `{JsonText} `{JsonSchema}.
Context `{RegexEngine}.

Definition validate_default_config_with_function (function_name : option string) (key : string)
    (value : Value) : C unit :=
  match function_name with
  | None => mret tt
  | Some f_name =>
      functions ← functions_table;
      function ← lift (ok_or (functions !! f_name)
        (BadArgument ("Function " +:+ f_name +:+
          " doesn't exist / function code not published yet.")));
      run_published f_name function
        (ValueValidationFunctionRequest key value ConfigKey (mkFunctionEnvironment ∅ ∅))
  end.

(** [validate_fn_published] is the text of dimension's
    [validate_validation_function]. *)
Definition validate_fn_published (function : option string) : C unit :=
  validate_validation_function function.

(** A value against a schema: the message when the schema does not compile is
    the caller's. *)
Definition check_value (schema : Map) (value : Value) (invalid : string) : Result unit :=
  _ ← map_err (λ _, BadArgument invalid) (schema_compile (VObject schema));
  map_err (λ verrors, ValidationError ("Schema validation failed: " +:+ first_or_empty verrors))
    (schema_validate (VObject schema) value).

Definition default_create_handler (settings : Settings) (config_tags : option string)
    (req : DefaultConfigCreateRequest) (user : User) : C (DefaultConfig * Z) :=
  tags ← lift (parse_config_tags config_tags);
  if bool_decide (rd_schema req = ∅) then bad "Schema cannot be empty."
  else
    _ ← validate_change_reason settings (rd_change_reason req);
    created_at ← cac_clock;
    last_modified_at ← cac_clock;
    let default_config :=
      mkDefaultConfig (rd_key req) (rd_value req) created_at (user_email user) (rd_schema req)
        (rd_value_validation_function_name req) last_modified_at (user_email user)
        (rd_description req) (rd_change_reason req) (rd_value_compute_function_name req) in
    _ ← lift (check_value (rd_schema req) (rd_value req) "Invalid JSON schema (failed to compile)");
    _ ← validate_default_config_with_function (rd_value_validation_function_name req) (rd_key req)
      (rd_value req);
    _ ← validate_fn_published (rd_value_compute_function_name req);
    cac_transaction (
      _ ← insert_default_config default_config;
      version_id ← add_config_version tags (Description.from_change_reason (rd_change_reason req));
      mret (default_config, version_id)).

Definition default_get_handler (key : string) : C DefaultConfig := find_default_config key.

(** [fetch_default_key] with the error of the update. *)
Definition existing_default_config (key : string) : C DefaultConfig := λ w,
  match find_default_config key w with
  | (Err (DbError DbNotFound), w) =>
      (bad_argument ("No record found for " +:+ key +:+ ". Use create endpoint instead."), w)
  | (Err _, w) => (unexpected_error "Something went wrong.", w)
  | r => r
  end.

Definition check_default_update (existing : DefaultConfig) (key : string)
    (req : DefaultConfigUpdateRequest) : C unit :=
  let value := default (dc_value existing) (rq_value req) in
  _ ← (match rq_schema req with
       | Some schema => lift (check_value schema value "Invalid JSON schema.")
       | None => mret tt
       end);
  _ ← (match rq_value_validation_function_name req with
       | Some validation_function_name =>
           validate_default_config_with_function validation_function_name key value
       | None => mret tt
       end);
  match rq_value_compute_function_name req with
  | Some value_compute_function_name => validate_fn_published value_compute_function_name
  | None => mret tt
  end.

Definition default_update_handler (settings : Settings) (key : string) (config_tags : option string)
    (req : DefaultConfigUpdateRequest) (user : User) : C (DefaultConfig * Z) :=
  tags ← lift (parse_config_tags config_tags);
  existing ← existing_default_config key;
  _ ← validate_change_reason settings (rq_change_reason req);
  _ ← check_default_update existing key req;
  cac_transaction (
    time ← cac_clock;
    val ← update_default_config key (λ d, apply_default_update req d time (user_email user));
    version_id ← add_config_version tags (Description.from_change_reason (rq_change_reason req));
    mret (val, version_id)).

Definition get_key_usage_context_ids (key : string) : C (list string) :=
  result ← all_contexts;
  mret (omap (λ context,
    if bool_decide (is_Some (x_override context !! key)) then Some (x_id context) else None) result).

(** The deletion touches the row first, which is then gone. *)
Definition default_delete_handler (key : string) (config_tags : option string) (user : User) : C Z :=
  tags ← lift (parse_config_tags config_tags);
  context_ids ← get_key_usage_context_ids key;
  if bool_decide (context_ids = []) then
    cac_transaction (
      time ← cac_clock;
      deleted_row ← execute_delete_default_config key;
      if deleted_row =? 0 then
        fail (NotFound ("default config key `" +:+ key +:+ "` doesn't exists"))
      else
        config_version_desc ← lift (or_unexpected (Description.try_from
          ("Context Deleted by " +:+ user_email user)));
        add_config_version tags config_version_desc)
  else bad ("Given key already in use in contexts: " +:+ join "," context_ids).
End handlers.
