(* ===== verification/Functions.v ===== *)
(** * Functions, variables and type templates

    The handlers of
    [crates/context_aware_config/src/api/functions/handlers.rs],
    [variables/handlers.rs] and [type_templates/handlers.rs]. None of them
    opens a transaction: every statement stands for itself. *)

From S2P Require Import Prelude Pages Json Types Text Effects Config CacClient ExpChecks CacStore CacConfig Contexts.

(** ** Requests *)

Record CreateFunctionRequest : Type := mkCreateFunction {
  cf_function_name : string;
  cf_function : string;
  cf_function_type : FunctionType;
  cf_runtime_version : FunctionRuntimeVersion;
  cf_description : string;
  cf_change_reason : string;
}.

Record UpdateFunctionRequest : Type := mkUpdateFunction {
  uf_draft_code : option string;
  uf_draft_runtime_version : option FunctionRuntimeVersion;
  uf_description : option string;
  uf_change_reason : string;
}.

Inductive Stage : Type := Published | Draft.

Record CreateVariableRequest : Type := mkCreateVariable {
  cv_name : string;
  cv_value : string;
  cv_var_description : string;
  cv_change_reason : string;
}.

Record UpdateVariableRequest : Type := mkUpdateVariable {
  uv_value : option string;
  uv_description : option string;
  uv_change_reason : string;
}.

Record TypeTemplateCreateRequest : Type := mkTypeTemplateCreate {
  tc_type_schema : Map;
  tc_type_name : string;
  tc_description : string;
  tc_change_reason : string;
}.

Record TypeTemplateUpdateRequest : Type := mkTypeTemplateUpdate {
  tu_type_schema : Map;
  tu_description : option string;
  tu_change_reason : string;
}.

(** ** Statements *)

Definition find_function (name : string) : C Function := λ w, (found (k_functions w !! name), w).

(** An update that returns the row. *)
Definition update_function (name : string) (f : Function → Function) : C Function := λ w,
  match k_functions w !! name with
  | Some x => (Ok (f x), set_functions w (<[name := f x]> (k_functions w)))
  | None => (cac_no_row, w)
  end.
Definition execute_update_function (name : string) (f : Function → Function) : C unit :=
  λ w, (Ok tt, set_functions w (alter f name (k_functions w))).

(** The foreign keys of [dimensions] and [default_configs]. *)
Definition refers (name : string) (o : option string) : bool := bool_decide (o = Some name).
Definition dimension_refers (name : string) (d : Dimension) : bool :=
  refers name (dm_value_validation_function_name d) || refers name (dm_value_compute_function_name d).
Definition default_refers (name : string) (d : DefaultConfig) : bool :=
  refers name (dc_value_validation_function_name d) || refers name (dc_value_compute_function_name d).
Definition function_in_use (name : string) (w : CacWorld) : bool :=
  existsb (dimension_refers name) (map_to_list (k_dimensions w)).*2 ||
  existsb (default_refers name) (map_to_list (k_default_configs w)).*2.

Definition execute_delete_function (name : string) : C nat := λ w,
  if function_in_use name w then
    (Err (DbError (ConstraintViolation "update or delete violates foreign key constraint")), w)
  else
    (Ok (match k_functions w !! name with Some _ => 1 | None => 0 end),
     set_functions w (delete name (k_functions w))).

Definition find_variable (name : string) : C Variable_ := λ w, (found (k_variables w !! name), w).
Definition insert_variable (v : Variable_) : C Variable_ := λ w,
  match k_variables w !! vr_name v with
  | Some _ => (cac_duplicate_key, w)
  | None => (Ok v, set_variables w (<[vr_name v := v]> (k_variables w)))
  end.
Definition update_variable (name : string) (f : Variable_ → Variable_) : C Variable_ := λ w,
  match k_variables w !! name with
  | Some x => (Ok (f x), set_variables w (<[name := f x]> (k_variables w)))
  | None => (cac_no_row, w)
  end.
Definition execute_update_variable (name : string) (f : Variable_ → Variable_) : C unit :=
  λ w, (Ok tt, set_variables w (alter f name (k_variables w))).
Definition remove_variable (name : string) : C Variable_ := λ w,
  match k_variables w !! name with
  | Some x => (Ok x, set_variables w (delete name (k_variables w)))
  | None => (cac_no_row, w)
  end.

Definition find_type_template (name : string) : C TypeTemplate :=
  λ w, (found (k_type_templates w !! name), w).
Definition insert_type_template (t : TypeTemplate) : C TypeTemplate := λ w,
  match k_type_templates w !! tt_type_name t with
  | Some _ => (cac_duplicate_key, w)
  | None => (Ok t, set_type_templates w (<[tt_type_name t := t]> (k_type_templates w)))
  end.
Definition update_type_template (name : string) (f : TypeTemplate → TypeTemplate) : C TypeTemplate :=
  λ w,
  match k_type_templates w !! name with
  | Some x => (Ok (f x), set_type_templates w (<[name := f x]> (k_type_templates w)))
  | None => (cac_no_row, w)
  end.
Definition execute_update_type_template (name : string) (f : TypeTemplate → TypeTemplate) : C unit :=
  λ w, (Ok tt, set_type_templates w (alter f name (k_type_templates w))).
Definition remove_type_template (name : string) : C TypeTemplate := λ w,
  match k_type_templates w !! name with
  | Some x => (Ok x, set_type_templates w (delete name (k_type_templates w)))
  | None => (cac_no_row, w)
  end.

(** ** Changes of a row *)

Definition apply_function_update (req : UpdateFunctionRequest) (f : Function) (email : string)
    (edited_at modified_at : Z) : Function :=
  mkFunction (fn_function_name f) (fn_published_code f) (default (fn_draft_code f) (uf_draft_code req))
    (default (fn_description f) (uf_description req)) (fn_published_runtime_version f)
    (default (fn_draft_runtime_version f) (uf_draft_runtime_version req)) (fn_published_at f)
    edited_at (fn_published_by f) email modified_at email (uf_change_reason req)
    (fn_function_type f) (fn_created_by f) (fn_created_at f).

Definition touch_function (f : Function) (time : Z) (email : string) : Function :=
  mkFunction (fn_function_name f) (fn_published_code f) (fn_draft_code f) (fn_description f)
    (fn_published_runtime_version f) (fn_draft_runtime_version f) (fn_published_at f)
    (fn_draft_edited_at f) (fn_published_by f) (fn_draft_edited_by f) time email
    (fn_change_reason f) (fn_function_type f) (fn_created_by f) (fn_created_at f).

(** [drafted] is the row read before: its draft is what is published. *)
Definition publish_row (drafted f : Function) (change_reason email : string)
    (published_at modified_at : Z) : Function :=
  mkFunction (fn_function_name f) (Some (fn_draft_code drafted)) (fn_draft_code f)
    (fn_description f) (Some (fn_draft_runtime_version drafted)) (fn_draft_runtime_version f)
    (Some published_at) (fn_draft_edited_at f) (Some email) (fn_draft_edited_by f) modified_at
    email change_reason (fn_function_type f) (fn_created_by f) (fn_created_at f).

Definition apply_variable_update (req : UpdateVariableRequest) (v : Variable_) (time : Z)
    (email : string) : Variable_ :=
  mkVariable (vr_name v) (default (vr_value v) (uv_value req))
    (default (vr_description v) (uv_description req)) (uv_change_reason req) (vr_created_at v)
    time (vr_created_by v) email.
Definition touch_variable (v : Variable_) (time : Z) (email : string) : Variable_ :=
  mkVariable (vr_name v) (vr_value v) (vr_description v) (vr_change_reason v) (vr_created_at v)
    time (vr_created_by v) email.

Definition apply_template_update (req : TypeTemplateUpdateRequest) (t : TypeTemplate) (time : Z)
    (email : string) : TypeTemplate :=
  mkTypeTemplate (tt_type_name t) (tu_type_schema req) (tt_created_by t) (tt_created_at t) time
    email (default (tt_description t) (tu_description req)) (tu_change_reason req).
Definition touch_template (t : TypeTemplate) (time : Z) (email : string) : TypeTemplate :=
  mkTypeTemplate (tt_type_name t) (tt_type_schema t) (tt_created_by t) (tt_created_at t) time
    email (tt_description t) (tt_change_reason t).

(** Types that are not created or deleted by hand. *)
Definition reserved (t : FunctionType) : bool :=
  match t with ContextValidation | ChangeReasonValidation => true | _ => false end.

Definition FunctionType_to_string (t : FunctionType) : string :=
  match t with
  | ValueValidation => "ValueValidation"
  | ValueCompute => "ValueCompute"
  | ContextValidation => "ContextValidation"
  | ChangeReasonValidation => "ChangeReasonValidation"
  end.

Section handlers.
Context `{CacEnv} `{JsonParse} `{MapOrder} `{JsonSchema}.

(** ** Functions *)

Definition new_function (req : CreateFunctionRequest) (user : User) (now : Z) : Function :=
  mkFunction (cf_function_name req) None (cf_function req) (cf_description req) None
    (cf_runtime_version req) None now None (user_email user) now (user_email user)
    (cf_change_reason req) (cf_function_type req) (user_email user) now.

Definition insert_function (f : Function) : C Function := λ w,
  match k_functions w !! fn_function_name f with
  | Some _ => (bad_argument "Function already exists.", w)
  | None => (Ok f, set_functions w (<[fn_function_name f := f]> (k_functions w)))
  end.

Definition function_create_handler (settings : Settings) (req : CreateFunctionRequest) (user : User)
    : C Function :=
  if reserved (cf_function_type req) then
    bad ("Cannot create function of type " +:+ FunctionType_to_string (cf_function_type req) +:+
      ": This function type is reserved and cannot be created manually.")
  else
    _ ← validate_change_reason settings (cf_change_reason req);
    _ ← compile_fn (cf_function req);
    now ← cac_clock;
    insert_function (new_function req user now).

Definition function_update_handler (settings : Settings) (name : string)
    (req : UpdateFunctionRequest) (user : User) : C Function :=
  _ ← (match uf_draft_code req with Some function => compile_fn function | None => mret tt end);
  _ ← validate_change_reason settings (uf_change_reason req);
  edited_at ← cac_clock;
  modified_at ← cac_clock;
  update_function name (λ f, apply_function_update req f (user_email user) edited_at modified_at).

Definition function_get_handler (name : string) : C Function := find_function name.

Definition function_delete_handler (name : string) (user : User) : C unit :=
  function ← find_function name;
  if reserved (fn_function_type function) then
    bad ("Cannot delete function of type " +:+ FunctionType_to_string (fn_function_type function) +:+
      ": This function type is reserved and cannot be deleted.")
  else
    time ← cac_clock;
    _ ← execute_update_function name (λ f, touch_function f time (user_email user));
    deleted_row ← execute_delete_function name;
    if deleted_row =? 0 then fail (NotFound ("Function " +:+ name +:+ " doesn't exists"))
    else mret tt.

Definition function_test_handler (name : string) (stage : Stage) (req : FunctionExecutionRequest)
    : C (Value * string) :=
  function ← find_function name;
  '(code, version) ← lift (
    match stage with
    | Draft => Ok (fn_draft_code function, fn_draft_runtime_version function)
    | Published =>
        match fn_published_code function, fn_published_runtime_version function with
        | Some code, Some version => Ok (code, version)
        | _, _ => bad_argument "Function test failed as function not published yet"
        end
    end);
  outcome ← execute_fn code req version;
  match outcome with
  | Err (e, stdout) =>
      bad ("Function failed with error: " +:+ e +:+ ", stdout: " +:+ debug_str (default "" stdout))
  | Ok result => mret result
  end.

Definition function_publish_handler (settings : Settings) (name change_reason : string)
    (user : User) : C Function :=
  function ← find_function name;
  _ ← validate_change_reason settings change_reason;
  published_at ← cac_clock;
  modified_at ← cac_clock;
  update_function name (λ f, publish_row function f change_reason (user_email user) published_at
    modified_at).

(** ** Variables *)

Definition variable_create_handler (settings : Settings) (req : CreateVariableRequest) (user : User)
    : C Variable_ :=
  _ ← validate_change_reason settings (cv_change_reason req);
  now ← cac_clock;
  insert_variable (mkVariable (cv_name req) (cv_value req) (cv_var_description req)
    (cv_change_reason req) now now (user_email user) (user_email user)).

Definition variable_get_handler (name : string) : C Variable_ := find_variable name.

Definition variable_update_handler (settings : Settings) (name : string)
    (req : UpdateVariableRequest) (user : User) : C Variable_ :=
  _ ← validate_change_reason settings (uv_change_reason req);
  time ← cac_clock;
  update_variable name (λ v, apply_variable_update req v time (user_email user)).

Definition variable_delete_handler (name : string) (user : User) : C Variable_ :=
  time ← cac_clock;
  _ ← execute_update_variable name (λ v, touch_variable v time (user_email user));
  remove_variable name.

(** ** Type templates *)

Definition check_template (schema : Map) : Result unit :=
  map_err (λ err, BadArgument
      ("Invalid jsonschema sent in the request, validation error is: " +:+ err))
    (schema_compile (VObject schema)).

Definition template_create_handler (settings : Settings) (req : TypeTemplateCreateRequest)
    (user : User) : C TypeTemplate :=
  _ ← lift (check_template (tc_type_schema req));
  _ ← validate_change_reason settings (tc_change_reason req);
  now ← cac_clock;
  insert_type_template (mkTypeTemplate (tc_type_name req) (tc_type_schema req) (user_email user)
    now now (user_email user) (tc_description req) (tc_change_reason req)).

Definition template_get_handler (name : string) : C TypeTemplate := find_type_template name.

Definition template_update_handler (settings : Settings) (name : string)
    (req : TypeTemplateUpdateRequest) (user : User) : C TypeTemplate :=
  _ ← lift (check_template (tu_type_schema req));
  _ ← validate_change_reason settings (tu_change_reason req);
  time ← cac_clock;
  update_type_template name (λ t, apply_template_update req t time (user_email user)).

Definition template_delete_handler (name : string) (user : User) : C TypeTemplate :=
  time ← cac_clock;
  _ ← execute_update_type_template name (λ t, touch_template t time (user_email user));
  remove_type_template name.
End handlers.
