(* ===== verification/CacServing.v ===== *)
(** * Serving configurations

    [crates/context_aware_config/src/api/config]: the helpers and the handlers
    that serve the configuration of a version and resolve a request in it; with the evaluation of remote cohorts of
    [crates/context_aware_config/src/helpers.rs]. Handlers that reduce the
    configuration are in [CacReduce]. The header that names the last row of
    the event log, which triggers of the database write, is left out. *)

From S2P Require Import Prelude Pages Stack Json Types Text Effects Logic LogicProps Config Resolve CacClient ExpChecks CacStore CacConfig Contexts.

(** ** Requests and answers *)

Record ConfigQuery : Type := mkConfigQuery {
  cq_version : option string;
  cq_prefix : option (list string);
}.

Record ResolveConfigQuery : Type := mkResolveConfigQuery {
  rv_version : option string;
  rv_show_reasoning : option bool;
  rv_resolve_remote : option bool;
  rv_context_id : option string;
  rv_prefix : option (list string);
}.

(** What the handlers read of a request: its method, the time of
    [If-Modified-Since] when that parses, the context of the body and the
    dimensions of the query. Times are in nanoseconds. *)
Record ServeRequest : Type := mkServeRequest {
  sr_method : Method;
  sr_if_modified_since : option Z;
  sr_body : option Map;
  sr_dimension_params : Map;
}.

Inductive LastModified : Type := Rfc2822 (time : Z) | Rfc3339 (time : Z).

Record ServeResponse (A : Type) : Type := mkServeResponse {
  rp_last_modified : option LastModified;
  rp_config_version : option Z;
  rp_body : A;
}.
Arguments mkServeResponse {A} _ _ _.
Arguments rp_last_modified {A} _.
Arguments rp_config_version {A} _.
Arguments rp_body {A} _.

Inductive Served (A : Type) : Type :=
  | Unmodified
  | Fresh (response : ServeResponse A).
Arguments Unmodified {A}.
Arguments Fresh {A} _.

(** ** Helpers *)

(** The header [x-merge-strategy]. *)
Definition merge_strategy_of (header : option string) : MergeStrategy :=
  default MERGE (MergeStrategy.from_string <$> header).

Definition apply_prefix_filter_to_config (prefix : option (list string)) (config : Config) : Config :=
  match prefix with
  | Some prefix => Config.filter_by_prefix config (list_to_set prefix)
  | None => config
  end.

Definition get_config_version (version : option string) (settings : Settings) : Result (option Z) :=
  match version with
  | None => Ok (st_config_version settings)
  | Some version =>
      if bool_decide (version = "latest") then Ok None
      else
        match parse_i64 version with
        | Ok v => Ok (Some v)
        | Err _ => bad_argument "version is not of type integer"
        end
  end.

Definition add_last_modified (max_created_at : option Z) (is_smithy : bool) : option LastModified :=
  (λ date, if is_smithy then Rfc3339 date else Rfc2822 date) <$> max_created_at.

(** [t.with_nanosecond(0)]. *)
Definition nanosecond_erasure (t : Z) : Z := (t - t `mod` 10 ^ 9)%Z.

Definition is_not_modified (max_created_at : option Z) (req : ServeRequest) : bool :=
  match nanosecond_erasure <$> max_created_at, nanosecond_erasure <$> sr_if_modified_since req with
  | Some parsed_max, Some last_modified => bool_decide (parsed_max ≤ last_modified)%Z
  | _, _ => false
  end.

(** [r.ok()]. *)
Definition attempt {A} (m : C A) : C (option A) := λ w,
  match m w with
  | (Ok a, w) => (Ok (Some a), w)
  | (Err _, w) => (Ok None, w)
  end.

(** The latest of two versions comes first. *)
Definition newer (x y : ConfigVersion) : Prop := (cv_created_at y ≤ cv_created_at x)%Z.

#[export] Instance newer_dec : RelDecision newer.
Proof. intros x y. unfold newer. apply _. Defined.

Section serving.
Context `{CacEnv} `{JsonParse} `{MapOrder} `{RowOrder} `{JsonLogic}.

(** [order(created_at.desc())]. *)
Definition versions_by_age : C (list ConfigVersion) := λ w,
  (Ok (merge_sort newer (row_order (k_versions w)).*2), w).

Definition get_max_created_at : C Z :=
  versions ← versions_by_age; lift (found (cv_created_at <$> head versions)).

Definition find_version (id : Z) : C ConfigVersion := λ w, (found (k_versions w !! id), w).

(** The version and the configuration; the version stored parses. *)
Definition generate_config_from_version (version : option Z) : C (option Z * Config) :=
  match version with
  | Some val => v ← find_version val; mret (Some val, cv_config v)
  | None =>
      versions ← versions_by_age;
      match head versions with
      | Some v => mret (Some (cv_id v), cv_config v)
      | None => config ← generate; mret (None, config)
      end
  end.

Definition setup_query_data (req : ServeRequest) : Result (bool * Map) :=
  match sr_method req with
  | GET => Ok (false, sr_dimension_params req)
  | POST =>
      match sr_body req with
      | Some context => Ok (true, context)
      | None => bad_argument "When using POST, context needs to be provided in the body."
      end
  end.

(** ** Remote cohorts *)

Definition compute_value_with_function (fun_name function key : string) (context overrides : Map)
    (runtime_version : FunctionRuntimeVersion) : C Value :=
  outcome ← execute_fn function
    (ValueComputeFunctionRequest key "" KDimension (mkFunctionEnvironment context overrides))
    runtime_version;
  lift (match outcome with
        | Err (err, stdout) =>
            validation_error ("Function " +:+ fun_name +:+ " computation failed for " +:+ key +:+
              " with error " +:+ err +:+ ". " +:+ default "" stdout)
        | Ok (VArray [v], _) => Ok v
        | Ok _ =>
            validation_error ("Computation function " +:+ fun_name +:+
              " returned invalid output, please check your inputs")
        end).

(** The value of a remote cohort, computed from what is known so far. *)
Definition remote_cohort_value (cohort_dimension based_on : string) (data : DimensionInfo)
    (modified_context : Map) : C Value :=
  value_compute_function_name ← lift (ok_or (di_value_compute_function_name data)
    (ValidationError ("Value compute function not found for " +:+ cohort_dimension)));
  function ← get_published_function_code value_compute_function_name;
  fn_code ← lift (ok_or (fi_published_code function)
    (ValidationError ("Published code not found for function " +:+ value_compute_function_name)));
  published_runtime_version ← lift (ok_or (fi_published_runtime_version function)
    (ValidationError ("Published runtime version not found for function " +:+
      value_compute_function_name)));
  compute_value_with_function value_compute_function_name fn_code based_on modified_context ∅
    published_runtime_version.

(** The entries that a dimension puts on the stack, the last on top. *)
Definition remote_children (dependency_graph : DependencyGraph) (dimension : string)
    : list (string * string) :=
  reverse ((λ d, (d, dimension)) <$> default [] (dependency_graph !! dimension)).

(** The [while let] loop; [None] when the fuel runs out. *)
Fixpoint remote_loop (fuel : nat) (dependency_graph : DependencyGraph)
    (dimensions : gmap string DimensionInfo) (stack : list (string * string))
    (modified_context : Map) : C (option Map) :=
  match stack, fuel with
  | [], _ => mret (Some modified_context)
  | _, O => mret None
  | (cohort_dimension, based_on) :: stack, S fuel =>
      match dimensions !! cohort_dimension with
      | None => remote_loop fuel dependency_graph dimensions stack modified_context
      | Some data =>
          if is_local_cohort (di_dimension_type data) then
            remote_loop fuel dependency_graph dimensions stack modified_context
          else
            value ← remote_cohort_value cohort_dimension based_on data modified_context;
            remote_loop fuel dependency_graph dimensions
              (remote_children dependency_graph cohort_dimension ++ stack)
              (<[cohort_dimension := value]> modified_context)
      end
  end.

Definition evaluate_remote_cohorts_dependency (fuel : nat) (dimension : string)
    (dependency_graph : DependencyGraph) (dimensions : gmap string DimensionInfo)
    (modified_context : Map) : C (option Map) :=
  remote_loop fuel dependency_graph dimensions (remote_children dependency_graph dimension)
    modified_context.

Fixpoint remote_starts (fuel : nat) (dimensions : gmap string DimensionInfo) (query_data : Map)
    (starts : list string) (modified_context : Map) : C (option Map) :=
  match starts with
  | [] => mret (Some modified_context)
  | dimension_key :: starts =>
      match query_data !! dimension_key, dimensions !! dimension_key with
      | Some value, Some data =>
          if is_local_cohort (di_dimension_type data) then
            remote_starts fuel dimensions query_data starts modified_context
          else
            done ← evaluate_remote_cohorts_dependency fuel dimension_key
              (di_dependency_graph data) dimensions (<[dimension_key := value]> modified_context);
            match done with
            | Some modified_context =>
                remote_starts fuel dimensions query_data starts modified_context
            | None => mret None
            end
      | _, _ => remote_starts fuel dimensions query_data starts modified_context
      end
  end.

(** The last loop: the local cohorts of the query are kept. *)
Definition keep_local (dimensions : gmap string DimensionInfo) (query_data modified_context : Map)
    : Map :=
  foldl (λ ctx '(dimension_key, value),
      match dimensions !! dimension_key with
      | Some data =>
          if is_local_cohort (di_dimension_type data) then <[dimension_key := value]> ctx else ctx
      | None => ctx
      end) modified_context (sorted_entries query_data).

Definition evaluate_remote_cohorts (fuel : nat) (dimensions : gmap string DimensionInfo)
    (query_data : Map) : C (option Map) :=
  match dimensions_to_start_from fuel dimensions query_data with
  | None => mret None
  | Some starts =>
      evaluated ← remote_starts fuel dimensions query_data starts ∅;
      mret (keep_local dimensions query_data <$> evaluated)
  end.

(** ** Resolving *)

(** A loop that ran out of fuel would not have ended. *)
Definition demand {A} (o : option A) : C A :=
  lift (ok_or o (UnexpectedError "the dimensions do not terminate")).

(** The contexts before the one with an id. *)
Fixpoint contexts_before (id : string) (contexts : list Context) : option (list Context) :=
  match contexts with
  | [] => None
  | ctx :: contexts =>
      if bool_decide (c_id ctx = id) then Some [] else (ctx ::.) <$> contexts_before id contexts
  end.

Definition restrict_contexts (context_id : option string) (config : Config) : Result Config :=
  match context_id with
  | None => Ok config
  | Some context_id =>
      contexts ← ok_or (contexts_before context_id (contexts config))
        (BadArgument ("context with id " +:+ context_id +:+ " not found in CAC"));
      Ok (mkConfig contexts (overrides config) (default_configs config) (dimensions config))
  end.

Definition resolve (config : Config) (query_data : Map) (merge_strategy : MergeStrategy)
    (query_filters : ResolveConfigQuery) : C Map :=
  config ← lift (restrict_contexts (rv_context_id query_filters) config);
  let fuel := cohort_fuel (dimensions config) in
  query_data ← (if default false (rv_resolve_remote query_filters) then
                  evaluated ← evaluate_remote_cohorts fuel (dimensions config) query_data;
                  demand evaluated
                else mret query_data);
  response ← demand (if default false (rv_show_reasoning query_filters)
                     then eval_cac_with_reasoning fuel config query_data merge_strategy
                     else eval_cac fuel config query_data merge_strategy);
  lift (map_err (λ _, UnexpectedError "cac eval failed") response).

(** ** Handlers *)

Definition config_get_handler (settings : Settings) (req : ServeRequest) (query_filters : ConfigQuery)
    : C (Served Config) :=
  max_created_at ← attempt get_max_created_at;
  if is_not_modified max_created_at req then mret Unmodified
  else
    version ← lift (get_config_version (cq_version query_filters) settings);
    '(version, config) ← generate_config_from_version version;
    let config := apply_prefix_filter_to_config (cq_prefix query_filters) config in
    let '(is_smithy, context) :=
      match sr_method req with
      | GET => (false, sr_dimension_params req)
      | POST => (true, default ∅ (sr_body req))
      end in
    config ← (if bool_decide (context = ∅) then mret config
              else demand (Config.filter_by_dimensions (cohort_fuel (dimensions config)) config context));
    mret (Fresh (mkServeResponse (add_last_modified max_created_at is_smithy) version config)).

Definition config_resolve_handler (settings : Settings) (req : ServeRequest)
    (merge_strategy : MergeStrategy) (query_filters : ResolveConfigQuery) : C (Served Map) :=
  max_created_at ← attempt get_max_created_at;
  if is_not_modified max_created_at req then mret Unmodified
  else
    config_version ← lift (get_config_version (rv_version query_filters) settings);
    '(config_version, config) ← generate_config_from_version config_version;
    '(is_smithy, query_data) ← lift (setup_query_data req);
    resolved_config ← resolve config query_data merge_strategy query_filters;
    mret (Fresh (mkServeResponse (add_last_modified max_created_at is_smithy) config_version
            resolved_config)).

Definition get_version_handler (version : Z) : C ConfigVersion := find_version version.
End serving.
