(* ===== verification/QueryStrings.v ===== *)
(** * Query strings

    [crates/superposition_types/src/custom_query.rs]: a query of the server is
    read in two passes, once to gather the parameters by key and once more, of
    those whose key a regular expression picks, to read the fields of a type.
    With the derivation of [to_query_param] of
    [crates/superposition_derives/src/lib.rs], which writes queries. The
    decoder of [serde_urlencoded] and the captures of regular expressions are
    parameters. *)

From S2P Require Import Prelude Json Types Text Effects Logic Config CacClient ExpChecks CacStore CacConfig CacServing.

(** [serde_urlencoded::from_str::<Vec<(String, String)>>]. *)
Class UrlEncoded := urlencoded_from_str : string → result string (list (string * string)).

(** The group [query_name] of the leftmost match of a regular expression. *)
Class RegexCaptures := query_name : string → string → option string.

(** ** Writing *)

(** The fields of a type that derives [QueryParam]: an attribute skips the
    empty ones, another writes each of several values. *)
Inductive QueryField : Type :=
  | QSingle (skip_if_empty : bool) (name : string) (value : option string)
  | QIterable (skip_if_empty : bool) (name : string) (values : option (list string)).

Definition query_part (name value : string) : string := name +:+ "=" +:+ value.

Definition query_generation (field : QueryField) : list string :=
  match field with
  | QSingle _ _ None | QIterable _ _ None => []
  | QSingle skip_if_empty name (Some value) =>
      if skip_if_empty && bool_decide (value = "") then [] else [query_part name value]
  | QIterable _ name (Some values) => query_part name <$> values
  end.

Definition derived_query_param (fields : list QueryField) : string :=
  join "&" (concat (query_generation <$> fields)).

Definition bool_to_string (b : bool) : string := if b then "true" else "false".

Module ConfigQuery.
Definition to_query_param (self : ConfigQuery) : string :=
  derived_query_param [QSingle true "version" (cq_version self); QIterable true "prefix" (cq_prefix self)].
End ConfigQuery.

Module ResolveConfigQuery.
Definition fields (self : ResolveConfigQuery) : list QueryField :=
  [QSingle true "version" (rv_version self);
   QSingle false "show_reasoning" (bool_to_string <$> rv_show_reasoning self);
   QSingle false "resolve_remote" (bool_to_string <$> rv_resolve_remote self);
   QSingle true "context_id" (rv_context_id self); QIterable true "prefix" (rv_prefix self)].
Definition to_query_param (self : ResolveConfigQuery) : string := derived_query_param (fields self).
End ResolveConfigQuery.

Module DimensionQuery.
Definition regex_pattern : string := "dimension\[(?<query_name>.*)\]".
Definition to_query_param `{JsonText} (self : Map) : string :=
  join "&" ((λ '(key, value), query_part ("dimension[" +:+ key +:+ "]") (json_to_string value)) <$>
    sorted_entries self).
End DimensionQuery.

Module Query.
Definition regex_pattern : string := "^(?<query_name>[^\[\]]+)$".
End Query.

(** ** Reading *)

Section reading.
Context `{UrlEncoded} `{RegexCaptures} `{MapOrder} `{JsonParse}.

(** Values of a key that comes more than once are joined by commas. *)
Definition gather (query_list : list (string * string)) : gmap string string :=
  foldl (λ query_map '(key, value),
      <[key := match query_map !! key with
               | None => value
               | Some v => v +:+ "," +:+ value
               end]> query_map) ∅ query_list.

Definition filter_and_transform_query (regex : string) (query_map : gmap string string) : string :=
  join "&" (omap (λ '(k, v), (λ pk, query_part pk v) <$> query_name regex k) (map_order query_map)).

Definition parse_failure (query_string e : string) : string :=
  "Failed to parse query string: " +:+ query_string +:+ ". Error: " +:+ e.

Definition extract_query {T} (regex : string)
    (deserialize : list (string * string) → result string T) (query_string : string)
    : result string T :=
  query_list ← map_err (parse_failure query_string) (urlencoded_from_str query_string);
  let filtered_query := filter_and_transform_query regex (gather query_list) in
  map_err (parse_failure query_string)
    (pairs ← urlencoded_from_str filtered_query; deserialize pairs).

(** The [HashMap<String, String>] of the pairs, and each text as the JSON value
    it parses as, or as a string. *)
Definition query_map_from (pairs : list (string * string)) : result string Map :=
  Ok ((λ value, default (VString value) (json_from_str value)) <$> collect_map pairs).

Definition dimension_params (query_string : string) : result string Map :=
  extract_query DimensionQuery.regex_pattern query_map_from query_string.

(** The deserialisation that serde derives: fields by name, others ignored; a
    field that comes twice is refused. *)
Definition field (pairs : list (string * string)) (name : string) : result string (option string) :=
  match (List.filter (λ p, bool_decide (p.1 = name)) pairs).*2 with
  | [] => Ok None
  | [value] => Ok (Some value)
  | _ => Err ("duplicate field `" +:+ name +:+ "`")
  end.

Definition parse_bool (s : string) : result string bool :=
  if bool_decide (s = "true") then Ok true
  else if bool_decide (s = "false") then Ok false
  else Err "provided string was not `true` or `false`".

Definition opt_bool (o : option string) : result string (option bool) :=
  match o with Some s => b ← parse_bool s; Ok (Some b) | None => Ok None end.

(** [CommaSeparatedQParams::deserialize] of strings. *)
Definition comma_separated (s : string) : list string := trim <$> split_at "," s.

Definition config_query_from (pairs : list (string * string)) : result string ConfigQuery :=
  version ← field pairs "version";
  prefix ← field pairs "prefix";
  Ok (mkConfigQuery version (comma_separated <$> prefix)).

Definition resolve_query_from (pairs : list (string * string)) : result string ResolveConfigQuery :=
  version ← field pairs "version";
  show_reasoning ← (s ← field pairs "show_reasoning"; opt_bool s);
  resolve_remote ← (s ← field pairs "resolve_remote"; opt_bool s);
  context_id ← field pairs "context_id";
  prefix ← field pairs "prefix";
  Ok (mkResolveConfigQuery version show_reasoning resolve_remote context_id
    (comma_separated <$> prefix)).

Definition config_query (query_string : string) : result string ConfigQuery :=
  extract_query Query.regex_pattern config_query_from query_string.
Definition resolve_query (query_string : string) : result string ResolveConfigQuery :=
  extract_query Query.regex_pattern resolve_query_from query_string.
Definition identifier_query (query_string : string) : result string (option string) :=
  extract_query Query.regex_pattern (λ pairs, field pairs "identifier") query_string.
End reading.
