(* ===== verification/QueryStringProps.v ===== *)
(** * What a query brings to the server

    A query written by the service to itself is read back as it was meant, when
    its texts have none of the characters that queries give a meaning. *)

From S2P Require Import Prelude Json Types Text Effects Logic Config CacClient ExpChecks CacStore CacConfig CacServing QueryStrings.

(** ** Plain texts *)

Definition plain_char (c : ascii) : bool :=
  let n := nat_of_ascii c in
  (32 <=? n) && (n <=? 126) && negb (bool_decide (c ∈ ["&"; "="; "+"; "%"; "#"]%char)).

Fixpoint plain (s : string) : bool :=
  match s with EmptyString => true | String c s => plain_char c && plain s end.

Definition plain_pair (p : string * string) : Prop := plain p.1 = true ∧ plain p.2 = true.

(** The pieces of a query between its ampersands, some of them empty. *)
Definition piece (o : option (string * string)) : string :=
  match o with Some (k, v) => query_part k v | None => "" end.
Definition query_of (pieces : list (option (string * string))) : string := join "&" (piece <$> pieces).

Fixpoint ends_in_space (s : string) : bool :=
  match s with
  | EmptyString => false
  | String c EmptyString => bool_decide (c = " "%char)
  | String _ s => ends_in_space s
  end.

(** What is documented of the decoder, of the text a client puts on the wire,
    and of the two regular expressions. A client trims the spaces at the end of
    an address, so nothing is said of a query that ends in one. *)
Class QueryLaws `{UrlEncoded} `{RegexCaptures} (wire : string → string) : Prop := {
  urlencoded_plain pieces : Forall plain_pair (omap id pieces) →
    urlencoded_from_str (query_of pieces) = Ok (omap id pieces);
  urlencoded_wire pieces : Forall plain_pair (omap id pieces) →
    ends_in_space (query_of pieces) = false →
    urlencoded_from_str (wire (query_of pieces)) = Ok (omap id pieces);
  dimension_name k : plain k = true →
    query_name DimensionQuery.regex_pattern ("dimension[" +:+ k +:+ "]") = Some k;
  dimension_none k : plain k = true → str_contains k "[" = false →
    query_name DimensionQuery.regex_pattern k = None;
  plain_name k : plain k = true → str_contains k "[" = false → str_contains k "]" = false → k ≠ "" →
    query_name Query.regex_pattern k = Some k;
  plain_none k : str_contains k "[" = true → query_name Query.regex_pattern k = None;
}.

(** The text of a value ends in a bracket, a quote, a digit or a letter. *)
Class JsonTextEnds `{JsonText} : Prop :=
  json_text_end v : ends_in_space (json_to_string v) = false.

(** ** The end of a text *)

Lemma ends_in_space_app s t : t ≠ "" → ends_in_space (s +:+ t) = ends_in_space t.
Proof.
  intros Ht. induction s as [|c [|c' s] IH]; [done|by destruct t|]. exact IH.
Qed.

Lemma ends_in_space_concat s t :
  ends_in_space s = false → ends_in_space t = false → ends_in_space (s +:+ t) = false.
Proof.
  intros Hs Ht. destruct (decide (t = "")) as [->|Hne]; [|by rewrite ends_in_space_app].
  assert (s +:+ "" = s) as -> by (clear; induction s as [|c s IH]; [done|]; exact (f_equal (String c) IH)).
  done.
Qed.

Lemma ends_in_space_join sep l :
  ends_in_space sep = false → Forall (λ s, ends_in_space s = false) l →
  ends_in_space (join sep l) = false.
Proof.
  intros Hsep. induction 1 as [|s l Hs Hl IH]; [done|]. destruct l as [|t l]; [done|].
  change (join sep (s :: t :: l)) with (s +:+ sep +:+ join sep (t :: l)).
  by repeat apply ends_in_space_concat.
Qed.

Lemma plain_app s t : plain (s +:+ t) = plain s && plain t.
Proof. induction s as [|c s IH]; simpl; [done|]. by rewrite IH, andb_assoc. Qed.

(** ** Gathering *)

Lemma join_app sep l l' : l ≠ [] → l' ≠ [] → join sep (l ++ l') = join sep l +:+ sep +:+ join sep l'.
Proof.
  intros Hl Hl'. induction l as [|s l IH]; [done|]. destruct l as [|t l].
  - destruct l'; [done|]. done.
  - change ((s :: t :: l) ++ l') with (s :: (t :: l) ++ l').
    change (join sep (s :: (t :: l) ++ l')) with (s +:+ sep +:+ join sep ((t :: l) ++ l')).
    rewrite IH by done. change (join sep (s :: t :: l)) with (s +:+ sep +:+ join sep (t :: l)).
    by rewrite !append_assoc.
Qed.

Lemma gather_collect l : NoDup l.*1 → gather l = list_to_map l.
Proof.
  intros Hl. rewrite <- collect_list_to_map by done. revert Hl.
  induction l as [|[k v] l IH] using rev_ind; [done|]. rewrite fmap_app. intros Hl.
  apply NoDup_app in Hl as (Hl & Hk & _). unfold gather, collect_map in *. rewrite !foldl_app, IH by done.
  simpl. assert (collect_map l !! k = None) as Hn.
  { apply collect_map_None. intros Hin. apply (Hk k Hin). simpl. by left. }
  unfold collect_map in Hn. by rewrite Hn.
Qed.

Lemma fields_named pairs name : NoDup pairs.*1 →
  (List.filter (λ p, bool_decide (p.1 = name)) pairs).*2 =
    option_list ((list_to_map pairs : gmap string string) !! name).
Proof.
  induction pairs as [|[k v] pairs IH]; [done|]. cbn [fmap list_fmap fst].
  intros [Hk Hl]%NoDup_cons. specialize (IH Hl). cbn [List.filter fst list_to_map foldr].
  destruct (decide (k = name)) as [->|Hne].
  - rewrite bool_decide_eq_true_2, lookup_insert_eq by done. cbn [fmap list_fmap snd]. rewrite IH.
    by rewrite (not_elem_of_list_to_map_1 pairs name) by done.
  - by rewrite bool_decide_eq_false_2, lookup_insert_ne by done.
Qed.

Lemma field_lookup pairs name : NoDup pairs.*1 →
  field pairs name = Ok ((list_to_map pairs : gmap string string) !! name).
Proof.
  intros Hl. unfold field. rewrite fields_named by done. by destruct (_ !! _).
Qed.

(** ** The two passes *)

Section passes.
Context `{UrlEncoded} `{RegexCaptures} `{MapOrder} `{JsonParse} {wire : string → string}.
Context `{!MapOrderOk _} `{!QueryLaws wire}.

(** What the second pass reads. *)
Definition picked (regex : string) (pairs : list (string * string)) : list (string * string) :=
  omap (λ '(k, v), (λ pk, (pk, v)) <$> query_name regex k)
    (map_order (list_to_map pairs : gmap string string)).

Lemma elem_of_picked regex pairs pk v : NoDup pairs.*1 →
  (pk, v) ∈ picked regex pairs ↔ ∃ k, (k, v) ∈ pairs ∧ query_name regex k = Some pk.
Proof.
  intros Hl. unfold picked. rewrite list_elem_of_omap. split.
  - intros ([k v'] & Hin & E). apply elem_of_map_order, elem_of_list_to_map in Hin; [|done].
    destruct (query_name regex k) eqn:Eq; simplify_eq/=. eauto.
  - intros (k & Hin & E). exists (k, v). rewrite E. split; [|done].
    by apply elem_of_map_order, elem_of_list_to_map.
Qed.

Lemma query_of_some l : query_of (Some <$> l) = join "&" ((λ p, query_part p.1 p.2) <$> l).
Proof. unfold query_of. f_equal. rewrite <- list_fmap_compose. apply list_fmap_ext. by intros _ [] _. Qed.

Lemma omap_id_some {A} (l : list A) : omap id (Some <$> l) = l.
Proof. induction l as [|x l IH]; [done|]. exact (f_equal (cons x) IH). Qed.

Lemma extract_query_plain {T} regex (deserialize : list (string * string) → result string T) raw pairs :
  urlencoded_from_str raw = Ok pairs → NoDup pairs.*1 → Forall plain_pair (picked regex pairs) →
  extract_query regex deserialize raw = map_err (parse_failure raw) (deserialize (picked regex pairs)).
Proof.
  intros Hr Hl Hp. unfold extract_query. rewrite Hr. simpl. rewrite gather_collect by done.
  unfold filter_and_transform_query.
  assert (omap (λ '(k, v), (λ pk, query_part pk v) <$> query_name regex k)
    (map_order (list_to_map pairs : gmap string string)) =
    (λ p, query_part p.1 p.2) <$> picked regex pairs) as ->.
  { unfold picked. generalize (map_order (list_to_map pairs : gmap string string)) as l. intros l.
    induction l as [|[k v] l IH]; [done|]. cbn [omap list_omap]. destruct (query_name regex k); [|exact IH].
    exact (f_equal (cons _) IH). }
  rewrite <- query_of_some, (urlencoded_plain (wire:=wire)), omap_id_some; [done|].
  by rewrite omap_id_some.
Qed.

Lemma picked_nodup regex pairs :
  (∀ k v pk, (k, v) ∈ pairs → query_name regex k = Some pk → pk = k) → NoDup pairs.*1 →
  NoDup (picked regex pairs).*1.
Proof.
  intros Hq Hl. unfold picked.
  assert (∀ k v pk, (k, v) ∈ map_order (list_to_map pairs : gmap string string) →
    query_name regex k = Some pk → pk = k) as Hq'.
  { intros k v pk Hin. apply elem_of_map_order, elem_of_list_to_map in Hin; [|done]. by eapply Hq. }
  pose proof (NoDup_fst_map_order (list_to_map pairs : gmap string string)) as Hn. clear Hq Hl.
  induction (map_order _) as [|[k v] l IH]; [constructor|].
  apply NoDup_cons in Hn as [Hk Hn]. cbn [omap list_omap].
  specialize (IH (λ k v pk Hin, Hq' k v pk (list_elem_of_further _ _ _ Hin)) Hn).
  destruct (query_name regex k) as [pk|] eqn:Eq; [|exact IH]. apply NoDup_cons. split; [|exact IH].
  pose proof (Hq' k v pk (list_elem_of_here _ _) Eq) as ->. intros ([k' v'] & Ek & Hin)%list_elem_of_fmap.
  apply list_elem_of_omap in Hin as ([k2 v2] & Hin & E). destruct (query_name regex k2) eqn:E2; [|done].
  simplify_eq/=. rewrite (Hq' k2 v' _ (list_elem_of_further _ _ _ Hin) E2) in Hk. apply Hk.
  apply list_elem_of_fmap. by exists (k2, v').
Qed.
End passes.

(** ** Dimensions *)

Definition dimension_key (key : string) : string := "dimension[" +:+ key +:+ "]".

#[export] Instance dimension_key_inj : Inj (=) (=) dimension_key.
Proof.
  intros s t E. unfold dimension_key in E. cbn [String.append] in E.
  do 10 apply (f_equal (λ s, match s with String _ s => s | EmptyString => s end)) in E.
  revert t E. induction s as [|c s IH]; intros [|d t]; simpl; intros [=]; subst; try done.
  - by destruct t.
  - by destruct s.
  - f_equal. by apply IH.
Qed.

Lemma sorted_entries_nodup {V} (m : gmap string V) : NoDup (sorted_entries m).*1.
Proof. unfold sorted_entries. rewrite merge_sort_Permutation. apply NoDup_fst_map_to_list. Qed.

(** * A decoder of queries

    An instance of the parameters of [QueryStrings]: the decoding of
    [application/x-www-form-urlencoded], what a client puts on the wire, and the
    two regular expressions on the keys that occur. *)

(** ** Decoding *)

Definition hex_digit (c : ascii) : option nat :=
  let n := nat_of_ascii c in
  if (48 <=? n) && (n <=? 57) then Some (n - 48)
  else if (65 <=? n) && (n <=? 70) then Some (n - 55)
  else if (97 <=? n) && (n <=? 102) then Some (n - 87)
  else None.

Fixpoint decode (s : string) : string :=
  match s with
  | EmptyString => EmptyString
  | String "+" s => String " " (decode s)
  | String "%" (String a (String b s') as s) =>
      match hex_digit a, hex_digit b with
      | Some x, Some y => String (ascii_of_nat (16 * x + y)) (decode s')
      | _, _ => String "%" (decode s)
      end
  | String c s => String c (decode s)
  end.

Fixpoint split_once (c : ascii) (s : string) : string * string :=
  match s with
  | EmptyString => ("", "")
  | String d s =>
      if bool_decide (d = c) then ("", s) else let '(a, b) := split_once c s in (String d a, b)
  end.

Definition decode_part (segment : string) : option (string * string) :=
  if bool_decide (segment = "") then None
  else let '(k, v) := split_once "=" segment in Some (decode k, decode v).

#[export] Instance form_decoder : UrlEncoded := λ s, Ok (omap decode_part (split_at "&" s)).

(** ** Encoding *)

Definition hex (n : nat) : ascii := ascii_of_nat (if n <? 10 then 48 + n else 55 + n).

Definition wire_char (c : ascii) : string :=
  let n := nat_of_ascii c in
  if (n <? 33) || (126 <? n) || bool_decide (n ∈ [34; 39; 60; 62]) then
    String "%" (String (hex (n / 16)) (String (hex (n mod 16)) EmptyString))
  else String c EmptyString.

Fixpoint wire (s : string) : string :=
  match s with EmptyString => EmptyString | String c s => wire_char c +:+ wire s end.

(** ** Keys *)

Definition strip_last (s : string) : string := String.substring 0 (String.length s - 1) s.

#[export] Instance key_captures : RegexCaptures := λ regex k,
  if bool_decide (regex = DimensionQuery.regex_pattern) then
    if starts_with k "dimension[" then Some (strip_last (String.substring 10 (String.length k) k)) else None
  else if str_contains k "[" || str_contains k "]" || bool_decide (k = "") then None else Some k.

(** ** Laws *)

Lemma split_at_join c l : Forall (λ s, lacks c s = true) l → l ≠ [] →
  split_at c (join (String c "") l) = l.
Proof.
  induction 1 as [|s l Hs Hl IH]; [done|]. intros _. destruct l as [|t l]; [by apply split_at_lacks|].
  change (join (String c "") (s :: t :: l)) with (s +:+ String c (join (String c "") (t :: l))).
  by rewrite split_at_app, IH.
Qed.

Lemma split_once_app k v : lacks "=" k = true → split_once "=" (query_part k v) = (k, v).
Proof.
  unfold query_part. induction k as [|d k IH]; [done|].
  intros [Hd Hs]%andb_true_iff. apply negb_true_iff in Hd. specialize (IH Hs).
  change (split_once "=" (String d (k +:+ "=" +:+ v)) = (String d k, v)). revert IH.
  generalize (k +:+ "=" +:+ v) as r. intros r IH. simpl. by rewrite Hd, IH.
Qed.

(** Character by character. *)
Ltac by_ascii c := destruct c as [[] [] [] [] [] [] [] []]; try discriminate; reflexivity.

Lemma decode_plain_char c s : plain_char c = true → decode (String c s) = String c (decode s).
Proof. by_ascii c. Qed.
Lemma decode_wire_char c s : plain_char c = true → decode (wire_char c +:+ s) = String c (decode s).
Proof. by_ascii c. Qed.
Lemma plain_char_lacks c : plain_char c = true →
  bool_decide (c = "&"%char) = false ∧ bool_decide (c = "="%char) = false.
Proof. intros Hc. split; revert Hc; by_ascii c. Qed.
Lemma wire_char_lacks c : plain_char c = true →
  lacks "&" (wire_char c) = true ∧ lacks "=" (wire_char c) = true.
Proof. intros Hc. split; revert Hc; by_ascii c. Qed.

Lemma plain_facts s : plain s = true →
  lacks "&" s = true ∧ lacks "=" s = true ∧ decode s = s ∧
  lacks "&" (wire s) = true ∧ lacks "=" (wire s) = true ∧ decode (wire s) = s.
Proof.
  induction s as [|c s IH]; [done|]. cbn [plain]. intros [Hc Hs]%andb_true_iff.
  destruct (IH Hs) as (H1 & H2 & H3 & H4 & H5 & H6). destruct (plain_char_lacks c Hc) as [E1 E2].
  destruct (wire_char_lacks c Hc) as [E3 E4]. cbn [lacks wire].
  rewrite E1, E2, H1, H2, decode_plain_char, H3, !lacks_app, E3, E4, H4, H5, decode_wire_char, H6 by done.
  done.
Qed.

Lemma wire_app s t : wire (s +:+ t) = wire s +:+ wire t.
Proof. 
  induction s as [|c s IH]; [done|].
  change (wire_char c +:+ wire (s +:+ t) = (wire_char c +:+ wire s) +:+ wire t).
  by rewrite IH, append_assoc.
Qed.

Lemma wire_join l : wire (join "&" l) = join "&" (wire <$> l).
Proof.
  induction l as [|s l IH]; [done|]. destruct l as [|t l]; [done|].
  change (wire (s +:+ "&" +:+ join "&" (t :: l)) = wire s +:+ "&" +:+ join "&" (wire <$> t :: l)).
  by rewrite !wire_app, IH.
Qed.

(** A decoded query, before or after the wire. *)
Lemma decode_query (f : string → string) pieces :
  f "" = "" → (∀ k v, f (query_part k v) = query_part (f k) (f v)) →
  (∀ s, plain s = true → lacks "&" (f s) = true ∧ lacks "=" (f s) = true ∧ decode (f s) = s) →
  Forall plain_pair (omap id pieces) →
  omap decode_part (split_at "&" (join "&" (f <$> (piece <$> pieces)))) = omap id pieces.
Proof.
  intros Hf0 Hf Hp Hl. destruct (decide (pieces = [])) as [->|Hne]; [done|].
  assert (Forall plain_pair (omap id pieces) → Forall (λ s, lacks "&" s = true) (f <$> (piece <$> pieces)) ∧
    omap decode_part (f <$> (piece <$> pieces)) = omap id pieces) as Hall.
  { clear Hl Hne. induction pieces as [|[[k v]|] pieces IH]; [done| |]; cbn [omap list_omap id fmap list_fmap].
    - intros [[Hk Hv] Hl]%Forall_cons. destruct (IH Hl) as [IH1 IH2]. destruct (Hp _ Hk) as (K1 & K2 & K3).
      destruct (Hp _ Hv) as (V1 & _ & V3). cbn [fst snd] in *. cbn [piece]. split.
      + constructor; [|done]. rewrite Hf. unfold query_part. by rewrite !lacks_app, K1, V1.
      + unfold decode_part at 1. rewrite Hf. rewrite bool_decide_eq_false_2.
        * rewrite split_once_app, K3, V3 by done. exact (f_equal _ IH2).
        * unfold query_part. by destruct (f k).
    - intros Hl. destruct (IH Hl) as [IH1 IH2]. cbn [piece]. rewrite Hf0. split; [by constructor|done]. }
  destruct (Hall Hl) as [Ha Hb]. rewrite split_at_join; [done|done|]. by destruct pieces.
Qed.

(** The name between the brackets. *)
Lemma substring_all s t : String.substring 0 (String.length s) (s +:+ t) = s.
Proof. induction s as [|c s IH]; [by destruct t|]. exact (f_equal (String c) IH). Qed.

Lemma substring_self n s : String.length s ≤ n → String.substring 0 n s = s.
Proof.
  revert n. induction s as [|c s IH]; intros [|n] Hn; simpl in *; try lia; [done|done|].
  by rewrite IH by lia.
Qed.

Lemma dimension_stripped k :
  strip_last (String.substring 10 (String.length (dimension_key k)) (dimension_key k)) = k.
Proof.
  change (strip_last (String.substring 0 (String.length (dimension_key k)) (k +:+ "]")) = k).
  assert (String.length (k +:+ "]") ≤ String.length (dimension_key k)) as Hl.
  { unfold dimension_key. rewrite !string_length_app. lia. }
  rewrite substring_self by done. unfold strip_last. rewrite string_length_app. simpl.
  replace (String.length k + 1 - 1) with (String.length k) by lia. apply substring_all.
Qed.

Lemma starts_with_contains k : starts_with k "dimension[" = true → str_contains k "[" = true.
Proof. intros [t ->]%starts_with_prefix. reflexivity. Qed.

#[export] Instance form_laws : QueryLaws wire.
Proof.
  split.
  - intros pieces Hl. unfold urlencoded_from_str, form_decoder. f_equal.
    rewrite <- (decode_query id pieces); [by rewrite list_fmap_id|done|done| |done].
    intros s Hs. destruct (plain_facts s Hs) as (? & ? & ? & _). done.
  - intros pieces Hl _. unfold urlencoded_from_str, form_decoder. f_equal. unfold query_of.
    rewrite wire_join. apply decode_query; [done| | |done].
    + intros k v. unfold query_part. by rewrite !wire_app.
    + intros s Hs. destruct (plain_facts s Hs) as (_ & _ & _ & ?). done.
  - intros k Hk. change (key_captures DimensionQuery.regex_pattern (dimension_key k) = Some k).
    unfold key_captures. rewrite bool_decide_eq_true_2 by done.
    change (starts_with (dimension_key k) "dimension[") with true. cbv iota.
    by rewrite dimension_stripped.
  - intros k _ Hn. unfold query_name, key_captures. rewrite bool_decide_eq_true_2 by done.
    destruct (starts_with k "dimension[") eqn:E; [|done]. apply starts_with_contains in E. congruence.
  - intros k _ H1 H2 H3. unfold query_name, key_captures. rewrite bool_decide_eq_false_2 by done.
    by rewrite H1, H2, bool_decide_eq_false_2.
  - intros k Hk. unfold query_name, key_captures. rewrite bool_decide_eq_false_2 by done. by rewrite Hk.
Qed.

(** ** Texts of strings *)

#[export] Instance quoted_text : JsonText := λ v,
  match v with VString s => String (ascii_of_nat 34) (s +:+ String (ascii_of_nat 34) "") | _ => "null" end.
#[export] Instance quoted_text_ends : @JsonTextEnds quoted_text.
Proof.
  intros [| | |s| |]; try done. unfold json_to_string, quoted_text.
  apply (ends_in_space_app (String (ascii_of_nat 34) s) (String (ascii_of_nat 34) "")). done.
Qed.
#[export] Instance quoted_parse : JsonParse := λ s,
  match s with
  | String c s => if bool_decide (c = ascii_of_nat 34) then Some (VString (strip_last s)) else None
  | EmptyString => None
  end.
