(* ===== verification/CacQueries.v ===== *)
(** * Listings of the configuration service

    The [list_handler]s of [crates/context_aware_config/src/api]: contexts
    with the filters done in memory, dimensions, default values, functions,
    variables, type templates, versions and the audit log. They write nothing.
    [LIKE], [ILIKE] and the collation of the database are parameters, and the
    rows of the audit log, which triggers of the database write, an argument. *)

From S2P Require Import Prelude Pages Json Types Text Effects Logic Config CacClient CacStore CacConfig Contexts Dimensions.

(** [override::text ILIKE '%..%']. *)
Class OverrideSearch := override_contains : string → Overrides → bool.
(** The order of texts in an [ORDER BY]. *)
Class Collation := collated : string → string → bool.

(** ** Filters *)

(** [sort_by.unwrap_or_default()]. *)
Definition SortBy_default : SortBy := Asc.

Inductive ContextSortOn : Type := SortWeight | SortCreatedAt | SortLastModifiedAt.

Record ContextListFilters : Type := mkContextListFilters {
  xf_prefix : option (list string);
  xf_sort_on : option ContextSortOn;
  xf_sort_by : option SortBy;
  xf_created_by : option (list string);
  xf_last_modified_by : option (list string);
  xf_plaintext : option string;
  xf_dimension_match_strategy : option DimensionMatchStrategy;
}.

Inductive VariableSortOn : Type := VName | VCreatedAt | VLastModifiedAt.

Record VariableFilters : Type := mkVariableFilters {
  vf_name : option (list string);
  vf_created_by : option (list string);
  vf_last_modified_by : option (list string);
  vf_sort_on : option VariableSortOn;
  vf_sort_by : option SortBy;
}.

Inductive EventAction : Type := EInsert | EUpdate | EDelete.

#[export] Instance EventAction_eq_dec : EqDecision EventAction.
Proof. solve_decision. Defined.

Record EventLog : Type := mkEventLog {
  ev_id : string;
  ev_table_name : string;
  ev_user_name : string;
  ev_timestamp : Z;
  ev_action : EventAction;
  ev_original_data : option Value;
  ev_new_data : option Value;
  ev_query : string;
}.

Record AuditQueryFilters : Type := mkAuditQueryFilters {
  af_from_date : option Z;
  af_to_date : option Z;
  af_table : option (list string);
  af_action : option (list EventAction);
  af_username : option string;
  af_sort_by : option SortBy;
}.

Record ConfigVersionListItem : Type := mkConfigVersionListItem {
  vi_id : Z;
  vi_config_hash : string;
  vi_tags : option (list string);
  vi_created_at : Z;
  vi_description : string;
}.

Definition version_item (v : ConfigVersion) : ConfigVersionListItem :=
  mkConfigVersionListItem (cv_id v) (cv_config_hash v) (cv_tags v) (cv_created_at v)
    (cv_description v).

(** A filter with [eq_any] on a column. *)
Definition among {A} `{EqDecision A} (o : option (list A)) (a : A) : bool :=
  when o (λ l, bool_decide (a ∈ l)).

(** ** Order and pages *)

(** [ORDER BY key ASC] and [DESC], for a relation on the keys. *)
Definition sorted_by {A K} (le : K → K → bool) (key : A → K) (sort_by : SortBy) (x y : A) : Prop :=
  match sort_by with
  | Asc => le (key x) (key y) = true
  | Desc => le (key y) (key x) = true
  end.

#[export] Instance sorted_by_dec {A K} le key sort_by : RelDecision (@sorted_by A K le key sort_by).
Proof. intros x y. unfold sorted_by. destruct sort_by; apply _. Defined.

Definition order_by {A} (key : A → Z) (sort_by : SortBy) (rows : list A) : list A :=
  merge_sort (sorted_by Z.leb key sort_by) rows.

Definition page_limit (pagination : PaginationParams) : Z := default 10%Z (pg_count pagination).
Definition page_offset (pagination : PaginationParams) : Z :=
  ((default 1 (pg_page pagination) - 1) * page_limit pagination)%Z.

(** [LIMIT] and [OFFSET], with the counts of a page. *)
Definition sql_page {A} (pagination : PaginationParams) (rows : list A) : Paginated A :=
  let total_items := Z.of_nat (length rows) in
  mkPaginated (ceil_div total_items (page_limit pagination)) total_items
    (take (Z.to_nat (page_limit pagination)) (drop (Z.to_nat (page_offset pagination)) rows)).

(** A listing that is ordered only when it is cut into pages. *)
Definition sql_listing {A} (pagination : PaginationParams) (order : list A → list A)
    (rows : list A) : Paginated A :=
  if default false (pg_all pagination) then list_all rows else sql_page pagination (order rows).

Section queries.
Context `{CacEnv} `{MapOrder} `{RowOrder} `{JsonLogic} `{SqlLike} `{OverrideSearch} `{Collation}.

(** ** Contexts *)

Definition get_base_query (filter_params : ContextListFilters) (x : DbContext) : bool :=
  among (xf_created_by filter_params) (x_created_by x) &&
  among (xf_last_modified_by filter_params) (x_last_modified_by x) &&
  when (xf_plaintext filter_params) (λ plaintext, override_contains plaintext (x_override x)).

Definition context_key (sort_on : ContextSortOn) (x : DbContext) : Z :=
  match sort_on with
  | SortWeight => Z.of_N (x_weight x)
  | SortCreatedAt => x_created_at x
  | SortLastModifiedAt => x_last_modified_at x
  end.

Definition replace_overrides (x : DbContext) (override_ : Overrides) : DbContext :=
  mkDbContext (x_id x) (x_value x) (x_override_id x) (x_created_at x) (x_created_by x) override_
    (x_last_modified_at x) (x_last_modified_by x) (x_weight x) (x_description x)
    (x_change_reason x).

(** The contexts that override a key with a prefix, cut to those keys. *)
Definition contexts_with_prefix (prefix : option (list string)) (xs : list DbContext)
    : list DbContext :=
  match prefix with
  | None => xs
  | Some prefix =>
      omap (λ x,
        match filter_keys_by_prefix (x_override x) (list_to_set prefix) with
        | Ok filtered_overrides_map => Some (replace_overrides x filtered_overrides_map)
        | Err _ => None
        end) xs
  end.

Definition contexts_in_memory (filter_params : ContextListFilters) (dimension_params : Map)
    (all_contexts : list DbContext) : list DbContext :=
  let dimension_filtered_contexts :=
    filter_by_dimension (contexts_with_prefix (xf_prefix filter_params) all_contexts)
      (map_to_list dimension_params).*1 in
  match default Subset (xf_dimension_match_strategy filter_params) with
  | Exact => filter_exact_match dimension_filtered_contexts dimension_params
  | Subset => filter_by_eval dimension_filtered_contexts dimension_params
  end.

Definition ctx_list_handler (filter_params : ContextListFilters)
    (pagination_params : PaginationParams) (dimension_params : Map) : C (Paginated DbContext) :=
  xs ← all_contexts;
  let base_query := order_by (context_key (default SortWeight (xf_sort_on filter_params)))
    (default SortBy_default (xf_sort_by filter_params))
    (List.filter (get_base_query filter_params) xs) in
  let show_all := default false (pg_all pagination_params) in
  mret (
    if negb (bool_decide (dimension_params = ∅)) || bool_decide (is_Some (xf_prefix filter_params))
    then
      let eval_filter_contexts := contexts_in_memory filter_params dimension_params base_query in
      if show_all then list_all eval_filter_contexts
      else
        let total_items := Z.of_nat (length eval_filter_contexts) in
        mkPaginated (ceil_div total_items (page_limit pagination_params)) total_items
          (slice eval_filter_contexts (page_offset pagination_params) (page_limit pagination_params))
    else if show_all then list_all base_query
    else sql_page pagination_params base_query).

(** ** The other tables *)

Definition dim_list_handler (settings : Settings) (filters : PaginationParams)
    : C (Paginated (Dimension * bool)) :=
  ds ← all_dimensions;
  let page := sql_listing filters (order_by dm_created_at Desc) ds in
  mret (mkPaginated (pr_total_pages page) (pr_total_items page)
    ((λ ele, (ele, is_mandatory settings (dm_dimension ele))) <$> pr_data page)).

Definition default_list_handler (pagination : PaginationParams) (name : option string)
    : C (Paginated DefaultConfig) := λ w,
  (Ok (sql_listing pagination (order_by dc_created_at Desc)
     (List.filter (λ d, when name (λ config_name, sql_contains config_name (dc_key d)))
        (map_order (k_default_configs w)).*2)), w).

Definition function_list_handler (pagination : PaginationParams)
    (function_type : option (list FunctionType)) : C (Paginated Function) := λ w,
  (Ok (sql_listing pagination (order_by fn_last_modified_at Desc)
     (List.filter (λ f, among function_type (fn_function_type f)) (map_order (k_functions w)).*2)), w).

Definition variable_filter (filters : VariableFilters) (v : Variable_) : bool :=
  among (vf_name filters) (vr_name v) && among (vf_created_by filters) (vr_created_by v) &&
  among (vf_last_modified_by filters) (vr_last_modified_by v).

Definition variable_order (sort_on : VariableSortOn) (sort_by : SortBy) (vs : list Variable_)
    : list Variable_ :=
  match sort_on with
  | VName => merge_sort (sorted_by collated vr_name sort_by) vs
  | VCreatedAt => order_by vr_created_at sort_by vs
  | VLastModifiedAt => order_by vr_last_modified_at sort_by vs
  end.

Definition variable_list_handler (pagination : PaginationParams) (filters : VariableFilters)
    : C (Paginated Variable_) := λ w,
  (Ok (sql_listing pagination
     (variable_order (default VLastModifiedAt (vf_sort_on filters))
        (default SortBy_default (vf_sort_by filters)))
     (List.filter (variable_filter filters) (map_order (k_variables w)).*2)), w).

Definition template_list_handler (filters : PaginationParams) : C (Paginated TypeTemplate) := λ w,
  (Ok (sql_listing filters (order_by tt_created_at Desc) (map_order (k_type_templates w)).*2), w).

Definition list_version_handler (filters : PaginationParams) : C (Paginated ConfigVersionListItem) :=
  λ w,
  (Ok (let page := sql_listing filters (order_by cv_created_at Desc) (row_order (k_versions w)).*2 in
       mkPaginated (pr_total_pages page) (pr_total_items page) (version_item <$> pr_data page)), w).

(** ** The audit log *)

Definition seven_days : Z := (7 * 24 * 3600 * 10 ^ 9)%Z.

Definition audit_filter (filters : AuditQueryFilters) (from_date to_date : Z) (e : EventLog) : bool :=
  among (af_table filters) (ev_table_name e) && among (af_action filters) (ev_action e) &&
  when (af_username filters) (λ username, bool_decide (ev_user_name e = username)) &&
  bool_decide (from_date ≤ ev_timestamp e)%Z && bool_decide (ev_timestamp e ≤ to_date)%Z.

Definition audit_list_handler (event_log : list EventLog) (filters : AuditQueryFilters)
    (pagination_params : PaginationParams) : C (Paginated EventLog) :=
  now ← cac_clock;
  let from_date := default (now - seven_days)%Z (af_from_date filters) in
  let to_date := default now (af_to_date filters) in
  mret (if bool_decide (to_date < from_date)%Z then mkPaginated 0 0 []
        else sql_page pagination_params
          (order_by ev_timestamp (default Desc (af_sort_by filters))
             (List.filter (audit_filter filters from_date to_date) event_log))).
End queries.
