(* ===== verification/CacReduce.v ===== *)
(** * Reducing the configuration

    [reduce_handler] of
    [crates/context_aware_config/src/api/config/handlers.rs] and what it calls:
    key after key, overrides that repeat the value a request would resolve to
    without them are taken out of the configuration, and out of the table when
    the request approves it. *)

From S2P Require Import Prelude Json Types Effects Config CacClient ExpChecks CacStore CacConfig Contexts CacServing.

(** ** Subsets *)

(** The loop over [ind in 0..len] appends a longer copy of every list so far. *)
Definition generate_subsets_keys (keys : list string) : list (list string) :=
  foldl (λ res element, res ++ ((λ sub, sub ++ [element]) <$> res)) [[]] keys.

Definition subset_map (map : Map) (subset_keys : list string) : Map :=
  foldl (λ subset_map key,
      match map !! key with Some value => <[key := value]> subset_map | None => subset_map end)
    ∅ subset_keys.

Definition generate_subsets (map : Map) : list Map :=
  subset_map map <$> generate_subsets_keys (sorted_entries map).*1.

(** ** The reduction of a key *)

(** A context with what is left of its overrides, the value of the key and the
    id of its overrides. *)
Record KeyedContext : Type := mkKeyed {
  kc_context : Context;
  kc_overrides : Map;
  kc_key_val : Value;
  kc_override_id : string;
}.

Definition request_payload (k : KeyedContext) : Map :=
  {[ "override" := VObject (kc_overrides k);
     "context" := VObject (c_condition (kc_context k));
     "id" := VString (c_id (kc_context k));
     "to_be_deleted" := VBool (bool_decide (kc_overrides k = ∅));
     "override_id" := VString (kc_override_id k) ]}.

(** The condition with two entries more; dimensions of these names would be
    replaced. *)
Definition ct_dimensions (k : KeyedContext) : Map :=
  <["req_payload" := VObject (request_payload k)]>
    (<["key_val" := kc_key_val k]> (c_condition (kc_context k))).

(** The dimensions of an element and the value of the key. *)
Definition dimensions_of (element : Map) : Map := delete "key_val" (delete "req_payload" element).
Definition key_val_of (element : Map) : option Value := delete "req_payload" element !! "key_val".

(** The inner loop: whether it reached the assignment. *)
Fixpoint can_reduce (c1_index : nat) (override_val_of_key_in_c1 : option Value)
    (dimensions_subsets_of_c1 : list Map) (c2_index : nat) (dimensions : list Map) : bool :=
  match dimensions with
  | [] => false
  | element :: dimensions =>
      if negb (c2_index =? c1_index) &&
         bool_decide (dimensions_of element ∈ dimensions_subsets_of_c1) then
        if bool_decide (override_val_of_key_in_c1 = key_val_of element) then true
        else if bool_decide (is_Some (key_val_of element)) then false
        else can_reduce c1_index override_val_of_key_in_c1 dimensions_subsets_of_c1 (S c2_index)
               dimensions
      else can_reduce c1_index override_val_of_key_in_c1 dimensions_subsets_of_c1 (S c2_index)
             dimensions
  end.

(** A turn of the outer loop, which runs over a copy of the vector. *)
Definition reduce_turn (dimensions : list Map) (c1_index : nat) (element : Map) : list Map :=
  if can_reduce c1_index (key_val_of element) (generate_subsets (dimensions_of element)) 0 dimensions
  then <[c1_index := <["can_be_reduced" := VBool true]> element]> dimensions
  else dimensions.

Fixpoint reduce_turns (c1_index : nat) (elements dimensions : list Map) : list Map :=
  match elements with
  | [] => dimensions
  | element :: elements =>
      reduce_turns (S c1_index) elements (reduce_turn dimensions c1_index element)
  end.

Definition reduce (contexts_overrides_values : list KeyedContext) (default_config_val : Value)
    : list Map :=
  let dimensions := (ct_dimensions <$> contexts_overrides_values) ++
    [{[ "key_val" := default_config_val ]}] in
  reduce_turns 0 dimensions dimensions.

Definition get_contextids_from_overrideid (contexts : list Context) (overrides : Map)
    (key_val : Value) (override_id : string) : list KeyedContext :=
  omap (λ ct,
      if bool_decide (is_Some (c_condition ct !! "variantIds")) then None
      else if bool_decide (override_id ∈ OverrideWithKeys.to_vec (c_override_with_keys ct)) then
        Some (mkKeyed ct overrides key_val override_id)
      else None) contexts.

Definition construct_new_payload (req_payload : Map) : Result PutRequest :=
  let res := delete "id" (delete "override_id" (delete "to_be_deleted" req_payload)) in
  context ← (match res !! "context" ≫= as_object with
             | None => bad_argument "Context not present"
             | Some val => map_err BadArgument (cac_condition_try_from val)
             end);
  override_ ← (match res !! "override" ≫= as_object with
               | None => bad_argument "Override not present"
               | Some val => map_err BadArgument (cac_overrides_try_from val)
               end);
  Ok (mkPutRequest context override_ None "Context updated during reduce operation").

(** [sort_by(|a, b| b.1.cmp(&a.1))], which is stable. *)
Fixpoint insert_by_weight {A} (x : A * N) (xs : list (A * N)) : list (A * N) :=
  match xs with
  | [] => [x]
  | y :: ys => if (y.2 <=? x.2)%N then x :: xs else y :: insert_by_weight x ys
  end.

Definition sort_by_weight {A} (xs : list (A * N)) : list (A * N) := foldr insert_by_weight [] xs.

Section reduce.
Context `{CacEnv} `{JsonParse} `{MapOrder} `{FloatText} `{Blake3} `{ConfigText} `{JsonText} `{JsonSchema}.

(** The contexts whose overrides have the key. *)
Definition contexts_with_key (check_key : string) (og_contexts : list Context)
    (og_overrides : gmap string Overrides) : list KeyedContext :=
  concat ((λ '(override_id, override_value),
      match override_value !! check_key with
      | Some value_of_check_key =>
          get_contextids_from_overrideid og_contexts (delete check_key override_value)
            value_of_check_key override_id
      | None => []
      end) <$> map_order og_overrides).

Fixpoint weigh (dimension_schema_map : gmap string DimensionInfo) (ks : list KeyedContext)
    : Result (list (KeyedContext * N)) :=
  match ks with
  | [] => Ok []
  | k :: ks =>
      weight ← map_err BadArgument
        (calculate_context_weight (VObject (c_condition (kc_context k))) dimension_schema_map);
      weights ← weigh dimension_schema_map ks;
      Ok ((k, weight) :: weights)
  end.

(** What the loop at the end reads of an element that can be reduced. *)
Record Reducible : Type := mkReducible {
  rc_payload : Map;
  rc_cid : string;
  rc_oid : string;
  rc_to_be_deleted : bool;
  rc_override : Map;
}.

Definition reducible (rd : Map) : option Reducible :=
  match rd !! "can_be_reduced", rd !! "req_payload" with
  | Some (VBool true), Some (VObject payload) =>
      match payload !! "id", payload !! "override_id", payload !! "to_be_deleted",
            payload !! "override" with
      | Some (VString cid), Some (VString oid), Some (VBool to_be_deleted),
        Some (VObject override_val) =>
          Some (mkReducible payload cid oid to_be_deleted override_val)
      | _, _, _, _ => None
      end
  | _, _ => None
  end.

(** The statements of an approved reduction: their errors are ignored, but for
    that of the description. *)
Definition write_reduced (settings : Settings) (user : User) (r : Reducible) : C unit :=
  _ ← attempt (delete_context (rc_cid r) user);
  if rc_to_be_deleted r then mret tt
  else
    match construct_new_payload (rc_payload r) with
    | Err _ => mret tt
    | Ok put_req =>
        description ← (match p_description put_req with
                       | Some val => mret val
                       | None => query_description (VObject (p_context put_req))
                       end);
        _ ← attempt (upsert settings put_req description user false);
        mret tt
    end.

(** The position of the context, that of the first when there is none, and
    whether no other context uses the overrides. *)
Definition find_reduced (cid oid : string) (og_contexts : list Context) : nat * bool :=
  foldl (λ '(ctx_index, delete_old_oid) '(ind, ctx),
      if bool_decide (c_id ctx = cid) then (ind, delete_old_oid)
      else if bool_decide (oid ∈ OverrideWithKeys.to_vec (c_override_with_keys ctx)) then
        (ctx_index, false)
      else (ctx_index, delete_old_oid))
    (0, true) (imap pair og_contexts).

(** The configuration in memory. The index is in range: the context is one of
    the vector. *)
Definition reduce_in_memory (r : Reducible) (og_contexts : list Context)
    (og_overrides : gmap string Overrides) : Result (list Context * gmap string Overrides) :=
  if rc_to_be_deleted r then
    Ok (List.filter (λ x, negb (bool_decide (c_id x = rc_cid r))) og_contexts, og_overrides)
  else
    override_val ← map_err UnexpectedError (cac_overrides_try_from (rc_override r));
    let new_id := hash (VObject override_val) in
    let og_overrides := <[new_id := override_val]> og_overrides in
    let '(ctx_index, delete_old_oid) := find_reduced (rc_cid r) (rc_oid r) og_contexts in
    elem ← ok_or (og_contexts !! ctx_index) (UnexpectedError "index out of bounds");
    let elem := mkContext (c_id elem) (c_condition elem) (c_priority elem) (c_weight elem)
      (OverrideWithKeys.new new_id) in
    Ok (<[ctx_index := elem]> og_contexts,
        if delete_old_oid then delete (rc_oid r) og_overrides else og_overrides).

Fixpoint apply_reductions (settings : Settings) (user : User) (is_approve : bool)
    (resolved_dimensions : list Map) (og_contexts : list Context)
    (og_overrides : gmap string Overrides) : C (list Context * gmap string Overrides) :=
  match resolved_dimensions with
  | [] => mret (og_contexts, og_overrides)
  | rd :: resolved_dimensions =>
      match reducible rd with
      | None =>
          apply_reductions settings user is_approve resolved_dimensions og_contexts og_overrides
      | Some r =>
          _ ← (if is_approve then write_reduced settings user r else mret tt);
          '(og_contexts, og_overrides) ← lift (reduce_in_memory r og_contexts og_overrides);
          apply_reductions settings user is_approve resolved_dimensions og_contexts og_overrides
      end
  end.

Definition reduce_config_key (settings : Settings) (user : User) (og_contexts : list Context)
    (og_overrides : gmap string Overrides) (check_key : string)
    (dimension_schema_map : gmap string DimensionInfo) (default_config : Map) (is_approve : bool)
    : C Config :=
  default_config_val ← lift (ok_or (default_config !! check_key)
    (BadArgument (check_key +:+ " not found in default config")));
  weights ← lift (weigh dimension_schema_map (contexts_with_key check_key og_contexts og_overrides));
  '(og_contexts, og_overrides) ← apply_reductions settings user is_approve
    (reduce (sort_by_weight weights).*1 default_config_val) og_contexts og_overrides;
  mret (mkConfig og_contexts og_overrides default_config dimension_schema_map).

(** The keys of the configuration that was generated first. *)
Fixpoint reduce_keys (settings : Settings) (user : User) (is_approve : bool)
    (dimensions_info_map : gmap string DimensionInfo) (keys : list string) (config : Config)
    : C Config :=
  match keys with
  | [] => mret config
  | key :: keys =>
      config ← reduce_config_key settings user (contexts config) (overrides config) key
        dimensions_info_map (default_configs config) is_approve;
      config ← (if is_approve then generate else mret config);
      reduce_keys settings user is_approve dimensions_info_map keys config
  end.

(** [is_approve] is the header [x-approve]. *)
Definition reduce_handler (settings : Settings) (is_approve : bool) (user : User) : C Config :=
  dimensions_info_map ← fetch_dimensions_info_map;
  config ← generate;
  reduce_keys settings user is_approve dimensions_info_map
    (sorted_entries (default_configs config)).*1 config.
End reduce.
