(* ===== verification/CacReduceProps.v ===== *)
(** * What the reduction of a key marks

    The subsets of a condition are the conditions included in it, and on
    contexts that come before those included in them an element is marked
    exactly when the first of the contexts included in it, or else the default
    configuration, has its value. *)

From S2P Require Import Prelude Json Types Effects Logic Config Resolve CacClient ExpChecks CacStore CacConfig Contexts CacServing CacReduce.

(** ** Subsets *)

Lemma elem_of_generate_subsets_keys keys sub k :
  sub ∈ generate_subsets_keys keys → k ∈ sub → k ∈ keys.
Proof.
  revert sub. induction keys as [|x keys IH] using rev_ind; intros sub; unfold generate_subsets_keys.
  - by intros ->%list_elem_of_singleton.
  - rewrite foldl_app. simpl. fold (generate_subsets_keys keys).
    rewrite !elem_of_app, list_elem_of_fmap. intros [Hs|(s & -> & Hs)] Hk; [left; by eapply IH|].
    rewrite elem_of_app in Hk. destruct Hk as [Hk|Hk]; [left; by eapply IH|by right].
Qed.

Lemma filter_generate_subsets_keys (p : string → bool) keys :
  List.filter p keys ∈ generate_subsets_keys keys.
Proof.
  induction keys as [|x keys IH] using rev_ind; unfold generate_subsets_keys; [set_solver|].
  rewrite foldl_app. simpl. fold (generate_subsets_keys keys).
  rewrite List.filter_app. cbn [List.filter]. rewrite elem_of_app.
  destruct (p x); [right; apply list_elem_of_fmap; eauto|left; by rewrite app_nil_r].
Qed.

Lemma subset_map_lookup m keys k : subset_map m keys !! k = if decide (k ∈ keys) then m !! k else None.
Proof.
  unfold subset_map. induction keys as [|x keys IH] using rev_ind; [done|].
  rewrite foldl_app. simpl. destruct (decide (k = x)) as [->|Hne].
  - rewrite decide_True by (rewrite elem_of_app, list_elem_of_singleton; auto).
    destruct (m !! x) eqn:Hx; [by rewrite lookup_insert_eq|].
    rewrite IH. by case_decide.
  - destruct (m !! x); rewrite ?lookup_insert_ne, IH by done; apply decide_ext; set_solver.
Qed.

Lemma elem_of_sorted_keys {V} (m : gmap string V) k : k ∈ (sorted_entries m).*1 ↔ is_Some (m !! k).
Proof.
  rewrite list_elem_of_fmap. split.
  - intros ([? v] & -> & ?%elem_of_sorted_entries). by exists v.
  - intros [v ?]. exists (k, v). by rewrite elem_of_sorted_entries.
Qed.

Lemma elem_of_generate_subsets m m' : m' ∈ generate_subsets m ↔ m' ⊆ m.
Proof.
  unfold generate_subsets. rewrite list_elem_of_fmap. split.
  - intros (keys & -> & _). apply map_subseteq_spec. intros k v. rewrite subset_map_lookup.
    by case_decide.
  - intros Hs. exists (List.filter (λ k, bool_decide (is_Some (m' !! k))) (sorted_entries m).*1).
    split; [|apply filter_generate_subsets_keys]. apply map_eq. intros k.
    rewrite subset_map_lookup. destruct (m' !! k) as [v|] eqn:Hk.
    + pose proof (lookup_weaken _ _ _ _ Hk Hs) as Hm. rewrite decide_True; [done|].
      rewrite elem_of_filterb, elem_of_sorted_keys, bool_decide_eq_true. eauto.
    + rewrite decide_False; [done|]. rewrite elem_of_filterb, bool_decide_eq_true, Hk.
      by intros [_ [? ?]].
Qed.

(** ** Elements *)

(** No dimension has the name of an entry that the loop adds. *)
Definition plain (c : Condition) : Prop :=
  c !! "key_val" = None ∧ c !! "req_payload" = None ∧ c !! "can_be_reduced" = None.

Definition kc_condition (k : KeyedContext) : Condition := c_condition (kc_context k).

(** An element after the turns, marked or not. *)
Definition element_of (mark : bool) (k : KeyedContext) : Map :=
  if mark then <["can_be_reduced" := VBool true]> (ct_dimensions k) else ct_dimensions k.

Lemma key_val_of_element b k : key_val_of (element_of b k) = Some (kc_key_val k).
Proof.
  unfold key_val_of, element_of, ct_dimensions.
  destruct b; rewrite lookup_delete_ne, ?lookup_insert_ne by done; by rewrite lookup_insert_eq.
Qed.

Lemma dimensions_of_ct k : plain (kc_condition k) → dimensions_of (ct_dimensions k) = kc_condition k.
Proof.
  intros (H1 & H2 & _). unfold dimensions_of, ct_dimensions. fold (kc_condition k).
  rewrite delete_insert_id; [by rewrite delete_insert_id|].
  by rewrite lookup_insert_ne.
Qed.

Lemma dimensions_of_marked k c :
  plain c → dimensions_of (element_of true k) ⊆ c → False.
Proof.
  intros (_ & _ & Hc) Hs. rewrite map_subseteq_spec in Hs.
  specialize (Hs "can_be_reduced" (VBool true)). rewrite Hc in Hs.
  cut (None = Some (VBool true)); [done|]. apply Hs.
  unfold dimensions_of, element_of. rewrite !lookup_delete_ne by done. by rewrite lookup_insert_eq.
Qed.

(** ** Marks *)

(** The value of the first context included in a condition, or the default. *)
Fixpoint first_value (c : Condition) (ks : list KeyedContext) (d : Value) : Value :=
  match ks with
  | [] => d
  | k :: ks => if decide (kc_condition k ⊆ c) then kc_key_val k else first_value c ks d
  end.

(** Contexts come before those included in them. *)
Inductive Descending : list KeyedContext → Prop :=
  | Descending_nil : Descending []
  | Descending_cons k ks :
      plain (kc_condition k) →
      (∀ k', k' ∈ ks → ¬ kc_condition k ⊆ kc_condition k') →
      Descending ks → Descending (k :: ks).

Fixpoint marks (ks : list KeyedContext) (d : Value) : list bool :=
  match ks with
  | [] => []
  | k :: ks => bool_decide (first_value (kc_condition k) ks d = kc_key_val k) :: marks ks d
  end.

Lemma marks_length ks d : length (marks ks d) = length ks.
Proof. induction ks; simpl; congruence. Qed.

Definition default_element (d : Value) : Map := {[ "key_val" := d ]}.

Lemma dimensions_of_default d : dimensions_of (default_element d) = ∅.
Proof. unfold dimensions_of, default_element. rewrite delete_singleton_ne by done. apply delete_singleton_eq. Qed.

Lemma key_val_of_default d : key_val_of (default_element d) = Some d.
Proof. unfold key_val_of, default_element. rewrite lookup_delete_ne by done. apply lookup_singleton_eq. Qed.

(** Elements whose dimensions are not included are passed over. *)
Lemma can_reduce_skip i v c j pre rest :
  (∀ e, e ∈ pre → ¬ dimensions_of e ⊆ c) →
  can_reduce i v (generate_subsets c) j (pre ++ rest) =
  can_reduce i v (generate_subsets c) (j + length pre) rest.
Proof.
  revert j. induction pre as [|e pre IH]; intros j Hpre; simpl; [by rewrite Nat.add_0_r|].
  rewrite bool_decide_eq_false_2, andb_false_r.
  - rewrite IH by set_solver. f_equal. lia.
  - rewrite elem_of_generate_subsets. apply Hpre. set_solver.
Qed.

Lemma can_reduce_rest i v c j ks d :
  i < j → Descending ks →
  can_reduce i (Some v) (generate_subsets c) j ((ct_dimensions <$> ks) ++ [default_element d]) =
  bool_decide (first_value c ks d = v).
Proof.
  revert j. induction ks as [|k ks IH]; intros j Hj Hd; cbn [fmap list_fmap app can_reduce first_value].
  - assert ((j =? i) = false) as -> by (apply Nat.eqb_neq; lia).
    rewrite (bool_decide_eq_true_2 (_ ∈ _)), key_val_of_default.
    2:{ apply elem_of_generate_subsets. rewrite dimensions_of_default. apply map_empty_subseteq. }
    cbn [negb andb]. destruct (decide (d = v)) as [->|]; [by rewrite !bool_decide_eq_true_2|].
    rewrite (bool_decide_eq_false_2 (Some v = Some d)), (bool_decide_eq_false_2 (d = v)) by congruence.
    by rewrite bool_decide_eq_true_2 by eauto.
  - inversion Hd as [|? ? Hp Hk Hd']; subst.
    assert ((j =? i) = false) as -> by (apply Nat.eqb_neq; lia).
    rewrite dimensions_of_ct by done. pose proof (key_val_of_element false k) as Hv. cbn in Hv.
    rewrite Hv. cbn [negb andb].
    destruct (decide (kc_condition k ⊆ c)) as [Hs|Hs].
    + rewrite (bool_decide_eq_true_2 (_ ∈ _)) by by apply elem_of_generate_subsets.
      destruct (decide (kc_key_val k = v)) as [->|]; [by rewrite !bool_decide_eq_true_2|].
      rewrite (bool_decide_eq_false_2 (Some v = _)), (bool_decide_eq_false_2 (_ = v)) by congruence.
      by rewrite bool_decide_eq_true_2 by eauto.
    + rewrite (bool_decide_eq_false_2 (_ ∈ _)) by by rewrite elem_of_generate_subsets.
      apply IH; [lia|done].
Qed.

Lemma default_not_reduced i d pre :
  i = length pre → (∀ e, e ∈ pre → dimensions_of e ≠ ∅) →
  can_reduce i (Some d) (generate_subsets ∅) 0 (pre ++ [default_element d]) = false.
Proof.
  intros -> Hpre. rewrite can_reduce_skip.
  - cbn. by rewrite Nat.eqb_refl.
  - intros e He Hs. apply (Hpre e He). apply map_eq. intros k. rewrite lookup_empty.
    apply eq_None_not_Some. intros [v Hv]. eapply lookup_weaken in Hs; [|done]. done.
Qed.

Definition elements_of (bs : list bool) (ks : list KeyedContext) : list Map :=
  zip_with element_of bs ks.

Lemma elements_of_app bs ks b k :
  length bs = length ks → elements_of (bs ++ [b]) (ks ++ [k]) = elements_of bs ks ++ [element_of b k].
Proof. intros. unfold elements_of. by rewrite zip_with_app. Qed.

Lemma elements_of_length bs ks : length bs = length ks → length (elements_of bs ks) = length ks.
Proof. intros. unfold elements_of. rewrite length_zip_with. lia. Qed.

(** The turns from the [i]th on. *)
Lemma reduce_turns_from bs pre ks d :
  length bs = length pre → Descending (pre ++ ks) → (∀ k, k ∈ pre ++ ks → kc_condition k ≠ ∅) →
  reduce_turns (length pre) ((ct_dimensions <$> ks) ++ [default_element d])
    (elements_of bs pre ++ (ct_dimensions <$> ks) ++ [default_element d]) =
  elements_of bs pre ++ elements_of (marks ks d) ks ++ [default_element d].
Proof.
  revert bs pre. induction ks as [|k ks IH]; intros bs pre Hl Hd Hne.
  - cbn. unfold reduce_turn. rewrite key_val_of_default, dimensions_of_default.
    rewrite default_not_reduced; [done|by rewrite elements_of_length|].
    intros e (i & He)%list_elem_of_lookup. unfold elements_of in He.
    apply lookup_zip_with_Some in He as (b & k & -> & _ & Hk). intros Hz.
    assert (k ∈ pre) as Hin by by eapply list_elem_of_lookup_2.
    assert (plain (kc_condition k)) as Hp.
    { clear -Hd Hin. rewrite app_nil_r in Hd. induction Hd; set_solver. }
    destruct b.
    + apply (dimensions_of_marked k (kc_condition k) Hp). rewrite Hz. apply map_empty_subseteq.
    + cbn in Hz. rewrite dimensions_of_ct in Hz by done. apply (Hne k); [set_solver|done].
  - assert (plain (kc_condition k) ∧ Descending ks ∧
      (∀ k', k' ∈ pre → ¬ kc_condition k' ⊆ kc_condition k)) as (Hp & Hks & Hpre).
    { clear -Hd. induction pre as [|k0 pre IHp]; cbn in Hd; inversion Hd; subst.
      - split_and!; [done..|]. by intros ? ?%elem_of_nil.
      - destruct IHp as (? & ? & ?); [done|]. split_and!; [done..|].
        intros k' [->|?]%elem_of_cons; [|auto]. set_solver. }
    cbn [fmap list_fmap app reduce_turns].
    assert (reduce_turn (elements_of bs pre ++ ct_dimensions k :: (ct_dimensions <$> ks) ++ [default_element d])
              (length pre) (ct_dimensions k) =
            elements_of (bs ++ [bool_decide (first_value (kc_condition k) ks d = kc_key_val k)])
              (pre ++ [k]) ++ (ct_dimensions <$> ks) ++ [default_element d]) as ->.
    { unfold reduce_turn. pose proof (key_val_of_element false k) as Hv. cbn in Hv.
      rewrite Hv, dimensions_of_ct by done. rewrite can_reduce_skip.
      - cbn [can_reduce]. rewrite elements_of_length by done. rewrite Nat.add_0_l, Nat.eqb_refl. cbn [negb andb].
        rewrite can_reduce_rest by (lia || done). rewrite elements_of_app by done.
        rewrite <- (assoc_L (++)). cbn [app].
        destruct (bool_decide _); [|done]. cbn [element_of].
        rewrite insert_app_r_alt by by rewrite elements_of_length.
        rewrite elements_of_length by done. by rewrite Nat.sub_diag.
      - intros e (i & He)%list_elem_of_lookup. unfold elements_of in He.
        apply lookup_zip_with_Some in He as (b & k' & -> & _ & Hk').
        assert (k' ∈ pre) as Hin by by eapply list_elem_of_lookup_2.
        destruct b; [intros Hs; by apply (dimensions_of_marked k' _ Hp Hs)|].
        cbn. assert (plain (kc_condition k')) as Hp'.
        { clear -Hd Hin. induction pre as [|k0 pre IHp]; [set_solver|].
          cbn in Hd. inversion Hd; subst. set_solver. }
        rewrite dimensions_of_ct by done. by apply Hpre. }
    replace (S (length pre)) with (length (pre ++ [k])) by (rewrite length_app; simpl; lia).
    rewrite IH.
    + rewrite elements_of_app by done. by rewrite <- !(assoc_L (++)).
    + rewrite !length_app. simpl. lia.
    + by rewrite <- (assoc_L (++)).
    + by rewrite <- (assoc_L (++)).
Qed.

Lemma reduce_marks ks d :
  Descending ks → (∀ k, k ∈ ks → kc_condition k ≠ ∅) →
  reduce ks d = elements_of (marks ks d) ks ++ [default_element d].
Proof. intros Hd Hne. exact (reduce_turns_from [] [] ks d eq_refl Hd Hne). Qed.

(** * What a reduction does to a configuration

    A configuration stands for rows: a condition and its overrides under an
    id. Reducing a key takes it out of the rows that were marked and drops
    those with nothing left; where the contexts that hold of a request are
    included in each other, the value the key resolves to stays the same. *)

Record Row : Type := mkRow {
  rw_id : string;
  rw_condition : Condition;
  rw_overrides : Overrides;
}.

(** What is left of a row without a key. *)
Definition drop_key (key : string) (r : Row) : list Row :=
  if decide (delete key (rw_overrides r) = ∅) then []
  else [mkRow (rw_id r) (rw_condition r) (delete key (rw_overrides r))].

Definition reduce_row (key : string) (ids : list string) (r : Row) : list Row :=
  if decide (rw_id r ∈ ids) then drop_key key r else [r].

Definition reduce_rows (key : string) (ids : list string) (rows : list Row) : list Row :=
  rows ≫= reduce_row key ids.

Lemma drop_key_elem key r r' : r' ∈ drop_key key r →
  rw_id r' = rw_id r ∧ rw_condition r' = rw_condition r ∧
  rw_overrides r' = delete key (rw_overrides r) ∧ rw_overrides r' ≠ ∅.
Proof. unfold drop_key. case_decide; [by intros ?%elem_of_nil|]. by intros ->%list_elem_of_singleton. Qed.

Lemma reduce_row_elem key ids r r' : r' ∈ reduce_row key ids r →
  r' = r ∨ rw_id r' = rw_id r ∧ rw_condition r' = rw_condition r ∧
    rw_overrides r' = delete key (rw_overrides r) ∧ rw_overrides r' ≠ ∅.
Proof.
  unfold reduce_row. case_decide; [by intros ?%drop_key_elem; right|].
  intros ->%list_elem_of_singleton. by left.
Qed.

Lemma reduce_rows_app key ids rows rows' :
  reduce_rows key ids (rows ++ rows') = reduce_rows key ids rows ++ reduce_rows key ids rows'.
Proof. apply bind_app. Qed.

Lemma reduce_rows_step key ids r rows :
  reduce_rows key ids (r :: rows) = reduce_row key ids r ++ reduce_rows key ids rows.
Proof. done. Qed.

Lemma reduce_rows_none key ids rows :
  (∀ r, r ∈ rows → rw_id r ∉ ids) → reduce_rows key ids rows = rows.
Proof.
  induction rows as [|r rows IH]; intros Hr; [done|]. rewrite reduce_rows_step. unfold reduce_row.
  rewrite decide_False by (apply Hr; set_solver). cbn. f_equal. apply IH. set_solver.
Qed.

(** Taking the key out of one row more. *)
Lemma reduce_rows_cons key id ids pre r post :
  NoDup (rw_id <$> pre ++ r :: post) → rw_id r = id → id ∉ ids →
  reduce_rows key (id :: ids) (pre ++ r :: post) =
  reduce_rows key ids (pre ++ drop_key key r ++ post).
Proof.
  intros Hnd <- Hid. rewrite fmap_app, fmap_cons in Hnd.
  apply NoDup_app in Hnd as (_ & Hpre & [Hpost _]%NoDup_cons).
  assert (∀ l, rw_id r ∉ (rw_id <$> l) → reduce_rows key (rw_id r :: ids) l = reduce_rows key ids l)
    as Hl.
  { induction l as [|x l IH]; intros Hx; [done|]. rewrite fmap_cons in Hx.
    rewrite !reduce_rows_step, IH by set_solver. f_equal. unfold reduce_row. apply decide_ext. set_solver. }
  rewrite !reduce_rows_app, reduce_rows_step, (Hl pre).
  2:{ intros Hin. apply (Hpre _ Hin). set_solver. }
  rewrite (Hl post) by done. f_equal. f_equal. unfold reduce_row.
  rewrite decide_True by set_solver. symmetry. apply reduce_rows_none.
  intros x (-> & _)%drop_key_elem. done.
Qed.

Section represent.
Context `{FloatText} `{Blake3}.

(** A family of overrides that their ids tell apart. *)
Class Faithful (F : Overrides → Prop) : Prop := {
  faithful_inj : ∀ o o', F o → F o' → hash (VObject o) = hash (VObject o') → o = o';
  faithful_delete : ∀ o k, F o → F (delete k o);
}.

Context (F : Overrides → Prop) `{!Faithful F}.

Definition shows (ovs : gmap string Overrides) (c : Context) (r : Row) : Prop :=
  c_id c = rw_id r ∧ c_condition c = rw_condition r ∧
  c_override_with_keys c = hash (VObject (rw_overrides r)) ∧
  ovs !! hash (VObject (rw_overrides r)) = Some (rw_overrides r) ∧ F (rw_overrides r).

Definition represents (ctxs : list Context) (ovs : gmap string Overrides) (rows : list Row) : Prop :=
  Forall2 (shows ovs) ctxs rows.

Lemma represents_ids ctxs ovs rows : represents ctxs ovs rows → c_id <$> ctxs = rw_id <$> rows.
Proof. induction 1 as [|c r ctxs rows (Hc & _) _ IH]; cbn; congruence. Qed.

Lemma shows_mono ovs ovs' c r :
  shows ovs c r → (∀ oid, oid = c_override_with_keys c → ovs' !! oid = ovs !! oid) → shows ovs' c r.
Proof. intros (? & ? & Ho & Hov & ?) Hm. split_and!; [done..| |done]. by rewrite Hm. Qed.

Lemma represents_mono ctxs rows ovs ovs' :
  represents ctxs ovs rows → (∀ c r, c ∈ ctxs → shows ovs c r → shows ovs' c r) →
  represents ctxs ovs' rows.
Proof.
  induction 1 as [|c r ctxs rows Hc _ IH]; intros Hm; constructor.
  - apply Hm; [set_solver|done].
  - apply IH. intros. apply Hm; [set_solver|done].
Qed.

(** Storing overrides of the family does not disturb other contexts. *)
Lemma shows_insert ovs c r ov : F ov → shows ovs c r → shows (<[hash (VObject ov) := ov]> ovs) c r.
Proof using Type*.
  intros HF (? & ? & ? & Hov & HFr). split_and!; try done.
  destruct (decide (hash (VObject ov) = hash (VObject (rw_overrides r)))) as [He|Hne].
  - rewrite He. rewrite lookup_insert_eq. f_equal. by apply faithful_inj.
  - by rewrite lookup_insert_ne.
Qed.

(** ** A reduction in memory *)

Definition row_reducible (key : string) (payload : Map) (r : Row) : Reducible :=
  mkReducible payload (rw_id r) (hash (VObject (rw_overrides r)))
    (bool_decide (delete key (rw_overrides r) = ∅)) (delete key (rw_overrides r)).

Definition index_at (cid : string) (p : nat * Context) : option nat :=
  if bool_decide (c_id p.2 = cid) then Some p.1 else None.
Definition spares (cid oid : string) (p : nat * Context) : bool :=
  bool_decide (c_id p.2 = cid) || negb (bool_decide (c_override_with_keys p.2 = oid)).

Lemma find_reduced_app cid oid i b l :
  foldl (λ '(ctx_index, delete_old_oid) '(ind, ctx),
      if bool_decide (c_id ctx = cid) then (ind, delete_old_oid)
      else if bool_decide (oid ∈ OverrideWithKeys.to_vec (c_override_with_keys ctx)) then
        (ctx_index, false)
      else (ctx_index, delete_old_oid)) (i, b) l =
  (default i (last (omap (index_at cid) l)),
   b && forallb (spares cid oid) l).
Proof.
  revert i b. induction l as [|[ind ctx] l IH]; intros i b; cbn -[last]; [by rewrite andb_true_r|].
  unfold index_at at 1, spares at 1. cbn -[last].
  assert (bool_decide (oid ∈ OverrideWithKeys.to_vec (c_override_with_keys ctx)) =
          bool_decide (c_override_with_keys ctx = oid)) as ->.
  { apply bool_decide_ext. unfold OverrideWithKeys.to_vec. set_solver. }
  destruct (bool_decide (c_id ctx = cid)); cbn -[last].
  - rewrite IH. f_equal. destruct (omap _ l) as [|x t] eqn:Ho; [done|].
    change (last (ind :: x :: t)) with (last (x :: t)).
    destruct (last (x :: t)) eqn:Hl; [done|]. by apply last_None in Hl.
  - destruct (bool_decide (c_override_with_keys ctx = oid)); cbn -[last]; rewrite IH;
      by rewrite ?andb_false_r.
Qed.

Lemma omap_imap_at (cid : string) pre c post :
  c_id c = cid → cid ∉ (c_id <$> pre) → cid ∉ (c_id <$> post) →
  ∀ f : nat → nat,
  omap (index_at cid)
    (imap (λ i, pair (f i)) (pre ++ c :: post)) = [f (length pre)].
Proof.
  intros Hc Hpre Hpost. assert (∀ l (f : nat → nat), cid ∉ (c_id <$> l) →
    omap (index_at cid)
      (imap (λ i, pair (f i)) l) = []) as Hnone.
  { induction l as [|x l IH]; intros f Hx; [done|]. rewrite fmap_cons in Hx. cbn.
    unfold index_at at 1. cbn. rewrite bool_decide_eq_false_2 by set_solver.
    by apply (IH (f ∘ S)); set_solver. }
  induction pre as [|x pre IH]; intros f.
  - cbn. unfold index_at at 1. cbn. rewrite bool_decide_eq_true_2 by done. f_equal. by apply (Hnone post (f ∘ S)).
  - rewrite fmap_cons in Hpre. cbn. unfold index_at at 1. cbn.
    rewrite bool_decide_eq_false_2 by set_solver. apply (IH ltac:(set_solver) (f ∘ S)).
Qed.

Lemma find_reduced_at cid oid pre c post :
  c_id c = cid → cid ∉ (c_id <$> pre) → cid ∉ (c_id <$> post) →
  ∃ b, find_reduced cid oid (pre ++ c :: post) = (length pre, b) ∧
    (b = true → ∀ c', c' ∈ pre ++ post → c_override_with_keys c' ≠ oid).
Proof.
  intros Hc Hpre Hpost. unfold find_reduced. rewrite find_reduced_app.
  pose proof (omap_imap_at cid pre c post Hc Hpre Hpost id) as Ho.
  change (imap (λ i, pair (id i)) (pre ++ c :: post)) with (imap pair (pre ++ c :: post)) in Ho.
  rewrite Ho. eexists. split; [done|].
  rewrite andb_true_l, forallb_True. intros Hall c' Hc'.
  assert (c' ∈ pre ++ c :: post) as [i Hi]%list_elem_of_lookup by set_solver.
  assert (c_id c' ≠ cid) as Hid.
  { intros <-. apply elem_of_app in Hc' as [Hin|Hin];
      [apply Hpre|apply Hpost]; by apply list_elem_of_fmap_2. }
  specialize (Hall (i, c')). unfold spares in Hall. cbn in Hall. rewrite bool_decide_eq_false_2 in Hall by done.
  cbn in Hall. intros Heq. rewrite bool_decide_eq_true_2 in Hall by done.
  cut (negb true = true); [done|]. apply Hall. apply elem_of_lookup_imap. eauto.
Qed.

Lemma reduce_in_memory_represents key payload ctxs ovs pre r post :
  represents ctxs ovs (pre ++ r :: post) → NoDup (rw_id <$> pre ++ r :: post) →
  is_Some (rw_overrides r !! key) →
  ∃ ctxs' ovs', reduce_in_memory (row_reducible key payload r) ctxs ovs = Ok (ctxs', ovs') ∧
    represents ctxs' ovs' (pre ++ drop_key key r ++ post).
Proof using Type*.
  intros Hrep Hnd Hkey. pose proof (represents_ids _ _ _ Hrep) as Hids.
  apply Forall2_app_inv_r in Hrep as (cpre & crest & Hpre & Hrest & ->).
  apply Forall2_cons_inv_r in Hrest as (c & cpost & Hc & Hpost & ->).
  rewrite <- Hids, fmap_app, fmap_cons in Hnd. apply NoDup_app in Hnd as (_ & Hd1 & [Hd2 _]%NoDup_cons).
  destruct Hc as (Hcid & Hcond & Hoid & Hov & HF).
  assert (c_id c ∉ (c_id <$> cpre)) as Hd1' by (intros Hin; apply (Hd1 _ Hin); set_solver).
  unfold reduce_in_memory, drop_key, row_reducible. cbn.
  case_decide as Hempty.
  - rewrite bool_decide_eq_true_2 by done. do 2 eexists. split; [done|].
    assert (∀ l, c_id c ∉ (c_id <$> l) →
      List.filter (λ x, negb (bool_decide (c_id x = rw_id r))) l = l) as Hfilter.
    { induction l as [|x l IH]; intros Hx; [done|]. rewrite fmap_cons in Hx. cbn.
      rewrite bool_decide_eq_false_2 by (rewrite <- Hcid; set_solver). cbn. f_equal. apply IH. set_solver. }
    rewrite List.filter_app. cbn. rewrite bool_decide_eq_true_2 by done. cbn.
    rewrite !Hfilter by done. by apply Forall2_app.
  - rewrite bool_decide_eq_false_2 by done.
    unfold cac_overrides_try_from, Overrides.validate_data. rewrite bool_decide_eq_false_2 by done. cbn.
    destruct (find_reduced_at (rw_id r) (hash (VObject (rw_overrides r))) cpre c cpost)
      as (b & -> & Hb); [done|by rewrite <- Hcid|by rewrite <- Hcid|].
    rewrite list_lookup_middle by done. cbn. do 2 eexists. split; [done|].
    set (ov' := delete key (rw_overrides r)) in *. assert (F ov') as HF' by by apply faithful_delete.
    assert (hash (VObject ov') ≠ hash (VObject (rw_overrides r))) as Hne.
    { intros He%faithful_inj; [|done..]. rewrite <- He in Hkey. unfold ov' in Hkey.
      rewrite lookup_delete_eq in Hkey. by destruct Hkey. }
    rewrite insert_app_r_alt, Nat.sub_diag by done. cbn.
    assert (∀ c' r', c' ∈ cpre ++ cpost → shows ovs c' r' →
      shows (if b then delete (hash (VObject (rw_overrides r))) (<[hash (VObject ov') := ov']> ovs)
             else <[hash (VObject ov') := ov']> ovs) c' r') as Hother.
    { intros c' r' Hc' Hs. pose proof (shows_insert _ _ _ ov' HF' Hs) as Hs'. destruct b; [|done].
      apply (shows_mono _ _ _ _ Hs'). intros oid ->. rewrite lookup_delete_ne; [done|].
      intros He. by apply (Hb eq_refl c' Hc'). }
    apply Forall2_app; [|apply Forall2_cons; split].
    + apply (represents_mono _ _ _ _ Hpre). intros. apply Hother; [set_solver|done].
    + split_and!; [done|done|done| |done]. cbn. destruct b.
      * by rewrite lookup_delete_ne, lookup_insert_eq.
      * by rewrite lookup_insert_eq.
    + apply (represents_mono _ _ _ _ Hpost). intros. apply Hother; [set_solver|done].
Qed.

(** ** All the reductions of a key *)

Definition kc_id (k : KeyedContext) : string := c_id (kc_context k).

(** What the handler collects of a row with the key. *)
Definition keyed (key : string) (k : KeyedContext) (r : Row) : Prop :=
  kc_id k = rw_id r ∧ kc_condition k = rw_condition r ∧
  rw_overrides r !! key = Some (kc_key_val k) ∧ kc_overrides k = delete key (rw_overrides r) ∧
  kc_override_id k = hash (VObject (rw_overrides r)).

Fixpoint marked_ids (bs : list bool) (ks : list KeyedContext) : list string :=
  match bs, ks with
  | b :: bs, k :: ks => if b : bool then kc_id k :: marked_ids bs ks else marked_ids bs ks
  | _, _ => []
  end.

Lemma marked_ids_elem bs ks id : id ∈ marked_ids bs ks → id ∈ kc_id <$> ks.
Proof.
  revert ks. induction bs as [|b bs IH]; intros [|k ks]; cbn; try by intros ?%elem_of_nil.
  rewrite elem_of_cons. destruct b; [rewrite elem_of_cons|]; naive_solver.
Qed.

Lemma reducible_element key b k r :
  keyed key k r → plain (kc_condition k) →
  reducible (element_of b k) = if b then Some (row_reducible key (request_payload k) r) else None.
Proof.
  intros (Hid & _ & _ & Hov & Hoid) (_ & _ & Hp). unfold reducible, element_of. destruct b.
  - rewrite lookup_insert_eq, lookup_insert_ne by done. unfold ct_dimensions at 1.
    rewrite lookup_insert_eq. unfold row_reducible. rewrite <- Hov, <- Hoid, <- Hid.
    unfold request_payload at 1 2 3 4. by simplify_map_eq.
  - unfold ct_dimensions at 1. rewrite !lookup_insert_ne by done.
    unfold kc_condition in Hp. by rewrite Hp.
Qed.

Lemma reducible_default d : reducible (default_element d) = None.
Proof. unfold reducible, default_element. by rewrite lookup_singleton_ne. Qed.

Lemma reduce_rows_elem key ids rows r :
  r ∈ reduce_rows key ids rows → ∃ r0, r0 ∈ rows ∧ rw_id r = rw_id r0 ∧
    rw_condition r = rw_condition r0 ∧
    (rw_overrides r = rw_overrides r0 ∨
     rw_overrides r = delete key (rw_overrides r0) ∧ rw_overrides r ≠ ∅).
Proof.
  unfold reduce_rows. rewrite list_elem_of_bind. intros (r0 & Hr & Hr0). exists r0. split; [done|].
  apply reduce_row_elem in Hr as [->|(? & ? & ? & ?)]; auto.
Qed.

Lemma NoDup_drop_key key pre r post :
  NoDup (rw_id <$> pre ++ r :: post) → NoDup (rw_id <$> pre ++ drop_key key r ++ post).
Proof.
  intros Hnd. unfold drop_key. case_decide; [|by rewrite !fmap_app in *].
  rewrite fmap_app, fmap_cons in Hnd. cbn [app]. rewrite fmap_app.
  apply NoDup_app in Hnd as (? & Hd & [? ?]%NoDup_cons). apply NoDup_app.
  split_and!; [done| |done]. intros x Hx Hin. apply (Hd x Hx). set_solver.
Qed.

(** The loop at the end of [reduce_config_key], when nothing is written. *)
Lemma apply_reductions_memory `{CacEnv} `{JsonParse} `{MapOrder} `{ConfigText} `{JsonText} `{JsonSchema}
    settings user key d bs ks ctxs ovs rows w :
  length bs = length ks → represents ctxs ovs rows → NoDup (rw_id <$> rows) →
  NoDup (kc_id <$> ks) → (∀ k, k ∈ ks → plain (kc_condition k) ∧ ∃ r, r ∈ rows ∧ keyed key k r) →
  ∃ ctxs' ovs',
    apply_reductions settings user false (elements_of bs ks ++ [default_element d]) ctxs ovs w =
      (Ok (ctxs', ovs'), w) ∧
    represents ctxs' ovs' (reduce_rows key (marked_ids bs ks) rows).
Proof using Type*.
  revert bs ctxs ovs rows. induction ks as [|k ks IH]; intros [|b bs] ctxs ovs rows Hl Hrep Hnd Hndk Hk;
    try done.
  { do 2 eexists. split; [cbn; by rewrite reducible_default|].
    cbn. by rewrite reduce_rows_none by (intros; apply not_elem_of_nil). }
  rewrite fmap_cons in Hndk. apply NoDup_cons in Hndk as [Hnew Hndk].
  destruct (Hk k) as (Hp & r & Hr & Hkr); [by left|].
  change (elements_of (b :: bs) (k :: ks)) with (element_of b k :: elements_of bs ks).
  cbn [app apply_reductions marked_ids]. rewrite (reducible_element key b k r Hkr Hp).
  assert (∀ k', k' ∈ ks → plain (kc_condition k') ∧ ∃ r, r ∈ rows ∧ keyed key k' r) as Hk' by (intros; apply Hk; by right).
  destruct b; [|by apply IH; [injection Hl| | | |]].
  apply list_elem_of_split in Hr as (pre & post & ->).
  destruct (reduce_in_memory_represents key (request_payload k) ctxs ovs pre r post)
    as (ctxs1 & ovs1 & Hmem & Hrep1); [done|done|destruct Hkr as (_ & _ & -> & _); by eexists|].
  destruct (IH bs ctxs1 ovs1 (pre ++ drop_key key r ++ post)) as (ctxs' & ovs' & Happ & Hrep');
    [by injection Hl|done|by apply NoDup_drop_key|done| |].
  { intros k' Hin. destruct (Hk' k' Hin) as (Hp' & r' & Hr' & Hkr'). split; [done|].
    exists r'. split; [|done]. assert (r' ≠ r) as Hne.
    { intros ->. apply Hnew. destruct Hkr as (-> & _), Hkr' as (<- & _). by apply list_elem_of_fmap_2. }
    clear -Hr' Hne. rewrite elem_of_app, elem_of_cons in Hr'. rewrite !elem_of_app. naive_solver. }
  exists ctxs', ovs'. split.
  - cbn. unfold lift. rewrite Hmem. exact Happ.
  - destruct Hkr as (Hid & _). rewrite Hid in *. rewrite reduce_rows_cons; [done..|].
    intros ?%marked_ids_elem. done.
Qed.
End represent.

(** ** Collecting and sorting *)

Lemma elem_of_concat_fmap {A B} (f : A → list B) l x :
  x ∈ concat (f <$> l) ↔ ∃ a, a ∈ l ∧ x ∈ f a.
Proof.
  induction l as [|a l IH]; cbn; [set_solver|]. rewrite elem_of_app, IH. set_solver.
Qed.

Section collect.
Context `{FloatText} `{Blake3} `{MapOrder} {Ook : MapOrderOk _}.
Context (F : Overrides → Prop) `{!Faithful F}.

Lemma elem_of_contextids ctxs o v oid k :
  k ∈ get_contextids_from_overrideid ctxs o v oid ↔
  ∃ c, c ∈ ctxs ∧ c_condition c !! "variantIds" = None ∧ c_override_with_keys c = oid ∧
    k = mkKeyed c o v oid.
Proof.
  unfold get_contextids_from_overrideid. rewrite list_elem_of_omap.
  apply exist_proper. intros c. unfold OverrideWithKeys.to_vec.
  destruct (c_condition c !! "variantIds") eqn:Hv.
  - rewrite bool_decide_eq_true_2 by by eexists. naive_solver.
  - rewrite bool_decide_eq_false_2 by by intros [? ?].
    case_bool_decide as Ho; rewrite list_elem_of_singleton in Ho; naive_solver.
Qed.

Lemma elem_of_contexts_with_key key ctxs ovs k :
  k ∈ contexts_with_key key ctxs ovs ↔
  ∃ c ov v, c ∈ ctxs ∧ c_condition c !! "variantIds" = None ∧
    ovs !! c_override_with_keys c = Some ov ∧ ov !! key = Some v ∧
    k = mkKeyed c (delete key ov) v (c_override_with_keys c).
Proof using Ook.
  unfold contexts_with_key. rewrite elem_of_concat_fmap. split.
  - intros ([oid ov] & Hin%elem_of_map_order & Hk). destruct (ov !! key) as [v|] eqn:Hv;
      [|by apply elem_of_nil in Hk].
    apply elem_of_contextids in Hk as (c & Hc & Hn & <- & ->). by exists c, ov, v.
  - intros (c & ov & v & Hc & Hn & Ho & Hv & ->). exists (c_override_with_keys c, ov).
    split; [by apply elem_of_map_order|]. rewrite Hv. apply elem_of_contextids. eauto.
Qed.

Lemma NoDup_contexts_with_key key ctxs ovs :
  NoDup (c_id <$> ctxs) → NoDup (kc_id <$> contexts_with_key key ctxs ovs).
Proof using Ook.
  intros Hnd. unfold contexts_with_key. pose proof (NoDup_fst_map_order ovs) as Hes.
  induction (map_order ovs) as [|[oid ov] es IH]; [constructor|].
  cbn in Hes. apply NoDup_cons in Hes as [Hoid Hes]. cbn [fmap list_fmap concat].
  rewrite fmap_app. apply NoDup_app. split_and!; [| |by apply IH].
  - destruct (ov !! key) as [v|]; [|constructor]. clear -Hnd.
    induction ctxs as [|c ctxs IH]; [constructor|]. cbn in Hnd. apply NoDup_cons in Hnd as [Hc Hnd].
    cbn. destruct (bool_decide _); [by apply IH|]. destruct (bool_decide _); [|by apply IH].
    rewrite fmap_cons. apply NoDup_cons. split; [|by apply IH].
    intros (k & Hk & Hin)%list_elem_of_fmap. apply elem_of_contextids in Hin as (c' & Hc' & _ & _ & ->).
    apply Hc. unfold kc_id in Hk. cbn in Hk. rewrite Hk. by apply list_elem_of_fmap_2.
  - intros id (k & -> & Hk)%list_elem_of_fmap (k' & Hid & Hk')%list_elem_of_fmap.
    destruct (ov !! key) as [v|]; [|by apply elem_of_nil in Hk].
    apply elem_of_contextids in Hk as (c & Hc & _ & <- & ->).
    apply elem_of_concat_fmap in Hk' as ([oid' ov'] & Hes' & Hk').
    destruct (ov' !! key) as [v'|]; [|by apply elem_of_nil in Hk'].
    apply elem_of_contextids in Hk' as (c' & Hc' & _ & <- & ->). unfold kc_id in Hid. cbn in Hid.
    assert (c = c') as ->.
    { apply list_elem_of_lookup in Hc as [i Hi], Hc' as [j Hj].
      assert (i = j) as <-; [|congruence]. eapply (NoDup_lookup _ _ _ (c_id c) Hnd);
        rewrite list_lookup_fmap; [by rewrite Hi|by rewrite Hj, Hid]. }
    apply Hoid. by apply (list_elem_of_fmap_2 fst _ (c_override_with_keys c', ov')).
Qed.
End collect.
