(* ===== verification/CacReduction.v ===== *)
(** * Reduction and resolution

    The contexts collected for a key are sorted so that they come before those
    included in them; a key taken out of the rows that are marked resolves to
    the same value in every request whose contexts are included in each other;
    and so does every key when the whole configuration is reduced. *)

From S2P Require Import Prelude Json Types Effects Logic Config Resolve CacClient ExpChecks CacStore CacConfig Contexts CacServing CacReduce CacReduceProps.

(** ** Sorting by weight *)

Lemma insert_by_weight_perm {A} (x : A * N) xs : insert_by_weight x xs ≡ₚ x :: xs.
Proof.
  induction xs as [|y ys IH]; [done|]. cbn. destruct (_ <=? _)%N; [done|]. rewrite IH. by constructor.
Qed.

Lemma sort_by_weight_perm {A} (xs : list (A * N)) : sort_by_weight xs ≡ₚ xs.
Proof. induction xs as [|x xs IH]; [done|]. cbn. by rewrite insert_by_weight_perm, IH. Qed.

Definition heavier {A} (x y : A * N) : Prop := (y.2 ≤ x.2)%N.

Lemma sort_by_weight_sorted {A} (xs : list (A * N)) : StronglySorted heavier (sort_by_weight xs).
Proof.
  induction xs as [|x xs IH]; [constructor|].
  change (sort_by_weight (x :: xs)) with (insert_by_weight x (sort_by_weight xs)).
  induction (sort_by_weight xs) as [|y ys IHy]; [cbn; repeat constructor|]. cbn.
  apply StronglySorted_inv in IH as [Hys Hy]. destruct (N.leb_spec y.2 x.2) as [Hle|Hlt].
  - constructor; [by constructor|]. constructor; [done|]. eapply Forall_impl; [exact Hy|].
    unfold heavier. intros z Hz. lia.
  - constructor; [by apply IHy|]. rewrite Forall_forall in *. intros z.
    rewrite insert_by_weight_perm, elem_of_cons. intros [->|Hz]; [unfold heavier; lia|by apply Hy].
Qed.

Section reduction.
Context `{FloatText} `{Blake3} `{MapOrder} {Ook : MapOrderOk _}.
Context (F : Overrides → Prop) `{!Faithful F} (infos : gmap string DimensionInfo).

Definition weight_of (c : Condition) : result string N := calculate_context_weight (VObject c) infos.

(** A condition included in another weighs less. *)
Context (strict : ∀ c1 c2 w1 w2, c1 ⊆ c2 → c1 ≠ c2 → weight_of c1 = Ok w1 → weight_of c2 = Ok w2 →
  (w1 < w2)%N).

Definition not_above (r r' : Row) : Prop := ¬ rw_condition r' ⊆ rw_condition r.

(** Rows as they are generated: from the lightest to the heaviest. *)
Record rows_ok (rows : list Row) : Prop := {
  rows_ids : NoDup (rw_id <$> rows);
  rows_rows : ∀ r, r ∈ rows → F (rw_overrides r) ∧ rw_overrides r ≠ ∅ ∧ rw_condition r ≠ ∅ ∧
    plain (rw_condition r) ∧ ∃ w, weight_of (rw_condition r) = Ok w;
  rows_ascending : StronglySorted not_above rows;
}.

Lemma rows_same rows r r' : rows_ok rows → r ∈ rows → r' ∈ rows →
  rw_id r = rw_id r' → r = r'.
Proof.
  intros Hok Hr Hr' Hid. apply list_elem_of_lookup in Hr as [i Hi], Hr' as [j Hj].
  assert (i = j) as <-; [|congruence]. eapply (NoDup_lookup _ _ _ (rw_id r) (rows_ids _ Hok));
    rewrite list_lookup_fmap; [by rewrite Hi|by rewrite Hj, Hid].
Qed.

Lemma rows_before rows l r l' : rows_ok rows → rows = l ++ r :: l' →
  (∀ r', r' ∈ l → ¬ rw_condition r ⊆ rw_condition r') ∧
  (∀ r', r' ∈ l' → ¬ rw_condition r' ⊆ rw_condition r).
Proof.
  intros Hok ->. pose proof (rows_ascending _ Hok) as Ha. split.
  - intros r' Hr'. apply StronglySorted_app in Ha as (Ha & _). apply (Ha r' r Hr'). by left.
  - intros r' Hr'. apply StronglySorted_app in Ha as (_ & _ & Ha).
    apply StronglySorted_inv in Ha as [_ Ha]. rewrite Forall_forall in Ha. by apply Ha.
Qed.

Lemma rows_condition_inj rows r r' : rows_ok rows → r ∈ rows → r' ∈ rows →
  rw_condition r = rw_condition r' → r = r'.
Proof.
  intros Hok Hr Hr' Heq. apply list_elem_of_split in Hr as (l & l' & ->).
  destruct (rows_before _ l r l' Hok eq_refl) as [Hl Hl'].
  apply elem_of_app in Hr' as [Hr'|[->|Hr']%elem_of_cons]; [|done|].
  - exfalso. by apply (Hl _ Hr'); rewrite Heq.
  - exfalso. by apply (Hl' _ Hr'); rewrite Heq.
Qed.

(** ** What is collected *)

Lemma collected_row ctxs ovs rows key k :
  represents F ctxs ovs rows → k ∈ contexts_with_key key ctxs ovs →
  ∃ r, r ∈ rows ∧ keyed key k r ∧ rw_condition r !! "variantIds" = None.
Proof using Ook.
  intros Hrep (c & ov & v & Hc & Hn & Ho & Hv & ->)%elem_of_contexts_with_key.
  apply list_elem_of_lookup in Hc as [i Hi].
  destruct (Forall2_lookup_l _ _ _ _ _ Hrep Hi) as (r & Hr & Hid & Hcond & Hoid & Hov & _).
  exists r. split; [by eapply list_elem_of_lookup_2|]. rewrite Hoid in Ho. rewrite Ho in Hov.
  injection Hov as ->. split; [|by rewrite <- Hcond]. by split_and!.
Qed.

Lemma row_collected ctxs ovs rows key r v :
  represents F ctxs ovs rows → r ∈ rows → rw_condition r !! "variantIds" = None →
  rw_overrides r !! key = Some v →
  ∃ k, k ∈ contexts_with_key key ctxs ovs ∧ keyed key k r.
Proof using Ook.
  intros Hrep Hr Hn Hv. apply list_elem_of_lookup in Hr as [i Hi].
  destruct (Forall2_lookup_r _ _ _ _ _ Hrep Hi) as (c & Hc & Hid & Hcond & Hoid & Hov & _).
  eexists. split.
  - apply elem_of_contexts_with_key. exists c, (rw_overrides r), v.
    split_and!; [by eapply list_elem_of_lookup_2|by rewrite Hcond|by rewrite Hoid|done|done].
  - by split_and!.
Qed.

Lemma weigh_ok ks : (∀ k, k ∈ ks → ∃ w, weight_of (kc_condition k) = Ok w) →
  ∃ ws, weigh infos ks = Ok ws ∧ ws.*1 = ks ∧ ∀ k w, (k, w) ∈ ws → weight_of (kc_condition k) = Ok w.
Proof.
  induction ks as [|k ks IH]; intros Hk.
  { exists []. split_and!; [done..|]. by intros ? ? ?%elem_of_nil. }
  destruct (Hk k) as [w Hw]; [by left|]. destruct IH as (ws & Hws & Hfst & Hall); [intros; apply Hk; by right|].
  exists ((k, w) :: ws). cbn. unfold weight_of, kc_condition in Hw. rewrite Hw. cbn. rewrite Hws. cbn.
  split_and!; [done|by rewrite Hfst|]. intros k' w' [Heq|?]%elem_of_cons; [by simplify_eq|auto].
Qed.

(** The contexts of a key, in the order of the reduction. *)
Definition in_order (ks ordered : list KeyedContext) : Prop :=
  ordered ≡ₚ ks ∧ Descending ordered ∧ ∀ k, k ∈ ordered → kc_condition k ≠ ∅.

Lemma sorted_descending (ws : list (KeyedContext * N)) :
  StronglySorted heavier ws → NoDup (kc_condition <$> ws.*1) →
  (∀ k w, (k, w) ∈ ws → plain (kc_condition k) ∧ weight_of (kc_condition k) = Ok w) →
  Descending ws.*1.
Proof using strict.
  induction ws as [|[k w] ws IH]; intros Hs Hnd Hw; cbn; [constructor|].
  apply StronglySorted_inv in Hs as [Hs Hh]. cbn in Hnd. apply NoDup_cons in Hnd as [Hk Hnd].
  destruct (Hw k w) as [Hp Hkw]; [by left|].
  assert (∀ k w, (k, w) ∈ ws → plain (kc_condition k) ∧ weight_of (kc_condition k) = Ok w) as Hw'
    by (intros; apply Hw; by right).
  constructor; [done| |by apply IH].
  intros k' Hk' Hsub. assert (∃ w', (k', w') ∈ ws) as [w' Hin].
  { apply list_elem_of_fmap in Hk' as ([? w'] & -> & ?). by exists w'. }
  destruct (Hw' _ _ Hin) as [_ Hkw']. rewrite Forall_forall in Hh. specialize (Hh _ Hin).
  unfold heavier in Hh. cbn in Hh.
  assert (w < w')%N; [|lia]. eapply strict; [exact Hsub| |done|done].
  intros Heq. apply Hk. rewrite Heq. by apply list_elem_of_fmap_2.
Qed.

Lemma collected_in_order ctxs ovs rows key :
  represents F ctxs ovs rows → rows_ok rows →
  let ks := contexts_with_key key ctxs ovs in
  ∃ ws, weigh infos ks = Ok ws ∧ in_order ks (sort_by_weight ws).*1.
Proof using strict Ook.
  intros Hrep Hok ks.
  assert (∀ k, k ∈ ks → ∃ r, r ∈ rows ∧ kc_id k = rw_id r ∧ kc_condition k = rw_condition r) as Hks.
  { intros k Hk. destruct (collected_row _ _ _ _ _ Hrep Hk) as (r & Hr & (Hid & Hc & _) & _). eauto. }
  destruct (weigh_ok ks) as (ws & Hws & Hfst & Hall).
  { intros k (r & Hr & _ & ->)%Hks. by destruct (rows_rows _ Hok r Hr) as (_ & _ & _ & _ & ?). }
  exists ws. split; [done|].
  assert ((sort_by_weight ws).*1 ≡ₚ ks) as Hperm by by rewrite sort_by_weight_perm, Hfst.
  split; [done|]. split.
  - apply sorted_descending; [apply sort_by_weight_sorted| |].
    + rewrite Hperm.
      assert (NoDup (kc_id <$> ks)) as Hnd.
      { apply NoDup_contexts_with_key. erewrite represents_ids by done. by destruct Hok. }
      clear Hws Hfst Hall Hperm. induction ks as [|k l IH]; [constructor|].
      rewrite fmap_cons in *. apply NoDup_cons in Hnd as [Hk Hnd]. apply NoDup_cons. split.
      * intros (k' & Heq & Hk')%list_elem_of_fmap.
        destruct (Hks k) as (r & Hr & Hid & Hc); [by left|].
        destruct (Hks k') as (r' & Hr' & Hid' & Hc'); [by right|].
        assert (r = r') as <- by (apply (rows_condition_inj _ _ _ Hok Hr Hr'); congruence).
        apply Hk. rewrite Hid, <- Hid'. by apply list_elem_of_fmap_2.
      * apply IH; [|done]. intros; apply Hks; by right.
    + intros k w Hin. rewrite sort_by_weight_perm in Hin. split; [|by apply Hall].
      destruct (Hks k) as (r & Hr & _ & ->); [rewrite <- Hfst; by apply (list_elem_of_fmap_2 fst _ (k, w))|].
      by destruct (rows_rows _ Hok r Hr) as (_ & _ & _ & ? & _).
  - intros k. rewrite Hperm. intros (r & Hr & _ & ->)%Hks.
    by destruct (rows_rows _ Hok r Hr) as (_ & _ & ? & _).
Qed.

(** ** Marks and winners *)

Lemma first_value_skip c pre rest d :
  (∀ k, k ∈ pre → ¬ kc_condition k ⊆ c) → first_value c (pre ++ rest) d = first_value c rest d.
Proof.
  induction pre as [|k pre IH]; intros Hpre; [done|]. cbn.
  rewrite decide_False by (apply Hpre; by left). apply IH. intros; apply Hpre; by right.
Qed.

Lemma marked_first ks k d :
  kc_id k ∈ marked_ids (marks ks d) ks → k ∈ ks → NoDup (kc_id <$> ks) →
  ∃ pre post, ks = pre ++ k :: post ∧ first_value (kc_condition k) post d = kc_key_val k.
Proof.
  induction ks as [|k0 ks IH]; [by intros _ ?%elem_of_nil|]. cbn [marks marked_ids].
  rewrite fmap_cons. intros Hm Hk [Hk0 Hnd]%NoDup_cons. apply elem_of_cons in Hk as [->|Hk].
  - exists [], ks. split; [done|]. case_bool_decide; [done|].
    apply marked_ids_elem in Hm. done.
  - assert (kc_id k ≠ kc_id k0) as Hne by (intros Heq; apply Hk0; rewrite <- Heq; by apply list_elem_of_fmap_2).
    destruct IH as (pre & post & -> & Hf); [|done|done|by exists (k0 :: pre), post].
    destruct (bool_decide _); [|done]. by apply elem_of_cons in Hm as [?|?].
Qed.

Lemma Descending_split pre k post : Descending (pre ++ k :: post) →
  (∀ k', k' ∈ pre → ¬ kc_condition k' ⊆ kc_condition k) ∧
  (∀ k', k' ∈ post → ¬ kc_condition k ⊆ kc_condition k').
Proof.
  induction pre as [|k0 pre IH]; cbn; inversion 1 as [|? ? ? Hk Hd]; subst.
  - split; [by intros ? ?%elem_of_nil|done].
  - destruct (IH Hd) as [Hpre Hpost]. split; [|done].
    intros k' [->|Hk']%elem_of_cons; [|by apply Hpre]. apply Hk. set_solver.
Qed.

Definition row_holds (mq : Map) (key : string) (r : Row) : option Value :=
  if apply (rw_condition r) mq then rw_overrides r !! key else None.

(** The value of a key in the rows, and the one that the last row that holds
    gives it. *)
Definition resolved (strategy : MergeStrategy) (mq : Map) (key : string) (d : Value)
    (rows : list Row) : Value :=
  cascade strategy d (omap (row_holds mq key) rows).

Definition winner (mq : Map) (key : string) (d : Value) (rows : list Row) : Value :=
  default d (last (omap (row_holds mq key) rows)).

(** Of two rows that hold of the request one condition is included in the
    other. *)
Definition nested (mq : Map) (rows : list Row) : Prop :=
  ∀ r r', r ∈ rows → r' ∈ rows → apply (rw_condition r) mq = true →
    apply (rw_condition r') mq = true →
    rw_condition r ⊆ rw_condition r' ∨ rw_condition r' ⊆ rw_condition r.

Lemma row_holds_Some mq key r v : row_holds mq key r = Some v ↔
  apply (rw_condition r) mq = true ∧ rw_overrides r !! key = Some v.
Proof. unfold row_holds. destruct (apply _ _); naive_solver. Qed.

Section key.
Context (rows : list Row) (ctxs : list Context) (ovs : gmap string Overrides) (key : string).
Context (Hrep : represents F ctxs ovs rows) (Hok : rows_ok rows).
Context (ordered : list KeyedContext) (Hord : in_order (contexts_with_key key ctxs ovs) ordered).
Context (mq : Map) (Hnest : nested mq rows).

Lemma ordered_NoDup : NoDup (kc_id <$> ordered).
Proof using Ook Hrep Hok Hord.
  destruct Hord as (Hperm & _). rewrite Hperm. apply NoDup_contexts_with_key.
  erewrite represents_ids by done. by destruct Hok.
Qed.

Lemma ordered_inj k k' : k ∈ ordered → k' ∈ ordered → kc_id k = kc_id k' → k = k'.
Proof using Ook Hrep Hok Hord.
  intros Hk Hk' Hid. apply list_elem_of_lookup in Hk as [i Hi], Hk' as [j Hj].
  assert (i = j) as <-; [|congruence]. eapply (NoDup_lookup _ _ _ (kc_id k) ordered_NoDup);
    rewrite list_lookup_fmap; [by rewrite Hi|by rewrite Hj, Hid].
Qed.

Lemma ordered_row k : k ∈ ordered →
  ∃ r, r ∈ rows ∧ keyed key k r ∧ rw_condition r !! "variantIds" = None.
Proof using Ook Hrep Hord. destruct Hord as (Hperm & _). rewrite Hperm. by apply collected_row. Qed.

(** A row that is marked repeats the value it would have without it. *)
Lemma marked_repeats l r l' v d :
  rows = l ++ r :: l' → row_holds mq key r = Some v →
  rw_id r ∈ marked_ids (marks ordered d) ordered → winner mq key d l = v.
Proof using Type*.
  intros Hrows [Happ Hv]%row_holds_Some Hm. assert (r ∈ rows) as Hr by (rewrite Hrows; apply elem_of_app; right; by left).
  destruct (rows_before _ l r l' Hok Hrows) as [Hl Hl'].
  pose proof (marked_ids_elem _ _ _ Hm) as (k & Hid & Hk)%list_elem_of_fmap.
  destruct (ordered_row k Hk) as (r1 & Hr1 & Hkr & Hn).
  assert (r1 = r) as ->.
  { apply (rows_same rows); [done..|]. destruct Hkr as (<- & _). done. }
  destruct Hord as (Hperm & Hdesc & _).
  destruct (marked_first ordered k d) as (pre & post & Hsplit & Hfirst);
    [by rewrite <- Hid|done|apply ordered_NoDup|].
  destruct (Hkr) as (_ & Hkc & Hkv & _). rewrite Hv in Hkv. injection Hkv as ->.
  rewrite <- Hfirst. clear Hfirst. rewrite Hkc.
  rewrite Hsplit in Hdesc. destruct (Descending_split _ _ _ Hdesc) as [Hpre _].
  assert (∀ kj, kj ∈ post → kc_condition kj ⊆ rw_condition r →
    ∃ rj, rj ∈ l ∧ keyed key kj rj ∧ row_holds mq key rj = Some (kc_key_val kj)) as Hbelow.
  { intros kj Hkj Hsub. destruct (ordered_row kj) as (rj & Hrj & Hkrj & _); [rewrite Hsplit; apply elem_of_app; right; by right|].
    exists rj. pose proof Hkrj as (Hidj & Hcj & Hvj & _). rewrite Hcj in Hsub.
    split; [|split; [exact Hkrj|]].
    - rewrite Hrows in Hrj. apply elem_of_app in Hrj as [?|[->|Hin]%elem_of_cons]; [done| |].
      + exfalso. pose proof ordered_NoDup as Hnd. rewrite Hsplit, fmap_app, fmap_cons in Hnd.
        apply NoDup_app in Hnd as (_ & _ & [Hnot _]%NoDup_cons). apply Hnot.
        destruct Hkr as (-> & _). rewrite <- Hidj. by apply list_elem_of_fmap_2.
      + by destruct (Hl' _ Hin).
    - apply row_holds_Some. split; [|done]. by eapply apply_mono_condition. }
  unfold winner. destruct (last_omap (row_holds mq key) l) as [[-> Hnone]|(l1 & r0 & l2 & v0 & Hl12 & Hr0 & -> & Hl2)].
  - cbn. symmetry. rewrite <- (app_nil_r post). rewrite first_value_skip; [done|].
    intros kj Hkj Hsub. destruct (Hbelow _ Hkj Hsub) as (rj & Hrj & _ & Hs). by rewrite Hnone in Hs.
  - cbn. apply row_holds_Some in Hr0 as [Ha0 Hv0].
    assert (r0 ∈ rows) as Hr0 by (rewrite Hrows, Hl12; apply elem_of_app; left; apply elem_of_app; right; by left).
    assert (rw_condition r0 ⊆ rw_condition r) as Hsub0.
    { destruct (Hnest r0 r) as [?|Hs]; [done..|]. destruct (Hl r0); [rewrite Hl12; apply elem_of_app; right; by left|done]. }
    destruct (row_collected ctxs ovs rows key r0 v0 Hrep Hr0) as (k0 & Hk0 & Hkr0); [|done|].
    { apply eq_None_not_Some. intros [x Hx]. eapply lookup_weaken in Hx; [|done]. congruence. }
    rewrite <- Hperm, Hsplit in Hk0. destruct Hkr0 as (Hid0 & Hc0 & Hkv0 & _).
    assert (k0 ∈ post) as (p1 & p2 & Hp)%list_elem_of_split.
    { apply elem_of_app in Hk0 as [Hin|[->|?]%elem_of_cons]; [|exfalso|done].
      - destruct (Hpre _ Hin). by rewrite Hc0, Hkc.
      - assert (r0 = r) as -> by (apply (rows_same rows); [done..|]; by rewrite <- Hid0; destruct Hkr as (-> & _)).
        destruct (Hl r); [rewrite Hl12; apply elem_of_app; right; by left|done]. }
    rewrite Hp, first_value_skip.
    + cbn. rewrite Hc0, decide_True by done. congruence.
    + intros kj Hkj Hsub. destruct (Hbelow kj) as (rj & Hrj & Hkrj & Hs); [rewrite Hp; apply elem_of_app; by left|done|].
      destruct Hkrj as (_ & Hcj & _). apply row_holds_Some in Hs as [Haj Hvj].
      rewrite Hp, app_comm_cons, (assoc_L (++)) in Hdesc.
      destruct (Descending_split _ _ _ Hdesc) as [Hnot _].
      assert (¬ kc_condition kj ⊆ kc_condition k0) as Hnsub by (apply Hnot, elem_of_app; right; by right).
      rewrite Hcj, Hc0 in Hnsub.
      assert (rj ∈ rows) as Hrj' by (rewrite Hrows; apply elem_of_app; by left).
      destruct (Hnest rj r0) as [?|Hs]; [done..|].
      rewrite Hl12 in Hrj. apply elem_of_app in Hrj as [Hin|[->|Hin]%elem_of_cons].
      * rewrite Hl12, <- (assoc_L (++)) in Hrows.
        destruct (rows_before _ l1 r0 (l2 ++ r :: l') Hok Hrows) as [Hbefore _].
        by apply (Hbefore rj).
      * done.
      * specialize (Hl2 _ Hin). by rewrite (proj2 (row_holds_Some _ _ _ _) (conj Haj Hvj)) in Hl2.
Qed.

Definition to_reduce (d : Value) : list string := marked_ids (marks ordered d) ordered.

(** A row that is reduced assigns nothing to the key. *)
Lemma dropped_holds r : omap (row_holds mq key) (drop_key key r) = [].
Proof.
  unfold drop_key. case_decide; [done|]. cbn. unfold row_holds. cbn. rewrite lookup_delete_eq.
  by destruct (apply _ _).
Qed.

(** The rows after a reduction of the key resolve like those before, whatever
    follows them. *)
Lemma reduced_key strategy d l l' us : rows = l ++ l' →
  cascade strategy d (omap (row_holds mq key) (reduce_rows key (to_reduce d) l) ++ us) =
  cascade strategy d (omap (row_holds mq key) l ++ us).
Proof using Type*.
  revert l' us. induction l as [|r l IH] using rev_ind; intros l' us Hrows; [done|].
  rewrite <- (assoc_L (++)) in Hrows. cbn [app] in Hrows.
  rewrite reduce_rows_app, reduce_rows_step. cbn [reduce_rows mbind list_bind]. rewrite app_nil_r.
  rewrite !omap_app, <- !(assoc_L (++)), (IH _ _ Hrows).
  unfold reduce_row. case_decide as Hin; [|done]. rewrite dropped_holds. cbn.
  destruct (row_holds mq key r) as [v|] eqn:Hv; [|done]. cbn.
  rewrite <- (marked_repeats l r l' v d Hrows Hv Hin). symmetry. apply cascade_repeated.
Qed.

Lemma resolved_reduced_key strategy d :
  resolved strategy mq key d (reduce_rows key (to_reduce d) rows) = resolved strategy mq key d rows.
Proof using Type*.
  pose proof (reduced_key strategy d rows [] []) as Hr. rewrite !app_nil_r in Hr. by apply Hr.
Qed.
End key.

Lemma resolved_other_key strategy mq key key' ids d rows : key' ≠ key →
  resolved strategy mq key' d (reduce_rows key ids rows) = resolved strategy mq key' d rows.
Proof.
  intros Hne. unfold resolved. f_equal. induction rows as [|r rows IH]; [done|].
  rewrite reduce_rows_step, omap_app, IH. change (r :: rows) with ([r] ++ rows).
  rewrite omap_app. f_equal. unfold reduce_row. case_decide; [|done]. unfold drop_key.
  case_decide as He; cbn; unfold row_holds.
  - assert (rw_overrides r !! key' = None) as ->.
    { rewrite <- (lookup_delete_ne _ key key') by done. by rewrite He, lookup_empty. }
    by destruct (apply _ _).
  - cbn. by rewrite lookup_delete_ne.
Qed.

Lemma reduce_rows_ok key ids rows : rows_ok rows → rows_ok (reduce_rows key ids rows).
Proof.
  intros [Hids Hrows Hasc]. split.
  - clear Hrows Hasc. induction rows as [|r rows IH]; [constructor|].
    rewrite fmap_cons in Hids. apply NoDup_cons in Hids as [Hr Hids].
    rewrite reduce_rows_step, fmap_app. apply NoDup_app. split_and!; [| |by apply IH].
    + unfold reduce_row, drop_key. repeat case_decide; cbn; repeat constructor; set_solver.
    + intros id (r1 & -> & Hr1)%list_elem_of_fmap (r2 & Hid & Hr2)%list_elem_of_fmap.
      apply reduce_rows_elem in Hr2 as (r0 & Hr0 & Hid0 & _). apply Hr.
      assert (rw_id r1 = rw_id r) as <- by by apply reduce_row_elem in Hr1 as [->|[-> _]].
      rewrite Hid, Hid0. by apply list_elem_of_fmap_2.
  - intros r (r0 & Hr0 & _ & -> & Ho)%reduce_rows_elem.
    destruct (Hrows r0 Hr0) as (HF & Hne & Hcne & Hp & Hw).
    destruct Ho as [->|[-> ?]]; [done|]. split_and!; try done. by apply faithful_delete.
  - clear Hids Hrows. induction rows as [|r rows IH]; [constructor|].
    apply StronglySorted_inv in Hasc as [Hasc Hr]. rewrite reduce_rows_step.
    apply StronglySorted_app. split_and!; [| |by apply IH].
    + intros r1 r2 Hr1 Hr2. apply reduce_rows_elem in Hr2 as (r0 & Hr0 & _ & Hc & _).
      rewrite Forall_forall in Hr. specialize (Hr _ Hr0). unfold not_above in *. rewrite Hc.
      apply reduce_row_elem in Hr1 as [->|(_ & -> & _)]; done.
    + unfold reduce_row, drop_key. repeat case_decide; repeat constructor.
Qed.

Lemma reduce_rows_nested mq key ids rows : nested mq rows → nested mq (reduce_rows key ids rows).
Proof.
  intros Hn r r' (r0 & Hr0 & _ & -> & _)%reduce_rows_elem (r1 & Hr1 & _ & -> & _)%reduce_rows_elem.
  by apply Hn.
Qed.

(** ** The handlers *)

(** The rows resolve alike in the requests whose contexts are nested. *)
Definition same_values (dc : Map) (rows rows' : list Row) : Prop :=
  ∀ mq, nested mq rows →
    nested mq rows' ∧ ∀ strategy key d, dc !! key = Some d →
      resolved strategy mq key d rows' = resolved strategy mq key d rows.

Lemma same_values_trans dc rows1 rows2 rows3 :
  same_values dc rows1 rows2 → same_values dc rows2 rows3 → same_values dc rows1 rows3.
Proof.
  intros S12 S23 mq N1. destruct (S12 mq N1) as [N2 E12]. destruct (S23 mq N2) as [N3 E23].
  split; [done|]. intros strategy key d Hd. by rewrite E23, E12.
Qed.

Context `{CacEnv} `{JsonParse} `{ConfigText} `{JsonText} `{JsonSchema}.
Context (settings : Settings) (user : User) (dc : Map).

Lemma reduce_config_key_rows key ctxs ovs rows w :
  is_Some (dc !! key) → represents F ctxs ovs rows → rows_ok rows →
  ∃ ctxs' ovs' rows',
    reduce_config_key settings user ctxs ovs key infos dc false w =
      (Ok (mkConfig ctxs' ovs' dc infos), w) ∧
    represents F ctxs' ovs' rows' ∧ rows_ok rows' ∧ same_values dc rows rows'.
Proof using All.
  intros [dv Hdv] Hrep Hok.
  destruct (collected_in_order ctxs ovs rows key Hrep Hok) as (ws & Hws & Hord).
  set (ordered := (sort_by_weight ws).*1) in *. pose proof Hord as (Hperm & Hdesc & Hne).
  destruct (apply_reductions_memory F settings user key dv (marks ordered dv) ordered ctxs ovs rows w)
    as (ctxs' & ovs' & Happ & Hrep').
  - apply marks_length.
  - done.
  - by destruct Hok.
  - by eapply ordered_NoDup.
  - intros k Hk. rewrite Hperm in Hk. destruct (collected_row _ _ _ _ _ Hrep Hk) as (r & Hr & Hkr & _).
    split; [|eauto]. destruct Hkr as (_ & -> & _). by destruct (rows_rows _ Hok r Hr) as (_ & _ & _ & ? & _).
  - exists ctxs', ovs', (reduce_rows key (to_reduce ordered dv) rows). split_and!.
    + unfold reduce_config_key, mbind, ST_bind, lift. rewrite Hdv. cbn [ok_or]. rewrite Hws.
      fold ordered. rewrite reduce_marks by done. by rewrite Happ.
    + done.
    + by apply reduce_rows_ok.
    + intros mq Hn. split; [by apply reduce_rows_nested|]. intros strategy key' d Hd.
      destruct (decide (key' = key)) as [->|]; [|by apply resolved_other_key].
      rewrite Hdv in Hd. injection Hd as ->.
      by apply (resolved_reduced_key rows ctxs ovs key).
Qed.

Lemma reduce_keys_rows keys ctxs ovs rows w :
  (∀ key, key ∈ keys → is_Some (dc !! key)) → represents F ctxs ovs rows → rows_ok rows →
  ∃ ctxs' ovs' rows',
    reduce_keys settings user false infos keys (mkConfig ctxs ovs dc infos) w =
      (Ok (mkConfig ctxs' ovs' dc infos), w) ∧
    represents F ctxs' ovs' rows' ∧ same_values dc rows rows'.
Proof using All.
  revert ctxs ovs rows. induction keys as [|key keys IH]; intros ctxs ovs rows Hk Hrep Hok.
  { exists ctxs, ovs, rows. split_and!; [done..|]. by intros mq Hn. }
  destruct (reduce_config_key_rows key ctxs ovs rows w) as (ctxs1 & ovs1 & rows1 & Hfirst & Hrep1 & Hok1 & Hs1);
    [by apply Hk; left|done|done|].
  destruct (IH ctxs1 ovs1 rows1) as (ctxs' & ovs' & rows' & Hrest & Hrep' & Hs2);
    [intros; apply Hk; by right|done|done|].
  exists ctxs', ovs', rows'. split_and!; [|done|by eapply same_values_trans].
  cbn [reduce_keys contexts overrides default_configs]. unfold mbind, ST_bind in *.
  rewrite Hfirst. exact Hrest.
Qed.

(** What a configuration that stands for rows resolves a key to. *)
Lemma represents_assigned mq key ctxs ovs rows :
  represents F ctxs ovs rows → assigned mq ovs key ctxs = omap (row_holds mq key) rows.
Proof.
  unfold assigned. induction 1 as [|c r ctxs rows (_ & Hc & Hoid & Hov & _) _ IH]; [done|].
  cbn. unfold assigns at 1, row_holds at 1. by rewrite Hc, Hoid, Hov, IH.
Qed.
End reduction.
