(* ===== verification/CacService.v ===== *)
(** * The configuration service as a whole

    The requests that change the tables of [crates/context_aware_config], the
    handler each is routed to, and the worlds reached by serving requests one
    after the other from a fresh workspace, which has the dimension
    [variantIds] ([workspace_template.sql]). Reading a body validates it. *)

From S2P Require Import Prelude Stack Json Types Text Effects Logic LogicProps Config CacClient ExpChecks CacStore CacConfig Contexts Dimensions DefaultConfigs Functions CacServing CacReduce.

Inductive CacRequest : Type :=
  | PutContext (req : PutRequest)
  | UpdateContext (req : UpdateRequest)
  | MoveContext (ctx_id : string) (req : MoveRequest)
  | DeleteContext (ctx_id : string)
  | BulkOperations (operations : list ContextAction)
  | RecomputeWeights
  | ReduceConfig (is_approve : bool)
  | CreateDimension (req : DimensionCreate)
  | UpdateDimension (name : string) (req : DimensionUpdate)
  | DeleteDimension (name : string)
  | CreateDefaultConfig (req : DefaultConfigCreateRequest)
  | UpdateDefaultConfig (key : string) (req : DefaultConfigUpdateRequest)
  | DeleteDefaultConfig (key : string)
  | CreateFunction (req : CreateFunctionRequest)
  | UpdateFunction (name : string) (req : UpdateFunctionRequest)
  | DeleteFunction (name : string)
  | TestFunction (name : string) (stage : Stage) (req : FunctionExecutionRequest)
  | PublishFunction (name change_reason : string)
  | CreateVariable (req : CreateVariableRequest)
  | UpdateVariable (name : string) (req : UpdateVariableRequest)
  | DeleteVariable (name : string)
  | CreateTypeTemplate (req : TypeTemplateCreateRequest)
  | UpdateTypeTemplate (name : string) (req : TypeTemplateUpdateRequest)
  | DeleteTypeTemplate (name : string).

(** The requests to the tables from which the configuration is generated, but
    for a reduction. That each of them stores a version when it succeeds, and
    that the others leave these tables as they are, is proved of the handlers
    in [CacServiceClaims]. *)
Definition stores_version (r : CacRequest) : bool :=
  match r with
  | PutContext _ | UpdateContext _ | MoveContext _ _ | DeleteContext _ | BulkOperations _
  | RecomputeWeights | CreateDimension _ | UpdateDimension _ _ | DeleteDimension _
  | CreateDefaultConfig _ | UpdateDefaultConfig _ _ | DeleteDefaultConfig _ => true
  | _ => false
  end.

Definition changes_config (r : CacRequest) : bool :=
  match r with ReduceConfig is_approve => is_approve | _ => stores_version r end.

(** ** Reading a body *)

Definition all_ok (checks : list (result string unit)) : Result unit :=
  _ ← map_err BadArgument (try_map id checks); Ok tt.

Definition discard_ok {A} (r : result string A) : result string unit := _ ← r; Ok tt.
Definition check_reason (reason : string) : result string unit :=
  discard_ok (ChangeReason.try_from reason).
Definition check_description (description : string) : result string unit :=
  discard_ok (Description.try_from description).
Definition check_opt {A} (f : A → result string unit) (o : option A) : result string unit :=
  match o with Some a => f a | None => Ok tt end.
Definition check_condition (c : Condition) : result string unit :=
  discard_ok (cac_condition_try_from c).
Definition check_overrides (o : Overrides) : result string unit :=
  discard_ok (cac_overrides_try_from o).
Definition check_position (p : Z) : result string unit := discard_ok (Position.try_from p).

Definition put_checks (req : PutRequest) : list (result string unit) :=
  [check_condition (p_context req); check_overrides (p_override req);
   check_opt check_description (p_description req); check_reason (p_change_reason req)].
Definition update_checks (req : UpdateRequest) : list (result string unit) :=
  [match u_context req with IContext c => check_condition c | Id _ => Ok tt end;
   check_overrides (u_override req); check_opt check_description (u_description req);
   check_reason (u_change_reason req)].
Definition move_checks (req : MoveRequest) : list (result string unit) :=
  [check_condition (mv_context req); check_opt check_description (mv_description req);
   check_reason (mv_change_reason req)].
Definition action_checks (action : ContextAction) : list (result string unit) :=
  match action with
  | Put req => put_checks req
  | Replace req => update_checks req
  | Delete _ => []
  | Move _ req => move_checks req
  end.

Section service.
Context `{CacEnv} `{JsonParse} `{MapOrder} `{FloatText} `{Blake3} `{ConfigText} `{JsonText} `{JsonSchema}.
Context `{RegexEngine} `{JsonLogicVariables} `{DebugText}.

(** The names are trimmed before they are matched; they are given trimmed. *)
Definition body_checks (r : CacRequest) : list (result string unit) :=
  match r with
  | PutContext req => put_checks req
  | UpdateContext req => update_checks req
  | MoveContext _ req => move_checks req
  | DeleteContext _ => []
  | BulkOperations operations => concat (action_checks <$> operations)
  | RecomputeWeights | ReduceConfig _ => []
  | CreateDimension req =>
      [RegexEnum.match_regex DimensionName (nd_dimension req); check_position (nd_position req);
       check_description (nd_description req); check_reason (nd_change_reason req)]
  | UpdateDimension name req =>
      [RegexEnum.match_regex DimensionName name; check_opt check_position (ud_position req);
       check_opt check_description (ud_description req); check_reason (ud_change_reason req)]
  | DeleteDimension name =>
      [if bool_decide (name = "variantIds") then Err "variantIds cannot be deleted" else Ok tt]
  | CreateDefaultConfig req =>
      [RegexEnum.match_regex DefaultConfigKey (rd_key req); check_description (rd_description req);
       check_reason (rd_change_reason req)]
  | UpdateDefaultConfig key req =>
      [RegexEnum.match_regex DefaultConfigKey key; check_opt check_description (rq_description req);
       check_reason (rq_change_reason req)]
  | DeleteDefaultConfig key => [RegexEnum.match_regex DefaultConfigKey key]
  | CreateFunction req =>
      [RegexEnum.match_regex FunctionName (cf_function_name req);
       check_description (cf_description req); check_reason (cf_change_reason req)]
  | UpdateFunction name req =>
      [RegexEnum.match_regex FunctionName name; check_opt check_description (uf_description req);
       check_reason (uf_change_reason req)]
  | DeleteFunction name => [RegexEnum.match_regex FunctionName name]
  | TestFunction name _ _ => [RegexEnum.match_regex FunctionName name]
  | PublishFunction name change_reason =>
      [RegexEnum.match_regex FunctionName name; check_reason change_reason]
  | CreateVariable req =>
      [RegexEnum.match_regex VariableName (cv_name req);
       check_description (cv_var_description req); check_reason (cv_change_reason req)]
  | UpdateVariable _ req =>
      [check_opt check_description (uv_description req); check_reason (uv_change_reason req)]
  | DeleteVariable _ => []
  | CreateTypeTemplate req =>
      [RegexEnum.match_regex TypeTemplateName (tc_type_name req);
       check_description (tc_description req); check_reason (tc_change_reason req)]
  | UpdateTypeTemplate name req =>
      [RegexEnum.match_regex TypeTemplateName name;
       check_opt check_description (tu_description req); check_reason (tu_change_reason req)]
  | DeleteTypeTemplate name => [RegexEnum.match_regex TypeTemplateName name]
  end.

(** ** Routing *)

Definition forget {A} (m : C A) : C unit := _ ← m; mret tt.

(** The answer is what was written; here only whether it succeeded. *)
Definition cac_route (settings : Settings) (tags : option string) (user : User) (r : CacRequest)
    : C unit :=
  match r with
  | PutContext req => forget (ctx_create_handler settings tags req user)
  | UpdateContext req => forget (ctx_update_handler settings tags req user)
  | MoveContext ctx_id req => forget (ctx_move_handler settings ctx_id tags req user)
  | DeleteContext ctx_id => forget (ctx_delete_handler ctx_id tags user)
  | BulkOperations operations => forget (bulk_operations_handler settings tags operations user)
  | RecomputeWeights => forget (weight_recompute_handler tags user)
  | ReduceConfig is_approve => forget (reduce_handler settings is_approve user)
  | CreateDimension req => forget (dim_create_handler settings tags req user)
  | UpdateDimension name req => forget (dim_update_handler settings name tags req user)
  | DeleteDimension name => forget (dim_delete_handler name tags user)
  | CreateDefaultConfig req => forget (default_create_handler settings tags req user)
  | UpdateDefaultConfig key req => forget (default_update_handler settings key tags req user)
  | DeleteDefaultConfig key => forget (default_delete_handler key tags user)
  | CreateFunction req => forget (function_create_handler settings req user)
  | UpdateFunction name req => forget (function_update_handler settings name req user)
  | DeleteFunction name => forget (function_delete_handler name user)
  | TestFunction name stage req => forget (function_test_handler name stage req)
  | PublishFunction name change_reason =>
      forget (function_publish_handler settings name change_reason user)
  | CreateVariable req => forget (variable_create_handler settings req user)
  | UpdateVariable name req => forget (variable_update_handler settings name req user)
  | DeleteVariable name => forget (variable_delete_handler name user)
  | CreateTypeTemplate req => forget (template_create_handler settings req user)
  | UpdateTypeTemplate name req => forget (template_update_handler settings name req user)
  | DeleteTypeTemplate name => forget (template_delete_handler name user)
  end.

Record CacCall : Type := mkCacCall {
  call_settings : Settings;
  call_tags : option string;
  call_user : User;
  call_request : CacRequest;
}.

Definition cac_serve (c : CacCall) : C unit :=
  _ ← lift (all_ok (body_checks (call_request c)));
  cac_route (call_settings c) (call_tags c) (call_user c) (call_request c).

Fixpoint cac_serve_all (cs : list CacCall) (w : CacWorld) : CacWorld :=
  match cs with
  | [] => w
  | c :: cs => cac_serve_all cs (cac_serve c w).2
  end.
End service.

(** ** The copy in Redis

    With the feature [high-performance-mode], a request that stored a version
    writes the configuration to Redis once its transaction is committed. *)

Record RedisCopy : Type := mkRedisCopy {
  rd_config : option string;
  rd_last_modified : option string;
  rd_audit_id : option string;
  rd_config_version : option Z;
}.

Definition empty_copy : RedisCopy := mkRedisCopy None None None None.

(** Which of the four writes arrive; the answers of Redis are not looked at. *)
Record RedisSets : Type := mkRedisSets {
  sets_config : bool;
  sets_last_modified : bool;
  sets_audit_id : bool;
  sets_config_version : bool;
}.

Definition all_arrive : RedisSets := mkRedisSets true true true true.

Definition arrives {A} (b : bool) (new old : option A) : option A := if b then new else old.

(** [DateTime::to_rfc2822] of [chrono]. *)
Class Rfc2822Text := rfc2822 : Z → string.

Section redis.
Context `{CacEnv} `{JsonParse} `{MapOrder} `{FloatText} `{Blake3} `{ConfigText} `{JsonText} `{JsonSchema}.
Context `{RegexEngine} `{JsonLogicVariables} `{DebugText} `{Rfc2822Text}.

(** What is to be written, read from the tables: the configuration, the time and
    the newest entry of the audit log for the contexts, if any. *)
Definition redis_values (version_id : Z) (audit_id : option string) : C RedisCopy :=
  raw_config ← generate;
  last_modified ← cac_clock;
  mret (mkRedisCopy (Some (config_to_string raw_config)) (Some (rfc2822 last_modified)) audit_id
    (Some version_id)).

Definition write_redis (sets : RedisSets) (values copy : RedisCopy) : RedisCopy :=
  mkRedisCopy (arrives (sets_config sets) (rd_config values) (rd_config copy))
    (arrives (sets_last_modified sets) (rd_last_modified values) (rd_last_modified copy))
    (match rd_audit_id values with
     | Some id => arrives (sets_audit_id sets) (Some id) (rd_audit_id copy)
     | None => rd_audit_id copy
     end)
    (arrives (sets_config_version sets) (rd_config_version values) (rd_config_version copy)).

Definition put_config_in_redis (version_id : Z) (audit_id : option string) (sets : RedisSets)
    (copy : RedisCopy) : C RedisCopy :=
  values ← redis_values version_id audit_id;
  mret (write_redis sets values copy).

(** The version that a request has stored. *)
Definition stored_version (settings : Settings) (tags : option string) (user : User)
    (r : CacRequest) : C (option Z) :=
  match r with
  | PutContext req => x ← ctx_create_handler settings tags req user; mret (Some x.2)
  | UpdateContext req => x ← ctx_update_handler settings tags req user; mret (Some x.2)
  | MoveContext ctx_id req => x ← ctx_move_handler settings ctx_id tags req user; mret (Some x.2)
  | DeleteContext ctx_id => x ← ctx_delete_handler ctx_id tags user; mret (Some x)
  | BulkOperations operations =>
      x ← bulk_operations_handler settings tags operations user; mret (Some x.2)
  | RecomputeWeights => x ← weight_recompute_handler tags user; mret (Some x.2)
  | CreateDimension req => x ← dim_create_handler settings tags req user; mret (Some x.2)
  | UpdateDimension name req => x ← dim_update_handler settings name tags req user; mret (Some x.2)
  | DeleteDimension name => x ← dim_delete_handler name tags user; mret (Some x)
  | CreateDefaultConfig req => x ← default_create_handler settings tags req user; mret (Some x.2)
  | UpdateDefaultConfig key req =>
      x ← default_update_handler settings key tags req user; mret (Some x.2)
  | DeleteDefaultConfig key => x ← default_delete_handler key tags user; mret (Some x)
  | r => _ ← cac_route settings tags user r; mret None
  end.

(** A request, and the copy after it. *)
Definition fast_serve (audit_id : option string) (sets : RedisSets) (c : CacCall) (copy : RedisCopy)
    : C RedisCopy :=
  _ ← lift (all_ok (body_checks (call_request c)));
  version_id ← stored_version (call_settings c) (call_tags c) (call_user c) (call_request c);
  match version_id with
  | Some version_id => put_config_in_redis version_id audit_id sets copy
  | None => mret copy
  end.

Record FastWorld : Type := mkFastWorld {
  fw_world : CacWorld;
  fw_copy : RedisCopy;
}.

Definition fast_serve_one (audit_id : option string) (sets : RedisSets) (c : CacCall) (s : FastWorld)
    : FastWorld :=
  match fast_serve audit_id sets c (fw_copy s) (fw_world s) with
  | (Ok copy, w) => mkFastWorld w copy
  | (Err _, w) => mkFastWorld w (fw_copy s)
  end.

Definition fast_serve_all (audit_id : option string) (sets : RedisSets) (cs : list CacCall)
    (s : FastWorld) : FastWorld :=
  foldl (λ s c, fast_serve_one audit_id sets c s) s cs.
End redis.

(** [get_fast_handler]: the headers that are there, and the body. *)
Record FastResponse : Type := mkFastResponse {
  fr_last_modified : option string;
  fr_audit_id : option string;
  fr_config_version : option string;
  fr_body : string;
}.

Definition get_fast_handler (copy : RedisCopy) : Result FastResponse :=
  match rd_config copy with
  | Some config =>
      Ok (mkFastResponse (rd_last_modified copy) (rd_audit_id copy)
            (pretty <$> rd_config_version copy) config)
  | None => Err (ResponseError "could not fetch config, please try /config API" 500)
  end.

(** ** A fresh workspace *)

Definition variant_ids_dimension : Dimension :=
  mkDimension "variantIds" 0 "default@superposition.io"
    {[ "type" := VString "string"; "pattern" := VString ".*" ]} None 0
    "null" 0
    "variantIds are used by experimentation module to manage and select variations"
    "initial setup" ∅ None Regular.

Definition context_validation_code : string :=
  "async function execute(payload) {
    const { context_validate } = payload;
    const { environment } = context_validate;

    // validation logic goes here

    return true;
}
".
Definition change_reason_validation_code : string :=
  "async function execute(payload) {
    const { change_reason_validate } = payload;
    const { change_reason } = change_reason_validate;

    // validation logic goes here
    
    return true;
}
".

Definition template_user : string := "user@superposition.io".

Definition reserved_function (name code description change_reason : string) (t : FunctionType)
    : Function :=
  mkFunction name (Some code) code description (Some V1) V1 (Some 0%Z) 0 (Some template_user)
    template_user 0 template_user change_reason t template_user 0.

Definition context_validation_function : Function :=
  reserved_function "context_validation" context_validation_code
    "Validates the entire context object for the whole workspace before processing. Returns true if context is valid, false otherwise."
    "Initial creation of context validation function" ContextValidation.
Definition change_reason_validation_function : Function :=
  reserved_function "change_reason_validation" change_reason_validation_code
    "Validates the change reason for any creation/updation. Returns true if context is valid, false otherwise."
    "Initial creation of change reason validation function" ChangeReasonValidation.

Definition type_template (name : string) (schema : Map) (description : string)
    : string * TypeTemplate :=
  (name, mkTypeTemplate name schema template_user 0 0 template_user description "initial setup").

Definition template_types : list (string * TypeTemplate) :=
  [type_template "Number" {[ "type" := VString "integer" ]}
     "Number type is used to represent numeric values";
   type_template "Decimal" {[ "type" := VString "number" ]}
     "Decimal type is used to represent decimal values";
   type_template "Boolean" {[ "type" := VString "boolean" ]}
     "Boolean type is used to represent true/false values";
   type_template "Enum" {[ "type" := VString "string"; "enum" := strings ["android"; "ios"] ]}
     "Enum type is used to represent a fixed set of values";
   type_template "Pattern" {[ "type" := VString "string"; "pattern" := VString ".*" ]}
     "Pattern type is used to represent a string that matches a specific pattern"].

Definition fresh_workspace : CacWorld :=
  mkCacWorld ∅ ∅ {[ "variantIds" := variant_ids_dimension ]} ∅
    {[ "context_validation" := context_validation_function;
       "change_reason_validation" := change_reason_validation_function ]}
    ∅ (list_to_map template_types) 0 0 0.
