(* ===== verification/DimSpec.v ===== *)
(** * What the handlers of dimensions promise

    The abstract state keeps, of every dimension, its position, its type and
    its dependency graph. [dim_step] has the changes that may happen to it,
    [dims_inv] what holds in every state they reach: the positions number the
    dimensions, a cohort lies below what it is based on, and every graph lists
    the cohorts derived from its dimension, no more and no less. *)

From S2P Require Import Prelude Types Dimensions.

Record Shape : Type := mkShape {
  s_position : Z;
  s_type : DimensionType;
  s_graph : DependencyGraph;
}.

Abbreviation Shapes := (gmap string Shape).
Implicit Types (D : gmap string Shape) (s : Shape) (name : string).

(** ** Derived dimensions *)

(** The cohort [x] is based on [c]. *)
Definition based D (x c : string) : Prop :=
  ∃ s, D !! x = Some s ∧ cohort_base (s_type s) = Some c.

(** [c] is [r] or derived from it. *)
Definition below D (r c : string) : Prop := rtc (λ a b, based D b a) r c.

(** The graph of [r] has an entry for every dimension at or below [r] (for
    [r] itself only when something is based on it): the cohorts based on it. *)
Definition graph_exact D (r : string) (g : DependencyGraph) : Prop :=
  (∀ c, is_Some (g !! c) ↔ below D r c ∧ (c = r → ∃ x, based D x r)) ∧
  (∀ c cs, g !! c = Some cs → NoDup cs ∧ ∀ x, x ∈ cs ↔ based D x c).

(** ** Changes *)

Definition make_room (p q : Z) : Z := if bool_decide (p ≤ q)%Z then (q + 1)%Z else q.

Definition created name (p : Z) (t : DimensionType) D : Shapes :=
  <[name := mkShape p t ∅]> (map_imap (λ k s, Some (
    mkShape (make_room p (s_position s)) (s_type s)
      (match cohort_base t with
       | Some base => default (s_graph s) (graph_after_creation base name k (s_graph s))
       | None => s_graph s
       end))) D).

(** Where a dimension stands after another went from [old] to [new]. *)
Definition make_way (old new q : Z) : Z :=
  if bool_decide (old < new)%Z then
    if bool_decide (old < q ∧ q ≤ new)%Z then (q - 1)%Z else q
  else if bool_decide (q < old ∧ new ≤ q)%Z then (q + 1)%Z else q.

Definition moved name (old new : Z) D : Shapes :=
  map_imap (λ k s, Some (
    mkShape (if bool_decide (k = name) then new else make_way old new (s_position s))
      (s_type s) (s_graph s))) D.

Definition close_gap (p q : Z) : Z := if bool_decide (p < q)%Z then (q - 1)%Z else q.

Definition erased name (s0 : Shape) D : Shapes :=
  delete name (map_imap (λ k s, Some (
    mkShape (close_gap (s_position s0) (s_position s)) (s_type s)
      (match cohort_base (s_type s0) with
       | Some base => default (s_graph s) (graph_after_removal name base k (s_graph s))
       | None => s_graph s
       end))) D).

Inductive dim_step D : Shapes → Prop :=
  | step_create name p t :
      D !! name = None → (1 ≤ p ≤ Z.of_nat (size D))%Z →
      (∀ base, cohort_base t = Some base →
        ∃ s, D !! base = Some s ∧ is_local_cohort (s_type s) = false ∧ (p ≤ s_position s)%Z) →
      dim_step D (created name p t D)
  | step_move name s new :
      D !! name = Some s → (0 ≤ new < Z.of_nat (size D))%Z →
      (name = "variantIds" ↔ new = 0%Z) →
      (∀ base sb, cohort_base (s_type s) = Some base → D !! base = Some sb →
        (new < s_position sb)%Z) →
      (∀ x sx, based D x name → D !! x = Some sx → (s_position sx < new)%Z) →
      dim_step D (moved name (s_position s) new D)
  | step_erase name s :
      D !! name = Some s → name ≠ "variantIds" → s_graph s = ∅ →
      dim_step D (erased name s D).

(** ** The invariant *)

Record dims_inv D : Prop := {
  dims_range : ∀ k s, D !! k = Some s → (0 ≤ s_position s < Z.of_nat (size D))%Z;
  dims_inj : ∀ k k' s s', D !! k = Some s → D !! k' = Some s' →
    s_position s = s_position s' → k = k';
  dims_first : ∃ s, D !! "variantIds" = Some s ∧ s_position s = 0%Z;
  dims_base : ∀ x c, based D x c → ∃ sx sc, D !! x = Some sx ∧ D !! c = Some sc ∧
    is_local_cohort (s_type sc) = false ∧ (s_position sx < s_position sc)%Z;
  dims_graph : ∀ r s, D !! r = Some s → graph_exact D r (s_graph s);
}.

(** The only dimension at position 0. *)
Lemma dims_zero D k s : dims_inv D → D !! k = Some s →
  s_position s = 0%Z → k = "variantIds".
Proof.
  intros I Hk H0. destruct (dims_first _ I) as (s0 & Hs0 & Hp).
  eapply (dims_inj _ I); [done..|]. congruence.
Qed.

(** ** Bases *)

Lemma based_ext D D' :
  (∀ k, s_type <$> D' !! k = s_type <$> D !! k) → ∀ x c, based D' x c ↔ based D x c.
Proof.
  intros Hty x c. unfold based. specialize (Hty x). split; intros (s & Hs & Hb); rewrite Hs in Hty.
  - destruct (D !! x) as [s'|] eqn:E; [|done]. exists s'. simplify_eq/=. split; [done|]. congruence.
  - destruct (D' !! x) as [s'|] eqn:E; [|done]. exists s'. simplify_eq/=. split; [done|]. congruence.
Qed.

Lemma below_ext D D' :
  (∀ x c, based D' x c ↔ based D x c) → ∀ r c, below D' r c ↔ below D r c.
Proof.
  intros Hb r c. unfold below. split; induction 1 as [|a b d Hab _ IH]; try by constructor.
  - eapply rtc_l; [|exact IH]. by apply Hb.
  - eapply rtc_l; [|exact IH]. by apply Hb.
Qed.

Lemma graph_exact_ext D D' r g :
  (∀ x c, based D' x c ↔ based D x c) → graph_exact D r g → graph_exact D' r g.
Proof.
  intros Hb [H1 H2]. split.
  - intros c. rewrite H1, (below_ext D D') by done. by setoid_rewrite Hb.
  - intros c cs Hc. destruct (H2 c cs Hc) as [Hnd Hx]. split; [done|]. intros x. by rewrite Hx, Hb.
Qed.

(** A dimension is based on one other at most. *)
Lemma based_unique D x c c' : based D x c → based D x c' → c = c'.
Proof. intros (s & Hs & Hb) (s' & Hs' & Hb'). congruence. Qed.

Lemma below_last D r c : below D r c → r = c ∨ ∃ b, below D r b ∧ based D c b.
Proof. intros [->|(b & Hb & Hc)]%rtc_inv_r; [by left|]. right. by exists b. Qed.

Lemma below_ind D r (P : string → Prop) :
  P r → (∀ b c, below D r b → based D c b → P b → P c) → ∀ c, below D r c → P c.
Proof. intros H1 H2. by apply rtc_ind_r. Qed.

Lemma below_leaf D r c : (∀ x, ¬ based D x r) → below D r c → c = r.
Proof. intros Hr. inversion 1 as [|? b ? Hb]; [done|]. by destruct (Hr b). Qed.

(** ** A creation *)

Lemma graph_after_creation_hit base name r (g : DependencyGraph) :
  r = base ∨ is_Some (g !! base) →
  default g (graph_after_creation base name r g) =
  <[name := []]> (<[base := default [] (g !! base) ++ [name]]> g).
Proof.
  intros H. unfold graph_after_creation. destruct (g !! base) as [cd|] eqn:E.
  - rewrite (bool_decide_eq_false_2 (Some cd = None)), andb_false_r by done. by rewrite E.
  - destruct H as [->|[? ?]]; [|done]. rewrite !bool_decide_eq_true_2 by done. cbn [andb].
    rewrite lookup_insert_eq. cbn. by rewrite insert_insert_eq.
Qed.

Lemma graph_after_creation_miss base name r (g : DependencyGraph) :
  r ≠ base → g !! base = None → default g (graph_after_creation base name r g) = g.
Proof.
  intros Hr E. unfold graph_after_creation. rewrite bool_decide_eq_false_2 by done. cbn [andb].
  by rewrite E.
Qed.

(** The dependents that a graph records at the dimension it is exact for or
    below it, none when there is no entry. *)
Lemma graph_exact_children D r g c : graph_exact D r g → below D r c →
  NoDup (default [] (g !! c)) ∧ ∀ x, x ∈ default [] (g !! c) ↔ based D x c.
Proof.
  intros [H1 H2] Hc. destruct (g !! c) as [cs|] eqn:E; simpl; [by apply H2|].
  split; [constructor|]. intros x. split; [by intros ?%elem_of_nil|]. intros Hx. exfalso.
  apply (eq_None_not_Some (g !! c)); [done|]. apply H1. split; [done|]. intros ->. eauto.
Qed.

Section creation.
Context D name (p : Z) (t : DimensionType) (Hnew : D !! name = None) (I : dims_inv D).
Abbreviation D' := (created name p t D).

Lemma created_lookup k : D' !! k =
  if decide (k = name) then Some (mkShape p t ∅)
  else (λ s, mkShape (make_room p (s_position s)) (s_type s)
      (match cohort_base t with
       | Some base => default (s_graph s) (graph_after_creation base name k (s_graph s))
       | None => s_graph s
       end)) <$> D !! k.
Proof.
  unfold created. case_decide as Hk; [by rewrite Hk, lookup_insert_eq|].
  rewrite lookup_insert_ne, map_lookup_imap by done. by destruct (D !! k).
Qed.

Lemma created_size : size D' = S (size D).
Proof.
  unfold created. rewrite map_size_insert_None.
  - f_equal. rewrite <- !size_dom. f_equal.
    apply dom_imap_L. intros i. rewrite elem_of_dom. unfold is_Some. naive_solver.
  - by rewrite map_lookup_imap, Hnew.
Qed.

Lemma based_old x c : based D x c → x ≠ name ∧ c ≠ name.
Proof using Hnew I.
  intros Hb. destruct (dims_base _ I _ _ Hb) as (sx & sc & Hx & Hc & _).
  split; intros ->; by rewrite Hnew in *.
Qed.

Lemma based_created x c :
  based D' x c ↔ based D x c ∨ x = name ∧ cohort_base t = Some c.
Proof using Hnew I.
  unfold based at 1. rewrite created_lookup. case_decide as Hx.
  - subst x. split; [intros (s & [= <-] & Hb); by right|].
    intros [Hb|[_ Hb]]; [by apply based_old in Hb as [? _]|]. by eexists.
  - unfold based. split.
    + intros (s & Hs & Hb). apply fmap_Some in Hs as (s0 & Hs0 & ->). left. by exists s0.
    + intros [(s & Hs & Hb)|[-> _]]; [|done]. rewrite Hs. by eexists.
Qed.

Lemma below_created r c : (∀ base, cohort_base t = Some base → base ≠ name) → r ≠ name →
  below D' r c ↔ below D r c ∨ c = name ∧ ∃ base, cohort_base t = Some base ∧ below D r base.
Proof using Hnew I.
  intros Hbase Hr. split.
  - revert c. apply below_ind; [left; apply rtc_refl|]. intros y c _ Hc IH.
    apply based_created in Hc as [Hc|[-> Hb]].
    + destruct IH as [IH|[-> _]]; [|by apply based_old in Hc as [_ ?]].
      left. by eapply rtc_r.
    + destruct IH as [IH|[-> _]]; [|by destruct (Hbase name)]. right. eauto.
  - assert (∀ c, below D r c → below D' r c) as Hmono.
    { intros c'. apply rtc_subrel. intros a b Hab. apply based_created. by left. }
    intros [Hc|(-> & base & Hb & Hc)]; [by apply Hmono|].
    eapply rtc_r; [by apply Hmono|]. apply based_created. by right.
Qed.

Lemma graph_created_hit r g base : r ≠ name → base ≠ name → cohort_base t = Some base →
  below D r base → graph_exact D r g →
  graph_exact D' r (<[name := []]> (<[base := default [] (g !! base) ++ [name]]> g)).
Proof using Hnew I.
  intros Hr Hbn Hb Hrb G. pose proof (graph_exact_children _ _ _ _ G Hrb) as [Hnd Hcs].
  destruct G as [H1 H2]. split.
  - intros c. rewrite below_created by congruence.
    destruct (decide (c = name)) as [->|Hcn]; [rewrite lookup_insert_eq; naive_solver|].
    rewrite lookup_insert_ne by done. destruct (decide (c = base)) as [->|Hcb].
    + rewrite lookup_insert_eq. split; [intros _; split; [by left|]|by eauto].
      intros ->. exists name. apply based_created. by right.
    + rewrite lookup_insert_ne, H1 by done. setoid_rewrite based_created. naive_solver.
  - intros c cs. destruct (decide (c = name)) as [->|Hcn].
    { rewrite lookup_insert_eq. intros [= <-]. split; [constructor|]. intros x.
      split; [by intros ?%elem_of_nil|]. intros [Hx|[_ ?]]%based_created; [|congruence].
      by apply based_old in Hx as [_ ?]. }
    rewrite lookup_insert_ne by done. destruct (decide (c = base)) as [->|Hcb].
    + rewrite lookup_insert_eq. intros [= <-]. split.
      * apply NoDup_app. split_and!; [done| |apply NoDup_singleton].
        intros x Hx ->%list_elem_of_singleton. apply Hcs in Hx. by apply based_old in Hx as [? _].
      * intros x. rewrite elem_of_app, Hcs, list_elem_of_singleton, based_created. naive_solver.
    + rewrite lookup_insert_ne by done. intros Hc. destruct (H2 c cs Hc) as [? Hx].
      split; [done|]. intros x. rewrite Hx, based_created. naive_solver.
Qed.

Lemma graph_created_miss r g : r ≠ name → (∀ base, cohort_base t = Some base →
    base ≠ name ∧ ¬ below D r base) →
  graph_exact D r g → graph_exact D' r g.
Proof using Hnew I.
  intros Hr Hb [H1 H2]. split.
  - intros c. rewrite H1, below_created by naive_solver. setoid_rewrite based_created.
    split; [naive_solver|]. intros [[Hc|(_ & base & Hbase & Hc)] Hx]; [|by destruct (Hb base)].
    split; [done|]. intros ->. destruct (Hx eq_refl) as (x & [?|[-> Hn]]); [by eauto|].
    by destruct (Hb _ Hn).
  - intros c cs Hc. destruct (H2 c cs Hc) as [? Hx]. split; [done|]. intros x.
    rewrite Hx, based_created. split; [by left|]. intros [?|[-> Hn]]; [done|]. exfalso.
    assert (is_Some (g !! c)) as Hs by eauto. apply H1 in Hs as [? _]. by destruct (Hb _ Hn).
Qed.

Lemma graph_created_new : cohort_base t ≠ Some name → graph_exact D' name ∅.
Proof using Hnew I.
  intros Ht. assert (∀ x, ¬ based D' x name) as Hleaf.
  { intros x [Hx|[_ Hx]]%based_created; [by apply based_old in Hx as [_ ?]|done]. }
  split; [|by intros c cs; rewrite lookup_empty].
  intros c. rewrite lookup_empty. split; [by intros [? ?]|]. intros [Hc Hx].
  apply below_leaf in Hc; [|done]. destruct (Hx Hc) as [x ?]. by destruct (Hleaf x).
Qed.

Lemma dims_inv_created : (1 ≤ p ≤ Z.of_nat (size D))%Z →
  (∀ base, cohort_base t = Some base →
    ∃ s, D !! base = Some s ∧ is_local_cohort (s_type s) = false ∧ (p ≤ s_position s)%Z) →
  dims_inv D'.
Proof using Hnew I.
  intros Hp Hbase. assert (∀ base, cohort_base t = Some base → base ≠ name) as Hbn.
  { intros base (s & Hs & _)%Hbase ->. congruence. }
  assert (∀ k s, D' !! k = Some s → k = name ∧ s = mkShape p t ∅ ∨
    k ≠ name ∧ ∃ s0, D !! k = Some s0 ∧ s_position s = make_room p (s_position s0) ∧
      s_type s = s_type s0) as Hinv.
  { intros k s. rewrite created_lookup. case_decide; [naive_solver|].
    intros (s0 & Hs0 & ->)%fmap_Some. right. eauto. }
  constructor.
  - intros k s. rewrite created_size. intros [[-> ->]|(_ & s0 & Hs0 & -> & _)]%Hinv; simpl; [lia|].
    pose proof (dims_range _ I _ _ Hs0). unfold make_room. case_bool_decide; lia.
  - intros k k' s s' Hk Hk'. apply Hinv in Hk as [[-> ->]|(_ & s0 & Hs0 & -> & _)];
    apply Hinv in Hk' as [[-> ->]|(_ & s0' & Hs0' & -> & _)]; simpl;
    unfold make_room; repeat case_bool_decide; try lia; [done|..];
    intros; eapply (dims_inj _ I); [done..|lia|done|done|lia].
  - destruct (dims_first _ I) as (s & Hs & H0). rewrite created_lookup.
    destruct (decide ("variantIds" = name)) as [<-|]; [congruence|]. rewrite Hs.
    eexists. split; [done|]. simpl. unfold make_room. case_bool_decide; lia.
  - intros x c Hx. apply based_created in Hx as [Hx|[-> Hc]].
    + pose proof (based_old _ _ Hx) as [Hxn Hcn].
      destruct (dims_base _ I _ _ Hx) as (sx & sc & Hsx & Hsc & Hl & Hlt).
      rewrite !created_lookup, !decide_False by done. rewrite Hsx, Hsc.
      do 2 eexists. split_and!; [done..|]. simpl. unfold make_room.
      repeat case_bool_decide; lia.
    + destruct (Hbase _ Hc) as (sc & Hsc & Hl & Hle). rewrite !created_lookup.
      rewrite decide_True, decide_False by naive_solver. rewrite Hsc.
      do 2 eexists. split_and!; [done..|]. simpl. unfold make_room. case_bool_decide; lia.
  - intros r s. rewrite created_lookup. case_decide as Hr.
    + intros [= <-]. subst r. apply graph_created_new. intros Ht. by apply (Hbn name).
    + intros (s0 & Hs0 & ->)%fmap_Some. simpl. pose proof (dims_graph _ I _ _ Hs0) as G.
      destruct (cohort_base t) as [base|] eqn:Hb; [|apply graph_created_miss; congruence].
      pose proof G as [H1 _].
      destruct (decide (r = base ∨ is_Some (s_graph s0 !! base))) as [Hin|Hin].
      * rewrite graph_after_creation_hit by done. apply graph_created_hit; [done|by apply Hbn|done| |done].
        destruct Hin as [->|Hin]; [apply rtc_refl|]. by apply H1 in Hin as [? _].
      * assert (r ≠ base ∧ s_graph s0 !! base = None) as [Hrb Hg].
        { rewrite eq_None_not_Some. naive_solver. }
        rewrite graph_after_creation_miss by done. apply graph_created_miss; [done| |done].
        intros base' Hb'. simplify_eq. split; [by apply Hbn|]. intros Hbb.
        rewrite eq_None_not_Some in Hg. apply Hg, H1. by split.
Qed.
End creation.

(** ** A change of position *)

Section repositioning.
Context D name (s0 : Shape) (new : Z) (Hs0 : D !! name = Some s0) (I : dims_inv D).
Abbreviation D' := (moved name (s_position s0) new D).

Lemma moved_lookup k : D' !! k =
  (λ s, mkShape (if bool_decide (k = name) then new
                 else make_way (s_position s0) new (s_position s))
          (s_type s) (s_graph s)) <$> D !! k.
Proof. unfold moved. rewrite map_lookup_imap. by destruct (D !! k). Qed.

Lemma moved_size : size D' = size D.
Proof.
  rewrite <- !size_dom. f_equal. apply dom_imap_L.
  intros i. rewrite elem_of_dom. unfold is_Some. naive_solver.
Qed.

Lemma based_moved x c : based D' x c ↔ based D x c.
Proof. apply based_ext. intros k. rewrite moved_lookup. by destruct (D !! k). Qed.

Lemma dims_inv_moved : (0 ≤ new < Z.of_nat (size D))%Z →
  (name = "variantIds" ↔ new = 0%Z) →
  (∀ base sb, cohort_base (s_type s0) = Some base → D !! base = Some sb →
    (new < s_position sb)%Z) →
  (∀ x sx, based D x name → D !! x = Some sx → (s_position sx < new)%Z) →
  dims_inv D'.
Proof using Hs0 I.
  intros Hnew Hzero Hup Hdown. pose proof (dims_range _ I _ _ Hs0) as Hp0.
  assert (∀ k s, D !! k = Some s → k ≠ name → s_position s ≠ s_position s0) as Hne.
  { intros k s Hk Hkn E. apply Hkn. by eapply (dims_inj _ I). }
  assert (∀ k s, D' !! k = Some s → ∃ s1, D !! k = Some s1 ∧
    s_position s = if bool_decide (k = name) then new
                   else make_way (s_position s0) new (s_position s1)) as Hinv.
  { intros k s. rewrite moved_lookup. intros (s1 & Hs1 & ->)%fmap_Some. by exists s1. }
  constructor.
  - intros k s (s1 & Hs1 & ->)%Hinv. rewrite moved_size. pose proof (dims_range _ I _ _ Hs1).
    unfold make_way. repeat case_bool_decide; done || lia.
  - intros k k' s s' (s1 & Hs1 & ->)%Hinv (s1' & Hs1' & ->)%Hinv.
    destruct (decide (k = name)) as [->|Hk], (decide (k' = name)) as [->|Hk']; [done|..].
    all: try pose proof (Hne _ _ Hs1 Hk); try pose proof (Hne _ _ Hs1' Hk').
    all: unfold make_way; repeat case_bool_decide; try done; try lia.
    all: intros; eapply (dims_inj _ I); [done..|lia].
  - destruct (dims_first _ I) as (s & Hs & H0). rewrite moved_lookup, Hs.
    eexists. split; [done|]. simpl. case_bool_decide as Hn; [naive_solver|].
    pose proof (Hne _ _ Hs Hn). unfold make_way. repeat case_bool_decide; try lia.
    assert (new ≠ 0%Z) by naive_solver. lia.
  - intros x c Hx%based_moved.
    destruct (dims_base _ I _ _ Hx) as (sx & sc & Hsx & Hsc & Hl & Hlt).
    rewrite !moved_lookup, Hsx, Hsc. do 2 eexists. split_and!; [done..|]. simpl.
    destruct (decide (x = name)) as [->|Hxn], (decide (c = name)) as [->|Hcn].
    + simplify_eq. lia.
    + simplify_eq. destruct Hx as (s & Hs & Hb). simplify_eq. pose proof (Hup _ _ Hb Hsc).
      unfold make_way. repeat case_bool_decide; done || lia.
    + simplify_eq. pose proof (Hdown _ _ Hx Hsx). unfold make_way. repeat case_bool_decide; done || lia.
    + pose proof (Hne _ _ Hsx Hxn). pose proof (Hne _ _ Hsc Hcn).
      unfold make_way. repeat case_bool_decide; done || lia.
  - intros r s. rewrite moved_lookup. intros (s1 & Hs1 & ->)%fmap_Some. simpl.
    eapply graph_exact_ext; [apply based_moved|]. by eapply dims_graph.
Qed.
End repositioning.

(** ** A deletion *)

Section deletion.
Context D name (s0 : Shape) (Hs0 : D !! name = Some s0) (I : dims_inv D).
Context (Hg0 : s_graph s0 = ∅).
Abbreviation D' := (erased name s0 D).

Lemma erased_lookup k : D' !! k =
  if decide (k = name) then None
  else (λ s, mkShape (close_gap (s_position s0) (s_position s)) (s_type s)
      (match cohort_base (s_type s0) with
       | Some base => default (s_graph s) (graph_after_removal name base k (s_graph s))
       | None => s_graph s
       end)) <$> D !! k.
Proof.
  unfold erased. case_decide as Hk; [by rewrite Hk, lookup_delete_eq|].
  rewrite lookup_delete_ne, map_lookup_imap by done. by destruct (D !! k).
Qed.

Lemma erased_size : S (size D') = size D.
Proof using Hs0.
  assert (size D' = pred (size D)) as ->.
  - unfold erased. rewrite map_size_delete_Some by (rewrite map_lookup_imap, Hs0; by eexists).
    f_equal. rewrite <- !size_dom. f_equal. apply dom_imap_L.
    intros i. rewrite elem_of_dom. unfold is_Some. naive_solver.
  - destruct (size D) eqn:E; [|done]. apply map_size_empty_inv in E. by rewrite E in Hs0.
Qed.

Lemma erased_leaf x : ¬ based D x name.
Proof using Hs0 I Hg0.
  intros Hx. pose proof (dims_graph _ I _ _ Hs0) as [H1 _]. rewrite Hg0 in H1.
  destruct (H1 name) as [_ [? Hs]]; [split; [apply rtc_refl|eauto]|]. by rewrite lookup_empty in Hs.
Qed.

Lemma based_erased x c : based D' x c ↔ based D x c ∧ x ≠ name.
Proof.
  unfold based. rewrite erased_lookup. case_decide as Hx; [naive_solver|].
  split; [intros (s & Hs & Hb); apply fmap_Some in Hs as (s1 & Hs1 & ->); eauto|].
  intros [(s & Hs & Hb) _]. rewrite Hs. by eexists.
Qed.

Lemma below_erased r c : r ≠ name → below D' r c ↔ below D r c ∧ c ≠ name.
Proof using Hs0 I Hg0.
  intros Hr. split.
  - revert c. apply below_ind; [split; [apply rtc_refl|done]|].
    intros b c _ [Hc Hcn]%based_erased [IH _]. split; [by eapply rtc_r|done].
  - intros [Hc Hcn]. revert c Hc Hcn.
    refine (below_ind _ _ _ _ _); [intros _; apply rtc_refl|]. intros b c _ Hc IH Hcn.
    eapply rtc_r; [apply IH|by apply based_erased]. intros ->. by apply erased_leaf in Hc.
Qed.

Lemma graph_after_removal_hit base r (g : DependencyGraph) cs :
  base ≠ name → g !! base = Some cs →
  let cs' := List.filter (λ d, negb (bool_decide (d = name))) cs in
  default g (graph_after_removal name base r g) =
  if bool_decide (cs' = []) && bool_decide (r = base) then delete base (delete name g)
  else <[base := cs']> (delete name g).
Proof.
  intros Hb Hg. unfold graph_after_removal. rewrite lookup_delete_ne, Hg by done. simpl.
  by case_match.
Qed.

Lemma graph_after_removal_miss base r (g : DependencyGraph) :
  r ≠ base → g !! base = None → default g (graph_after_removal name base r g) = g.
Proof.
  intros Hr Hg. unfold graph_after_removal. rewrite bool_decide_eq_false_2 by done.
  destruct (delete name g !! base) eqn:E; [|done].
  apply lookup_delete_Some in E as [_ E]. congruence.
Qed.

Lemma graph_erased_hit r g base cs : r ≠ name → cohort_base (s_type s0) = Some base →
  graph_exact D r g → g !! base = Some cs →
  graph_exact D' r (default g (graph_after_removal name base r g)).
Proof using Hs0 I Hg0.
  intros Hr Hb [H1 H2] Hg. assert (based D name base) as Hnb by (by exists s0).
  assert (base ≠ name) as Hbn by (intros ->; by apply erased_leaf in Hnb).
  rewrite (graph_after_removal_hit _ _ _ cs) by done.
  set (cs' := List.filter _ cs). destruct (H2 _ _ Hg) as [Hnd Hcs].
  assert (∀ x, x ∈ cs' ↔ based D' x base) as Hcs'.
  { intros x. unfold cs'. rewrite elem_of_filterb, negb_true_iff, bool_decide_eq_false, Hcs.
    by rewrite based_erased. }
  assert (NoDup cs') as Hnd' by (apply NoDup_ListNoDup, List.NoDup_filter, NoDup_ListNoDup, Hnd).
  assert (below D r base) as Hrb by (apply H1; eauto).
  assert (∀ c, c ≠ name → c ≠ base →
    is_Some (g !! c) ↔ below D' r c ∧ (c = r → ∃ x, based D' x r)) as Hother.
  { intros c Hcn Hcb. rewrite H1, below_erased by done. setoid_rewrite based_erased.
    split; [|naive_solver]. intros [Hc Hx]. split; [done|]. intros ->.
    destruct (Hx eq_refl) as [x Hxr]. exists x. split; [done|]. intros ->.
    apply Hcb. by eapply based_unique. }
  assert (¬ below D' r name) as Hrn by (rewrite below_erased by done; naive_solver).
  case_match eqn:Hc.
  - apply andb_true_iff in Hc as [Hnil%bool_decide_eq_true ->%bool_decide_eq_true].
    assert (∀ x, ¬ based D' x base) as Hno by (intros x; rewrite <- Hcs', Hnil; by intros ?%elem_of_nil).
    split.
    + intros c. destruct (decide (c = base)) as [->|Hcb].
      { rewrite lookup_delete_eq. split; [by intros [? ?]|]. intros [_ Hx].
        destruct (Hx eq_refl) as [x ?]. by destruct (Hno x). }
      rewrite lookup_delete_ne by done. destruct (decide (c = name)) as [->|Hcn].
      { rewrite lookup_delete_eq. split; [by intros [? ?]|naive_solver]. }
      rewrite lookup_delete_ne by done. by apply Hother.
    + intros c cs1 [Hcb [Hcn Hc1]%lookup_delete_Some]%lookup_delete_Some.
      destruct (H2 _ _ Hc1) as [? Hx]. split; [done|]. intros x. rewrite Hx, based_erased.
      split; [|naive_solver]. intros Hxc. split; [done|]. intros ->. apply Hcb.
      by eapply based_unique.
  - split.
    + intros c. destruct (decide (c = base)) as [->|Hcb].
      { rewrite lookup_insert_eq. split; [intros _|by eauto]. split; [by apply below_erased|].
        intros ->. apply andb_false_iff in Hc as [Hc%bool_decide_eq_false|Hc%bool_decide_eq_false]; [|done].
        destruct cs' as [|x l] eqn:E; [done|]. exists x. apply Hcs'. set_solver. }
      rewrite lookup_insert_ne by done. destruct (decide (c = name)) as [->|Hcn].
      { rewrite lookup_delete_eq. split; [by intros [? ?]|naive_solver]. }
      rewrite lookup_delete_ne by done. by apply Hother.
    + intros c cs1 [[<- <-]|[Hcb [Hcn Hc1]%lookup_delete_Some]]%lookup_insert_Some; [done|].
      destruct (H2 _ _ Hc1) as [? Hx]. split; [done|]. intros x. rewrite Hx, based_erased.
      split; [|naive_solver]. intros Hxc. split; [done|]. intros ->. apply Hcb.
      symmetry. by eapply based_unique.
Qed.

Lemma graph_erased_miss r g : r ≠ name →
  (∀ base, cohort_base (s_type s0) = Some base → ¬ below D r base) →
  graph_exact D r g → graph_exact D' r g.
Proof using Hs0 I Hg0.
  intros Hr Hb [H1 H2].
  assert (¬ below D r name) as Hrn.
  { intros [?|(b & Hrb & s & Hs & Hbase)]%below_last; [done|]. simplify_eq. by eapply Hb. }
  assert (∀ c, below D r c → ¬ based D name c) as Hnc.
  { intros c Hc (s & Hs & Hbase). simplify_eq. by eapply Hb. }
  split.
  - intros c. rewrite H1, below_erased by done. setoid_rewrite based_erased.
    split; [|naive_solver]. intros [Hc Hx]. split; [split; [done|by intros ->]|].
    intros ->. destruct (Hx eq_refl) as [x Hxr]. exists x. split; [done|]. intros ->.
    by apply (Hnc r).
  - intros c cs Hc. destruct (H2 c cs Hc) as [? Hx]. split; [done|]. intros x.
    rewrite Hx, based_erased. split; [|naive_solver]. intros Hxc. split; [done|]. intros ->.
    apply (Hnc c); [|done]. by apply H1; eauto.
Qed.

Lemma dims_inv_erased : name ≠ "variantIds" → dims_inv D'.
Proof using Hs0 I Hg0.
  intros Hv. pose proof erased_size as Hsize.
  assert (∀ k s, D !! k = Some s → k ≠ name → s_position s ≠ s_position s0) as Hne.
  { intros k s Hk Hkn E. apply Hkn. by eapply (dims_inj _ I). }
  assert (∀ k s, D' !! k = Some s → k ≠ name ∧ ∃ s1, D !! k = Some s1 ∧
    s_position s = close_gap (s_position s0) (s_position s1)) as Hinv.
  { intros k s. rewrite erased_lookup. case_decide; [done|].
    intros (s1 & Hs1 & ->)%fmap_Some. eauto. }
  pose proof (dims_range _ I _ _ Hs0) as Hp0. constructor.
  - intros k s (Hk & s1 & Hs1 & ->)%Hinv. pose proof (dims_range _ I _ _ Hs1).
    pose proof (Hne _ _ Hs1 Hk). unfold close_gap. case_bool_decide; lia.
  - intros k k' s s' (Hk & s1 & Hs1 & ->)%Hinv (Hk' & s1' & Hs1' & ->)%Hinv.
    pose proof (Hne _ _ Hs1 Hk). pose proof (Hne _ _ Hs1' Hk').
    unfold close_gap. repeat case_bool_decide; try lia.
    all: intros; eapply (dims_inj _ I); [done..|lia].
  - destruct (dims_first _ I) as (s & Hs & H0). rewrite erased_lookup, decide_False, Hs by done.
    eexists. split; [done|]. simpl. unfold close_gap. case_bool_decide; lia.
  - intros x c [Hx Hxn]%based_erased.
    destruct (dims_base _ I _ _ Hx) as (sx & sc & Hsx & Hsc & Hl & Hlt).
    assert (c ≠ name) as Hcn by (intros ->; by apply erased_leaf in Hx).
    rewrite !erased_lookup, !decide_False, Hsx, Hsc by done.
    do 2 eexists. split_and!; [done..|]. simpl. pose proof (Hne _ _ Hsx Hxn).
    pose proof (Hne _ _ Hsc Hcn). unfold close_gap. repeat case_bool_decide; done || lia.
  - intros r s. rewrite erased_lookup. case_decide as Hr; [done|].
    intros (s1 & Hs1 & ->)%fmap_Some. simpl. pose proof (dims_graph _ I _ _ Hs1) as G.
    destruct (cohort_base (s_type s0)) as [base|] eqn:Hb; [|apply graph_erased_miss; congruence].
    destruct (s_graph s1 !! base) as [cs|] eqn:Hg; [by eapply graph_erased_hit|].
    pose proof G as [H1 _]. assert (¬ below D r base) as Hrb.
    { intros Hrb. apply eq_None_not_Some in Hg. apply Hg, H1. split; [done|]. intros ->.
      exists name, s0. done. }
    rewrite graph_after_removal_miss; [|intros ->; apply Hrb, rtc_refl|done].
    apply graph_erased_miss; [done|congruence|done].
Qed.
End deletion.

(** ** Every step keeps the invariant *)

Lemma dim_step_inv D D' : dims_inv D → dim_step D D' → dims_inv D'.
Proof.
  intros I. destruct 1.
  - by apply dims_inv_created.
  - by apply dims_inv_moved.
  - by apply dims_inv_erased.
Qed.

Lemma dim_steps_inv D D' : rtc dim_step D D' → dims_inv D → dims_inv D'.
Proof. induction 1; eauto using dim_step_inv. Qed.
