(* ===== verification/CacInv.v ===== *)
(** * What the tables of the configuration service always satisfy

    The invariant [good] of the tables [contexts], [default_configs] and
    [dimensions], and what each statement does to them. The last column of
    every rule, the table of versions, plays no part: [add_config_version] is
    neutral. *)

From stdpp Require Import relations.
From S2P Require Import Prelude Stack Json Types Text Effects Logic LogicProps Config Resolve CacClient ExpChecks CacStore CacConfig Contexts Dimensions Functions DimSpec.

Definition CacTables : Type :=
  gmap string DbContext * gmap string DefaultConfig * gmap string Dimension.
Definition cac_tables (w : CacWorld) : CacTables :=
  (k_contexts w, k_default_configs w, k_dimensions w).

(** The other tables, and all the rows. *)
Definition CacRest : Type :=
  gmap Z ConfigVersion * gmap string Function * gmap string Variable_ * gmap string TypeTemplate.
Definition cac_rest (w : CacWorld) : CacRest :=
  (k_versions w, k_functions w, k_variables w, k_type_templates w).
Definition cac_rows (w : CacWorld) : CacTables * CacRest := (cac_tables w, cac_rest w).

Abbreviation cwp := (wp_on cac_tables).
Abbreviation CacNeutral := (NeutralOn cac_tables).
(** A computation that writes no row at all. *)
Abbreviation CacSilent := (NeutralOn cac_rows).

(** ** The invariant *)

Definition shape_of (d : Dimension) : Shape :=
  mkShape (dm_position d) (dm_dimension_type d) (dm_dependency_graph d).
Definition shapes (dims : gmap string Dimension) : Shapes := shape_of <$> dims.

(** A row of [contexts]: it is stored under the hash of its condition, its
    overrides under theirs; neither is empty, every key overridden has a
    default and every dimension of the condition exists. *)
Record context_ok `{FloatText} `{Blake3} (ds : gmap string DefaultConfig)
    (dims : gmap string Dimension) (id : string) (x : DbContext) : Prop := {
  ok_id : x_id x = id;
  ok_hash : id = hash (VObject (x_value x));
  ok_override_id : x_override_id x = hash (VObject (x_override x));
  ok_condition : x_value x ≠ ∅;
  ok_override : x_override x ≠ ∅;
  ok_keys : ∀ k, is_Some (x_override x !! k) → is_Some (ds !! k);
  ok_dims : ∀ d, is_Some (x_value x !! d) → is_Some (dims !! d);
}.

Definition contexts_good `{FloatText} `{Blake3} (xs : gmap string DbContext)
    (ds : gmap string DefaultConfig) (dims : gmap string Dimension) : Prop :=
  ∀ id x, xs !! id = Some x → context_ok ds dims id x.

Definition defaults_good (ds : gmap string DefaultConfig) : Prop :=
  ∀ k d, ds !! k = Some d → dc_key d = k.

Definition dims_keyed (dims : gmap string Dimension) : Prop :=
  ∀ k d, dims !! k = Some d → dm_dimension d = k.

Definition good_tables `{FloatText} `{Blake3} (t : CacTables) : Prop :=
  let '(xs, ds, dims) := t in
  contexts_good xs ds dims ∧ defaults_good ds ∧ dims_keyed dims ∧ dims_inv (shapes dims).

Lemma shapes_lookup dims k s :
  shapes dims !! k = Some s ↔ ∃ d, dims !! k = Some d ∧ s = shape_of d.
Proof. unfold shapes. rewrite lookup_fmap, fmap_Some. naive_solver. Qed.

Lemma shapes_size dims : size (shapes dims) = size dims.
Proof. apply map_size_fmap. Qed.

(** Only which keys and which dimensions exist matters to the contexts. *)
Lemma context_ok_mono `{FloatText} `{Blake3} ds ds' dims dims' id x :
  (∀ k, is_Some (x_override x !! k) → is_Some (ds !! k) → is_Some (ds' !! k)) →
  (∀ d, is_Some (x_value x !! d) → is_Some (dims !! d) → is_Some (dims' !! d)) →
  context_ok ds dims id x → context_ok ds' dims' id x.
Proof. intros H1 H2 []. split; eauto. Qed.

Lemma contexts_good_mono `{FloatText} `{Blake3} xs ds ds' dims dims' :
  (∀ k, is_Some (ds !! k) → is_Some (ds' !! k)) →
  (∀ d, is_Some (dims !! d) → is_Some (dims' !! d)) →
  contexts_good xs ds dims → contexts_good xs ds' dims'.
Proof.
  intros H1 H2 G id x Hx. apply (context_ok_mono ds _ dims); [by auto|by auto|by apply G].
Qed.

(** ** Statements *)

Lemma cac_wp_transaction {A} (m : C A) (Φ : A → CacTables → Prop) (Ψ : CacTables → Prop) t :
  cwp m Φ (λ _, Ψ t) t → cwp (cac_transaction m) Φ Ψ t.
Proof. by apply wp_transaction_by. Qed.

Section statements.
Implicit Types (Ψ : CacTables → Prop).
Implicit Types (xs : gmap string DbContext) (ds : gmap string DefaultConfig).
Implicit Types (dims : gmap string Dimension) (p : Dimension → bool).

Lemma wp_find_context id Φ Ψ xs ds dims :
  (∀ x, xs !! id = Some x → Φ x (xs, ds, dims)) → Ψ (xs, ds, dims) →
  cwp (find_context id) Φ Ψ (xs, ds, dims).
Proof.
  intros H1 H2 w [= <- <- <-]. unfold find_context.
  destruct (k_contexts w !! id) eqn:E; [by apply H1|done].
Qed.

Lemma wp_find_default_config key Φ Ψ xs ds dims :
  (∀ d, ds !! key = Some d → Φ d (xs, ds, dims)) → Ψ (xs, ds, dims) →
  cwp (find_default_config key) Φ Ψ (xs, ds, dims).
Proof.
  intros H1 H2 w [= <- <- <-]. unfold find_default_config.
  destruct (k_default_configs w !! key) eqn:E; [by apply H1|done].
Qed.

Lemma wp_find_dimension name Φ Ψ xs ds dims :
  (∀ d, dims !! name = Some d → Φ d (xs, ds, dims)) → Ψ (xs, ds, dims) →
  cwp (find_dimension name) Φ Ψ (xs, ds, dims).
Proof.
  intros H1 H2 w [= <- <- <-]. unfold find_dimension.
  destruct (k_dimensions w !! name) eqn:E; [by apply H1|done].
Qed.

Lemma wp_all_contexts `{MapOrder} Φ Ψ xs ds dims :
  Φ (map_order xs).*2 (xs, ds, dims) → cwp all_contexts Φ Ψ (xs, ds, dims).
Proof. by intros H1 w [= <- <- <-]. Qed.
Lemma wp_all_dimensions `{MapOrder} Φ Ψ xs ds dims :
  Φ (map_order dims).*2 (xs, ds, dims) → cwp all_dimensions Φ Ψ (xs, ds, dims).
Proof. by intros H1 w [= <- <- <-]. Qed.
Lemma wp_count_dimensions Φ Ψ xs ds dims :
  Φ (Z.of_nat (size dims)) (xs, ds, dims) → cwp count_dimensions Φ Ψ (xs, ds, dims).
Proof. by intros H1 w [= <- <- <-]. Qed.
Lemma wp_default_configs_table Φ Ψ xs ds dims :
  Φ ds (xs, ds, dims) → cwp default_configs_table Φ Ψ (xs, ds, dims).
Proof. by intros H1 w [= <- <- <-]. Qed.
Lemma wp_dimensions_table Φ Ψ xs ds dims :
  Φ dims (xs, ds, dims) → cwp dimensions_table Φ Ψ (xs, ds, dims).
Proof. by intros H1 w [= <- <- <-]. Qed.
Lemma wp_fetch_dimensions_info_map Φ Ψ xs ds dims :
  Φ (dimensions_info dims) (xs, ds, dims) → cwp fetch_dimensions_info_map Φ Ψ (xs, ds, dims).
Proof. by intros H1 w [= <- <- <-]. Qed.

Lemma wp_try_insert_context x Φ Ψ xs ds dims :
  (xs !! x_id x = None → Φ true (<[x_id x := x]> xs, ds, dims)) →
  (is_Some (xs !! x_id x) → Φ false (xs, ds, dims)) →
  cwp (try_insert_context x) Φ Ψ (xs, ds, dims).
Proof.
  intros H1 H2 w [= <- <- <-]. unfold try_insert_context.
  destruct (k_contexts w !! x_id x) eqn:E; [by apply H2|by apply H1].
Qed.

Lemma wp_update_context id f Φ Ψ xs ds dims :
  (∀ x, xs !! id = Some x → Φ (f x) (<[id := f x]> xs, ds, dims)) → Ψ (xs, ds, dims) →
  cwp (update_context id f) Φ Ψ (xs, ds, dims).
Proof.
  intros H1 H2 w [= <- <- <-]. unfold update_context.
  destruct (k_contexts w !! id) eqn:E; [by apply H1|done].
Qed.

Lemma wp_execute_update_context id f Φ Ψ xs ds dims :
  Φ tt (alter f id xs, ds, dims) → cwp (execute_update_context id f) Φ Ψ (xs, ds, dims).
Proof. by intros H1 w [= <- <- <-]. Qed.

Lemma wp_remove_context id Φ Ψ xs ds dims :
  (∀ x, xs !! id = Some x → Φ x (delete id xs, ds, dims)) → Ψ (xs, ds, dims) →
  cwp (remove_context id) Φ Ψ (xs, ds, dims).
Proof.
  intros H1 H2 w [= <- <- <-]. unfold remove_context.
  destruct (k_contexts w !! id) eqn:E; [by apply H1|done].
Qed.

Lemma wp_execute_delete_context id Φ Ψ xs ds dims :
  (∀ n, (n = 0 ↔ xs !! id = None) → Φ n (delete id xs, ds, dims)) →
  cwp (execute_delete_context id) Φ Ψ (xs, ds, dims).
Proof.
  intros H1 w [= <- <- <-]. apply H1. by destruct (k_contexts w !! id).
Qed.

Lemma wp_try_move_context old new f Φ Ψ xs ds dims :
  (∀ x, xs !! old = Some x → (new = old ∨ xs !! new = None) →
    Φ (Some (f x)) (<[new := f x]> (delete old xs), ds, dims)) →
  (∀ x y, xs !! old = Some x → new ≠ old → xs !! new = Some y → Φ None (xs, ds, dims)) →
  Ψ (xs, ds, dims) →
  cwp (try_move_context old new f) Φ Ψ (xs, ds, dims).
Proof.
  intros H1 H2 H3 w [= <- <- <-]. unfold try_move_context.
  destruct (k_contexts w !! old) as [x|] eqn:E; [|done].
  case_bool_decide as Hn.
  - destruct Hn as [Hn [y Hy]]. by eapply H2.
  - apply H1; [done|]. destruct (decide (new = old)) as [|Ho]; [by left|]. right.
    destruct (k_contexts w !! new) eqn:E'; [|done]. exfalso. apply Hn. by eauto.
Qed.

Lemma wp_insert_default_config d Φ Ψ xs ds dims :
  (ds !! dc_key d = None → Φ tt (xs, <[dc_key d := d]> ds, dims)) → Ψ (xs, ds, dims) →
  cwp (insert_default_config d) Φ Ψ (xs, ds, dims).
Proof.
  intros H1 H2 w [= <- <- <-]. unfold insert_default_config.
  destruct (k_default_configs w !! dc_key d) eqn:E; [done|by apply H1].
Qed.

Lemma wp_update_default_config key f Φ Ψ xs ds dims :
  (∀ d, ds !! key = Some d → Φ (f d) (xs, <[key := f d]> ds, dims)) → Ψ (xs, ds, dims) →
  cwp (update_default_config key f) Φ Ψ (xs, ds, dims).
Proof.
  intros H1 H2 w [= <- <- <-]. unfold update_default_config.
  destruct (k_default_configs w !! key) eqn:E; [by apply H1|done].
Qed.

Lemma wp_execute_delete_default_config key Φ Ψ xs ds dims :
  (∀ n, (n = 0 ↔ ds !! key = None) → Φ n (xs, delete key ds, dims)) →
  cwp (execute_delete_default_config key) Φ Ψ (xs, ds, dims).
Proof. intros H1 w [= <- <- <-]. apply H1. by destruct (k_default_configs w !! key). Qed.

Lemma wp_insert_dimension d Φ Ψ xs ds dims :
  (dims !! dm_dimension d = None → Φ d (xs, ds, <[dm_dimension d := d]> dims)) →
  Ψ (xs, ds, dims) → cwp (insert_dimension d) Φ Ψ (xs, ds, dims).
Proof.
  intros H1 H2 w [= <- <- <-]. unfold insert_dimension.
  destruct (k_dimensions w !! dm_dimension d) eqn:E; [done|by apply H1].
Qed.

Lemma wp_update_dimension name f Φ Ψ xs ds dims :
  (∀ d, dims !! name = Some d → Φ (f d) (xs, ds, <[name := f d]> dims)) → Ψ (xs, ds, dims) →
  cwp (update_dimension name f) Φ Ψ (xs, ds, dims).
Proof.
  intros H1 H2 w [= <- <- <-]. unfold update_dimension.
  destruct (k_dimensions w !! name) eqn:E; [by apply H1|done].
Qed.

Lemma wp_update_dimensions_where p f Φ Ψ xs ds dims :
  Φ tt (xs, ds, (λ d, if p d then f d else d) <$> dims) →
  cwp (update_dimensions_where p f) Φ Ψ (xs, ds, dims).
Proof. by intros H1 w [= <- <- <-]. Qed.

Lemma wp_execute_delete_dimension name Φ Ψ xs ds dims :
  (∀ n, (n = 0 ↔ dims !! name = None) → Φ n (xs, ds, delete name dims)) →
  cwp (execute_delete_dimension name) Φ Ψ (xs, ds, dims).
Proof. intros H1 w [= <- <- <-]. apply H1. by destruct (k_dimensions w !! name). Qed.
End statements.

(** ** Computations that write no row, and those that write a version only *)

(** A computation that writes no table but the three. *)
Abbreviation CacContained := (NeutralOn cac_rest).

Lemma silent_tables {A} (m : C A) : CacSilent m → CacNeutral m.
Proof. intros Hm w. exact (f_equal fst (Hm w)). Qed.
Lemma silent_rest {A} (m : C A) : CacSilent m → CacContained m.
Proof. intros Hm w. exact (f_equal snd (Hm w)). Qed.
Lemma contained_functions {A} (m : C A) : CacContained m → NeutralOn k_functions m.
Proof. intros Hm w. exact (f_equal (λ r : CacRest, r.1.1.2) (Hm w)). Qed.

#[export] Hint Resolve silent_tables silent_rest contained_functions : typeclass_instances.

Section neutral.
Context `{CacEnv} `{JsonParse} `{MapOrder}.

#[global] Instance cac_silent_clock : CacSilent cac_clock.
Proof. done. Qed.
#[global] Instance cac_silent_id : CacSilent cac_new_id.
Proof. done. Qed.
#[global] Instance cac_silent_node run : CacSilent (start_node run).
Proof. done. Qed.
#[global] Instance cac_silent_inject code : CacSilent (inject_variables_into_code code).
Proof. done. Qed.
#[global] Instance cac_silent_execute code args v : CacSilent (execute_fn code args v).
Proof. unfold execute_fn. solve_neutral. Qed.
#[global] Instance cac_silent_compile code : CacSilent (compile_fn code).
Proof. unfold compile_fn. solve_neutral. Qed.
#[global] Instance cac_silent_functions : CacSilent functions_table.
Proof. done. Qed.
#[global] Instance cac_silent_defaults : CacSilent default_configs_table.
Proof. done. Qed.
#[global] Instance cac_silent_dimensions : CacSilent dimensions_table.
Proof. done. Qed.
#[global] Instance cac_silent_count : CacSilent count_dimensions.
Proof. done. Qed.
#[global] Instance cac_silent_find_context id : CacSilent (find_context id).
Proof. done. Qed.
#[global] Instance cac_silent_find_default key : CacSilent (find_default_config key).
Proof. done. Qed.
#[global] Instance cac_silent_find_dimension name : CacSilent (find_dimension name).
Proof. done. Qed.
#[global] Instance cac_silent_infos : CacSilent fetch_dimensions_info_map.
Proof. unfold fetch_dimensions_info_map. solve_neutral. Qed.
#[global] Instance cac_silent_contexts : CacSilent all_contexts.
Proof. done. Qed.
#[global] Instance cac_silent_all_dimensions : CacSilent all_dimensions.
Proof. done. Qed.
#[global] Instance cac_silent_generate : CacSilent generate.
Proof. done. Qed.
#[global] Instance cac_neutral_insert_version v : CacNeutral (insert_version v).
Proof. intros w. unfold insert_version. by destruct (k_versions w !! cv_id v). Qed.
#[global] Instance cac_neutral_version `{Blake3} `{ConfigText} tags description :
  CacNeutral (add_config_version tags description).
Proof. unfold add_config_version. solve_neutral. Qed.
#[global] Instance cac_silent_published f : CacSilent (get_published_function_code f).
Proof. unfold get_published_function_code. solve_neutral. Qed.
#[global] Instance cac_silent_by_type t : CacSilent (get_first_function_by_type t).
Proof. unfold get_first_function_by_type. solve_neutral. Qed.
#[global] Instance cac_silent_executor n f args v :
  CacSilent (validation_function_executor n f args v).
Proof. unfold validation_function_executor. solve_neutral. Qed.
#[global] Instance cac_silent_run n f args : CacSilent (run_published n f args).
Proof. unfold run_published. solve_neutral. Qed.
#[global] Instance cac_silent_change_reason settings r :
  CacSilent (validate_change_reason settings r).
Proof. unfold validate_change_reason. solve_neutral. Qed.
#[global] Instance cac_silent_functions_map l : CacSilent (get_functions_map l).
Proof. unfold get_functions_map. solve_neutral. Qed.
#[global] Instance cac_silent_run_values m t e v : CacSilent (run_value_functions m t e v).
Proof. unfold run_value_functions. solve_neutral. Qed.
#[global] Instance cac_silent_check_published n : CacSilent (check_fn_published n).
Proof. unfold check_fn_published. solve_neutral. Qed.
#[global] Instance cac_silent_validation_function f : CacSilent (validate_validation_function f).
Proof. unfold validate_validation_function. solve_neutral. Qed.
#[global] Instance cac_silent_compute_function t f :
  CacSilent (validate_value_compute_function t f).
Proof. unfold validate_value_compute_function. solve_neutral. Qed.
End neutral.

(** * What the table of functions always satisfies

    The handlers of functions, variables and type templates write their own
    tables only; the two reserved functions are there and published whatever
    happens, and what is published is a draft there was. *)

(** ** Their own tables only *)

Section isolated.
#[global] Instance isolated_find n : CacSilent (find_function n).
Proof. done. Qed.
#[global] Instance isolated_update n f : CacNeutral (update_function n f).
Proof. intros w. unfold update_function. by destruct (_ !! _). Qed.
#[global] Instance isolated_execute_update n f : CacNeutral (execute_update_function n f).
Proof. done. Qed.
#[global] Instance isolated_delete n : CacNeutral (execute_delete_function n).
Proof. intros w. unfold execute_delete_function. by destruct (function_in_use n w). Qed.
#[global] Instance isolated_insert f : CacNeutral (insert_function f).
Proof. intros w. unfold insert_function. by destruct (_ !! _). Qed.
#[global] Instance isolated_insert_variable v : CacNeutral (insert_variable v).
Proof. intros w. unfold insert_variable. by destruct (_ !! _). Qed.
#[global] Instance isolated_update_variable n f : CacNeutral (update_variable n f).
Proof. intros w. unfold update_variable. by destruct (_ !! _). Qed.
#[global] Instance isolated_execute_variable n f : CacNeutral (execute_update_variable n f).
Proof. done. Qed.
#[global] Instance isolated_remove_variable n : CacNeutral (remove_variable n).
Proof. intros w. unfold remove_variable. by destruct (_ !! _). Qed.
#[global] Instance isolated_insert_template t : CacNeutral (insert_type_template t).
Proof. intros w. unfold insert_type_template. by destruct (_ !! _). Qed.
#[global] Instance isolated_update_template n f : CacNeutral (update_type_template n f).
Proof. intros w. unfold update_type_template. by destruct (_ !! _). Qed.
#[global] Instance isolated_execute_template n f : CacNeutral (execute_update_type_template n f).
Proof. done. Qed.
#[global] Instance isolated_remove_template n : CacNeutral (remove_type_template n).
Proof. intros w. unfold remove_type_template. by destruct (_ !! _). Qed.
End isolated.

(** Those on variables and type templates leave the functions alone. *)
Section fn_rest.
#[global] Instance functions_insert_variable v : NeutralOn k_functions (insert_variable v).
Proof. intros w. unfold insert_variable. by destruct (_ !! _). Qed.
#[global] Instance functions_update_variable n f : NeutralOn k_functions (update_variable n f).
Proof. intros w. unfold update_variable. by destruct (_ !! _). Qed.
#[global] Instance functions_execute_variable n f :
  NeutralOn k_functions (execute_update_variable n f).
Proof. done. Qed.
#[global] Instance functions_remove_variable n : NeutralOn k_functions (remove_variable n).
Proof. intros w. unfold remove_variable. by destruct (_ !! _). Qed.
#[global] Instance functions_insert_template t : NeutralOn k_functions (insert_type_template t).
Proof. intros w. unfold insert_type_template. by destruct (_ !! _). Qed.
#[global] Instance functions_update_template n f :
  NeutralOn k_functions (update_type_template n f).
Proof. intros w. unfold update_type_template. by destruct (_ !! _). Qed.
#[global] Instance functions_execute_template n f :
  NeutralOn k_functions (execute_update_type_template n f).
Proof. done. Qed.
#[global] Instance functions_remove_template n : NeutralOn k_functions (remove_type_template n).
Proof. intros w. unfold remove_type_template. by destruct (_ !! _). Qed.
End fn_rest.

(** ** The invariant *)

Abbreviation Functions_ := (gmap string Function).
Abbreviation fwp := (wp_on k_functions).

Definition is_published (f : Function) : Prop :=
  is_Some (fn_published_code f) ∧ is_Some (fn_published_runtime_version f).

(** A row is stored under its name; code is published with a version. *)
Record function_ok (name : string) (f : Function) : Prop := {
  fo_name : fn_function_name f = name;
  fo_published : is_Some (fn_published_code f) ↔ is_Some (fn_published_runtime_version f);
  fo_context : fn_function_type f = ContextValidation → name = CONTEXT_VALIDATION_FN_NAME;
  fo_reason : fn_function_type f = ChangeReasonValidation → name = CHANGE_REASON_VALIDATION_FN_NAME;
}.

Definition reserved_there (fs : Functions_) (name : string) (t : FunctionType) : Prop :=
  ∃ f, fs !! name = Some f ∧ fn_function_type f = t ∧ is_published f.

Record functions_good (fs : Functions_) : Prop := {
  fg_rows : ∀ name f, fs !! name = Some f → function_ok name f;
  fg_context : reserved_there fs CONTEXT_VALIDATION_FN_NAME ContextValidation;
  fg_reason : reserved_there fs CHANGE_REASON_VALIDATION_FN_NAME ChangeReasonValidation;
}.

(** An update that keeps the name and the type, and what is published or
    publishes. *)
Lemma functions_good_update fs name f f' :
  functions_good fs → fs !! name = Some f →
  fn_function_name f' = fn_function_name f → fn_function_type f' = fn_function_type f →
  (is_published f' ∨ fn_published_code f' = fn_published_code f ∧
     fn_published_runtime_version f' = fn_published_runtime_version f) →
  functions_good (<[name := f']> fs).
Proof.
  intros [H1 H2 H3] Hf Hn Ht Hp. pose proof (H1 _ _ Hf) as [Hfn Hfp Hfc Hfr].
  assert (∀ n t, reserved_there fs n t → reserved_there (<[name := f']> fs) n t) as Hres.
  { intros n t (g & Hg & Hgt & Hgp). destruct (decide (name = n)) as [<-|Hne].
    - exists f'. rewrite lookup_insert_eq. simplify_eq. split_and!; [done|congruence|].
      destruct Hp as [Hp|[Hc Hv]]; [done|]. unfold is_published. by rewrite Hc, Hv.
    - exists g. by rewrite lookup_insert_ne. }
  split; [|by apply Hres..].
  intros n g [[<- <-]|[_ Hg]]%lookup_insert_Some; [|by apply H1].
  split; [congruence| |rewrite Ht; auto..].
  destruct Hp as [[Hc Hv]|[-> ->]]; done.
Qed.

Section statements.
Implicit Types (fs : Functions_).

Lemma fwp_find_function n Φ Ψ fs :
  (∀ f, fs !! n = Some f → Φ f fs) → Ψ fs → fwp (find_function n) Φ Ψ fs.
Proof.
  intros H1 H2 w <-. unfold find_function. destruct (k_functions w !! n) eqn:E; [by apply H1|done].
Qed.

Lemma fwp_update_function n (g : Function → Function) Φ Ψ fs :
  (∀ f, fs !! n = Some f → Φ (g f) (<[n := g f]> fs)) → Ψ fs →
  fwp (update_function n g) Φ Ψ fs.
Proof.
  intros H1 H2 w <-. unfold update_function. destruct (k_functions w !! n) eqn:E; [by apply H1|done].
Qed.

Lemma fwp_execute_update_function n g Φ Ψ fs :
  Φ tt (alter g n fs) → fwp (execute_update_function n g) Φ Ψ fs.
Proof. by intros H1 w <-. Qed.

Lemma fwp_execute_delete_function n Φ Ψ fs :
  (∀ k, Φ k (delete n fs)) → Ψ fs → fwp (execute_delete_function n) Φ Ψ fs.
Proof.
  intros H1 H2 w <-. unfold execute_delete_function. destruct (function_in_use n w); [done|apply H1].
Qed.

Lemma fwp_insert_function f Φ Ψ fs :
  (fs !! fn_function_name f = None → Φ f (<[fn_function_name f := f]> fs)) → Ψ fs →
  fwp (insert_function f) Φ Ψ fs.
Proof.
  intros H1 H2 w <-. unfold insert_function.
  destruct (k_functions w !! fn_function_name f) eqn:E; [done|by apply H1].
Qed.
End statements.

Lemma silent_functions {A} (m : C A) : CacSilent m → NeutralOn k_functions m.
Proof. intros Hm. by apply contained_functions, silent_rest. Qed.

Section handlers.
Context `{CacEnv} `{JsonParse} `{MapOrder} `{JsonSchema}.
Implicit Types (fs : Functions_).

(** The invariant after a handler, whether it fails or not. *)
Definition keeps_functions {A} (m : C A) : Prop :=
  ∀ fs, functions_good fs → fwp m (λ _, functions_good) functions_good fs.

Lemma keeps_neutral {A} (m : C A) : NeutralOn k_functions m → keeps_functions m.
Proof. intros Hm fs G. by apply wp_neutral. Qed.

Lemma keeps_bind {A B} (m : C B) (f : B → C A) :
  keeps_functions m → (∀ b, keeps_functions (f b)) → keeps_functions (m ≫= f).
Proof.
  intros Hm Hf fs G. apply wp_bind. eapply wp_mono; [by apply Hm| |done].
  intros b fs' G'. by apply Hf.
Qed.

Lemma keeps_create settings req user : keeps_functions (function_create_handler settings req user).
Proof.
  unfold function_create_handler. destruct (reserved (cf_function_type req)) eqn:Hr.
  { by apply keeps_neutral. }
  do 3 (apply keeps_bind; [apply keeps_neutral, silent_functions; apply _|intros ?]).
  intros fs [G1 G2 G3]. apply fwp_insert_function; [|done]. intros Hnone. split.
  - intros n f [[<- <-]|[_ Hf]]%lookup_insert_Some; [|by apply G1].
    split; [done| |..]; simpl; [|by intros Ht; rewrite Ht in Hr..].
    split; by intros [? ?].
  - destruct G2 as (f & Hf & Hrest). exists f. split; [|done].
    rewrite lookup_insert_ne; [done|]. intros Heq. simpl in *. congruence.
  - destruct G3 as (f & Hf & Hrest). exists f. split; [|done].
    rewrite lookup_insert_ne; [done|]. intros Heq. simpl in *. congruence.
Qed.

Lemma keeps_update settings name req user :
  keeps_functions (function_update_handler settings name req user).
Proof.
  unfold function_update_handler.
  do 4 (apply keeps_bind; [apply keeps_neutral, silent_functions; solve_neutral|intros ?]).
  intros fs G. apply fwp_update_function; [|done]. intros f Hf.
  eapply functions_good_update; [done|done|done|done|]. by right.
Qed.

Lemma keeps_publish settings name reason user :
  keeps_functions (function_publish_handler settings name reason user).
Proof.
  intros fs G. unfold function_publish_handler. apply wp_bind, fwp_find_function; [|done].
  intros f Hf.
  do 3 (apply wp_bind, wp_neutral; [apply silent_functions; solve_neutral|intros ?|done]).
  apply fwp_update_function; [|done]. intros f' Hf'. simplify_eq.
  eapply functions_good_update; [done|done|done|done|]. left. split; by eexists.
Qed.

Lemma keeps_delete name user : keeps_functions (function_delete_handler name user).
Proof.
  intros fs G. unfold function_delete_handler. apply wp_bind, fwp_find_function; [|done].
  intros f Hf. destruct (reserved (fn_function_type f)) eqn:Hr; [by apply wp_fail|].
  apply wp_bind, wp_neutral; [apply silent_functions; solve_neutral|intros time|done].
  apply wp_bind, fwp_execute_update_function.
  assert (functions_good (alter (λ f, touch_function f time (user_email user)) name fs)) as G'.
  { rewrite (alter_found _ _ _ f) by done.
    eapply functions_good_update; [done|done|done|done|]. by right. }
  apply wp_bind, fwp_execute_delete_function; [|done]. intros k.
  assert (functions_good (delete name
    (alter (λ f, touch_function f time (user_email user)) name fs))) as G2.
  { assert (∀ n t, reserved t = true → reserved_there fs n t → name ≠ n) as Hne.
    { intros n t Ht (g & Hg & <- & _) ->. congruence. }
    rewrite delete_alter_eq. destruct G as [G1 G2 G3]. split.
    - intros n g [_ Hg]%lookup_delete_Some. by apply G1.
    - pose proof (Hne _ ContextValidation eq_refl G2). destruct G2 as (g & Hg & ?). exists g.
      by rewrite lookup_delete_ne.
    - pose proof (Hne _ ChangeReasonValidation eq_refl G3). destruct G3 as (g & Hg & ?). exists g.
      by rewrite lookup_delete_ne. }
  destruct (k =? 0); [by apply wp_fail|by apply wp_ret].
Qed.
End handlers.

(** The first function of a reserved type is the only one. *)
Lemma first_function_unique `{MapOrder} {Ook : MapOrderOk _} w t name f :
  functions_good (k_functions w) → reserved t = true → k_functions w !! name = Some f →
  fn_function_type f = t → get_first_function_by_type t w = (Ok (function_info f), w).
Proof.
  intros G Ht Hf Hft. unfold get_first_function_by_type, functions_table, mbind, ST_bind, lift.
  f_equal. set (p := λ i, bool_decide (fi_function_type i = t)).
  set (l := List.filter p (map_order (function_info <$> k_functions w)).*2).
  assert (∀ i, i ∈ l → i = function_info f) as Hall.
  { intros i [Hi Hp]%elem_of_filterb. apply bool_decide_eq_true in Hp.
    apply list_elem_of_fmap in Hi as ([n i'] & -> & Hi). apply elem_of_map_order in Hi.
    rewrite lookup_fmap, fmap_Some in Hi. destruct Hi as (g & Hg & ->). simpl in *.
    destruct (fg_rows _ G _ _ Hg) as [_ _ Hgc Hgr], (fg_rows _ G _ _ Hf) as [_ _ Hfc Hfr].
    assert (n = name) as ->; [|congruence].
    destruct t; try done; [rewrite Hgc, Hfc by done|rewrite Hgr, Hfr by done]; done. }
  assert (function_info f ∈ l) as Hin.
  { apply elem_of_filterb. split; [|by apply bool_decide_eq_true].
    apply list_elem_of_fmap. exists (name, function_info f). split; [done|].
    apply elem_of_map_order. by rewrite lookup_fmap, Hf. }
  destruct l as [|i l]; [by apply elem_of_nil in Hin|]. simpl. by rewrite (Hall i) by set_solver.
Qed.
