(* ===== verification/CacRefine.v ===== *)
(** * The handlers of dimensions refine their specification

    On tables that satisfy the invariant, the transaction of every handler of
    dimensions performs one step of [DimSpec], or several when rows are
    repositioned without a change. *)

From stdpp Require Import relations.
From S2P Require Import Prelude Stack Json Types Text Effects Logic LogicProps Config Resolve CacClient ExpChecks CacStore CacConfig Contexts Dimensions DimSpec CacInv.

(** ** Tables after the statements *)

Section rows.
Implicit Types (dims : gmap string Dimension) (f : Dimension → Dimension).

Lemma where_name dims name f : dims_keyed dims →
  (λ d, if bool_decide (dm_dimension d = name) then f d else d) <$> dims = alter f name dims.
Proof.
  intros K. apply map_eq. intros k. rewrite lookup_fmap.
  destruct (decide (k = name)) as [->|Hk].
  - rewrite lookup_alter_eq. destruct (dims !! name) eqn:E; [|done]. simpl.
    by rewrite bool_decide_eq_true_2 by (by apply K).
  - rewrite lookup_alter_ne by done. destruct (dims !! k) eqn:E; [|done]. simpl.
    rewrite bool_decide_eq_false_2; [done|]. by rewrite (K _ _ E).
Qed.

Lemma keyed_fmap dims f : (∀ d, dm_dimension (f d) = dm_dimension d) →
  dims_keyed dims → dims_keyed (f <$> dims).
Proof.
  intros Hf K k d. rewrite lookup_fmap. intros (d0 & Hd0 & ->)%fmap_Some.
  rewrite Hf. by apply K.
Qed.

Lemma keyed_insert_dim dims name d :
  dm_dimension d = name → dims_keyed dims → dims_keyed (<[name := d]> dims).
Proof. intros Hd K k d'. rewrite lookup_insert_Some. intros [[<- <-]|[_ ?]]; [done|by apply K]. Qed.

Lemma keyed_alter dims name f : (∀ d, dm_dimension (f d) = dm_dimension d) →
  dims_keyed dims → dims_keyed (alter f name dims).
Proof.
  intros Hf K k d. rewrite lookup_alter_Some.
  intros [(<- & d0 & Hd0 & ->)|[_ ?]]; [rewrite Hf; by apply K|by apply K].
Qed.

Lemma dims_keyed_delete dims name : dims_keyed dims → dims_keyed (delete name dims).
Proof. intros K k d. rewrite lookup_delete_Some. intros [_ ?]. by apply K. Qed.

(** Rows rewritten without a change of their shape. *)
Lemma shapes_alter_same dims name f : (∀ d, shape_of (f d) = shape_of d) →
  shapes (alter f name dims) = shapes dims.
Proof.
  intros Hf. apply map_eq. intros k. unfold shapes. rewrite !lookup_fmap.
  destruct (decide (k = name)) as [->|Hk].
  - rewrite lookup_alter_eq. destruct (dims !! name); simpl; by rewrite ?Hf.
  - by rewrite lookup_alter_ne.
Qed.
End rows.

(** ** The graphs *)

(** The shapes after the loop over the dimensions. *)
Definition regraph (graph_of : string → DependencyGraph → option DependencyGraph) (D : Shapes)
    : Shapes :=
  map_imap (λ k s, Some (mkShape (s_position s) (s_type s)
    (default (s_graph s) (graph_of k (s_graph s))))) D.

Lemma regraph_lookup graph_of D k : regraph graph_of D !! k =
  (λ s, mkShape (s_position s) (s_type s) (default (s_graph s) (graph_of k (s_graph s)))) <$> D !! k.
Proof. unfold regraph. rewrite map_lookup_imap. by destruct (D !! k). Qed.

Section graphs.
Context `{CacEnv} `{JsonParse} `{MapOrder} {Ook : MapOrderOk _}.
Implicit Types (dims : gmap string Dimension).

Lemma wp_update_dimensions_in_db dim graph reason email Φ (P : Prop) xs ds dims :
  dims_keyed dims → P →
  (∀ time reason, Φ tt (xs, ds, alter (λ _, set_graph dim graph reason time email)
    (dm_dimension dim) dims)) →
  cwp (update_dimensions_in_db dim graph reason email) Φ (λ _, P) (xs, ds, dims).
Proof.
  intros K HP HΦ. unfold update_dimensions_in_db.
  apply wp_bind, wp_lift; [|done]. intros reason' _.
  apply wp_bind, wp_neutral; [apply _|intros time|done].
  apply wp_update_dimensions_where. by rewrite where_name.
Qed.

(** The loop, over rows that are still those of the table. *)
Lemma wp_graph_loop graph_of reason email l Φ (P : Prop) xs ds dims :
  dims_keyed dims → P → NoDup (dm_dimension <$> l) →
  (∀ d, d ∈ l → dims !! dm_dimension d = Some d) →
  (∀ dims', dims_keyed dims' →
    (∀ k, shapes dims' !! k = if decide (k ∈ dm_dimension <$> l)
                              then regraph graph_of (shapes dims) !! k else shapes dims !! k) →
    Φ tt (xs, ds, dims')) →
  cwp (for_each (λ dim,
      match graph_of (dm_dimension dim) (dm_dependency_graph dim) with
      | Some graph => update_dimensions_in_db dim graph reason email
      | None => mret tt
      end) l) Φ (λ _, P) (xs, ds, dims).
Proof.
  intros K HP. revert dims K. induction l as [|d l IH]; intros dims K Hnd Hl HΦ; simpl.
  { apply wp_ret, HΦ; [done|]. intros k. case_decide as Hk; [by apply elem_of_nil in Hk|done]. }
  apply NoDup_cons in Hnd as [Hd Hnd]. assert (dims !! dm_dimension d = Some d) as Hrow by set_solver.
  assert (∀ dims2, dims_keyed dims2 → (∀ k, k ≠ dm_dimension d → dims2 !! k = dims !! k) →
    shapes dims2 !! dm_dimension d = regraph graph_of (shapes dims) !! dm_dimension d →
    cwp (for_each (λ dim,
      match graph_of (dm_dimension dim) (dm_dependency_graph dim) with
      | Some graph => update_dimensions_in_db dim graph reason email
      | None => mret tt
      end) l) Φ (λ _, P) (xs, ds, dims2)) as Hrest.
  { intros dims2 K2 Hsame Hshape. apply IH; [done|done| |].
    - intros d' Hd'. rewrite Hsame; [apply Hl; set_solver|]. intros Heq. apply Hd.
      rewrite <- Heq. by apply list_elem_of_fmap_2.
    - intros dims' K' Hk'. apply HΦ; [done|]. intros k. rewrite Hk', fmap_cons.
      assert (k ≠ dm_dimension d → shapes dims2 !! k = shapes dims !! k) as Hother.
      { intros Hk. unfold shapes. by rewrite !lookup_fmap, Hsame. }
      destruct (decide (k = dm_dimension d)) as [->|Hk].
      + rewrite decide_False by done. rewrite decide_True by (apply list_elem_of_here). done.
      + rewrite !regraph_lookup, Hother by done.
        destruct (decide (k ∈ dm_dimension <$> l)) as [Hin|Hin].
        * by rewrite decide_True by set_solver.
        * by rewrite decide_False by set_solver. }
  apply wp_bind. destruct (graph_of _ _) as [graph|] eqn:Hg.
  - apply wp_update_dimensions_in_db; [done|done|]. intros time reason'. apply Hrest.
    + intros k d'. rewrite lookup_alter_Some.
      intros [(<- & d0 & Hd0 & ->)|[_ ?]]; [done|by apply K].
    + intros k Hk. by rewrite lookup_alter_ne.
    + rewrite regraph_lookup. unfold shapes. rewrite !lookup_fmap, lookup_alter_eq, Hrow. simpl.
      by rewrite Hg.
  - apply wp_ret, Hrest; [done|done|]. rewrite regraph_lookup. unfold shapes.
    rewrite lookup_fmap, Hrow. simpl. by rewrite Hg.
Qed.

Lemma wp_update_graphs graph_of reason email Φ (P : Prop) xs ds dims :
  dims_keyed dims → P →
  (∀ dims', dims_keyed dims' → shapes dims' = regraph graph_of (shapes dims) →
    Φ tt (xs, ds, dims')) →
  cwp (update_graphs graph_of reason email) Φ (λ _, P) (xs, ds, dims).
Proof.
  intros K HP HΦ. unfold update_graphs. apply wp_bind, wp_all_dimensions.
  assert (dm_dimension <$> (map_order dims).*2 = (map_order dims).*1) as Hnames.
  { rewrite <- list_fmap_compose. apply list_fmap_ext. intros i [k d] Hi. simpl. apply K.
    apply elem_of_map_order. by eapply list_elem_of_lookup_2. }
  apply wp_graph_loop; [done|done|rewrite Hnames; apply NoDup_fst_map_order| |].
  - intros d ([k d'] & -> & Hd)%list_elem_of_fmap. apply elem_of_map_order in Hd. simpl.
    by rewrite (K _ _ Hd).
  - intros dims' K' Hk. apply HΦ; [done|]. apply map_eq. intros k. rewrite Hk, Hnames.
    case_decide as Hin; [done|]. rewrite regraph_lookup. unfold shapes. rewrite lookup_fmap.
    destruct (dims !! k) eqn:E; [|done]. exfalso. apply Hin, list_elem_of_fmap.
    eexists (k, _). split; [done|]. by apply elem_of_map_order.
Qed.
End graphs.

(** ** The transactions *)

Lemma created_eq name p t D : created name p t D = <[name := mkShape p t ∅]>
  (match cohort_base t with
   | Some base => regraph (graph_after_creation base name)
   | None => id
   end ((λ s, mkShape (make_room p (s_position s)) (s_type s) (s_graph s)) <$> D)).
Proof.
  unfold created. f_equal. apply map_eq. intros k. rewrite map_lookup_imap.
  destruct (cohort_base t); simpl; rewrite ?regraph_lookup, lookup_fmap; by destruct (D !! k).
Qed.

Lemma erased_eq name s0 D : erased name s0 D =
  (λ s, mkShape (close_gap (s_position s0) (s_position s)) (s_type s) (s_graph s)) <$>
  delete name (match cohort_base (s_type s0) with
               | Some base => regraph (graph_after_removal name base)
               | None => id
               end D).
Proof.
  unfold erased. apply map_eq. intros k. rewrite lookup_fmap.
  destruct (decide (k = name)) as [->|Hk]; [by rewrite !lookup_delete_eq|].
  rewrite !lookup_delete_ne, map_lookup_imap by done.
  destruct (cohort_base (s_type s0)); simpl; rewrite ?regraph_lookup; by destruct (D !! k).
Qed.

Section transactions.
Context `{CacEnv} `{JsonParse} `{MapOrder} {Ook : MapOrderOk _}.
Implicit Types (dims : gmap string Dimension).

Lemma wp_store_dimension d user Φ (P : Prop) xs ds dims :
  dims_keyed dims → dm_dependency_graph d = ∅ → P →
  (dims !! dm_dimension d = None → ∀ dims', dims_keyed dims' →
    shapes dims' = created (dm_dimension d) (dm_position d) (dm_dimension_type d) (shapes dims) →
    Φ d (xs, ds, dims')) →
  cwp (store_dimension d user) Φ (λ _, P) (xs, ds, dims).
Proof.
  intros K Hd HP HΦ. unfold store_dimension.
  apply wp_bind, wp_neutral; [apply _|intros time|done].
  apply wp_bind, wp_update_dimensions_where.
  set (dims1 := _ <$> dims). assert (dims_keyed dims1) as K1.
  { apply keyed_fmap; [|done]. intros d0. by case_match. }
  assert (shapes dims1 = (λ s, mkShape (make_room (dm_position d) (s_position s)) (s_type s)
    (s_graph s)) <$> shapes dims) as Hs1.
  { unfold shapes, dims1. rewrite <- !map_fmap_compose. apply map_fmap_ext. intros k d0 _. cbn.
    unfold make_room. by case_bool_decide. }
  assert (∀ dims2, dims_keyed dims2 → shapes dims2 =
      match cohort_base (dm_dimension_type d) with
      | Some base => regraph (graph_after_creation base (dm_dimension d))
      | None => id
      end (shapes dims1) →
    cwp (insert_dimension d) Φ (λ _, P) (xs, ds, dims2)) as Hinsert.
  { intros dims2 K2 Hs2. apply wp_insert_dimension; [|done]. intros Hnone. apply HΦ.
    - assert (shapes dims2 !! dm_dimension d = None) as Hn by (unfold shapes; by rewrite lookup_fmap, Hnone).
      rewrite Hs2, Hs1 in Hn. destruct (cohort_base _); simpl in Hn;
      rewrite ?regraph_lookup, ?fmap_None in Hn; unfold shapes in Hn;
      rewrite !lookup_fmap in Hn; by repeat apply fmap_None in Hn.
    - by apply keyed_insert_dim.
    - rewrite created_eq, <- Hs1, <- Hs2. unfold shapes. rewrite fmap_insert. f_equal.
      unfold shape_of. by rewrite Hd. }
  apply wp_bind. destruct (cohort_base (dm_dimension_type d)) as [base|].
  - unfold create_connections_with_dependents. apply wp_update_graphs; [done|done|].
    intros dims2 K2 Hs2. by apply Hinsert.
  - by apply wp_ret, Hinsert.
Qed.

Lemma wp_erase_dimension name d user Φ (P : Prop) xs ds dims :
  dims_keyed dims → dims !! name = Some d → P →
  (dm_dependency_graph d = ∅ → ∀ dims', dims_keyed dims' →
    shapes dims' = erased name (shape_of d) (shapes dims) → Φ tt (xs, ds, dims')) →
  cwp (erase_dimension name d user) Φ (λ _, P) (xs, ds, dims).
Proof.
  intros K Hd HP HΦ. unfold erase_dimension. rewrite (K _ _ Hd).
  case_bool_decide as Hg; cbn [negb]; [|by apply wp_bad].
  assert (∀ dims1, dims_keyed dims1 → shapes dims1 =
      match cohort_base (dm_dimension_type d) with
      | Some base => regraph (graph_after_removal name base)
      | None => id
      end (shapes dims) →
    cwp (time ← cac_clock;
    _ ← update_dimensions_where (λ d, bool_decide (dm_dimension d = name))
      (λ d, touch_dimension d time (user_email user));
    deleted_row ← execute_delete_dimension name;
    _ ← update_dimensions_where (λ d0, bool_decide (dm_position d < dm_position d0)%Z) shift_down;
    if deleted_row =? 0 then fail (NotFound ("Dimension `" +:+ name +:+ "` doesn't exists"))
    else mret tt) Φ (λ _, P) (xs, ds, dims1)) as Hrest.
  { intros dims1 K1 Hs1. apply wp_bind, wp_neutral; [apply _|intros time|done].
    apply wp_bind, wp_update_dimensions_where. rewrite where_name by done.
    apply wp_bind, wp_execute_delete_dimension. intros n _.
    apply wp_bind, wp_update_dimensions_where. destruct (n =? 0); [by apply wp_fail|].
    apply wp_ret, HΦ; [done|..].
    - apply keyed_fmap; [intros d0; by case_bool_decide|]. by apply dims_keyed_delete, keyed_alter.
    - rewrite erased_eq. simpl. rewrite <- Hs1. unfold shapes.
      apply map_eq. intros k. rewrite !lookup_fmap.
      destruct (decide (k = name)) as [->|Hk]; [by rewrite !lookup_delete_eq|].
      rewrite !lookup_delete_ne, lookup_alter_ne, lookup_fmap by done.
      destruct (dims1 !! k) as [d1|]; [|done]. simpl. f_equal. unfold close_gap.
      by case_bool_decide. }
  apply wp_bind. destruct (cohort_base (dm_dimension_type d)) as [base|].
  - unfold remove_connections_with_dependents. apply wp_update_graphs; [done|done|].
    intros dims2 K2 Hs2. by apply Hrest.
  - by apply wp_ret, Hrest.
Qed.

(** What the checks of a new position find. *)
Lemma check_dependents_ok dims position l :
  check_dependents (dimensions_info dims) position l = Ok tt →
  ∀ x, x ∈ l → ∃ d, dims !! x = Some d ∧ (dm_position d < position)%Z.
Proof.
  induction l as [|y l IH]; intros Hl x; [by intros ?%elem_of_nil|]. simpl in Hl.
  apply result_bind_ok in Hl as (info & Hy & Hl). unfold dimensions_info in Hy.
  rewrite lookup_fmap in Hy. destruct (dims !! y) as [d|] eqn:E; [|done]. simplify_eq/=.
  case_bool_decide; [done|]. intros [->|Hx]%elem_of_cons; [exists d; split; [done|lia]|by apply IH].
Qed.

Lemma wp_validate_position_wrt_dependency name position d Φ (P : Prop) xs ds dims :
  dims !! name = Some d → P →
  ((∀ x, x ∈ default [] (dm_dependency_graph d !! name) →
    ∃ dx, dims !! x = Some dx ∧ (dm_position dx < position)%Z) → Φ tt (xs, ds, dims)) →
  cwp (validate_position_wrt_dependency name position) Φ (λ _, P) (xs, ds, dims).
Proof.
  intros Hd HP HΦ. unfold validate_position_wrt_dependency.
  apply wp_bind, wp_fetch_dimensions_info_map. apply wp_bind, wp_lift; [|done].
  intros info Hinfo. unfold dimensions_info in Hinfo. rewrite lookup_fmap, Hd in Hinfo.
  simplify_eq/=. destruct (dm_dependency_graph d !! name) as [l|]; apply wp_lift; try done.
  - intros [] Hl. apply HΦ. by apply check_dependents_ok.
  - intros [] _. apply HΦ. by intros x ?%elem_of_nil.
Qed.

(** The other rows make way, then the row itself is put in its place. *)
Lemma wp_shift_then_apply name d d1 req new user q f Φ (P : Prop) xs ds dims :
  dims_keyed dims → dims !! name = Some d → P → ud_position req = Some new →
  dm_dimension d1 = name → dm_dimension_type d1 = dm_dimension_type d →
  dm_dependency_graph d1 = dm_dependency_graph d →
  (∀ d2, dm_dimension (f d2) = dm_dimension d2) →
  (∀ d2, q d2 = true → shape_of (f d2) = mkShape (make_way (dm_position d) new (dm_position d2))
    (dm_dimension_type d2) (dm_dependency_graph d2)) →
  (∀ d2, q d2 = false → dm_position d2 = make_way (dm_position d) new (dm_position d2)) →
  (∀ d' dims', dims_keyed dims' → is_Some (dims' !! name) →
    shapes dims' = moved name (dm_position d) new (shapes dims) → Φ d' (xs, ds, dims')) →
  cwp (update_dimensions_where q f) (λ _ t, cwp (time ← cac_clock;
      update_dimension name (λ d, apply_update req d time (user_email user)))
      Φ (λ _, P) t) (λ _, P) (xs, ds, <[name := d1]> dims).
Proof.
  intros K Hd HP Hpos Hn Hty Hg Hf Hq1 Hq2 HΦ. apply wp_update_dimensions_where.
  set (dims1 := <[name := d1]> dims). set (dims2 := _ <$> dims1).
  assert (dims_keyed dims2) as K2.
  { apply keyed_fmap; [intros d2; by destruct (q d2)|]. by apply keyed_insert_dim. }
  apply wp_bind, wp_neutral; [apply _|intros time|done].
  apply wp_update_dimension; [|done]. intros d2 Hd2. apply HΦ.
  - apply keyed_insert_dim; [exact (K2 _ _ Hd2)|done].
  - rewrite lookup_insert_eq. eauto.
  - apply map_eq. intros k. unfold shapes at 1. rewrite fmap_insert. unfold moved.
    rewrite map_lookup_imap. unfold dims2, dims1 in Hd2.
    rewrite lookup_fmap, lookup_insert_eq in Hd2. simpl in Hd2.
    destruct (decide (k = name)) as [->|Hk].
    + rewrite lookup_insert_eq. unfold shapes. rewrite lookup_fmap, Hd. simpl.
      rewrite bool_decide_eq_true_2 by done. unfold shape_of, apply_update. simpl.
      rewrite Hpos. simpl. injection Hd2 as <-. rewrite <- Hty, <- Hg.
      destruct (q d1) eqn:Hq; [|done]. apply Hq1 in Hq. injection Hq as _ -> ->. done.
    + rewrite lookup_insert_ne by done. unfold dims2, dims1, shapes.
      rewrite !lookup_fmap, lookup_insert_ne by done.
      destruct (dims !! k) as [d3|]; [|done]. simpl. rewrite bool_decide_eq_false_2 by done.
      f_equal. destruct (q d3) eqn:Hq; [exact (Hq1 _ Hq)|]. by rewrite <- (Hq2 _ Hq).
Qed.

Lemma wp_store_updated name d req num_rows user Φ (P : Prop) xs ds dims :
  dims_keyed dims → dims !! name = Some d → P →
  (∀ d' dims', dims_keyed dims' → is_Some (dims' !! name) →
    match ud_position req with
    | None => shapes dims' = shapes dims
    | Some new =>
        validate_dimension_position name new (num_rows - 1) = Ok tt ∧
        (∀ x, x ∈ default [] (dm_dependency_graph d !! name) →
          ∃ dx, dims !! x = Some dx ∧ (dm_position dx < new)%Z) ∧
        shapes dims' = moved name (dm_position d) new (shapes dims)
    end → Φ d' (xs, ds, dims')) →
  cwp (store_updated name d req num_rows user) Φ (λ _, P) (xs, ds, dims).
Proof.
  intros K Hd HP HΦ. unfold store_updated, check_field.
  destruct (ud_position req) as [new|] eqn:Hpos; apply wp_bind.
  - apply wp_bind, wp_lift; [|done]. intros [] Hnew.
    apply wp_bind, (wp_validate_position_wrt_dependency _ _ d); [done|done|]. intros Hdep.
    unfold reposition. apply wp_bind, wp_neutral; [apply _|intros time|done].
    apply wp_bind, wp_update_dimension; [|done]. intros d0 Hd0. simplify_eq.
    apply wp_bind, wp_neutral; [apply _|intros time2|done].
    case_bool_decide as Hlt; (eapply wp_shift_then_apply; [exact K|exact Hd|exact HP|exact Hpos
      |exact (K _ _ Hd)|done..| | |intros ? ? ? ? ?; by apply HΦ]).
    all: intros d2; unfold make_way;
      try (rewrite (bool_decide_eq_true_2 _ Hlt)); try (rewrite (bool_decide_eq_false_2 _ Hlt)).
    all: rewrite ?andb_true_iff, ?andb_false_iff, ?bool_decide_eq_true, ?bool_decide_eq_false.
    all: intros Hq; rewrite ?bool_decide_eq_true_2 by done; try done.
    all: rewrite bool_decide_eq_false_2; [done|lia].
  - apply wp_ret. apply wp_bind, wp_neutral; [apply _|intros time|done].
    apply wp_update_dimension; [|done]. intros d0 Hd0. simplify_eq. apply HΦ.
    + apply keyed_insert_dim; [exact (K _ _ Hd)|done].
    + rewrite lookup_insert_eq. eauto.
    + unfold shapes. rewrite fmap_insert. apply insert_id. rewrite lookup_fmap, Hd. simpl.
      f_equal. unfold shape_of, apply_update. simpl. by rewrite Hpos.
Qed.
End transactions.

(** * The operations on contexts keep the tables consistent

    What the checks of the configuration service establish, and the effect of
    every operation of [Contexts] on tables that satisfy the invariant. *)

Lemma check_entries_ok f l : check_entries f l = Ok tt → ∀ k v, (k, v) ∈ l → f k v = Ok tt.
Proof.
  induction l as [|[k0 v0] l IH]; intros Hl k v; [by intros ?%elem_of_nil|]. simpl in Hl.
  apply result_bind_ok in Hl as ([] & H0 & Hl). intros [[= -> ->]|Hk]%elem_of_cons; [done|by apply IH].
Qed.

Section checks.
Context `{CacEnv} `{JsonParse} `{MapOrder} `{FloatText} `{Blake3} `{ConfigText} `{JsonText} `{JsonSchema}.
Implicit Types (ds : gmap string DefaultConfig) (dims : gmap string Dimension).

Lemma validate_dimensions_ok cond dims :
  validate_dimensions cond (dimensions_info dims) = Ok tt →
  ∀ d, is_Some (cond !! d) → is_Some (dims !! d).
Proof.
  intros Hc d [v Hv]. apply elem_of_sorted_entries in Hv.
  apply (check_entries_ok _ _ Hc) in Hv. apply result_bind_ok in Hv as (info & Hd & _).
  unfold dimensions_info in Hd. rewrite lookup_fmap in Hd. by destruct (dims !! d).
Qed.

Lemma override_entries_ok ds (override_ : Overrides) :
  check_entries (override_entry_ok ds) (sorted_entries override_) = Ok tt →
  ∀ k, is_Some (override_ !! k) → is_Some (ds !! k).
Proof.
  intros Hc k [v Hv]. apply elem_of_sorted_entries in Hv.
  apply (check_entries_ok _ _ Hc) in Hv. apply result_bind_ok in Hv as (schema & Hd & _).
  by destruct (ds !! k).
Qed.

#[global] Instance cac_silent_condition_functions c o b :
  CacSilent (validate_condition_with_functions c o b).
Proof. unfold validate_condition_with_functions. solve_neutral. Qed.
#[global] Instance cac_silent_override_functions o c :
  CacSilent (validate_override_with_functions o c).
Proof. unfold validate_override_with_functions. solve_neutral. Qed.
#[global] Instance cac_silent_query_description c :
  CacSilent (query_description c).
Proof. unfold query_description. solve_neutral. Qed.

Lemma wp_validate_ctx settings condition override_ Φ Ψ xs ds dims :
  Ψ (xs, ds, dims) →
  ((∀ d, is_Some (condition !! d) → is_Some (dims !! d)) →
    Φ (dimensions_info dims) (xs, ds, dims)) →
  cwp (validate_ctx settings condition override_) Φ Ψ (xs, ds, dims).
Proof.
  intros HP HΦ. unfold validate_ctx. apply wp_bind, wp_neutral; [apply _|intros _|done].
  apply wp_bind, wp_fetch_dimensions_info_map.
  apply wp_bind, wp_neutral; [apply _|intros _|done].
  apply wp_bind, wp_lift; [|done]. intros [] Hd.
  apply wp_bind, wp_neutral; [apply _|intros _|done].
  apply wp_ret, HΦ. by apply validate_dimensions_ok.
Qed.

Lemma wp_validate_override_with_default_configs override_ Φ Ψ xs ds dims :
  Ψ (xs, ds, dims) → ((∀ k, is_Some (override_ !! k) → is_Some (ds !! k)) → Φ tt (xs, ds, dims)) →
  cwp (validate_override_with_default_configs override_) Φ Ψ (xs, ds, dims).
Proof.
  intros HP HΦ. unfold validate_override_with_default_configs.
  apply wp_bind, wp_default_configs_table, wp_lift; [|done].
  intros [] Ho. by apply HΦ, override_entries_ok.
Qed.

Lemma wp_create_ctx_from_put_req settings req description user Φ Ψ xs ds dims :
  Ψ (xs, ds, dims) → p_context req ≠ ∅ → p_override req ≠ ∅ →
  (∀ x, context_ok ds dims (hash (VObject (p_context req))) x → x_value x = p_context req →
    x_override x = p_override req → x_description x = description →
    x_change_reason x = p_change_reason req → x_created_by x = user_email user →
    calculate_context_weight (VObject (p_context req)) (dimensions_info dims) = Ok (x_weight x) →
    Φ x (xs, ds, dims)) →
  cwp (create_ctx_from_put_req settings req description user) Φ Ψ (xs, ds, dims).
Proof.
  intros HP Hc Ho HΦ. unfold create_ctx_from_put_req. cbn zeta.
  apply wp_bind, wp_validate_ctx; [done|]. intros Hdims.
  apply wp_bind, wp_validate_override_with_default_configs; [done|]. intros Hkeys.
  apply wp_bind, wp_neutral; [apply _|intros _|done].
  apply wp_bind, wp_lift; [|done]. intros weight Hw.
  apply wp_bind, wp_neutral; [apply _|intros t1|done].
  apply wp_bind, wp_neutral; [apply _|intros t2|done].
  apply wp_ret, HΦ; try done. simpl. unfold or_went_wrong in Hw.
  by destruct (calculate_context_weight _ _); simplify_eq/=.
Qed.
End checks.

(** ** Rows of contexts *)

Section contexts.
Context `{CacEnv} `{JsonParse} `{MapOrder} `{FloatText} `{Blake3} `{ConfigText} `{JsonText} `{JsonSchema}.
Implicit Types (xs : gmap string DbContext) (ds : gmap string DefaultConfig).
Implicit Types (dims : gmap string Dimension).

Lemma contexts_good_insert xs ds dims id x :
  contexts_good xs ds dims → context_ok ds dims id x → contexts_good (<[id := x]> xs) ds dims.
Proof. intros G Hx id' x'. rewrite lookup_insert_Some. intros [[<- <-]|[_ ?]]; [done|by apply G]. Qed.

Lemma contexts_good_delete xs ds dims id :
  contexts_good xs ds dims → contexts_good (delete id xs) ds dims.
Proof. intros G id' x'. rewrite lookup_delete_Some. intros [_ ?]. by apply G. Qed.

Lemma contexts_good_alter xs ds dims id f :
  (∀ x, context_ok ds dims id x → context_ok ds dims id (f x)) →
  contexts_good xs ds dims → contexts_good (alter f id xs) ds dims.
Proof.
  intros Hf G id' x'. rewrite lookup_alter_Some.
  intros [(<- & x & Hx & ->)|[_ ?]]; [by apply Hf, G|by apply G].
Qed.

Lemma context_ok_override ds dims id x o time by_ description reason :
  context_ok ds dims id x → o ≠ ∅ → (∀ k, is_Some (o !! k) → is_Some (ds !! k)) →
  context_ok ds dims id (set_override x o (hash (VObject o)) time by_ description reason).
Proof. intros [] Ho Hk. split; simpl; eauto. Qed.

Lemma context_ok_condition ds dims id x value weight time by_ description reason :
  context_ok ds dims id x → value ≠ ∅ → (∀ d, is_Some (value !! d) → is_Some (dims !! d)) →
  context_ok ds dims (hash (VObject value))
    (set_condition x (hash (VObject value)) value weight time by_ description reason).
Proof. intros [] Hv Hd. split; simpl; eauto. Qed.

Lemma context_ok_weight ds dims id x weight time by_ :
  context_ok ds dims id x → context_ok ds dims id (set_weight x weight time by_).
Proof. intros []. split; simpl; eauto. Qed.

(** The row after an update of its overrides by [db_update_override]. *)
Lemma wp_db_update_override ctx o user Φ Ψ xs ds dims :
  contexts_good xs ds dims → Ψ (xs, ds, dims) → x_override ctx = o → x_override_id ctx = hash (VObject o) →
  o ≠ ∅ → (∀ k, is_Some (o !! k) → is_Some (ds !! k)) →
  (∀ x time, xs !! x_id ctx = Some x → contexts_good (<[x_id ctx := set_override x o
      (hash (VObject o)) time (user_email user) (x_description ctx) (x_change_reason ctx)]> xs) ds dims →
    Φ (set_override x o (hash (VObject o)) time (user_email user) (x_description ctx)
        (x_change_reason ctx))
      (<[x_id ctx := set_override x o (hash (VObject o)) time (user_email user) (x_description ctx)
           (x_change_reason ctx)]> xs, ds, dims)) →
  cwp (db_update_override ctx user) Φ Ψ (xs, ds, dims).
Proof.
  intros G HP <- Hid Ho Hk HΦ. unfold db_update_override.
  apply wp_bind, wp_neutral; [apply _|intros time|done].
  apply wp_update_context; [|done]. intros x Hx. rewrite Hid. apply HΦ; [done|].
  apply contexts_good_insert; [done|]. apply context_ok_override; [by apply G|done|done].
Qed.

(** What the merge of two maps of overrides binds. *)
Definition merged_overrides (old new : Overrides) : Overrides :=
  default ∅ (as_object (merge (VObject old) (VObject new))).

Lemma merged_overrides_eq old new :
  merge (VObject old) (VObject new) = VObject (merged_overrides old new).
Proof. unfold merged_overrides. by destruct (merge_object (VObject old) new) as (m & -> & _). Qed.

Lemma merged_overrides_lookup old new k : merged_overrides old new !! k =
  match new !! k with
  | Some v => Some (merge (default VNull (old !! k)) v)
  | None => old !! k
  end.
Proof.
  unfold merged_overrides. destruct (merge_object (VObject old) new) as (m & -> & Hk). simpl. apply Hk.
Qed.

Lemma merged_overrides_keys old new k :
  is_Some (merged_overrides old new !! k) ↔ is_Some (old !! k) ∨ is_Some (new !! k).
Proof. rewrite merged_overrides_lookup. unfold is_Some. destruct (new !! k); naive_solver. Qed.

Lemma wp_update_override_of_existing ctx user Φ Ψ xs ds dims :
  contexts_good xs ds dims → Ψ (xs, ds, dims) → (∀ k, is_Some (x_override ctx !! k) → is_Some (ds !! k)) →
  (∀ x time, xs !! x_id ctx = Some x →
    let o := merged_overrides (x_override x) (x_override ctx) in
    let x' := set_override x o (hash (VObject o)) time (user_email user) (x_description ctx)
      (x_change_reason ctx) in
    contexts_good (<[x_id ctx := x']> xs) ds dims → Φ x' (<[x_id ctx := x']> xs, ds, dims)) →
  cwp (update_override_of_existing_ctx ctx user) Φ Ψ (xs, ds, dims).
Proof.
  intros G HP Hk HΦ. unfold update_override_of_existing_ctx.
  apply wp_bind, wp_find_context; [|done]. intros x Hx. cbn zeta.
  rewrite merged_overrides_eq. simpl. apply wp_bind, wp_lift; [|done]. intros o Ho.
  unfold or_unexpected in Ho. destruct (cac_overrides_try_from _) eqn:E; [|done]. simplify_eq/=.
  apply overrides_try_from_ok in E as [Hne ->].
  eapply (wp_db_update_override _ (merged_overrides (x_override x) (x_override ctx)));
    [done|done|done|done|done| |].
  - intros k [Hold|?]%merged_overrides_keys; [|by apply Hk].
    by eapply (ok_keys _ _ _ _ (G _ _ Hx)).
  - simpl. intros x2 time Hx2 G2. simplify_eq. by eapply HΦ.
Qed.
End contexts.
