(* ===== verification/CacProps.v ===== *)
(** * Serving requests of the configuration service

    Every request keeps the tables consistent and changes the dimensions by
    steps of [DimSpec] only; a request that fails leaves them as they were. *)

From stdpp Require Import relations.
From S2P Require Import Prelude Stack Json Types Text Effects Logic LogicProps Config Resolve CacClient ExpChecks CacStore CacConfig Contexts Dimensions DefaultConfigs Functions CacServing CacReduce CacService DimSpec CacInv CacRefine.

(** Consistent tables reached by steps of the dimensions. *)
Definition cac_sim `{FloatText} `{Blake3} (t t' : CacTables) : Prop :=
  good_tables t' ∧ rtc dim_step (shapes t.2) (shapes t'.2).

Section sim.
Context `{FloatText} `{Blake3}.
Implicit Types (t : CacTables).

Lemma cac_sim_refl t : good_tables t → cac_sim t t.
Proof. by split. Qed.

Lemma cac_sim_trans t1 t2 t3 : cac_sim t1 t2 → cac_sim t2 t3 → cac_sim t1 t3.
Proof. intros [_ S1] [G S2]. split; [done|by etrans]. Qed.

(** The three kinds of change. *)
Lemma cac_sim_contexts xs xs' ds dims :
  good_tables (xs, ds, dims) → contexts_good xs' ds dims →
  cac_sim (xs, ds, dims) (xs', ds, dims).
Proof. intros (_ & G2 & G3 & G4) G1. by split. Qed.

Lemma cac_sim_defaults xs ds ds' dims :
  good_tables (xs, ds, dims) → contexts_good xs ds' dims → defaults_good ds' →
  cac_sim (xs, ds, dims) (xs, ds', dims).
Proof. intros (_ & _ & G3 & G4) G1 G2. by split. Qed.

Lemma cac_sim_dims xs ds dims dims' :
  good_tables (xs, ds, dims) → dims_keyed dims' → rtc dim_step (shapes dims) (shapes dims') →
  contexts_good xs ds dims' → cac_sim (xs, ds, dims) (xs, ds, dims').
Proof.
  intros (_ & G2 & _ & G4) K S G1. split; [|done]. split_and!; [done..|]. by eapply dim_steps_inv.
Qed.

Lemma shapes_exist dims k : is_Some (shapes dims !! k) ↔ is_Some (dims !! k).
Proof. unfold shapes. by rewrite lookup_fmap, fmap_is_Some. Qed.
End sim.

Section handlers.
Context `{CacEnv} `{JsonParse} `{MapOrder} `{FloatText} `{Blake3} `{ConfigText} `{JsonText} `{JsonSchema}.
Context `{RegexEngine} `{JsonLogicVariables} `{DebugText} {Ook : MapOrderOk _}.
Implicit Types (xs : gmap string DbContext) (ds : gmap string DefaultConfig).
Implicit Types (dims : gmap string Dimension) (settings : Settings).

(** A handler that first computes without writing, then a transaction. *)
Ltac go_neutral := repeat (apply wp_bind, wp_neutral; [solve_neutral; fail|intros ?|assumption]).
(** The end of a transaction: the version and the answer. *)
Ltac finish := go_neutral; apply wp_ret.

(** ** Dimensions *)

Lemma validate_dimension_position_ok name p max :
  validate_dimension_position name p max = Ok tt →
  name = "variantIds" ∧ p = 0%Z ∨ name ≠ "variantIds" ∧ p ≠ 0%Z ∧ (p ≤ max)%Z.
Proof.
  unfold validate_dimension_position. repeat case_bool_decide; try done; intros _; [by left|].
  right. split_and!; [done..|lia].
Qed.

Lemma wp_does_dimension_exist dim Φ Ψ xs ds dims :
  Ψ (xs, ds, dims) → (∀ d, dims !! dim = Some d → is_local_cohort (dm_dimension_type d) = false →
    Φ d (xs, ds, dims)) →
  cwp (does_dimension_exist_for_cohorting dim) Φ Ψ (xs, ds, dims).
Proof.
  intros HP HΦ w [= <- <- <-]. unfold does_dimension_exist_for_cohorting.
  destruct (k_dimensions w !! dim) as [d|] eqn:E; [|done].
  destruct (dm_dimension_type d) eqn:Ht; try done; apply HΦ; try done; by rewrite Ht.
Qed.

Lemma wp_validate_cohort_schema schema base Φ Ψ xs ds dims :
  Ψ (xs, ds, dims) → (∀ d, dims !! base = Some d → is_local_cohort (dm_dimension_type d) = false →
    Φ d (xs, ds, dims)) →
  cwp (validate_cohort_schema schema base) Φ Ψ (xs, ds, dims).
Proof.
  intros HP HΦ. unfold validate_cohort_schema. case_bool_decide; [by apply wp_fail|].
  go_neutral. case_match; try by apply wp_fail. case_bool_decide; [by apply wp_fail|].
  cbn zeta. go_neutral. destruct (elements _) as [|dim [|? ?]]; try by apply wp_fail.
  apply wp_bind, wp_does_dimension_exist; [done|]. intros d Hd Hl.
  case_bool_decide as E; cbn [negb]; [subst; apply wp_ret; by apply HΦ|by apply wp_fail].
Qed.

Lemma validate_cohort_position_create p d :
  validate_cohort_position p d true = Ok tt → (p ≤ dm_position d)%Z.
Proof. unfold validate_cohort_position. cbn [andb]. case_bool_decide; [done|lia]. Qed.

Lemma validate_cohort_position_update p d :
  validate_cohort_position p d false = Ok tt → (p < dm_position d)%Z.
Proof. unfold validate_cohort_position. cbn [andb negb]. case_bool_decide; [done|lia]. Qed.

Lemma wp_check_new_dimension req Φ Ψ xs ds dims :
  Ψ (xs, ds, dims) → ((∀ base, cohort_base (nd_dimension_type req) = Some base →
      ∃ d, dims !! base = Some d ∧ is_local_cohort (dm_dimension_type d) = false ∧
        (nd_position req ≤ dm_position d)%Z) → Φ tt (xs, ds, dims)) →
  cwp (check_new_dimension req) Φ Ψ (xs, ds, dims).
Proof.
  intros HP HΦ. unfold check_new_dimension.
  destruct (nd_dimension_type req) as [|base|base]; simpl in HΦ; go_neutral.
  - apply wp_lift; [|done]. intros [] _. by apply HΦ.
  - apply wp_bind, wp_validate_cohort_schema; [done|]. intros d Hd Hl.
    apply wp_lift; [|done]. intros [] Hp%validate_cohort_position_create.
    apply HΦ. intros ? [= <-]. eauto.
  - apply wp_bind, wp_does_dimension_exist; [done|]. intros d Hd Hl.
    apply wp_lift; [|done]. intros [] Hp%validate_cohort_position_create.
    apply HΦ. intros ? [= <-]. eauto.
Qed.

Lemma dim_create_sim settings tags req user xs ds dims :
  good_tables (xs, ds, dims) → (0 ≤ nd_position req)%Z →
  cwp (dim_create_handler settings tags req user)
    (λ _, cac_sim (xs, ds, dims)) (cac_sim (xs, ds, dims)) (xs, ds, dims).
Proof.
  intros G Hp0. pose proof (cac_sim_refl _ G) as Hrefl. pose proof G as (G1 & G2 & G3 & G4).
  unfold dim_create_handler. do 2 (apply wp_bind, wp_neutral; [solve_neutral|intros ?|done]).
  apply wp_bind, wp_count_dimensions.
  apply wp_bind, wp_lift; [|done]. intros [] Hp%validate_dimension_position_ok.
  apply wp_bind, wp_check_new_dimension; [done|]. intros Hbase.
  go_neutral. apply cac_wp_transaction, wp_bind.
  apply wp_store_dimension; [done|done|done|]. simpl. intros Hnew dims' K Hs.
  finish. assert (shapes dims !! nd_dimension req = None) as Hnew'.
  { unfold shapes. by rewrite lookup_fmap, Hnew. }
  assert (nd_dimension req ≠ "variantIds") as Hv.
  { intros E. destruct (dims_first _ G4) as (s & Hs1 & _). congruence. }
  destruct Hp as [[? _]|(_ & Hp1 & Hp2)]; [done|].
  apply cac_sim_dims; [done|done| |].
  - apply rtc_once. rewrite Hs. apply step_create; [done|rewrite shapes_size; lia|].
    intros base (d & Hd & Hl & Hle)%Hbase. exists (shape_of d). split_and!; [|done..].
    unfold shapes. by rewrite lookup_fmap, Hd.
  - eapply contexts_good_mono; [done| |done]. intros k. rewrite <- !shapes_exist, Hs.
    rewrite created_lookup. case_decide; [by eauto|]. by rewrite fmap_is_Some.
Qed.

Lemma wp_check_updated_position d new Φ Ψ xs ds dims :
  Ψ (xs, ds, dims) → ((∀ base db, cohort_base (dm_dimension_type d) = Some base →
      dims !! base = Some db → (new < dm_position db)%Z) → Φ tt (xs, ds, dims)) →
  cwp (check_updated_position d new) Φ Ψ (xs, ds, dims).
Proof.
  intros HP HΦ. unfold check_updated_position.
  destruct (cohort_base (dm_dimension_type d)) as [base|]; [|by apply wp_ret, HΦ].
  apply wp_bind, wp_does_dimension_exist; [done|]. intros db Hdb _.
  apply wp_lift; [|done]. intros [] Hp%validate_cohort_position_update. apply HΦ.
  intros ? ? [= <-] ?. congruence.
Qed.

#[global] Instance silent_check_schema d s : CacSilent (check_updated_schema d s).
Proof.
  unfold check_updated_schema, validate_cohort_schema, does_dimension_exist_for_cohorting.
  repeat first [solve_neutral; fail | case_match | apply neutral_bind; [|intros]]; done.
Qed.

(** The position of an update is below the base of a cohort. *)
Lemma wp_updated_position d req Φ Ψ xs ds dims :
  Ψ (xs, ds, dims) → ((∀ new base db, ud_position req = Some new →
      cohort_base (dm_dimension_type d) = Some base → dims !! base = Some db →
      (new < dm_position db)%Z) → Φ tt (xs, ds, dims)) →
  cwp (check_field (ud_position req) (check_updated_position d)) Φ Ψ (xs, ds, dims).
Proof.
  intros HP HΦ. unfold check_field. destruct (ud_position req) as [new|].
  - apply wp_check_updated_position; [done|]. intros Hb. apply HΦ.
    intros new' base db [= <-]. apply Hb.
  - apply wp_ret, HΦ. by intros ???.
Qed.

#[global] Instance silent_check_field {A} (field : option A) check :
  (∀ a, CacSilent (check a)) → CacSilent (check_field field check).
Proof. intros Hc. unfold check_field. destruct field; apply _. Qed.

Lemma dim_update_sim settings name tags req user xs ds dims :
  good_tables (xs, ds, dims) → (∀ p, ud_position req = Some p → (0 ≤ p)%Z) →
  cwp (dim_update_handler settings name tags req user)
    (λ _, cac_sim (xs, ds, dims)) (cac_sim (xs, ds, dims)) (xs, ds, dims).
Proof.
  intros G Hp0. pose proof (cac_sim_refl _ G) as Hrefl. pose proof G as (G1 & G2 & G3 & G4).
  unfold dim_update_handler. do 2 (apply wp_bind, wp_neutral; [solve_neutral|intros ?|done]).
  apply wp_bind, wp_find_dimension; [|done]. intros d Hd.
  apply wp_bind, wp_count_dimensions. apply wp_bind, wp_neutral; [apply _|intros _|done].
  apply wp_bind, wp_updated_position; [done|]. intros Hup. go_neutral.
  apply cac_wp_transaction, wp_bind, (wp_store_updated _ d); [done|done|done|].
  intros d' dims' K Hex Hs. finish. apply cac_sim_dims; [done|done| |].
  - destruct (ud_position req) as [new|]; [|rewrite Hs; apply rtc_refl].
    destruct Hs as (Hv%validate_dimension_position_ok & Hdep & ->). apply rtc_once.
    assert (shapes dims !! name = Some (shape_of d)) as Hsd.
    { unfold shapes. by rewrite lookup_fmap, Hd. }
    assert (is_Some (dims !! name)) as Hsome by eauto.
    pose proof (dims_range _ G4 _ _ Hsd) as Hr. rewrite shapes_size in Hr.
    apply (step_move _ name (shape_of d) new Hsd).
    + rewrite shapes_size. specialize (Hp0 _ eq_refl). lia.
    + naive_solver.
    + intros base sb Hb (db & Hdb & ->)%shapes_lookup. simpl. by eapply Hup.
    + intros x sx Hx Hsx. apply shapes_lookup in Hsx as (dx & Hdx & ->). simpl.
      destruct (graph_exact_children _ _ _ name (dims_graph _ G4 _ _ Hsd)) as [_ Hc];
        [apply rtc_refl|]. apply Hc in Hx. apply Hdep in Hx as (dx' & Hdx' & Hlt). congruence.
  - eapply contexts_good_mono; [done| |done]. intros k. rewrite <- !shapes_exist.
    destruct (ud_position req) as [new|]; [destruct Hs as (_ & _ & ->)|by rewrite Hs].
    rewrite (moved_lookup _ name (shape_of d)). by rewrite fmap_is_Some.
Qed.

(** The contexts that use a dimension are all found. *)
Lemma wp_dimension_usage key Φ Ψ xs ds dims :
  contexts_good xs ds dims → Ψ (xs, ds, dims) →
  (∀ ids, (ids = [] → ∀ id x, xs !! id = Some x → x_value x !! key = None) →
    Φ ids (xs, ds, dims)) →
  cwp (get_dimension_usage_context_ids key) Φ Ψ (xs, ds, dims).
Proof.
  intros G HP HΦ. unfold get_dimension_usage_context_ids. apply wp_bind, wp_all_contexts.
  apply wp_bind, wp_lift; [|done]. intros idss Hids%try_map_ok. apply wp_ret, HΦ.
  intros Hnil id x Hx. destruct (x_value x !! key) as [v|] eqn:Hv; [|done]. exfalso.
  assert (x ∈ (map_order xs).*2) as Hin.
  { apply list_elem_of_fmap. exists (id, x). split; [done|]. by apply elem_of_map_order. }
  apply list_elem_of_lookup in Hin as [i Hi].
  destruct (Forall2_lookup_l _ _ _ _ _ Hids Hi) as (ids & Hl%list_elem_of_lookup_2 & Hok).
  unfold cac_condition_try_from, Condition.validate_data_for_cac in Hok.
  rewrite bool_decide_eq_false_2 in Hok by (by apply (ok_condition _ _ _ _ (G _ _ Hx))).
  simpl in Hok. rewrite bool_decide_eq_true_2 in Hok by (rewrite Hv; by eexists).
  injection Hok as <-. apply list_elem_of_In in Hl.
  assert (x_id x ∈ concat idss) as Hc by (apply list_elem_of_In, in_concat; eexists; split; [done|by left]).
  rewrite Hnil in Hc. by apply elem_of_nil in Hc.
Qed.

Lemma dim_delete_sim name tags user xs ds dims :
  good_tables (xs, ds, dims) → name ≠ "variantIds" →
  cwp (dim_delete_handler name tags user)
    (λ _, cac_sim (xs, ds, dims)) (cac_sim (xs, ds, dims)) (xs, ds, dims).
Proof.
  intros G Hv. pose proof (cac_sim_refl _ G) as Hrefl. pose proof G as (G1 & G2 & G3 & G4).
  unfold dim_delete_handler. apply wp_bind, wp_neutral; [apply _|intros ?|done].
  apply wp_bind, wp_find_dimension; [|done]. intros d Hd.
  apply wp_bind, wp_dimension_usage; [done|done|].
  intros ids Hids. case_bool_decide as Hnil; [|by apply wp_bad]. specialize (Hids Hnil).
  apply cac_wp_transaction, wp_bind, wp_erase_dimension; [done|done|done|].
  intros Hg dims' K Hs. finish.
  assert (shapes dims !! name = Some (shape_of d)) as Hsd.
  { unfold shapes. by rewrite lookup_fmap, Hd. }
  apply cac_sim_dims; [done|done| |].
  - rewrite Hs. by apply rtc_once, step_erase.
  - intros id x Hx. eapply context_ok_mono; [done| |by apply G1]. intros k Hk.
    rewrite <- !shapes_exist, Hs. rewrite erased_lookup. case_decide as Hkn; [|by rewrite fmap_is_Some].
    subst k. rewrite (Hids _ _ Hx) in Hk. by destruct Hk.
Qed.

(** ** Default configurations *)

Lemma default_create_sim settings tags req user xs ds dims :
  good_tables (xs, ds, dims) →
  cwp (default_create_handler settings tags req user)
    (λ _, cac_sim (xs, ds, dims)) (cac_sim (xs, ds, dims)) (xs, ds, dims).
Proof.
  intros G. pose proof (cac_sim_refl _ G) as Hrefl. pose proof G as (G1 & G2 & G3 & G4).
  unfold default_create_handler. apply wp_bind, wp_neutral; [apply _|intros ?|done].
  case_bool_decide; [by apply wp_bad|]. cbn zeta. unfold validate_fn_published.
  go_neutral. apply cac_wp_transaction, wp_bind, wp_insert_default_config; [|done].
  simpl. intros Hnew. finish. apply cac_sim_defaults; [done|..].
  - eapply contexts_good_mono; [|done|done]. intros k Hk. rewrite lookup_insert_is_Some'. by right.
  - intros k d. rewrite lookup_insert_Some. intros [[<- <-]|[_ ?]]; [done|by apply G2].
Qed.

Lemma wp_existing_default_config key Φ Ψ xs ds dims :
  Ψ (xs, ds, dims) → (∀ d, ds !! key = Some d → Φ d (xs, ds, dims)) →
  cwp (existing_default_config key) Φ Ψ (xs, ds, dims).
Proof.
  intros HP HΦ w [= <- <- <-]. unfold existing_default_config, find_default_config.
  destruct (k_default_configs w !! key) as [d|] eqn:E; simpl; [by apply HΦ|done].
Qed.

#[global] Instance silent_check_default_update e key req :
  CacSilent (check_default_update e key req).
Proof.
  unfold check_default_update, validate_fn_published, validate_default_config_with_function.
  solve_neutral.
Qed.

Lemma default_update_sim settings key tags req user xs ds dims :
  good_tables (xs, ds, dims) →
  cwp (default_update_handler settings key tags req user)
    (λ _, cac_sim (xs, ds, dims)) (cac_sim (xs, ds, dims)) (xs, ds, dims).
Proof.
  intros G. pose proof (cac_sim_refl _ G) as Hrefl. pose proof G as (G1 & G2 & G3 & G4).
  unfold default_update_handler. apply wp_bind, wp_neutral; [apply _|intros ?|done].
  apply wp_bind, wp_existing_default_config; [done|]. intros d Hd. go_neutral.
  apply cac_wp_transaction. apply wp_bind, wp_neutral; [apply _|intros time|done].
  apply wp_bind, wp_update_default_config; [|done]. intros d' Hd'. finish.
  apply cac_sim_defaults; [done|..].
  - eapply contexts_good_mono; [|done|done]. intros k Hk. rewrite lookup_insert_is_Some'. by right.
  - intros k d2. rewrite lookup_insert_Some.
    intros [[<- <-]|[_ ?]]; [exact (G2 _ _ Hd')|by apply G2].
Qed.

Lemma wp_key_usage key Φ Ψ xs ds dims :
  (∀ ids, (ids = [] → ∀ id x, xs !! id = Some x → x_override x !! key = None) →
    Φ ids (xs, ds, dims)) →
  cwp (get_key_usage_context_ids key) Φ Ψ (xs, ds, dims).
Proof.
  intros HΦ. unfold get_key_usage_context_ids. apply wp_bind, wp_all_contexts, wp_ret, HΦ.
  intros Hnil id x Hx. destruct (x_override x !! key) as [v|] eqn:Hv; [|done]. exfalso.
  assert (x_id x ∈ omap (λ x, if bool_decide (is_Some (x_override x !! key))
    then Some (x_id x) else None) (map_order xs).*2) as Hin.
  { apply list_elem_of_omap. exists x. split.
    - apply list_elem_of_fmap. exists (id, x). split; [done|]. by apply elem_of_map_order.
    - rewrite bool_decide_eq_true_2; [done|]. rewrite Hv. by eexists. }
  rewrite Hnil in Hin. by apply elem_of_nil in Hin.
Qed.

Lemma default_delete_sim key tags user xs ds dims :
  good_tables (xs, ds, dims) →
  cwp (default_delete_handler key tags user)
    (λ _, cac_sim (xs, ds, dims)) (cac_sim (xs, ds, dims)) (xs, ds, dims).
Proof.
  intros G. pose proof (cac_sim_refl _ G) as Hrefl. pose proof G as (G1 & G2 & G3 & G4).
  unfold default_delete_handler. apply wp_bind, wp_neutral; [apply _|intros ?|done].
  apply wp_bind, wp_key_usage. intros ids Hids.
  case_bool_decide as Hnil; [|by apply wp_bad]. specialize (Hids Hnil).
  apply cac_wp_transaction. apply wp_bind, wp_neutral; [apply _|intros time|done].
  apply wp_bind, wp_execute_delete_default_config. intros n _.
  destruct (n =? 0); [by apply wp_fail|]. go_neutral. apply wp_neutral; [apply _| |done].
  intros _. apply cac_sim_defaults; [done|..].
  - intros id x Hx. eapply context_ok_mono; [|done|by apply G1]. intros k Hk Hdk.
    destruct (decide (k = key)) as [->|Hne]; [|by rewrite lookup_delete_ne].
    rewrite (Hids _ _ Hx) in Hk. by destruct Hk.
  - intros k d. rewrite lookup_delete_Some. intros [_ ?]. by apply G2.
Qed.

(** ** Contexts *)

Lemma wp_upsert settings req description user replace Φ Ψ xs ds dims :
  contexts_good xs ds dims → Ψ (xs, ds, dims) → p_context req ≠ ∅ → p_override req ≠ ∅ →
  (∀ x xs', contexts_good xs' ds dims → Φ x (xs', ds, dims)) →
  cwp (upsert settings req description user replace) Φ Ψ (xs, ds, dims).
Proof.
  intros G HP Hc Ho HΦ. unfold upsert.
  apply wp_bind, wp_create_ctx_from_put_req; [done..|]. intros x Hx Hv Hxo _ _ _ _.
  pose proof Hx as [Hid _ Hoid _ _ Hkeys _].
  apply wp_bind, wp_try_insert_context.
  - intros _. apply wp_ret, HΦ, contexts_good_insert; [done|]. by rewrite Hid.
  - intros _. destruct replace.
    + unfold replace_override_of_existing_ctx.
      eapply (wp_db_update_override _ (x_override x)); [done|done|done|done| |done|].
      * simpl. by apply (ok_override _ _ _ _ Hx).
      * intros x2 time _ G2. by apply HΦ.
    + apply wp_update_override_of_existing; [done|done|done|].
      intros x2 time _ o x' G2. by apply HΦ.
Qed.

Lemma wp_update req user Φ (P : Prop) xs ds dims :
  contexts_good xs ds dims → P → u_override req ≠ ∅ →
  (∀ x xs', contexts_good xs' ds dims → Φ x (xs', ds, dims)) →
  cwp (Contexts.update req user) Φ (λ _, P) (xs, ds, dims).
Proof.
  intros G HP Ho HΦ. unfold Contexts.update. apply wp_bind, wp_neutral;
    [destruct (u_context req); solve_neutral| |done].
  intros [context_id context]. cbn zeta.
  apply wp_bind, wp_validate_override_with_default_configs; [done|]. intros Hkeys.
  go_neutral. apply wp_update_context; [|done]. intros x Hx.
  apply HΦ, contexts_good_insert; [done|]. apply context_ok_override; [by apply G|done|done].
Qed.

Lemma wp_move settings old req description user Φ (P : Prop) xs ds dims :
  contexts_good xs ds dims → P → mv_context req ≠ ∅ →
  (∀ x xs', contexts_good xs' ds dims → Φ x (xs', ds, dims)) →
  cwp (move settings old req description user) Φ (λ _, P) (xs, ds, dims).
Proof.
  intros G HP Hc HΦ. unfold move. cbn zeta. apply wp_bind, wp_validate_ctx; [done|].
  intros Hdims. go_neutral. apply wp_bind, wp_try_move_context; [| |done].
  - intros x Hx _. apply wp_ret, HΦ, contexts_good_insert; [by apply contexts_good_delete|].
    eapply context_ok_condition; [by apply G|done|done].
  - intros x y Hx Hne Hy. apply wp_bind, wp_remove_context; [|done]. intros x' Hx'. simplify_eq.
    do 2 (apply wp_bind, wp_neutral; [apply _|intros ?|done]).
    apply wp_update_override_of_existing; [by apply contexts_good_delete|done| |].
    + simpl. by apply (ok_keys _ _ _ _ (G _ _ Hx)).
    + intros x2 time _ o x3 G2. by apply HΦ.
Qed.

#[global] Instance silent_description_or_query d c : CacSilent (description_or_query d c).
Proof.
  unfold description_or_query. destruct d as [val|]; [apply _|]. intros w.
  pose proof (cac_silent_query_description (VObject c) w) as Hq.
  by destruct (query_description (VObject c) w) as [[?|[]] ?]; simpl in *; repeat case_match.
Qed.

(** A transaction that ends with a version. *)
Lemma wp_versioned {A B} (m : C A) (k : A → C B) xs ds dims :
  good_tables (xs, ds, dims) → (∀ a, CacNeutral (k a)) →
  cwp m (λ _ t', ∃ xs', t' = (xs', ds, dims) ∧ contexts_good xs' ds dims)
    (λ _, cac_sim (xs, ds, dims) (xs, ds, dims)) (xs, ds, dims) →
  cwp (cac_transaction (m ≫= k)) (λ _, cac_sim (xs, ds, dims)) (cac_sim (xs, ds, dims))
    (xs, ds, dims).
Proof.
  intros G Hk Hm. apply cac_wp_transaction, wp_bind. eapply wp_mono; [exact Hm| |done].
  intros a t' (xs' & -> & G'). apply wp_neutral; [apply Hk| |by apply cac_sim_refl].
  intros _. by apply cac_sim_contexts.
Qed.

Lemma ctx_create_sim settings tags req user xs ds dims :
  good_tables (xs, ds, dims) → p_context req ≠ ∅ → p_override req ≠ ∅ →
  cwp (ctx_create_handler settings tags req user)
    (λ _, cac_sim (xs, ds, dims)) (cac_sim (xs, ds, dims)) (xs, ds, dims).
Proof.
  intros G Hc Ho. pose proof (cac_sim_refl _ G) as Hrefl. pose proof G as (G1 & _).
  unfold ctx_create_handler. go_neutral. apply wp_versioned; [done|intros; solve_neutral|].
  apply wp_upsert; [done..|]. eauto.
Qed.

Lemma ctx_update_sim settings tags req user xs ds dims :
  good_tables (xs, ds, dims) → u_override req ≠ ∅ →
  cwp (ctx_update_handler settings tags req user)
    (λ _, cac_sim (xs, ds, dims)) (cac_sim (xs, ds, dims)) (xs, ds, dims).
Proof.
  intros G Ho. pose proof (cac_sim_refl _ G) as Hrefl. pose proof G as (G1 & _).
  unfold ctx_update_handler. go_neutral. apply wp_versioned; [done|intros; solve_neutral|].
  apply wp_update; [done..|]. eauto.
Qed.

Lemma ctx_move_sim settings id tags req user xs ds dims :
  good_tables (xs, ds, dims) → mv_context req ≠ ∅ →
  cwp (ctx_move_handler settings id tags req user)
    (λ _, cac_sim (xs, ds, dims)) (cac_sim (xs, ds, dims)) (xs, ds, dims).
Proof.
  intros G Hc. pose proof (cac_sim_refl _ G) as Hrefl. pose proof G as (G1 & _).
  unfold ctx_move_handler. go_neutral. apply wp_versioned; [done|intros; solve_neutral|].
  apply wp_move; [done..|]. eauto.
Qed.

Lemma ctx_delete_sim id tags user xs ds dims :
  good_tables (xs, ds, dims) →
  cwp (ctx_delete_handler id tags user)
    (λ _, cac_sim (xs, ds, dims)) (cac_sim (xs, ds, dims)) (xs, ds, dims).
Proof.
  intros G. pose proof (cac_sim_refl _ G) as Hrefl. pose proof G as (G1 & _).
  unfold ctx_delete_handler. go_neutral. apply cac_wp_transaction.
  apply wp_bind, wp_find_context; [|done]. intros x Hx.
  apply wp_bind. unfold delete_context. go_neutral.
  apply wp_bind, wp_execute_update_context, wp_bind, wp_execute_delete_context. intros n _.
  destruct (n =? 0); [by apply wp_fail|]. apply wp_ret. go_neutral.
  apply wp_neutral; [apply _| |done]. intros _. apply cac_sim_contexts; [done|].
  apply contexts_good_delete, contexts_good_alter; [|done]. intros y Hy. by apply context_ok_weight.
Qed.

(** What reading the body of an action checks. *)
Definition action_well_formed (action : ContextAction) : Prop :=
  match action with
  | Put req => p_context req ≠ ∅ ∧ p_override req ≠ ∅
  | Replace req => u_override req ≠ ∅
  | Delete _ => True
  | Move _ req => mv_context req ≠ ∅
  end.

Lemma wp_bulk_action settings user action Φ (P : Prop) xs ds dims :
  contexts_good xs ds dims → P → action_well_formed action →
  (∀ r xs', contexts_good xs' ds dims → Φ r (xs', ds, dims)) →
  cwp (bulk_action settings user action) Φ (λ _, P) (xs, ds, dims).
Proof.
  intros G HP Ha HΦ. unfold bulk_action. destruct action as [req|req|id|id req]; simpl in Ha.
  - apply wp_bind, wp_neutral; [apply _|intros _|done].
    apply wp_bind, wp_neutral; [destruct (p_description req); apply _|intros d|done].
    apply wp_bind, wp_upsert; [done|done|apply Ha..|]. intros x xs' G'. by apply wp_ret, HΦ.
  - apply wp_bind, wp_update; [done|done|done|]. intros x xs' G'. by apply wp_ret, HΦ.
  - apply wp_bind, wp_find_context; [|done]. intros x Hx.
    apply wp_bind, wp_execute_delete_context. intros n _. go_neutral.
    destruct (n =? 0); [by apply wp_bad|]. by apply wp_ret, HΦ, contexts_good_delete.
  - apply wp_bind, wp_neutral; [destruct (mv_description req); apply _|intros d|done].
    apply wp_bind, wp_move; [done|done|done|]. intros x xs' G'. by apply wp_ret, HΦ.
Qed.

Lemma wp_bulk_actions settings user ops (P : Prop) xs ds dims :
  contexts_good xs ds dims → P → Forall action_well_formed ops →
  cwp (bulk_actions settings user ops)
    (λ _ t', ∃ xs', t' = (xs', ds, dims) ∧ contexts_good xs' ds dims) (λ _, P) (xs, ds, dims).
Proof.
  intros G HP Hops. revert xs G. induction Hops as [|action ops Ha _ IH]; intros xs G; simpl.
  - apply wp_ret. eauto.
  - apply wp_bind, wp_bulk_action; [done..|]. intros r xs' G'.
    apply wp_bind. eapply wp_mono; [by apply IH| |done]. intros rs t' Ht. by apply wp_ret.
Qed.

Lemma bulk_operations_sim settings tags ops user xs ds dims :
  good_tables (xs, ds, dims) → Forall action_well_formed ops →
  cwp (bulk_operations_handler settings tags ops user)
    (λ _, cac_sim (xs, ds, dims)) (cac_sim (xs, ds, dims)) (xs, ds, dims).
Proof.
  intros G Hops. pose proof (cac_sim_refl _ G) as Hrefl. pose proof G as (G1 & _).
  unfold bulk_operations_handler. go_neutral. apply wp_versioned; [done|intros; solve_neutral|].
  by apply wp_bulk_actions.
Qed.

Lemma wp_set_weights l time user (P : Prop) xs ds dims :
  contexts_good xs ds dims → P →
  cwp (for_each (λ r, execute_update_context (wr_id r) (λ x,
      set_weight x (wr_new_weight r) time (user_email user))) l)
    (λ _ t', ∃ xs', t' = (xs', ds, dims) ∧ contexts_good xs' ds dims) (λ _, P) (xs, ds, dims).
Proof.
  intros G HP. revert xs G. induction l as [|r l IH]; intros xs G; simpl.
  - apply wp_ret. eauto.
  - apply wp_bind, wp_execute_update_context, IH, contexts_good_alter; [|done].
    intros x Hx. by apply context_ok_weight.
Qed.

Lemma weight_recompute_sim tags user xs ds dims :
  good_tables (xs, ds, dims) →
  cwp (weight_recompute_handler tags user)
    (λ _, cac_sim (xs, ds, dims)) (cac_sim (xs, ds, dims)) (xs, ds, dims).
Proof.
  intros G. pose proof (cac_sim_refl _ G) as Hrefl. pose proof G as (G1 & _).
  unfold weight_recompute_handler. go_neutral. apply wp_bind.
  eapply wp_mono; [apply wp_versioned; [done|intros; solve_neutral|by apply wp_set_weights]| |done].
  intros v t' Ht. by apply wp_ret.
Qed.

(** ** Reductions *)

(** Only the contexts may have changed. *)
Definition other_contexts ds dims (t : gmap string DbContext * gmap string DefaultConfig * gmap string Dimension)
    : Prop :=
  ∃ xs, t = (xs, ds, dims) ∧ contexts_good xs ds dims.

Lemma wp_attempt {A} (m : C A) Φ Ψ t :
  cwp m (λ a, Φ (Some a)) (Φ None) t → cwp (attempt m) Φ Ψ t.
Proof.
  intros Hm w Hw. specialize (Hm w Hw). unfold attempt. by destruct (m w) as [[a|e] w'].
Qed.

Lemma neutral_attempt {T A} (tables : CacWorld → T) (m : C A) :
  NeutralOn tables m → NeutralOn tables (attempt m).
Proof. intros Hm w. specialize (Hm w). unfold attempt. by destruct (m w) as [[a|e] w']. Qed.

Lemma wp_delete_context id user xs ds dims :
  contexts_good xs ds dims →
  cwp (delete_context id user) (λ _, other_contexts ds dims) (other_contexts ds dims) (xs, ds, dims).
Proof.
  intros G. assert (other_contexts ds dims (xs, ds, dims)) as Hsame by by exists xs.
  unfold delete_context. go_neutral.
  apply wp_bind, wp_execute_update_context, wp_bind, wp_execute_delete_context. intros n _.
  assert (other_contexts ds dims (delete id (alter (λ x, touch_context x a (user_email user)) id xs), ds, dims))
    as Hgone.
  { eexists. split; [done|]. apply contexts_good_delete, contexts_good_alter; [|done].
    intros y Hy. by apply context_ok_weight. }
  destruct (n =? 0); [by apply wp_fail|by apply wp_ret].
Qed.

Lemma construct_new_payload_ok payload req :
  construct_new_payload payload = Ok req → p_context req ≠ ∅ ∧ p_override req ≠ ∅.
Proof.
  unfold construct_new_payload. cbn zeta. intros Hr.
  apply result_bind_ok in Hr as (context & Hc & Hr).
  apply result_bind_ok in Hr as (override & Ho & Hr). injection Hr as <-. cbn.
  split.
  - destruct (_ ≫= as_object) as [val|]; [|done].
    unfold cac_condition_try_from, Condition.validate_data_for_cac in Hc.
    case_bool_decide; [done|]. by injection Hc as <-.
  - clear Hc. destruct (_ ≫= as_object) as [val|]; [|done].
    unfold cac_overrides_try_from in Ho.
    destruct (Overrides.validate_data val) as [o|] eqn:Hv; [|discriminate Ho].
    apply overrides_try_from_ok in Hv as [Hv ->]. by injection Ho as <-.
Qed.

Lemma wp_write_reduced settings user r xs ds dims :
  contexts_good xs ds dims →
  cwp (write_reduced settings user r) (λ _, other_contexts ds dims) (other_contexts ds dims)
    (xs, ds, dims).
Proof.
  intros G. unfold write_reduced.
  apply wp_bind, wp_attempt. eapply wp_mono; [by apply wp_delete_context|intros []|].
  all: intros t' (xs' & -> & G'); cbn beta; assert (other_contexts ds dims (xs', ds, dims)) as Hhere by by exists xs'.
  all: destruct (rc_to_be_deleted r); [by apply wp_ret|].
  all: destruct (construct_new_payload (rc_payload r)) as [req|e] eqn:Hreq; [|by apply wp_ret].
  all: apply construct_new_payload_ok in Hreq as [Hc Ho].
  all: apply wp_bind, wp_neutral; [destruct (p_description req); solve_neutral|intros description|done].
  all: apply wp_bind, wp_attempt, wp_upsert; [done|by apply wp_ret|done|done|].
  all: intros x xs2 G2; apply wp_ret; by exists xs2.
Qed.

Lemma wp_apply_reductions settings user rds ctxs ovs xs ds dims :
  contexts_good xs ds dims →
  cwp (apply_reductions settings user true rds ctxs ovs)
    (λ _, other_contexts ds dims) (other_contexts ds dims) (xs, ds, dims).
Proof.
  revert ctxs ovs xs. induction rds as [|rd rds IH]; intros ctxs ovs xs G; cbn [apply_reductions].
  { apply wp_ret. by exists xs. }
  destruct (reducible rd) as [r|]; [|by apply IH].
  apply wp_bind. eapply wp_mono; [by apply wp_write_reduced|intros []|done].
  intros t' (xs' & -> & G'). apply wp_bind, wp_lift; [|by exists xs'].
  intros [ctxs' ovs'] _. by apply IH.
Qed.

Lemma wp_reduce_keys settings user info keys config xs ds dims :
  contexts_good xs ds dims →
  cwp (reduce_keys settings user true info keys config)
    (λ _, other_contexts ds dims) (other_contexts ds dims) (xs, ds, dims).
Proof.
  revert config xs. induction keys as [|key keys IH]; intros config xs G; cbn [reduce_keys].
  { apply wp_ret. by exists xs. }
  apply wp_bind. unfold reduce_config_key.
  assert (other_contexts ds dims (xs, ds, dims)) as Hhere by by exists xs.
  do 2 (apply wp_bind, wp_lift; [intros ? _|done]).
  apply wp_bind. eapply wp_mono; [by apply wp_apply_reductions| |done].
  intros [ctxs ovs] t' (xs' & -> & G'). apply wp_ret.
  apply wp_bind, wp_neutral; [apply _|intros config'; by apply IH|by exists xs'].
Qed.

(** A reduction writes what its statements write; nothing when it was not
    approved. *)
Section neutral.
Context {T : Type} (tables : CacWorld → T) (settings : Settings) (user : User) (is_approve : bool).
Context (Hwrite : is_approve = true → ∀ r, NeutralOn tables (write_reduced settings user r)).

Lemma neutral_reductions rds ctxs ovs :
  NeutralOn tables (apply_reductions settings user is_approve rds ctxs ovs).
Proof using Hwrite.
  revert ctxs ovs. induction rds as [|rd rds IH]; intros ctxs ovs; cbn [apply_reductions]; [apply _|].
  destruct (reducible rd) as [r|]; [|done]. apply neutral_bind; [|intros _].
  - destruct is_approve eqn:Ha; [by apply Hwrite|apply _].
  - apply neutral_bind; [apply _|]. by intros [? ?].
Qed.

Lemma neutral_reduce_keys info keys config :
  NeutralOn tables (reduce_keys settings user is_approve info keys config).
Proof using Hwrite.
  revert config. induction keys as [|key keys IH]; intros config; cbn [reduce_keys]; [apply _|].
  apply neutral_bind; [|intros; apply neutral_bind; [by destruct is_approve|done]].
  unfold reduce_config_key. do 2 (apply neutral_bind; [apply _|intros]).
  apply neutral_bind; [apply neutral_reductions|]. intros [? ?]. apply _.
Qed.

Lemma neutral_reduce_handler : NeutralOn tables (reduce_handler settings is_approve user).
Proof using Hwrite.
  unfold reduce_handler. do 2 (apply neutral_bind; [by intros w|intros]). apply neutral_reduce_keys.
Qed.
End neutral.

Lemma reduce_sim settings user xs ds dims :
  good_tables (xs, ds, dims) →
  cwp (reduce_handler settings true user)
    (λ _, cac_sim (xs, ds, dims)) (cac_sim (xs, ds, dims)) (xs, ds, dims).
Proof.
  intros G. pose proof (cac_sim_refl _ G) as Hrefl. pose proof G as (G1 & _).
  assert (∀ t', other_contexts ds dims t' → cac_sim (xs, ds, dims) t') as Hsim.
  { intros t' (xs' & -> & G'). by apply cac_sim_contexts. }
  unfold reduce_handler. do 2 (apply wp_bind, wp_neutral; [apply _|intros ?|done]).
  eapply wp_mono; [by apply wp_reduce_keys|intros ?|]; apply Hsim.
Qed.

(** ** Requests *)

Lemma all_ok_inv checks : all_ok checks = Ok tt → ∀ c, c ∈ checks → c = Ok tt.
Proof.
  unfold all_ok. intros H' c Hc. apply result_bind_ok in H' as (l & Hl & _).
  destruct (try_map id checks) as [l'|] eqn:E; [|done]. apply try_map_ok in E.
  apply list_elem_of_lookup in Hc as [i Hi].
  by destruct (Forall2_lookup_l _ _ _ _ _ E Hi) as ([] & _ & Hok).
Qed.

Lemma check_condition_ok c : check_condition c = Ok tt → c ≠ ∅.
Proof.
  unfold check_condition, discard_ok, cac_condition_try_from, Condition.validate_data_for_cac.
  by case_bool_decide.
Qed.

Lemma check_overrides_ok o : check_overrides o = Ok tt → o ≠ ∅.
Proof.
  unfold check_overrides, discard_ok, cac_overrides_try_from, Overrides.validate_data.
  by case_bool_decide.
Qed.

Lemma action_checks_ok action :
  (∀ c, c ∈ action_checks action → c = Ok tt) → action_well_formed action.
Proof.
  intros Hc. destruct action as [req|req|id|id req]; simpl; [split| | |]; [..|done|].
  - apply check_condition_ok, Hc. set_solver.
  - apply check_overrides_ok, Hc. set_solver.
  - apply check_overrides_ok, Hc. set_solver.
  - apply check_condition_ok, Hc. set_solver.
Qed.

Lemma check_position_ok p : check_position p = Ok tt → (0 ≤ p)%Z.
Proof.
  unfold check_position, discard_ok. intros Hp. apply result_bind_ok in Hp as (q & Hq & _).
  revert Hq. unfold Position.try_from. case_bool_decide; [done|]. lia.
Qed.

(** The other requests leave the three tables alone. *)
Lemma isolated_route settings tags user r : changes_config r = false →
  CacNeutral (cac_route settings tags user r).
Proof.
  intros Hr. destruct r; try done; simpl; unfold forget, function_create_handler,
    function_update_handler, function_delete_handler, function_test_handler,
    function_publish_handler, variable_create_handler, variable_update_handler,
    variable_delete_handler, template_create_handler, template_update_handler,
    template_delete_handler; solve_neutral.
  destruct is_approve; [done|]. by apply neutral_reduce_keys.
Qed.

Lemma wp_forget {A} (m : C A) Q Ψ t : cwp m (λ _, Q) Ψ t → cwp (forget m) (λ _, Q) Ψ t.
Proof. intros Hm. apply wp_bind. eapply wp_mono; [exact Hm| |done]. intros a t' Ht. by apply wp_ret. Qed.

Lemma cac_route_sim settings tags user r t :
  good_tables t → all_ok (body_checks r) = Ok tt →
  cwp (cac_route settings tags user r) (λ _, cac_sim t) (cac_sim t) t.
Proof.
  destruct t as [[xs ds] dims]. intros G Hchecks. pose proof (all_ok_inv _ Hchecks) as Hr.
  destruct (changes_config r) eqn:Hkind.
  2:{ apply wp_neutral; [by apply isolated_route|intros; by apply cac_sim_refl|by apply cac_sim_refl]. }
  destruct r; try discriminate Hkind; simpl in *; try apply wp_forget.
  - destruct (action_checks_ok (Put req) Hr). by apply ctx_create_sim.
  - apply ctx_update_sim; [done|]. exact (action_checks_ok (Replace req) Hr).
  - apply ctx_move_sim; [done|]. exact (action_checks_ok (Move ctx_id req) Hr).
  - by apply ctx_delete_sim.
  - apply bulk_operations_sim; [done|]. apply Forall_forall. intros action Ha.
    apply action_checks_ok. intros c Hc. apply Hr, list_elem_of_In, in_concat.
    exists (action_checks action). split; apply list_elem_of_In; [|done]. by apply list_elem_of_fmap_2.
  - by apply weight_recompute_sim.
  - destruct is_approve; [|discriminate Hkind]. by apply reduce_sim.
  - apply dim_create_sim; [done|]. apply check_position_ok, Hr. set_solver.
  - apply dim_update_sim; [done|]. intros p Hp. apply check_position_ok.
    specialize (Hr (check_opt check_position (ud_position req))). rewrite Hp in Hr. apply Hr. set_solver.
  - apply dim_delete_sim; [done|]. intros ->. by specialize (Hr _ (list_elem_of_here _ _)).
  - by apply default_create_sim.
  - by apply default_update_sim.
  - by apply default_delete_sim.
Qed.

Lemma cac_serve_sim c w : good_tables (cac_tables w) →
  cac_sim (cac_tables w) (cac_tables (cac_serve c w).2).
Proof.
  intros G. assert (cwp (cac_serve c) (λ _, cac_sim (cac_tables w)) (cac_sim (cac_tables w))
    (cac_tables w)) as Hwp.
  { unfold cac_serve. apply wp_bind, wp_lift; [|by apply cac_sim_refl].
    intros [] Hr. by apply cac_route_sim. }
  specialize (Hwp w eq_refl). by destruct (cac_serve c w) as [[a|e] w'].
Qed.

Lemma cac_serve_all_sim cs w : good_tables (cac_tables w) →
  cac_sim (cac_tables w) (cac_tables (cac_serve_all cs w)).
Proof.
  revert w. induction cs as [|c cs IH]; intros w G; simpl; [by apply cac_sim_refl|].
  pose proof (cac_serve_sim c w G) as Hs. eapply cac_sim_trans; [exact Hs|]. apply IH, Hs.
Qed.

Lemma fresh_good : good_tables (cac_tables fresh_workspace).
Proof.
  split_and!; [done|done| |].
  - intros k d Hd. unfold cac_tables, fresh_workspace, k_dimensions in Hd.
    by apply lookup_singleton_Some in Hd as [<- <-].
  - assert (shapes (k_dimensions fresh_workspace) = {["variantIds" := mkShape 0 Regular ∅]}) as ->
      by reflexivity.
    assert (∀ x c, ¬ based {["variantIds" := mkShape 0 Regular ∅]} x c) as Hno.
    { intros x c (s & [<- <-]%lookup_singleton_Some & Hb). done. }
    split.
    + by intros k s [<- <-]%lookup_singleton_Some.
    + by intros k k' s s' [<- <-]%lookup_singleton_Some [<- <-]%lookup_singleton_Some.
    + eexists. split; [by rewrite lookup_singleton_eq|done].
    + intros x c Hx. by apply Hno in Hx.
    + intros r s [<- <-]%lookup_singleton_Some. split; simpl; [|by intros c cs; rewrite lookup_empty].
      intros c. rewrite lookup_empty. split; [by intros [? ?]|]. intros [Hc Hx].
      apply below_leaf in Hc; [|done]. destruct (Hx Hc) as [x ?]. by destruct (Hno x "variantIds").
Qed.

Lemma reachable_tables cs :
  cac_sim (cac_tables fresh_workspace) (cac_tables (cac_serve_all cs fresh_workspace)).
Proof. apply cac_serve_all_sim, fresh_good. Qed.

Lemma cac_reachable_good cs : good_tables (cac_tables (cac_serve_all cs fresh_workspace)).
Proof. apply reachable_tables. Qed.
End handlers.
