(* ===== verification/CacGenerated.v ===== *)
(** * Weights and the generated configuration

    The weight of a condition has a bit for the position of each of its
    dimensions, so weights compare like the positions read from the highest.
    On consistent tables a configuration is always generated: it has every
    context, from the lightest to the heaviest. *)

From Stdlib Require Import NArith.
From S2P Require Import Prelude Stack Json Types Text Effects Logic LogicProps Config Resolve CacClient ExpChecks CacStore CacConfig Contexts Dimensions DimSpec CacInv.

(** ** Bits *)

Lemma N_add_pow2 (a i q : N) : N.testbit a i = false →
  N.testbit (a + 2 ^ i) q = N.testbit a q || N.eqb i q.
Proof.
  intros Hi. rewrite N.add_nocarry_lxor.
  - rewrite N.lxor_spec, N.pow2_bits_eqb. destruct (N.eqb_spec i q) as [<-|]; [by rewrite Hi|].
    by destruct (N.testbit a q).
  - apply N.bits_inj. intros k. rewrite N.land_spec, N.pow2_bits_eqb, N.bits_0.
    destruct (N.eqb_spec i k) as [<-|]; [by rewrite Hi|]. by rewrite andb_false_r.
Qed.

Lemma N_lt_at_bit (a b p : N) :
  N.testbit a p = false → N.testbit b p = true →
  (∀ q, (p < q)%N → N.testbit a q = N.testbit b q) → (a < b)%N.
Proof.
  intros Ha Hb Hq. destruct (N.le_gt_cases b a) as [Hle|]; [exfalso|done].
  assert (N.shiftr a (p + 1) = N.shiftr b (p + 1)) as Hhigh.
  { apply N.bits_inj. intros k. rewrite !N.shiftr_spec by lia. apply Hq. lia. }
  assert (∀ c, N.shiftr c p = 2 * N.shiftr c (p + 1) + N.b2n (N.testbit c p))%N as Hsplit.
  { intros c. rewrite <- N.shiftr_shiftr, <- N.div2_spec.
    rewrite (N.div2_odd (N.shiftr c p)) at 1. rewrite <- N.bit0_odd, N.shiftr_spec by lia. done. }
  assert (N.shiftr b p ≤ N.shiftr a p)%N as Hle'.
  { rewrite !N.shiftr_div_pow2. by apply N.Div0.div_le_mono. }
  rewrite (Hsplit a), (Hsplit b), Hhigh, Ha, Hb in Hle'. simpl in Hle'. lia.
Qed.

(** The order of naturals, read from the highest bit. *)
Lemma N_lt_bits (a b : N) :
  (a < b)%N ↔ ∃ p, N.testbit a p = false ∧ N.testbit b p = true ∧
    ∀ q, (p < q)%N → N.testbit a q = N.testbit b q.
Proof.
  split; [|intros (p & ? & ? & ?); by eapply N_lt_at_bit].
  intros Hlt. assert (N.lxor a b ≠ 0%N) as Hne by (intros ?%N.lxor_eq; lia).
  set (p := N.log2 (N.lxor a b)).
  assert (∀ q, (p < q)%N → N.testbit a q = N.testbit b q) as Hq.
  { intros q Hq. apply N.bits_above_log2 in Hq. rewrite N.lxor_spec in Hq.
    by destruct (N.testbit a q), (N.testbit b q). }
  pose proof (N.bit_log2 _ Hne) as Hp. fold p in Hp. rewrite N.lxor_spec in Hp.
  exists p. destruct (N.testbit a p) eqn:Ha, (N.testbit b p) eqn:Hb; try done.
  exfalso. assert (b < a)%N by (eapply (N_lt_at_bit b a p); [done|done|intros; by rewrite Hq]). lia.
Qed.

(** ** The weight of a condition *)

(** The bit of a dimension. *)
Definition bit_of (infos : gmap string DimensionInfo) (d : string) : option N :=
  as_u32 ∘ di_position <$> infos !! d.

Lemma add_weights_bits infos l w0 w :
  add_weights infos l w0 = Ok w → NoDup (bit_of infos <$> l) →
  (∀ d i, d ∈ l → bit_of infos d = Some i → N.testbit w0 i = false) →
  (∀ d, d ∈ l → is_Some (bit_of infos d)) ∧
  ∀ q, N.testbit w q = N.testbit w0 q || bool_decide (Some q ∈ bit_of infos <$> l).
Proof.
  revert w0. induction l as [|d l IH]; intros w0 Hw Hnd Hfree; simpl in Hw.
  { simplify_eq. split; [by intros d ?%elem_of_nil|]. intros q. by rewrite orb_false_r. }
  apply result_bind_ok in Hw as (position & Hp & Hw). rewrite fmap_cons in Hnd.
  apply NoDup_cons in Hnd as [Hd Hnd].
  assert (bit_of infos d = Some (as_u32 position)) as Hbit.
  { unfold bit_of. destruct (infos !! d); by simplify_eq/=. }
  set (i := as_u32 position) in *. unfold calculate_weight_from_index in Hw.
  assert (N.testbit w0 i = false) as Hi by (apply (Hfree d); [set_solver|done]).
  destruct (IH _ Hw Hnd) as [Hall Hbits].
  { intros d' i' Hd' Hi'. rewrite N_add_pow2 by done. rewrite (Hfree d' i') by set_solver.
    destruct (N.eqb_spec i i') as [<-|]; [|done]. exfalso. apply Hd. rewrite Hbit, <- Hi'.
    by apply list_elem_of_fmap_2. }
  split.
  - intros d' [->|?]%elem_of_cons; [by rewrite Hbit|by apply Hall].
  - intros q. rewrite Hbits, N_add_pow2 by done. rewrite fmap_cons, Hbit.
    destruct (N.eqb_spec i q) as [<-|Hne].
    + rewrite orb_true_r. rewrite (bool_decide_eq_true_2 (Some i ∈ Some i :: _)) by set_solver.
      by rewrite orb_true_r.
    + rewrite orb_false_r. f_equal. apply bool_decide_ext. set_solver.
Qed.

Lemma add_weights_is_Ok infos l w0 :
  (∀ d, d ∈ l → is_Some (infos !! d)) → ∃ w, add_weights infos l w0 = Ok w.
Proof.
  revert w0. induction l as [|d l IH]; intros w0 Hl; simpl; [eauto|].
  destruct (Hl d) as [info Hd]; [set_solver|]. rewrite Hd. simpl. apply IH. set_solver.
Qed.

Section weights.
Context `{MapOrder} {Ook : MapOrderOk _}.
Context (dims : gmap string Dimension) (I : dims_inv (shapes dims)).
Context (Hsize : (Z.of_nat (size dims) ≤ 2 ^ 32)%Z).
Implicit Types (c : Condition) (w : N) (row : Dimension).

Lemma dims_position d row : dims !! d = Some row → (0 ≤ dm_position row < 2 ^ 32)%Z.
Proof using I Hsize.
  intros Hd. assert (shapes dims !! d = Some (shape_of row)) as Hs by (apply shapes_lookup; eauto).
  pose proof (dims_range _ I _ _ Hs) as Hr. rewrite shapes_size in Hr. simpl in Hr. lia.
Qed.

Lemma dims_position_inj d d' row row' : dims !! d = Some row → dims !! d' = Some row' →
  Z.to_N (dm_position row) = Z.to_N (dm_position row') → d = d'.
Proof using I Hsize.
  intros Hd Hd' Heq. pose proof (dims_position _ _ Hd). pose proof (dims_position _ _ Hd').
  eapply (dims_inj _ I); [by apply shapes_lookup; eauto|by apply shapes_lookup; eauto|simpl; lia].
Qed.

Lemma bit_of_dims d row : dims !! d = Some row →
  bit_of (dimensions_info dims) d = Some (Z.to_N (dm_position row)).
Proof using I Hsize.
  intros Hd. unfold bit_of, dimensions_info. rewrite lookup_fmap, Hd. simpl.
  unfold compose, as_u32. simpl. rewrite Z.mod_small; [done|]. by eapply dims_position.
Qed.

Lemma add_weights_known infos l w0 w d : add_weights infos l w0 = Ok w → d ∈ l → is_Some (infos !! d).
Proof.
  revert w0. induction l as [|e l IH]; intros w0 Hw; [by intros ?%elem_of_nil|]. simpl in Hw.
  apply result_bind_ok in Hw as (p & Hp & Hw). intros [->|Hd]%elem_of_cons; [|by eapply IH].
  by destruct (infos !! e).
Qed.

(** A dimension is in the condition when the bit of its position is set, and
    no other bit is. *)
Lemma weight_testbit c w q :
  calculate_context_weight (VObject c) (dimensions_info dims) = Ok w →
  N.testbit w q = true ↔
  ∃ d row, is_Some (c !! d) ∧ dims !! d = Some row ∧ Z.to_N (dm_position row) = q.
Proof using I Hsize Ook.
  unfold calculate_context_weight. simpl. intros Hw.
  assert (∀ d, d ∈ (map_order c).*1 ↔ is_Some (c !! d)) as Hdom.
  { intros d. rewrite list_elem_of_fmap. unfold is_Some. setoid_rewrite <- elem_of_map_order.
    split; [intros ([k v] & -> & ?); eauto|intros [v ?]; by exists (d, v)]. }
  assert (∀ d, d ∈ (map_order c).*1 → ∃ row, dims !! d = Some row) as Hknown.
  { intros d Hd. eapply add_weights_known in Hd; [|done]. unfold dimensions_info in Hd.
    rewrite lookup_fmap, fmap_is_Some in Hd. destruct Hd as [row ?]. by exists row. }
  destruct (add_weights_bits _ _ _ _ Hw) as [_ Hbits].
  - apply (NoDup_fmap_2_strong (bit_of (dimensions_info dims))); [|apply NoDup_fst_map_order].
    intros d d' Hd Hd' Heq. destruct (Hknown _ Hd) as [row Hrow], (Hknown _ Hd') as [row' Hrow'].
    rewrite (bit_of_dims _ _ Hrow), (bit_of_dims _ _ Hrow') in Heq. injection Heq as Heq.
    by eapply dims_position_inj.
  - intros d i _ _. apply N.bits_0.
  - rewrite Hbits, N.bits_0, orb_false_l, bool_decide_eq_true, list_elem_of_fmap. split.
    + intros (d & Hq & Hd). destruct (Hknown _ Hd) as [row Hrow].
      rewrite (bit_of_dims _ _ Hrow) in Hq. injection Hq as ->. exists d, row. by rewrite <- Hdom.
    + intros (d & row & Hd & Hrow & <-). exists d. by rewrite (bit_of_dims _ _ Hrow), Hdom.
Qed.

Lemma weight_bit c w d row :
  calculate_context_weight (VObject c) (dimensions_info dims) = Ok w → dims !! d = Some row →
  N.testbit w (Z.to_N (dm_position row)) = true ↔ is_Some (c !! d).
Proof using I Hsize Ook.
  intros Hw Hd. rewrite (weight_testbit _ _ _ Hw). split; [|by eauto].
  intros (d' & row' & Hc & Hd' & Heq). by rewrite (dims_position_inj _ _ _ _ Hd Hd').
Qed.

(** Lighter: at the highest position where the conditions differ, the heavier
    one has the dimension. *)
Lemma weight_lt c1 c2 w1 w2 :
  calculate_context_weight (VObject c1) (dimensions_info dims) = Ok w1 →
  calculate_context_weight (VObject c2) (dimensions_info dims) = Ok w2 →
  (w1 < w2)%N ↔
  ∃ d row, dims !! d = Some row ∧ c1 !! d = None ∧ is_Some (c2 !! d) ∧
    ∀ d' row', dims !! d' = Some row' → (dm_position row < dm_position row')%Z →
      is_Some (c1 !! d') ↔ is_Some (c2 !! d').
Proof using I Hsize Ook.
  intros Hw1 Hw2. rewrite N_lt_bits. split.
  - intros (p & H1 & H2 & Hhigh).
    apply (weight_testbit _ _ _ Hw2) in H2 as (d & row & Hc2 & Hd & <-). exists d, row.
    split_and!; [done| |done|].
    + apply eq_None_not_Some. intros Hc1. apply (weight_bit _ _ _ _ Hw1 Hd) in Hc1. congruence.
    + intros d' row' Hd' Hlt. rewrite <- (weight_bit _ _ _ _ Hw1 Hd'), <- (weight_bit _ _ _ _ Hw2 Hd').
      pose proof (dims_position _ _ Hd). pose proof (dims_position _ _ Hd').
      rewrite Hhigh; [done|lia].
  - intros (d & row & Hd & Hc1 & Hc2 & Hhigh). exists (Z.to_N (dm_position row)). split_and!.
    + apply not_true_iff_false. rewrite (weight_bit _ _ _ _ Hw1 Hd), Hc1. by intros [? ?].
    + by apply (weight_bit _ _ _ _ Hw2 Hd).
    + intros q Hq. apply eq_true_iff_eq.
      rewrite (weight_testbit _ _ _ Hw1), (weight_testbit _ _ _ Hw2).
      split; intros (d' & row' & Hc & Hd' & <-); exists d', row'; split_and!; try done;
        (eapply Hhigh; [exact Hd'|lia|done]).
Qed.

(** Equal weights: the same dimensions. *)
Lemma weight_eq c1 c2 w1 w2 :
  calculate_context_weight (VObject c1) (dimensions_info dims) = Ok w1 →
  calculate_context_weight (VObject c2) (dimensions_info dims) = Ok w2 →
  w1 = w2 → ∀ d, is_Some (dims !! d) → is_Some (c1 !! d) ↔ is_Some (c2 !! d).
Proof using I Hsize Ook.
  intros Hw1 Hw2 Heq d [row Hd].
  by rewrite <- (weight_bit _ _ _ _ Hw1 Hd), <- (weight_bit _ _ _ _ Hw2 Hd), Heq.
Qed.

(** A condition included in another weighs less. *)
Lemma weight_included c1 c2 w1 w2 : c1 ⊆ c2 → c1 ≠ c2 →
  calculate_context_weight (VObject c1) (dimensions_info dims) = Ok w1 →
  calculate_context_weight (VObject c2) (dimensions_info dims) = Ok w2 →
  (w1 < w2)%N.
Proof using I Hsize Ook.
  intros Hsub Hne Hw1 Hw2. destruct (N.lt_trichotomy w1 w2) as [?|[Heq|Hlt]]; [done| |].
  - destruct Hne. apply map_eq. intros d. destruct (c1 !! d) as [v|] eqn:Hd.
    + symmetry. by eapply lookup_weaken.
    + symmetry. apply eq_None_not_Some. intros Hs.
      assert (is_Some (dims !! d)) as Hdim.
      { unfold calculate_context_weight in Hw2. simpl in Hw2.
        eapply (add_weights_known _ _ _ _ d) in Hw2.
        - unfold dimensions_info in Hw2. by rewrite lookup_fmap, fmap_is_Some in Hw2.
        - destruct Hs as [v Hv]. apply list_elem_of_fmap. exists (d, v).
          by rewrite elem_of_map_order. }
      apply (weight_eq _ _ _ _ Hw1 Hw2 Heq d Hdim) in Hs. rewrite Hd in Hs. by destruct Hs.
  - apply (weight_lt _ _ _ _ Hw2 Hw1) in Hlt as (d & row & _ & Hc2 & [v Hc1] & _).
    eapply lookup_weaken in Hc1; [|done]. congruence.
Qed.
End weights.

(** * The configuration generated from consistent tables

    It is generated without an error, its graphs go to smaller positions, so
    every request can be resolved in it, and the overrides of the contexts are
    laid over each other from the lightest to the heaviest. *)

(** ** Graphs *)

Lemma dims_graphs_decreasing dims :
  dims_inv (shapes dims) → graphs_decreasing (dimensions_info dims).
Proof.
  intros I root info cur e Hroot He. unfold dimensions_info in *.
  rewrite lookup_fmap in Hroot. destruct (dims !! root) as [d|] eqn:Hd; simplify_eq/=.
  unfold graph_children in He. destruct (dm_dependency_graph d !! cur) as [cs|] eqn:Hcs; simpl in He;
    [|by apply elem_of_nil in He].
  assert (shapes dims !! root = Some (shape_of d)) as Hs by (apply shapes_lookup; eauto).
  destruct (dims_graph _ I _ _ Hs) as [_ Hexact]. apply Hexact in Hcs as [_ Hcs].
  apply Hcs, (dims_base _ I) in He as (se & sc & Hse & Hsc & _ & Hlt).
  pose proof (dims_range _ I _ _ Hse).
  apply shapes_lookup in Hse as (de & Hde & ->), Hsc as (dc & Hdc & ->).
  unfold position_of. rewrite !lookup_fmap, Hde, Hdc. simpl in *. lia.
Qed.

(** ** Contexts in order *)

#[export] Instance before_total : Total before.
Proof. intros x y. unfold before. lia. Qed.
#[export] Instance before_trans : Transitive before.
Proof. intros x y z. unfold before. lia. Qed.

Definition context_of (index : nat) (x : DbContext) : Context :=
  mkContext (x_id x) (x_value x) (Z.of_nat index) (Z.of_nat index) (x_override_id x).

Definition override_of (x : DbContext) : string * Overrides := (x_override_id x, x_override x).

Lemma generated_contexts_ok index l :
  (∀ x, x ∈ l → x_value x ≠ ∅ ∧ x_override x ≠ ∅) →
  generated_contexts index l = Ok (imap (λ i x, (context_of (index + i) x, override_of x)) l).
Proof.
  revert index. induction l as [|x l IH]; intros index Hl; [done|]. simpl.
  unfold generated_context, cac_condition_try_from, cac_overrides_try_from.
  destruct (Hl x) as [Hv Ho]; [set_solver|].
  unfold Condition.validate_data_for_cac, Overrides.validate_data.
  rewrite !bool_decide_eq_false_2 by done. cbn. rewrite IH by set_solver. cbn.
  rewrite Nat.add_0_r. do 2 f_equal. apply imap_ext. intros i y _. cbn. by rewrite Nat.add_succ_r.
Qed.

(** No two rows share an override id unless they share the overrides. *)
Definition no_collision (xs : gmap string DbContext) : Prop :=
  ∀ i j x y, xs !! i = Some x → xs !! j = Some y →
    x_override_id x = x_override_id y → x_override x = x_override y.

Section generated.
Context `{FloatText} `{Blake3} `{MapOrder} {Ook : MapOrderOk _}.
Context (xs : gmap string DbContext) (ds : gmap string DefaultConfig).
Context (dims : gmap string Dimension).

Definition sorted_contexts : list DbContext := merge_sort before (map_order xs).*2.

Lemma elem_of_sorted_contexts x : x ∈ sorted_contexts ↔ ∃ id, xs !! id = Some x.
Proof using Ook.
  unfold sorted_contexts. rewrite merge_sort_Permutation, list_elem_of_fmap.
  setoid_rewrite <- elem_of_map_order. split; [intros ([id ?] & -> & ?); eauto|].
  intros [id ?]. by exists (id, x).
Qed.

Lemma sorted_contexts_sorted : StronglySorted before sorted_contexts.
Proof. apply StronglySorted_merge_sort; apply _. Qed.

Definition generated_config : Config :=
  mkConfig (imap context_of sorted_contexts) (collect_map (override_of <$> sorted_contexts))
    (dc_value <$> ds) (dimensions_info dims).

Lemma generate_cac_ok :
  contexts_good xs ds dims → generate_cac xs ds dims = Ok generated_config.
Proof using Ook.
  intros G. unfold generate_cac. fold sorted_contexts. rewrite generated_contexts_ok.
  - cbn. unfold generated_config. f_equal. f_equal.
    + rewrite fmap_imap. by apply imap_ext.
    + f_equal. rewrite fmap_imap, <- imap_const. by apply imap_ext.
  - intros x [id Hx]%elem_of_sorted_contexts. destruct (G _ _ Hx). done.
Qed.

Lemma generated_overrides x : no_collision xs → x ∈ sorted_contexts →
  collect_map (override_of <$> sorted_contexts) !! x_override_id x = Some (x_override x).
Proof using Ook.
  intros Hno Hx. assert (is_Some (collect_map (override_of <$> sorted_contexts) !! x_override_id x))
    as [o Ho].
  { apply collect_map_is_Some. rewrite <- list_fmap_compose. by apply (list_elem_of_fmap_2 _ _ x). }
  pose proof (collect_map_Some _ _ _ Ho) as (y & Hy & Hin)%list_elem_of_fmap.
  injection Hy as Hid ->. rewrite Ho. f_equal.
  apply elem_of_sorted_contexts in Hx as [i Hi], Hin as [j Hj].
  symmetry. by eapply Hno.
Qed.

(** The value a row gives a key in a request whose evaluated dimensions are
    [mq]. *)
Definition row_assigns (mq : Map) (k : string) (x : DbContext) : option Value :=
  if apply (x_value x) mq then x_override x !! k else None.

Lemma generated_assigned mq k : no_collision xs →
  assigned mq (overrides generated_config) k (contexts generated_config) =
  omap (row_assigns mq k) sorted_contexts.
Proof using Ook.
  intros Hno. unfold assigned, generated_config. cbn [overrides contexts].
  assert (∀ x, x ∈ sorted_contexts →
    collect_map (override_of <$> sorted_contexts) !! x_override_id x = Some (x_override x)) as Hov
    by (intros x; by apply generated_overrides).
  revert Hov. generalize (collect_map (override_of <$> sorted_contexts)) as m. intros m Hov.
  assert (∀ l (f : nat → nat), (∀ x, x ∈ l → x ∈ sorted_contexts) →
    omap (assigns mq m k) (imap (λ i, context_of (f i)) l) = omap (row_assigns mq k) l) as Hl.
  { induction l as [|x l IH]; intros f Hl; [done|]. cbn. unfold assigns at 1, row_assigns at 1. cbn.
    rewrite (Hov x) by (apply Hl; set_solver). cbn.
    by rewrite <- (IH (f ∘ S)) by set_solver. }
  by apply (Hl _ id).
Qed.

(** Every request is resolved; under [REPLACE] a key has its default or the
    value of the last row that applies and overrides it. *)
Lemma generated_resolves `{JsonLogic} q strategy :
  contexts_good xs ds dims → dims_inv (shapes dims) →
  ∃ mq r, evaluate_local_cohorts (cohort_fuel (dimensions_info dims)) (dimensions_info dims) q = Some mq ∧
    eval_config (cohort_fuel (dimensions_info dims)) (default_configs generated_config)
      (contexts generated_config) (overrides generated_config) (dimensions generated_config) q
      strategy None = Some (Ok r) ∧
    ∀ k, r !! k = d ← dc_value <$> ds !! k;
      Some (cascade strategy d (assigned mq (overrides generated_config) k (contexts generated_config))).
Proof using Ook.
  intros G I. pose proof (dims_graphs_decreasing _ I) as Hdec.
  destruct (evaluate_local_cohorts_is_Some _ Hdec _ q (Nat.le_refl _)) as [mq Hmq].
  destruct (eval_config_spec _ (default_configs generated_config) (contexts generated_config)
    (overrides generated_config) _ q strategy None mq Hmq) as (r & Hr & Hk & _).
  exists mq, r. split_and!; [done|done|]. intros k. rewrite Hk. simpl. by rewrite lookup_fmap.
Qed.

Lemma last_row mq k d :
  no_collision xs →
  let v := cascade REPLACE d (assigned mq (overrides generated_config) k (contexts generated_config)) in
  (v = d ∧ ∀ id x, xs !! id = Some x → row_assigns mq k x = None) ∨
  ∃ id x, xs !! id = Some x ∧ row_assigns mq k x = Some v ∧
    ∀ id' y, xs !! id' = Some y → is_Some (row_assigns mq k y) → before y x.
Proof using Ook.
  intros Hno v. unfold v. rewrite cascade_replace, generated_assigned by done.
  destruct (last_omap (row_assigns mq k) sorted_contexts)
    as [[-> Hnone]|(pre & x & post & u & Hl & Hx & -> & Hpost)].
  - left. split; [done|]. intros id x Hx. apply Hnone, elem_of_sorted_contexts. eauto.
  - right. assert (x ∈ sorted_contexts) as [id Hid]%elem_of_sorted_contexts by (rewrite Hl; set_solver).
    exists id, x. split_and!; [done..|]. intros id' y Hy Hs.
    pose proof sorted_contexts_sorted as Hsort. rewrite Hl in Hsort.
    assert (y ∈ sorted_contexts) as Hin by (apply elem_of_sorted_contexts; eauto).
    rewrite Hl in Hin. apply elem_of_app in Hin as [Hin|[->|Hin]%elem_of_cons].
    + eapply StronglySorted_app_1_elem_of; [exact Hsort|done|set_solver].
    + unfold before. lia.
    + rewrite (Hpost _ Hin) in Hs. by destruct Hs.
Qed.
End generated.
