(* ===== verification/CacChanges.v ===== *)
(** * What a request of the configuration service writes

    A request that fails writes no row; one that succeeds stores a version of
    the configuration it leaves behind. And the exact rows that a put and a
    recomputation of the weights leave. *)

From stdpp Require Import relations.
From S2P Require Import Prelude Stack Json Types Text Effects Logic LogicProps Config Resolve CacClient ExpChecks CacStore CacConfig Contexts Dimensions DefaultConfigs Functions CacServing CacReduce CacService DimSpec CacInv CacRefine CacProps.

(** ** A failed request *)

Abbreviation CacAtomic := (AtomicOn cac_rows).

#[export] Instance atomic_cac_transaction {A} (m : C A) : CacAtomic (cac_transaction m).
Proof. by apply atomic_transaction_by. Qed.

Section failed.
Context `{CacEnv} `{JsonParse} `{MapOrder} `{FloatText} `{Blake3} `{ConfigText} `{JsonText} `{JsonSchema}.
Context `{RegexEngine} `{JsonLogicVariables} `{DebugText}.

#[global] Instance silent_usage key : CacSilent (get_dimension_usage_context_ids key).
Proof. unfold get_dimension_usage_context_ids. solve_neutral. Qed.
#[global] Instance silent_exists dim : CacSilent (does_dimension_exist_for_cohorting dim).
Proof. done. Qed.
#[global] Instance silent_cohort_schema s b : CacSilent (validate_cohort_schema s b).
Proof. unfold validate_cohort_schema. solve_neutral. Qed.
#[global] Instance silent_new_dimension req : CacSilent (check_new_dimension req).
Proof. unfold check_new_dimension. solve_neutral. Qed.
#[global] Instance silent_updated_position d p : CacSilent (check_updated_position d p).
Proof. unfold check_updated_position. solve_neutral. Qed.
#[global] Instance silent_default_function f k v :
  CacSilent (validate_default_config_with_function f k v).
Proof. unfold validate_default_config_with_function. solve_neutral. Qed.
#[global] Instance silent_fn_published f : CacSilent (validate_fn_published f).
Proof. unfold validate_fn_published. solve_neutral. Qed.
#[global] Instance silent_existing_default key : CacSilent (existing_default_config key).
Proof.
  intros w. unfold existing_default_config, find_default_config.
  by destruct (k_default_configs w !! key).
Qed.
#[global] Instance silent_key_usage key : CacSilent (get_key_usage_context_ids key).
Proof. unfold get_key_usage_context_ids. solve_neutral. Qed.

Lemma atomic_forget {A} (m : C A) : CacAtomic m → CacAtomic (forget m).
Proof. intros Hm. apply atomic_then; [done|apply _]. Qed.

(** A statement that fails by itself. *)
#[global] Instance atomic_insert_function f : CacAtomic (insert_function f).
Proof. intros w. unfold insert_function. by destruct (_ !! _). Qed.
#[global] Instance atomic_update_function n f : CacAtomic (update_function n f).
Proof. intros w. unfold update_function. by destruct (_ !! _). Qed.
#[global] Instance atomic_insert_variable v : CacAtomic (insert_variable v).
Proof. intros w. unfold insert_variable. by destruct (_ !! _). Qed.
#[global] Instance atomic_update_variable n f : CacAtomic (update_variable n f).
Proof. intros w. unfold update_variable. by destruct (_ !! _). Qed.
#[global] Instance atomic_insert_template t : CacAtomic (insert_type_template t).
Proof. intros w. unfold insert_type_template. by destruct (_ !! _). Qed.
#[global] Instance atomic_update_template n f : CacAtomic (update_type_template n f).
Proof. intros w. unfold update_type_template. by destruct (_ !! _). Qed.

(** A row that is not there is not touched either. *)
#[global] Instance atomic_delete_variable n user : CacAtomic (variable_delete_handler n user).
Proof.
  intros w. unfold variable_delete_handler, mbind, ST_bind, cac_clock, execute_update_variable,
    remove_variable. simpl. rewrite lookup_alter_eq.
  destruct (k_variables w !! n) eqn:Hn; [done|]. unfold cac_rows, cac_rest. simpl.
  by rewrite alter_id' by (by rewrite Hn).
Qed.
#[global] Instance atomic_delete_template n user : CacAtomic (template_delete_handler n user).
Proof.
  intros w. unfold template_delete_handler, mbind, ST_bind, cac_clock,
    execute_update_type_template, remove_type_template. simpl. rewrite lookup_alter_eq.
  destruct (k_type_templates w !! n) eqn:Hn; [done|]. unfold cac_rows, cac_rest. simpl.
  by rewrite alter_id' by (by rewrite Hn).
Qed.

Lemma atomic_cac_route settings tags user r :
  (∀ name, r ≠ DeleteFunction name) → r ≠ ReduceConfig true →
  CacAtomic (cac_route settings tags user r).
Proof.
  intros Hr Hreduce. destruct r; simpl; try apply atomic_forget.
  - unfold ctx_create_handler. solve_atomic.
  - unfold ctx_update_handler. solve_atomic.
  - unfold ctx_move_handler. solve_atomic.
  - unfold ctx_delete_handler. solve_atomic.
  - unfold bulk_operations_handler. solve_atomic.
  - unfold weight_recompute_handler. solve_atomic.
  - destruct is_approve; [done|]. by apply atomic_neutral, neutral_reduce_handler.
  - unfold dim_create_handler. solve_atomic.
  - unfold dim_update_handler. solve_atomic.
  - unfold dim_delete_handler. solve_atomic.
  - unfold default_create_handler. solve_atomic.
  - unfold default_update_handler. solve_atomic.
  - unfold default_delete_handler. solve_atomic.
  - unfold function_create_handler. solve_atomic.
  - unfold function_update_handler. solve_atomic.
  - by destruct (Hr name).
  - unfold function_test_handler. solve_atomic.
  - unfold function_publish_handler. solve_atomic.
  - unfold variable_create_handler. solve_atomic.
  - unfold variable_update_handler. solve_atomic.
  - apply _.
  - unfold template_create_handler. solve_atomic.
  - unfold template_update_handler. solve_atomic.
  - apply _.
Qed.

Lemma atomic_cac_serve c :
  (∀ name, call_request c ≠ DeleteFunction name) → call_request c ≠ ReduceConfig true →
  CacAtomic (cac_serve c).
Proof.
  intros Hr Hreduce. unfold cac_serve. apply atomic_bind; [apply _|]. intros _. by apply atomic_cac_route.
Qed.
End failed.

(** ** A request that succeeds *)

(** [w'] has one more version than [w]: the configuration generated from the
    tables of [w']. *)
Definition stored `{MapOrder} `{Blake3} `{ConfigText} (w w' : CacWorld) : Prop :=
  ∃ v, k_versions w !! cv_id v = None ∧ k_versions w' = <[cv_id v := v]> (k_versions w) ∧
    generate_cac (k_contexts w') (k_default_configs w') (k_dimensions w') = Ok (cv_config v) ∧
    cv_config_hash v = blake3_hash (config_to_string (cv_config v)).

Class Versioned `{MapOrder} `{Blake3} `{ConfigText} {A} (m : C A) : Prop :=
  versioned : ∀ w, match m w with (Ok _, w') => stored w w' | (Err _, _) => True end.

Section contained.
#[global] Instance contained_try_insert x : CacContained (try_insert_context x).
Proof. intros w. unfold try_insert_context. by destruct (_ !! _). Qed.
#[global] Instance contained_update_context id f : CacContained (update_context id f).
Proof. intros w. unfold update_context. by destruct (_ !! _). Qed.
#[global] Instance contained_execute_update id f : CacContained (execute_update_context id f).
Proof. done. Qed.
#[global] Instance contained_remove_context id : CacContained (remove_context id).
Proof. intros w. unfold remove_context. by destruct (_ !! _). Qed.
#[global] Instance contained_execute_delete id : CacContained (execute_delete_context id).
Proof. done. Qed.
#[global] Instance contained_try_move old new f : CacContained (try_move_context old new f).
Proof. intros w. unfold try_move_context. repeat case_match; done. Qed.
#[global] Instance contained_insert_default d : CacContained (insert_default_config d).
Proof. intros w. unfold insert_default_config. by destruct (_ !! _). Qed.
#[global] Instance contained_update_default k f : CacContained (update_default_config k f).
Proof. intros w. unfold update_default_config. by destruct (_ !! _). Qed.
#[global] Instance contained_delete_default k : CacContained (execute_delete_default_config k).
Proof. done. Qed.
#[global] Instance contained_insert_dimension d : CacContained (insert_dimension d).
Proof. intros w. unfold insert_dimension. by destruct (_ !! _). Qed.
#[global] Instance contained_update_dimension n f : CacContained (update_dimension n f).
Proof. intros w. unfold update_dimension. by destruct (_ !! _). Qed.
#[global] Instance contained_where p f : CacContained (update_dimensions_where p f).
Proof. done. Qed.
#[global] Instance contained_delete_dimension n : CacContained (execute_delete_dimension n).
Proof. done. Qed.
End contained.

Section versioned.
Context `{MapOrder} `{Blake3} `{ConfigText} {A B : Type}.

Lemma versioned_bind (m : C B) (f : B → C A) :
  CacContained m → (∀ b, Versioned (f b)) → Versioned (m ≫= f).
Proof.
  intros Hm Hf w. unfold mbind, ST_bind. specialize (Hm w).
  destruct (m w) as [[b|e] w1]; [|done]. specialize (Hf b w1). injection Hm as Hm _ _ _.
  destruct (f b w1) as [[a|e] w2]; [|done]. destruct Hf as (v & Hv & Hvs & Hg).
  simpl in Hm. exists v. rewrite <- Hm. done.
Qed.

Lemma versioned_then (m : C B) (f : B → C A) :
  Versioned m → (∀ b, CacSilent (f b)) → Versioned (m ≫= f).
Proof.
  intros Hm Hf w. unfold mbind, ST_bind. specialize (Hm w).
  destruct (m w) as [[b|e] w1]; [|done]. specialize (Hf b w1).
  destruct (f b w1) as [[a|e] w2]; [|done]. destruct Hm as (v & Hv & Hvs & Hg).
  simpl in Hf. exists v. injection Hf as -> -> -> -> _ _ _. done.
Qed.

Lemma versioned_transaction (m : C A) : Versioned m → Versioned (cac_transaction m).
Proof.
  intros Hm w. specialize (Hm w). unfold cac_transaction, transaction_by.
  by destruct (m w) as [[a|e] w1].
Qed.

Lemma versioned_fail e : Versioned (fail (A:=A) e).
Proof. done. Qed.
End versioned.

Section stores.
Context `{CacEnv} `{JsonParse} `{MapOrder} `{FloatText} `{Blake3} `{ConfigText} `{JsonText} `{JsonSchema}.
Context `{RegexEngine} `{JsonLogicVariables} `{DebugText}.

Lemma versioned_add tags description : Versioned (add_config_version tags description).
Proof.
  unfold add_config_version. apply versioned_bind; [apply _|intros id]. intros w.
  unfold mbind, ST_bind, generate.
  destruct (generate_cac _ _ _) as [config|e] eqn:Hg; [|done]. cbn.
  unfold insert_version. cbn. destruct (k_versions w !! id) eqn:Hid; [done|]. cbn.
  eexists (mkConfigVersion id config _ _ _ _). split_and!; [exact Hid|reflexivity|exact Hg|reflexivity].
Qed.

End stores.

(** The case is chosen by the head of the computation. *)
Ltac solve_versioned :=
  repeat match goal with
    | |- Versioned (add_config_version _ _) => apply versioned_add
    | |- Versioned (cac_transaction _) => apply versioned_transaction
    | |- Versioned (fail _) => apply versioned_fail
    | |- Versioned (bad _) => apply versioned_fail
    | |- Versioned (_ ≫= _) =>
        first [ apply versioned_bind; [solve_neutral; fail|intros]
              | apply versioned_then; [|intros; solve_neutral; fail] ]
    | |- Versioned (if ?b then _ else _) => destruct b
    | |- _ => progress cbn beta zeta
    end.

Section routes.
Context `{CacEnv} `{JsonParse} `{MapOrder} `{FloatText} `{Blake3} `{ConfigText} `{JsonText} `{JsonSchema}.
Context `{RegexEngine} `{JsonLogicVariables} `{DebugText}.

#[global] Instance contained_upsert settings req d user b :
  CacContained (upsert settings req d user b).
Proof.
  unfold upsert, create_ctx_from_put_req, validate_ctx, validate_override_with_default_configs,
    replace_override_of_existing_ctx, update_override_of_existing_ctx, db_update_override.
  solve_neutral.
Qed.
#[global] Instance contained_update req user : CacContained (Contexts.update req user).
Proof.
  unfold Contexts.update, validate_override_with_default_configs.
  apply neutral_bind; [destruct (u_context req); solve_neutral|].
  intros [id context]. solve_neutral.
Qed.
#[global] Instance contained_move settings id req d user :
  CacContained (move settings id req d user).
Proof.
  unfold move, validate_ctx, update_override_of_existing_ctx, db_update_override. solve_neutral.
Qed.
#[global] Instance contained_bulk settings user ops : CacContained (bulk_actions settings user ops).
Proof.
  induction ops as [|action ops IH]; simpl; [apply _|]. apply neutral_bind; [|intros; solve_neutral].
  unfold bulk_action. destruct action; solve_neutral.
Qed.
#[global] Instance contained_graphs g r e : CacContained (update_graphs g r e).
Proof. unfold update_graphs, update_dimensions_in_db. solve_neutral. Qed.

#[global] Instance contained_store d user : CacContained (store_dimension d user).
Proof. unfold store_dimension, create_connections_with_dependents. solve_neutral. Qed.
#[global] Instance contained_updated name d req n user :
  CacContained (store_updated name d req n user).
Proof.
  unfold store_updated, check_field, validate_position_wrt_dependency, reposition. solve_neutral.
Qed.
#[global] Instance contained_erase name d user : CacContained (erase_dimension name d user).
Proof. unfold erase_dimension, remove_connections_with_dependents. solve_neutral. Qed.

Lemma versioned_route settings tags user r :
  stores_version r = true → Versioned (cac_route settings tags user r).
Proof.
  intros Hr. destruct r; try discriminate Hr; simpl; unfold forget; try (apply versioned_then; [|intros; apply _]).
  - unfold ctx_create_handler. solve_versioned.
  - unfold ctx_update_handler. solve_versioned.
  - unfold ctx_move_handler. solve_versioned.
  - unfold ctx_delete_handler, delete_context. solve_versioned.
  - unfold bulk_operations_handler. solve_versioned.
  - unfold weight_recompute_handler. solve_versioned.
  - unfold dim_create_handler. solve_versioned.
  - unfold dim_update_handler. solve_versioned.
  - unfold dim_delete_handler. solve_versioned.
  - unfold default_create_handler. solve_versioned.
  - unfold default_update_handler. solve_versioned.
  - unfold default_delete_handler. solve_versioned.
Qed.

(** The table of functions is left alone. *)
#[global] Instance functions_transaction {A} (m : C A) :
  NeutralOn k_functions m → NeutralOn k_functions (cac_transaction m).
Proof.
  intros Hm w. specialize (Hm w). unfold cac_transaction, transaction_by.
  by destruct (m w) as [[a|e] w'].
Qed.
#[global] Instance functions_version tags description :
  NeutralOn k_functions (add_config_version tags description).
Proof.
  assert (∀ v, NeutralOn k_functions (insert_version v))
    by (intros v w; unfold insert_version; by destruct (_ !! _)).
  unfold add_config_version. solve_neutral.
Qed.

Lemma functions_reduce settings is_approve user :
  NeutralOn k_functions (reduce_handler settings is_approve user).
Proof.
  apply neutral_reduce_handler. intros _ r. unfold write_reduced.
  apply neutral_bind; [apply neutral_attempt; unfold delete_context; solve_neutral|intros _].
  destruct (rc_to_be_deleted r); [apply _|]. destruct (construct_new_payload _); [|apply _].
  apply neutral_bind; [destruct (p_description a); solve_neutral|intros].
  apply neutral_bind; [|apply _]. apply neutral_attempt. solve_neutral.
Qed.

Lemma functions_alone settings tags user r : changes_config r = true →
  NeutralOn k_functions (cac_route settings tags user r).
Proof.
  intros Hr. destruct r; try discriminate Hr; simpl; unfold forget, ctx_create_handler,
    ctx_update_handler, ctx_move_handler, ctx_delete_handler, bulk_operations_handler,
    weight_recompute_handler, dim_create_handler, dim_update_handler, dim_delete_handler,
    default_create_handler, default_update_handler, default_delete_handler, delete_context;
    try (solve_neutral; apply functions_transaction; solve_neutral; fail).
  apply neutral_bind; [apply functions_reduce|apply _].
Qed.

Lemma keeps_forget {A} (m : C A) : keeps_functions m → keeps_functions (forget m).
Proof. intros Hm. apply keeps_bind; [done|]. intros a. apply keeps_neutral, _. Qed.

Lemma functions_route settings tags user r : keeps_functions (cac_route settings tags user r).
Proof.
  destruct (changes_config r) eqn:Hr; [by apply keeps_neutral, functions_alone|].
  destruct r; try discriminate Hr; simpl; apply keeps_forget.
  - apply keeps_neutral, functions_reduce.
  - apply keeps_create.
  - apply keeps_update.
  - apply keeps_delete.
  - apply keeps_neutral. unfold function_test_handler. solve_neutral.
  - apply keeps_publish.
  - apply keeps_neutral. unfold variable_create_handler. solve_neutral.
  - apply keeps_neutral. unfold variable_update_handler. solve_neutral.
  - apply keeps_neutral. unfold variable_delete_handler. solve_neutral.
  - apply keeps_neutral. unfold template_create_handler. solve_neutral.
  - apply keeps_neutral. unfold template_update_handler. solve_neutral.
  - apply keeps_neutral. unfold template_delete_handler. solve_neutral.
Qed.

Lemma functions_serve_all cs w : functions_good (k_functions w) →
  functions_good (k_functions (cac_serve_all cs w)).
Proof.
  revert w. induction cs as [|c cs IH]; intros w G; simpl; [done|]. apply IH.
  assert (keeps_functions (cac_serve c)) as Hk.
  { apply keeps_bind; [apply keeps_neutral, _|]. intros _. apply functions_route. }
  specialize (Hk _ G w eq_refl). by destruct (cac_serve c w) as [[a|e] w'].
Qed.

Lemma fresh_functions : functions_good (k_functions fresh_workspace).
Proof.
  split.
  - intros name f Hf. unfold fresh_workspace, k_functions in Hf. revert Hf.
    intros [[<- <-]|[_ [<- <-]%lookup_singleton_Some]]%lookup_insert_Some; by split.
  - exists context_validation_function. by repeat split.
  - exists change_reason_validation_function. by repeat split.
Qed.
End routes.

(** ** The rows a put leaves *)

(** The overrides stored by a put: those of the request, merged into the ones
    that the same condition had. *)
Definition put_overrides (old : option DbContext) (req : PutRequest) : Overrides :=
  match old with
  | None => p_override req
  | Some x => merged_overrides (x_override x) (p_override req)
  end.

Section exact.
Context `{CacEnv} `{JsonParse} `{MapOrder} `{FloatText} `{Blake3} `{ConfigText} `{JsonText} `{JsonSchema}.
Context `{RegexEngine} `{JsonLogicVariables} `{DebugText} {Ook : MapOrderOk _}.
Implicit Types (xs : gmap string DbContext) (ds : gmap string DefaultConfig).
Implicit Types (dims : gmap string Dimension).

Lemma wp_upsert_exact settings req description user Φ (P : Prop) xs ds dims :
  contexts_good xs ds dims → P → p_context req ≠ ∅ → p_override req ≠ ∅ →
  let id := hash (VObject (p_context req)) in
  (∀ x, x_id x = id → x_override x = put_overrides (xs !! id) req →
    x_override_id x = hash (VObject (x_override x)) →
    x_value x = match xs !! id with Some old => x_value old | None => p_context req end →
    x_description x = description → x_change_reason x = p_change_reason req →
    Φ x (<[id := x]> xs, ds, dims)) →
  cwp (upsert settings req description user false) Φ (λ _, P) (xs, ds, dims).
Proof.
  intros G HP Hc Ho id HΦ. unfold upsert.
  apply wp_bind, wp_create_ctx_from_put_req; [done..|]. intros x Hx Hv Hxo Hd Hr _ _.
  pose proof (ok_id _ _ _ _ Hx) as Hid. pose proof (ok_override_id _ _ _ _ Hx) as Hoid.
  apply wp_bind, wp_try_insert_context.
  - rewrite Hid. intros Hnone. fold id in Hnone. apply wp_ret, HΦ; rewrite ?Hnone; done.
  - intros _. cbn [andb]. apply wp_update_override_of_existing; [done|done| |].
    { by apply (ok_keys _ _ _ _ Hx). }
    rewrite Hid. fold id. intros old time Hold o x' _. apply HΦ; rewrite ?Hold; simpl; try done.
    + by apply (ok_id _ _ _ _ (G _ _ Hold)).
    + by rewrite <- Hxo.
Qed.

Lemma wp_ctx_create_exact settings tags req user xs ds dims :
  good_tables (xs, ds, dims) → p_context req ≠ ∅ → p_override req ≠ ∅ →
  let id := hash (VObject (p_context req)) in
  cwp (ctx_create_handler settings tags req user)
    (λ '(x, _) t', t' = (<[id := x]> xs, ds, dims) ∧ x_id x = id ∧
      x_override x = put_overrides (xs !! id) req ∧
      x_override_id x = hash (VObject (x_override x)) ∧
      x_value x = match xs !! id with Some old => x_value old | None => p_context req end ∧
      x_change_reason x = p_change_reason req)
    (λ t', t' = (xs, ds, dims)) (xs, ds, dims).
Proof.
  intros (G & _) Hc Ho id. unfold ctx_create_handler.
  do 3 (apply wp_bind, wp_neutral; [solve_neutral|intros ?|done]).
  apply cac_wp_transaction, wp_bind, wp_upsert_exact; [done..|].
  intros x Hid Hov Hoid Hv _ Hr. apply wp_bind, wp_neutral; [apply _|intros v|done].
  apply wp_ret. done.
Qed.

(** ** The weights a recomputation leaves *)

Lemma wp_set_weights_exact l time email (P : Prop) xs ds dims :
  P → NoDup (wr_id <$> l) →
  cwp (for_each (λ r, execute_update_context (wr_id r) (λ x, set_weight x (wr_new_weight r) time email)) l)
    (λ _ t', ∃ xs', t' = (xs', ds, dims) ∧
      (∀ r, r ∈ l → xs' !! wr_id r = (λ x, set_weight x (wr_new_weight r) time email) <$> xs !! wr_id r) ∧
      (∀ id, id ∉ wr_id <$> l → xs' !! id = xs !! id))
    (λ _, P) (xs, ds, dims).
Proof.
  intros HP. revert xs. induction l as [|r l IH]; intros xs Hnd; simpl.
  { apply wp_ret. exists xs. split_and!; [done|by intros ? ?%elem_of_nil|done]. }
  rewrite fmap_cons in Hnd. apply NoDup_cons in Hnd as [Hr Hnd].
  apply wp_bind, wp_execute_update_context. eapply wp_mono; [by apply IH| |done].
  intros _ t' (xs' & -> & Hin & Hout). exists xs'. split_and!; [done|..].
  - intros r' [->|Hr']%elem_of_cons.
    + rewrite Hout by done. by rewrite lookup_alter_eq.
    + rewrite Hin by done. rewrite lookup_alter_ne; [done|]. intros Heq. apply Hr.
      rewrite Heq. by apply list_elem_of_fmap_2.
  - intros id Hid. apply not_elem_of_cons in Hid as [Hne Hid].
    rewrite Hout by done. by rewrite lookup_alter_ne.
Qed.

(** The answers of a recomputation: one for every row, with its weight. *)
Lemma recomputed_rows xs ds dims l :
  contexts_good xs ds dims → try_map (recomputed (dimensions_info dims)) (map_order xs).*2 = Ok l →
  wr_id <$> l = (map_order xs).*1 ∧
  ∀ r, r ∈ l → ∃ x, xs !! wr_id r = Some x ∧
    calculate_context_weight (VObject (x_value x)) (dimensions_info dims) = Ok (wr_new_weight r).
Proof using Ook.
  intros G Hl%try_map_ok.
  assert (∀ x r, recomputed (dimensions_info dims) x = Ok r → wr_id r = x_id x ∧
    calculate_context_weight (VObject (x_value x)) (dimensions_info dims) = Ok (wr_new_weight r)) as Hrec.
  { intros x r Hr. unfold recomputed in Hr.
    destruct (calculate_context_weight _ _); by simplify_eq/=. }
  assert (∀ k, (∀ id x, (id, x) ∈ k → xs !! id = Some x) →
    Forall2 (λ a b, recomputed (dimensions_info dims) a = Ok b) k.*2 l →
    wr_id <$> l = k.*1 ∧ ∀ r, r ∈ l → ∃ x, xs !! wr_id r = Some x ∧
    calculate_context_weight (VObject (x_value x)) (dimensions_info dims) = Ok (wr_new_weight r)) as Hgen.
  { clear Hl. induction l as [|r l IH]; intros [|[id x] k] Hrows Hk; inversion Hk; subst.
    { split; [done|]. by intros r ?%elem_of_nil. }
    destruct (Hrec x r) as [Hid Hw]; [done|].
    assert (xs !! id = Some x) as Hx by (apply Hrows; set_solver).
    rewrite (ok_id _ _ _ _ (G _ _ Hx)) in Hid. destruct (IH k) as [IH1 IH2]; [set_solver|done|].
    split; [rewrite !fmap_cons; by f_equal|]. intros r' [->|Hr']%elem_of_cons; [|by apply IH2].
    exists x. by rewrite Hid. }
  apply Hgen; [|done]. by intros id x ?%elem_of_map_order.
Qed.

(** Every row after a recomputation is the row before with its weight. *)
Lemma wp_weight_recompute tags user xs ds dims :
  good_tables (xs, ds, dims) →
  cwp (weight_recompute_handler tags user)
    (λ _ t', ∃ xs', t' = (xs', ds, dims) ∧
      ∀ id, match xs' !! id, xs !! id with
            | Some x', Some x => ∃ time,
                calculate_context_weight (VObject (x_value x)) (dimensions_info dims) = Ok (x_weight x') ∧
                x' = set_weight x (x_weight x') time (user_email user)
            | None, None => True
            | _, _ => False
            end)
    (λ t', t' = (xs, ds, dims)) (xs, ds, dims).
Proof using Ook.
  intros (G & _). unfold weight_recompute_handler.
  apply wp_bind, wp_all_contexts. apply wp_bind, wp_fetch_dimensions_info_map.
  apply wp_bind, wp_neutral; [apply _|intros tags'|done].
  apply wp_bind, wp_lift; [|done]. intros l Hl.
  destruct (recomputed_rows _ _ _ _ G Hl) as [Hids Hrows].
  apply wp_bind, wp_neutral; [apply _|intros time|done].
  apply wp_bind, cac_wp_transaction, wp_bind.
  eapply wp_mono; [apply wp_set_weights_exact; [done|rewrite Hids; apply NoDup_fst_map_order]| |done].
  intros _ t' (xs' & -> & Hset & Hkeep).
  apply wp_bind, wp_neutral; [apply _|intros d|done].
  apply wp_neutral; [apply _|intros v|done]. apply wp_ret. exists xs'. split; [done|].
  intros id. destruct (decide (id ∈ wr_id <$> l)) as [Hid|Hid].
  - apply list_elem_of_fmap in Hid as (r & -> & Hr). destruct (Hrows r Hr) as (x & Hx & Hw).
    rewrite (Hset r Hr), Hx. simpl. by exists time.
  - rewrite (Hkeep id Hid). destruct (xs !! id) as [x|] eqn:Hx; [|done]. exfalso.
    apply Hid. rewrite Hids. apply list_elem_of_fmap. exists (id, x).
    split; [done|]. by apply elem_of_map_order.
Qed.
End exact.
