(* ===== verification/CacServingProps.v ===== *)
(** * Time and versions

    Whatever a request does, the clock only goes forward and the versions it
    adds carry a time it read: so the version stored last is the latest when
    the clock strictly increases, also after requests that failed half-way. *)

From stdpp Require Import relations.
From S2P Require Import Prelude Pages Stack Json Types Text Effects Logic LogicProps Config Resolve CacClient ExpChecks CacStore CacConfig Contexts Dimensions DefaultConfigs Functions CacServing CacReduce CacService DimSpec CacInv CacProps CacGenerated CacChanges.

Section clock.
Context `{CacEnv}.

(** From [w] to [w'] the clock was read some times, and every version is one
    of before or, where versions are stored, carries one of those times. *)
Definition later (stores : bool) (w w' : CacWorld) : Prop :=
  k_ticks w ≤ k_ticks w' ∧
  if stores then
    ∀ i v, k_versions w' !! i = Some v →
      k_versions w !! i = Some v ∨
      ∃ n, k_ticks w ≤ n < k_ticks w' ∧ cv_created_at v = cac_now n
  else k_versions w' = k_versions w.

#[export] Instance later_refl stores : Reflexive (later stores).
Proof. intros w. split; [done|]. destruct stores; auto. Qed.
#[export] Instance later_trans stores : Transitive (later stores).
Proof.
  intros w1 w2 w3 [H12 V12] [H23 V23]. split; [lia|].
  destruct stores; [|congruence]. intros i v Hv.
  destruct (V23 i v Hv) as [Hv2|(n & ? & ?)]; [|right; exists n; split; [lia|done]].
  destruct (V12 i v Hv2) as [?|(n & ? & ?)]; [by left|right; exists n; split; [lia|done]].
Qed.

Class Later {A} (stores : bool) (m : C A) : Prop := goes_later : ∀ w, later stores w (m w).2.

(** The clock stands and the versions stay. *)
Lemma later_same {A} stores (m : C A) :
  (∀ w, k_ticks (m w).2 = k_ticks w ∧ k_versions (m w).2 = k_versions w) → Later stores m.
Proof. intros Hm w. destruct (Hm w) as [Ht Hv]. split; [lia|]. rewrite Hv. destruct stores; auto. Qed.

Lemma later_bind {A B} stores (m : C B) (f : B → C A) :
  Later stores m → (∀ b, Later stores (f b)) → Later stores (m ≫= f).
Proof.
  intros Hm Hf w. unfold mbind, ST_bind. specialize (Hm w). destruct (m w) as [[b|e] w1]; [|done].
  etrans; [exact Hm|apply Hf].
Qed.

Lemma later_for_each {A} stores (f : A → C unit) l :
  (∀ a, Later stores (f a)) → Later stores (for_each f l).
Proof.
  intros Hf. induction l as [|a l IH]; [intros w; reflexivity|]. cbn. by apply later_bind.
Qed.

Lemma later_transaction {A} stores (m : C A) : Later stores m → Later stores (cac_transaction m).
Proof.
  intros Hm w. specialize (Hm w). unfold cac_transaction, transaction_by.
  destruct (m w) as [[a|e] w1]; [done|]. destruct Hm as [Ht _]. split; [done|]. cbn.
  destruct stores; auto.
Qed.

Lemma later_clock stores : Later stores cac_clock.
Proof. intros w. split; [cbn; lia|]. cbn. destruct stores; auto. Qed.

Lemma later_add_version `{MapOrder} `{Blake3} `{ConfigText} tags description :
  Later true (add_config_version tags description).
Proof.
  intros w. unfold add_config_version, mbind, ST_bind, cac_new_id, generate, cac_clock, insert_version.
  cbn. destruct (cac_snowflake (k_ids w)) as [id|]; [|split; cbn; auto].
  destruct (generate_cac _ _ _) as [config|]; [|split; cbn; auto]. cbn.
  destruct (k_versions w !! id) eqn:Hid; cbn; (split; [cbn; lia|]); cbn; [auto|].
  intros i v [[<- <-]|[_ Hv]]%lookup_insert_Some; [|by left].
  right. exists (k_ticks w). cbn. split; [lia|done].
Qed.
End clock.

(** The pieces are statements, which leave clock and versions alone, or known
    by the rules above; a definition that is neither is unfolded. *)
Ltac later_statement :=
  apply later_same; intros ?w;
  cbv [mret ST_ret lift fail bad cac_new_id start_node all_contexts all_dimensions find_context
    find_default_config find_dimension count_dimensions default_configs_table dimensions_table
    functions_table try_insert_context update_context execute_update_context remove_context
    execute_delete_context insert_default_config update_default_config
    execute_delete_default_config insert_dimension update_dimension update_dimensions_where
    execute_delete_dimension try_move_context find_function update_function
    execute_update_function execute_delete_function insert_function find_variable insert_variable
    update_variable execute_update_variable remove_variable find_type_template
    insert_type_template update_type_template execute_update_type_template remove_type_template
    inject_variables_into_code generate existing_default_config];
  repeat case_match; split; reflexivity.

Create HintDb later.

Ltac head_of t := lazymatch t with ?f _ => head_of f | _ => t end.

Ltac solve_later :=
  repeat first
    [ done
    | solve [auto with later nocore]
    | match goal with
      | |- Later _ cac_clock => apply later_clock
      | |- Later _ (add_config_version _ _) => apply later_add_version
      | |- Later _ (cac_transaction _) => apply later_transaction
      | |- Later _ (_ ≫= _) => apply later_bind; [|intros]
      | |- Later _ (for_each _ _) => apply later_for_each; intros
      end
    | progress cbn beta zeta
    | match goal with |- Later _ (match ?x with _ => _ end) => destruct x end
    | match goal with |- Later _ (let '(_, _) := ?x in _) => destruct x end
    | solve [later_statement]
    | match goal with |- Later _ ?m => let h := head_of m in unfold h end ].

Section requests.
Context `{CacEnv} `{JsonParse} `{MapOrder} `{FloatText} `{Blake3} `{ConfigText} `{JsonText} `{JsonSchema}.
Context `{RegexEngine} `{JsonLogicVariables} `{DebugText}.

(** An error that is turned into another. *)
Lemma later_description stores description context : Later stores (description_or_query description context).
Proof.
  unfold description_or_query. destruct description; [solve_later|]. intros w.
  assert (Later stores (query_description (VObject context))) as Hq by solve_later. specialize (Hq w).
  destruct (query_description (VObject context) w) as [[a|e] w']; [done|].
  by repeat case_match.
Qed.
#[local] Hint Resolve later_description : later.

Lemma later_bulk settings user ops : Later true (bulk_actions settings user ops).
Proof.
  induction ops as [|action ops IH]; cbn [bulk_actions]; [solve_later|].
  apply later_bind; [|intros; solve_later]. unfold bulk_action. destruct action; solve_later.
Qed.
#[local] Hint Resolve later_bulk : later.

(** A reduction stores no version. *)
Lemma later_attempt {A} stores (m : C A) : Later stores m → Later stores (attempt m).
Proof. intros Hm w. specialize (Hm w). unfold attempt. by destruct (m w) as [[a|e] w1]. Qed.

Lemma later_reductions settings user is_approve rds ctxs ovs :
  Later false (apply_reductions settings user is_approve rds ctxs ovs).
Proof.
  revert ctxs ovs. induction rds as [|rd rds IH]; intros ctxs ovs; cbn [apply_reductions]; [solve_later|].
  destruct (reducible rd) as [r|]; [|done]. apply later_bind; [|intros _].
  - destruct is_approve; [|solve_later]. unfold write_reduced.
    apply later_bind; [apply later_attempt; solve_later|intros _].
    destruct (rc_to_be_deleted r); [solve_later|]. destruct (construct_new_payload _); [|solve_later].
    apply later_bind; [solve_later|intros]. apply later_bind; [apply later_attempt; solve_later|solve_later].
  - apply later_bind; [solve_later|]. intros [ctxs' ovs']. apply IH.
Qed.

Lemma later_reduce_keys settings user is_approve dims keys config :
  Later false (reduce_keys settings user is_approve dims keys config).
Proof.
  revert config. induction keys as [|key keys IH]; intros config; cbn [reduce_keys]; [solve_later|].
  apply later_bind; [|intros; apply later_bind; [destruct is_approve; solve_later|apply IH]].
  unfold reduce_config_key. do 2 (apply later_bind; [solve_later|intros]).
  apply later_bind; [apply later_reductions|]. intros [ctxs ovs]. solve_later.
Qed.
#[local] Hint Resolve later_reduce_keys : later.

Lemma later_route settings tags user r :
  Later (stores_version r) (cac_route settings tags user r).
Proof. destruct r; cbn [cac_route stores_version]; solve_later. Qed.

Lemma later_serve c : Later (stores_version (call_request c)) (cac_serve c).
Proof. apply later_bind; [solve_later|]. intros _. apply later_route. Qed.

Lemma later_weaken stores w w' : later stores w w' → later true w w'.
Proof. intros [Ht Hv]. split; [done|]. destruct stores; [done|]. rewrite Hv. auto. Qed.

Lemma later_serve_all cs w : later true w (cac_serve_all cs w).
Proof.
  revert w. induction cs as [|c cs IH]; intros w; [done|]. cbn.
  etrans; [eapply later_weaken, later_serve|apply IH].
Qed.
End requests.

(** * What is served

    Under a clock that strictly increases, the latest version holds the
    configuration of the tables, so a request without a version is served the
    configuration that the tables generate; and what an answer of 304 says. *)

#[export] Instance newer_total : Total newer.
Proof. intros x y. unfold newer. lia. Qed.
#[export] Instance newer_trans : Transitive newer.
Proof. intros x y z. unfold newer. lia. Qed.

Lemma erasure_div t : nanosecond_erasure t = (10 ^ 9 * (t `div` 10 ^ 9))%Z.
Proof. unfold nanosecond_erasure. pose proof (Z.div_mod t (10 ^ 9) ltac:(lia)). lia. Qed.

Lemma erasure_mono s t : (s ≤ t)%Z → (nanosecond_erasure s ≤ nanosecond_erasure t)%Z.
Proof. intros Hst. rewrite !erasure_div. pose proof (Z.div_le_mono s t (10 ^ 9) ltac:(lia) Hst). lia. Qed.

Lemma erasure_idem t : nanosecond_erasure (nanosecond_erasure t) = nanosecond_erasure t.
Proof.
  rewrite (erasure_div (nanosecond_erasure t)), (erasure_div t).
  by rewrite (Z.mul_comm (10 ^ 9) (t `div` 10 ^ 9)) at 1; rewrite Z.div_mul.
Qed.

Section serving.
Context `{CacEnv} `{JsonParse} `{FloatText} `{Blake3} `{MapOrder} {Ook : MapOrderOk _}.
Context `{ConfigText} `{JsonText} `{JsonSchema} `{RegexEngine} `{JsonLogicVariables} `{DebugText}.
Context `{RowOrder} {Rok : RowOrderOk _} `{JsonLogic}.

Definition generates (w : CacWorld) (config : Config) : Prop :=
  generate_cac (k_contexts w) (k_default_configs w) (k_dimensions w) = Ok config.

Definition latest (w : CacWorld) (v : ConfigVersion) : Prop :=
  (∃ i, k_versions w !! i = Some v) ∧
  ∀ i u, k_versions w !! i = Some u → (cv_created_at u ≤ cv_created_at v)%Z.

(** The latest version is current, and no version is from the future. *)
Record up_to_date (w : CacWorld) : Prop := {
  latest_current : ∀ v, latest w v → generates w (cv_config v);
  versions_past : ∀ i v, k_versions w !! i = Some v → ∃ n, n < k_ticks w ∧ cv_created_at v = cac_now n;
}.

Context (clock : ∀ n m, n < m → (cac_now n < cac_now m)%Z).

Lemma past_later stores w w' : later stores w w' →
  (∀ i v, k_versions w !! i = Some v → ∃ n, n < k_ticks w ∧ cv_created_at v = cac_now n) →
  ∀ i v, k_versions w' !! i = Some v → ∃ n, n < k_ticks w' ∧ cv_created_at v = cac_now n.
Proof.
  intros Hl Hp i v Hv. apply later_weaken in Hl as [Ht Hvs].
  destruct (Hvs i v Hv) as [Hi|(n & ? & ?)]; [|exists n; split; [lia|done]].
  destruct (Hp i v Hi) as (n & ? & ?). exists n. split; [lia|done].
Qed.

Lemma up_to_date_same w w' stores : later stores w w' →
  cac_tables w' = cac_tables w → k_versions w' = k_versions w → up_to_date w → up_to_date w'.
Proof.
  intros Hl [= Hx Hd Hm] Hv [Hc Hp]. split; [|by eapply past_later].
  intros v [[i Hi] Hmax]. unfold generates. rewrite Hx, Hd, Hm. apply Hc. rewrite Hv in *.
  split; [by exists i|done].
Qed.

Lemma up_to_date_stored w w' : later true w w' → stored w w' → up_to_date w → up_to_date w'.
Proof using clock.
  intros Hl (v & Hnew & Hvs & Hg & _) [Hc Hp]. split; [|by eapply past_later].
  destruct Hl as [Ht Hl]. destruct (Hl (cv_id v) v) as [Hv|(n & Hn & Hvn)];
    [by rewrite Hvs, lookup_insert_eq|congruence|].
  intros u [[i Hu] Hmax]. rewrite Hvs in Hu.
  apply lookup_insert_Some in Hu as [[_ <-]|[_ Hu]]; [exact Hg|exfalso].
  destruct (Hp i u Hu) as (m & Hm & Hum). specialize (Hmax (cv_id v) v).
  rewrite Hvs, lookup_insert_eq in Hmax. specialize (Hmax eq_refl).
  specialize (clock m n ltac:(lia)). lia.
Qed.

(** No reduction that is approved: those store no version. *)
Definition versioning (c : CacCall) : Prop := call_request c ≠ ReduceConfig true.

Lemma versioned_serve c : stores_version (call_request c) = true → Versioned (cac_serve c).
Proof. intros Hc. apply versioned_bind; [apply _|]. intros _. by apply versioned_route. Qed.

(** The other requests leave what the configuration is generated from, and the
    versions. *)
Lemma unversioned_serve c w : versioning c → stores_version (call_request c) = false →
  cac_tables (cac_serve c w).2 = cac_tables w ∧ k_versions (cac_serve c w).2 = k_versions w.
Proof using Ook.
  intros Hreduce Hc. pose proof (later_serve c w) as Hl. rewrite Hc in Hl. split; [|apply Hl].
  assert (CacNeutral (cac_serve c)) as Hn; [|apply Hn].
  apply neutral_bind; [apply _|]. intros _. apply isolated_route.
  unfold versioning in Hreduce. by destruct (call_request c) as [| | | | | |[]| | | | | | | | | | | | | | | | |].
Qed.

Lemma up_to_date_serve c w : versioning c → up_to_date w → up_to_date (cac_serve c w).2.
Proof using clock Ook.
  intros Hreduce Hw. pose proof (later_serve c w) as Hl.
  destruct (stores_version (call_request c)) eqn:Hc.
  - pose proof (versioned_serve c Hc) as Hv.
    assert (CacAtomic (cac_serve c)) as Ha.
    { apply atomic_cac_serve; [|done]. intros name Hd. by rewrite Hd in Hc. }
    specialize (Hv w). specialize (Ha w). destruct (cac_serve c w) as [[u|e] w'].
    + by eapply up_to_date_stored.
    + injection Ha as Ht1 Ht2 Ht3 Hvs _ _ _. eapply up_to_date_same; [done| |done|done].
      unfold cac_tables. cbn. by rewrite Ht1, Ht2, Ht3.
  - destruct (unversioned_serve c w Hreduce Hc). by eapply up_to_date_same.
Qed.

Lemma up_to_date_serve_all cs w : Forall versioning cs → up_to_date w → up_to_date (cac_serve_all cs w).
Proof using clock Ook.
  intros Hcs. revert w. induction Hcs as [|c cs Hc _ IH]; intros w Hw; [done|].
  by apply IH, up_to_date_serve.
Qed.

Lemma up_to_date_fresh : up_to_date fresh_workspace.
Proof.
  assert (k_versions fresh_workspace = ∅) as Hv by done.
  split; [intros v [[i Hi] _]|intros i v Hi]; by rewrite Hv, lookup_empty in Hi.
Qed.

(** ** The versions in order *)

Lemma versions_head w :
  ∃ vs, versions_by_age w = (Ok vs, w) ∧
    match head vs with
    | Some v => latest w v
    | None => k_versions w = ∅
    end.
Proof using Rok.
  eexists. split; [done|]. set (vs := merge_sort newer (row_order (k_versions w)).*2).
  assert (∀ v, v ∈ vs ↔ ∃ i, k_versions w !! i = Some v) as Hin.
  { intros v. unfold vs. by rewrite merge_sort_Permutation, elem_of_rows. }
  assert (StronglySorted newer vs) as Hs by (apply StronglySorted_merge_sort; apply _).
  destruct vs as [|v vs]; cbn.
  - apply map_eq. intros i. rewrite lookup_empty. apply eq_None_not_Some. intros [v Hv].
    eapply not_elem_of_nil, Hin. eauto.
  - split; [apply Hin; by left|]. intros i u Hu.
    assert (u ∈ v :: vs) as [->|Hvs]%elem_of_cons by (apply Hin; eauto); [done|].
    apply StronglySorted_inv in Hs as [_ Hs]. rewrite Forall_forall in Hs. by apply Hs.
Qed.

(** A request without a version gets the configuration of the tables. *)
Lemma generate_latest w config : up_to_date w → generates w config →
  ∃ version, generate_config_from_version None w = (Ok (version, config), w).
Proof using Rok.
  intros Hw Hg. destruct (versions_head w) as (vs & Hvs & Hhead).
  unfold generate_config_from_version, mbind, ST_bind. rewrite Hvs.
  destruct (head vs) as [v|].
  - exists (Some (cv_id v)). pose proof (latest_current _ Hw v Hhead) as Hc.
    unfold generates in *. rewrite Hg in Hc. by injection Hc as ->.
  - exists None. unfold generate. by rewrite Hg.
Qed.

(** ** Versions stay *)

Lemma versions_grow c w : k_versions w ⊆ k_versions (cac_serve c w).2.
Proof using Ook.
  destruct (stores_version (call_request c)) eqn:Hc.
  - pose proof (versioned_serve c Hc) as Hv.
    assert (CacAtomic (cac_serve c)) as Ha.
    { apply atomic_cac_serve; [intros name Hd|intros Hd]; by rewrite Hd in Hc. }
    specialize (Hv w). specialize (Ha w). destruct (cac_serve c w) as [[u|e] w']; cbn.
    + destruct Hv as (v & Hnew & -> & _). by apply insert_subseteq.
    + injection Ha as _ _ _ -> _ _ _. done.
  - pose proof (later_serve c w) as Hl. rewrite Hc in Hl. destruct Hl as [_ ->]. done.
Qed.

Lemma versions_grow_all cs w : k_versions w ⊆ k_versions (cac_serve_all cs w).
Proof using Ook.
  revert w. induction cs as [|c cs IH]; intros w; [done|]. cbn. etrans; [apply versions_grow|apply IH].
Qed.

(** ** Resolving without remote cohorts *)

Lemma resolve_local config q strategy filters w w' :
  default false (rv_resolve_remote filters) = false →
  (resolve config q strategy filters w).2 = w ∧
  (resolve config q strategy filters w').1 = (resolve config q strategy filters w).1.
Proof.
  intros Hr. unfold resolve. rewrite Hr. unfold demand, lift, mbind, ST_bind.
  destruct (restrict_contexts _ _) as [cfg|e]; [|done]. cbn.
  destruct (ok_or _ _) as [[r|e]|e]; done.
Qed.

(** What a plain request is resolved to. *)
Lemma resolve_plain config q strategy filters w r :
  rv_context_id filters = None → default false (rv_resolve_remote filters) = false →
  default false (rv_show_reasoning filters) = false →
  eval_config (cohort_fuel (dimensions config)) (default_configs config) (contexts config)
    (overrides config) (dimensions config) q strategy None = Some (Ok r) →
  resolve config q strategy filters w = (Ok r, w).
Proof.
  intros Hid Hr Hs He. unfold resolve. rewrite Hr, Hs, Hid. unfold demand, lift, mbind, ST_bind. cbn.
  destruct (eval_cac_eval_config (cohort_fuel (dimensions config)) config q strategy) as [Hev _].
  rewrite Hev, He. done.
Qed.

(** The time of the last version. *)
Lemma max_created_at w :
  ∃ o, attempt get_max_created_at w = (Ok o, w) ∧
    match o with
    | Some m => ∃ v, latest w v ∧ m = cv_created_at v
    | None => k_versions w = ∅
    end.
Proof using Rok.
  destruct (versions_head w) as (vs & Hvs & Hhead).
  unfold attempt, get_max_created_at, mbind, ST_bind, lift. rewrite Hvs.
  destruct (head vs) as [v|]; cbn; eexists; (split; [done|]); [by exists v|done].
Qed.

Lemma unconditional o req : sr_if_modified_since req = None → is_not_modified o req = false.
Proof. intros Hr. unfold is_not_modified. rewrite Hr. by destruct o. Qed.
End serving.

(** * The evaluation of remote cohorts

    Whatever the functions of the users answer, the loop over the cohorts ends
    with the fuel of the dimensions; and when no function fails, every remote
    cohort of a dimension that is bound is bound. *)

Section remote.
Context `{CacEnv} `{JsonParse} `{MapOrder} {Ook : MapOrderOk _}.
Context (rows : gmap string Dimension) (I : dims_inv (shapes rows)).

Local Abbreviation dims := (dimensions_info rows).
Local Abbreviation D := (shapes rows).

Lemma dims_lookup d info : dims !! d = Some info ↔ ∃ row, rows !! d = Some row ∧ info = dimension_info row.
Proof. unfold dimensions_info. rewrite lookup_fmap, fmap_Some. naive_solver. Qed.

(** A dimension whose value is not computed here. *)
Definition local_in (d : string) : Prop :=
  ∃ info, dims !! d = Some info ∧ is_local_cohort (di_dimension_type info) = true.

Definition remote_on (e p : string) : Prop := based D e p ∧ ¬ local_in e.

Lemma remote_on_row e d p :
  rows !! e = Some d → dm_dimension_type d = RemoteCohort p → remote_on e p.
Proof using Type.
  intros Hd Ht. split.
  - exists (shape_of d). split; [apply shapes_lookup; eauto|]. unfold shape_of. cbn. by rewrite Ht.
  - intros (info & Hi & Hl). apply dims_lookup in Hi as (d' & Hd' & ->). simplify_eq.
    cbn in Hl. by rewrite Ht in Hl.
Qed.

(** The remote cohorts of what is bound are bound or still to be computed. *)
Definition closed (ctx : Map) (pending : list string) : Prop :=
  ∀ p e, is_Some (ctx !! p) → remote_on e p → is_Some (ctx !! e) ∨ e ∈ pending.

Lemma closed_mono ctx pending pending' : closed ctx pending → pending ⊆ pending' → closed ctx pending'.
Proof. intros Hc Hs p e Hp He. destruct (Hc p e Hp He); [by left|right; by apply Hs]. Qed.

(** What a run leaves: not [None], which is a loop that has not ended; an
    error only when the value of a cohort could not be computed. *)
Definition remote_done (ctx : Map) (pending : list string) (out : Result (option Map)) : Prop :=
  match out with
  | Ok None => False
  | Ok (Some ctx') => (∀ rest, closed ctx (pending ++ rest) → closed ctx' rest) ∧
      ∀ d, is_Some (ctx !! d) → is_Some (ctx' !! d)
  | Err e => ∃ c b data ctx w, dims !! c = Some data ∧
      (remote_cohort_value c b data ctx w).1 = Err e
  end.

Section root.
Context (root : string) (row : Dimension) (Hroot : rows !! root = Some row).

Local Abbreviation g := (dm_dependency_graph row).

Lemma root_graph : graph_exact D root g.
Proof using I Hroot. apply (dims_graph _ I root (shape_of row)), shapes_lookup. eauto. Qed.

Lemma graph_child d e : below D root d → e ∈ graph_children g d ↔ based D e d.
Proof using I Hroot.
  intros Hb. destruct root_graph as [Hdom Hexact]. unfold graph_children.
  destruct (g !! d) as [l|] eqn:Hd; cbn; [by apply Hexact in Hd as [_ Hl]|].
  split; [by intros ?%elem_of_nil|]. intros He. exfalso.
  assert (is_Some (g !! d)) as [? Hs]; [|congruence]. apply Hdom. split; [done|]. intros ->. eauto.
Qed.

Lemma remote_children_elem d c b : below D root d →
  (c, b) ∈ remote_children g d ↔ based D c d ∧ b = d.
Proof using I Hroot.
  intros Hb. unfold remote_children. rewrite elem_of_reverse, list_elem_of_fmap. fold (graph_children g d).
  rewrite <- graph_child by done. naive_solver.
Qed.

Definition pending_work (item : string * string) : nat :=
  node_work (graph_children g) (position_of dims) item.1.

Lemma remote_children_work d :
  S (sum_list_with pending_work (remote_children g d)) ≤ node_work (graph_children g) (position_of dims) d.
Proof using I Hroot.
  unfold remote_children. rewrite sum_list_with_reverse.
  assert (sum_list_with pending_work ((λ x, (x, d)) <$> default [] (g !! d)) =
    sum_list_with (node_work (graph_children g) (position_of dims)) (graph_children g d)) as ->.
  { unfold graph_children. induction (default [] (g !! d)) as [|x l IH]; [done|]. cbn. by rewrite IH. }
  apply node_work_children. intros d' e.
  apply (dims_graphs_decreasing rows I root (dimension_info row)), dims_lookup. eauto.
Qed.

(** What the loop has looked at is bound, or is not computed by it. *)
Lemma closed_skipped ctx c pending :
  closed ctx (c :: pending) → local_in c ∨ dims !! c = None → closed ctx pending.
Proof using Type.
  intros Hc Hl p e Hp He. destruct (Hc p e Hp He) as [?|[->|?]%elem_of_cons]; [by left| |by right].
  destruct He as [(s & Hs & _) Hn], Hl as [Hl|Hl]; [done|].
  apply shapes_lookup in Hs as (r & Hr & _).
  assert (dims !! c = Some (dimension_info r)) by (apply dims_lookup; eauto). congruence.
Qed.

Lemma closed_computed ctx c v pending : below D root c → closed ctx (c :: pending) →
  closed (<[c := v]> ctx) ((remote_children g c).*1 ++ pending).
Proof using I Hroot.
  intros Hb Hc p e Hp He. destruct (decide (p = c)) as [->|Hne].
  - right. apply elem_of_app; left. apply list_elem_of_fmap. exists (e, c). split; [done|].
    apply remote_children_elem; [done|]. split; [apply He|done].
  - rewrite lookup_insert_ne in Hp by done.
    destruct (Hc p e Hp He) as [?|[->|?]%elem_of_cons].
    + left. by apply insert_is_Some.
    + left. rewrite lookup_insert_eq. eauto.
    + right. apply elem_of_app; by right.
Qed.

Lemma remote_loop_ends fuel stack ctx w :
  sum_list_with pending_work stack ≤ fuel →
  (∀ c b, (c, b) ∈ stack → below D root c) →
  remote_done ctx stack.*1 (remote_loop fuel g dims stack ctx w).1.
Proof using I Hroot.
  revert stack ctx w. induction fuel as [|fuel IH]; intros [|[c b] stack] ctx w Hf Hbelow;
    try (by split); cbn [sum_list_with] in Hf; pose proof (remote_children_work c) as Hwork;
    change (pending_work (c, b)) with (node_work (graph_children g) (position_of dims) c) in Hf.
  - lia.
  - assert (∀ c b, (c, b) ∈ stack → below D root c) as Hbelow' by (intros ? ? ?; eapply Hbelow; by right).
    assert (below D root c) as Hbc by (eapply Hbelow; by left).
    assert (local_in c ∨ dims !! c = None →
      remote_done ctx (c :: stack.*1) (remote_loop fuel g dims stack ctx w).1) as Hskip.
    { intros Hl. specialize (IH stack ctx w ltac:(lia) Hbelow').
      destruct (remote_loop fuel g dims stack ctx w).1 as [[ctx'|]|]; [|done..].
      destruct IH as [Hc Hm]. split; [|done]. intros rest Hcl. apply Hc. by eapply closed_skipped. }
    cbn [remote_loop fmap list_fmap fst]. destruct (dims !! c) as [data|] eqn:Hdata; [|by apply Hskip; right].
    destruct (is_local_cohort (di_dimension_type data)) eqn:Hl; [apply Hskip; left; by exists data|].
    unfold mbind, ST_bind. destruct (remote_cohort_value c b data ctx w) as [[v|e] w1] eqn:Hv;
      [|exists c, b, data, ctx, w; by rewrite Hv].
    specialize (IH (remote_children g c ++ stack) (<[c := v]> ctx) w1).
    rewrite sum_list_with_app in IH. specialize (IH ltac:(lia)).
    assert (∀ c' b', (c', b') ∈ remote_children g c ++ stack → below D root c') as Hall.
    { intros c' b' [Hin|Hin]%elem_of_app; [|by eapply Hbelow'].
      apply remote_children_elem in Hin as [Hb ->]; [|done]. eapply rtc_r; [exact Hbc|exact Hb]. }
    specialize (IH Hall).
    destruct (remote_loop fuel g dims (remote_children g c ++ stack) (<[c := v]> ctx) w1).1
      as [[ctx'|]|e]; [|done..]. destruct IH as [Hc Hm]. split.
    + intros rest Hcl. apply Hc. rewrite fmap_app, <- app_assoc. by apply closed_computed.
    + intros d Hd. apply Hm. by apply insert_is_Some.
Qed.

Lemma remote_root_ends fuel v ctx w : cohort_fuel dims ≤ fuel →
  remote_done (<[root := v]> ctx) (remote_children g root).*1
    (evaluate_remote_cohorts_dependency fuel root g dims (<[root := v]> ctx) w).1.
Proof using I Hroot.
  intros Hf. apply remote_loop_ends.
  - pose proof (remote_children_work root).
    pose proof (cohort_fuel_entry dims root (dimension_info row)) as Hw.
    specialize (Hw ltac:(apply dims_lookup; eauto)).
    change (di_dependency_graph (dimension_info row)) with g in Hw. lia.
  - intros c b [Hb _]%remote_children_elem; [|apply rtc_refl]. by apply rtc_once.
Qed.

Lemma closed_root v ctx : closed ctx [] → closed (<[root := v]> ctx) (remote_children g root).*1.
Proof using I Hroot.
  intros Hc. rewrite <- (app_nil_r _.*1). apply closed_computed; [apply rtc_refl|].
  by eapply closed_mono; [|apply list_subseteq_nil].
Qed.
End root.

Definition starts_done (q : Map) (starts : list string) (ctx : Map) (out : Result (option Map)) : Prop :=
  match out with
  | Ok None => False
  | Ok (Some ctx') => closed ctx' [] ∧ (∀ d, is_Some (ctx !! d) → is_Some (ctx' !! d)) ∧
      ∀ d info, d ∈ starts → is_Some (q !! d) → dims !! d = Some info →
        is_local_cohort (di_dimension_type info) = false → is_Some (ctx' !! d)
  | Err e => ∃ c b data ctx w, dims !! c = Some data ∧
      (remote_cohort_value c b data ctx w).1 = Err e
  end.

Lemma starts_skipped q d starts ctx out :
  (∀ info, is_Some (q !! d) → dims !! d = Some info → is_local_cohort (di_dimension_type info) = true) →
  starts_done q starts ctx out → starts_done q (d :: starts) ctx out.
Proof using Type.
  intros Hd. destruct out as [[ctx'|]|]; [|done..]. intros (Hc & Hm & IH). split_and!; [done..|].
  intros d' info [->|Hin]%elem_of_cons Hs Hi Hn; [|by eapply IH].
  specialize (Hd info Hs Hi). congruence.
Qed.

Lemma remote_starts_ends fuel q starts ctx w : cohort_fuel dims ≤ fuel → closed ctx [] →
  starts_done q starts ctx (remote_starts fuel dims q starts ctx w).1.
Proof using I.
  intros Hf. revert ctx w. induction starts as [|d starts IH]; intros ctx w Hc; cbn [remote_starts].
  { split_and!; [done..|]. by intros d info ?%elem_of_nil. }
  destruct (q !! d) as [v|] eqn:Hq; [|apply starts_skipped; [intros ? []%not_eq_None_Some|]; auto].
  destruct (dims !! d) as [data|] eqn:Hd; [|apply starts_skipped; [congruence|auto]].
  destruct (is_local_cohort (di_dimension_type data)) eqn:Hl; [apply starts_skipped; [congruence|auto]|].
  destruct (proj1 (dims_lookup d data) Hd) as (row & Hrow & ->).
  pose proof (remote_root_ends d row Hrow fuel v ctx w Hf) as Hr. unfold mbind, ST_bind. cbn in Hr |- *.
  destruct (evaluate_remote_cohorts_dependency fuel d (dm_dependency_graph row) dims (<[d:=v]> ctx) w)
    as [[[ctx1|]|e] w1]; cbn in Hr; [|done..].
  destruct Hr as [Hc1 Hm1]. specialize (Hc1 []). rewrite app_nil_r in Hc1.
  specialize (IH ctx1 w1 (Hc1 (closed_root d row Hrow v ctx Hc))).
  destruct (remote_starts fuel dims q starts ctx1 w1).1 as [[ctx2|]|?]; [|done..].
  destruct IH as (? & Hm2 & IH). split_and!; [done|..].
  - intros d' Hd'. apply Hm2, Hm1. by apply insert_is_Some.
  - intros d' info [->|Hin]%elem_of_cons Hs Hi Hn; [|by apply (IH _ info)].
    apply Hm2, Hm1. rewrite lookup_insert_eq. eauto.
Qed.

Lemma keep_local_bound q ctx d : is_Some (ctx !! d) → is_Some (keep_local dims q ctx !! d).
Proof using Type.
  unfold keep_local. revert ctx. induction (sorted_entries q) as [|[k v] l IH]; intros ctx Hd; [done|].
  cbn. apply IH. repeat case_match; [by apply insert_is_Some|done..].
Qed.

(** Only local cohorts are added at the end. *)
Lemma keep_local_origin q ctx d : is_Some (keep_local dims q ctx !! d) → is_Some (ctx !! d) ∨ local_in d.
Proof using Type.
  unfold keep_local. revert ctx. induction (sorted_entries q) as [|[k v] l IH]; intros ctx Hd; [by left|].
  cbn in Hd. apply IH in Hd as [Hd|?]; [|by right]. destruct (dims !! k) as [data|] eqn:Hk; [|by left].
  destruct (is_local_cohort (di_dimension_type data)) eqn:Hl; [|by left].
  destruct (decide (d = k)) as [->|Hne]; [right; by exists data|].
  rewrite lookup_insert_ne in Hd by done. by left.
Qed.

(** Nothing is based on a local cohort. *)
Lemma based_not_local e p : based D e p → ¬ local_in p.
Proof using I.
  intros Hb (info & Hi & Hl). apply (dims_base _ I) in Hb as (sx & sc & _ & Hc & Hn & _).
  apply dims_lookup in Hi as (row & Hrow & ->). apply shapes_lookup in Hc as (row' & Hrow' & ->).
  simplify_eq. cbn in *. congruence.
Qed.

Lemma evaluate_remote_cohorts_ends q w :
  match (evaluate_remote_cohorts (cohort_fuel dims) dims q w).1 with
  | Ok None => False
  | Ok (Some ctx) =>
      (∀ d info, dims !! d = Some info → is_regular (di_dimension_type info) = true →
         is_Some (q !! d) → is_Some (ctx !! d)) ∧
      ∀ p e, is_Some (ctx !! p) → remote_on e p → is_Some (ctx !! e)
  | Err err => ∃ c b data ctx w, dims !! c = Some data ∧
      (remote_cohort_value c b data ctx w).1 = Err err
  end.
Proof using I Ook.
  unfold evaluate_remote_cohorts.
  destruct (start_roots_total dims (dims_graphs_decreasing rows I) (cohort_fuel dims) q
    (regular_dimensions dims) [] (Nat.le_refl _)) as [starts Hs].
  { intros d (info & Hd & _)%regular_dimensions_spec. eauto. }
  unfold dimensions_to_start_from. rewrite Hs.
  pose proof (remote_starts_ends (cohort_fuel dims) q starts ∅ w (Nat.le_refl _)) as Hends.
  specialize (Hends ltac:(intros p e [? Hp]; by rewrite lookup_empty in Hp)).
  unfold mbind, ST_bind. destruct (remote_starts (cohort_fuel dims) dims q starts ∅ w) as [[[ctx|]|e] w'];
    cbn in Hends |- *; [|done..].
  destruct Hends as (Hc & _ & Hb). split.
  - intros d info Hd Hr Hq. apply keep_local_bound. eapply Hb; [|done..|by destruct (di_dimension_type info)].
    eapply start_roots_root; [|done|exact Hs]. apply regular_dimensions_spec. eauto.
  - intros p e Hp He. apply keep_local_bound. apply keep_local_origin in Hp as [Hp|Hl].
    + destruct (Hc p e Hp He) as [?|?%elem_of_nil]; done.
    + by destruct (based_not_local e p (proj1 He)).
Qed.
End remote.
