(* ===== verification/Store.v ===== *)
(** * The experimentation service's state and effects

    The handlers of [crates/experimentation_platform] read and write two tables
    of the database, [experiments] and [experiment_groups], draw snowflake ids,
    read the clock and call the configuration service over HTTP. An effectful
    function is a function from the world to its result and the world after it.
    The answers of the outside are given by a class [Env]. Statements outside a
    transaction commit one by one; a transaction that ends with an error
    restores the tables, but not the calls made. *)

From S2P Require Import Prelude Pages Json Types Text Effects ExpModels Bucketing CacClient ExpChecks CacStore.

(** ** Requests to the outside *)

Inductive WebhookEvent : Type :=
  | ExperimentCreated | ExperimentStarted | ExperimentInprogress | ExperimentUpdated
  | ExperimentConcluded | ExperimentDiscarded | ExperimentPaused.

Inductive Event : Type :=
  | CallChangeReason (change_reason : string)
  | CallGetContext (context_id : string)
  | CallResolve (dimensions : Map) (context_id : option string)
  | CallValidateContext (context : Condition)
  | CallBulkOperations (operations : list ContextAction) (config_tags : option string)
  | CallUpdateDefaultConfig (key : string) (value : Value) (change_reason : string)
  | CallConfig
  | CallWebhook (event : WebhookEvent) (response : ExperimentResponse)
      (config_version_id : option string).

(** An HTTP exchange: it fails, or brings a status and a body, which parses as
    what is expected, as an error message, or as nothing. *)
Inductive HttpBody (T : Type) : Type :=
  | Parsed (value : T)
  | ErrorMessage (message : string)
  | Unparsable.
Arguments Parsed {T} value.
Arguments ErrorMessage {T} message.
Arguments Unparsable {T}.

Inductive HttpOutcome (T : Type) : Type :=
  | SendFailed (err : string)
  | Responded (status : Z) (version : option string) (body : HttpBody T).
Arguments SendFailed {T} err.
Arguments Responded {T} status version body.

Definition reply (e : Event) : Type :=
  match e with
  | CallChangeReason _ => HttpOutcome unit
  | CallGetContext _ => HttpOutcome DbContext
  | CallResolve _ _ => HttpOutcome Map
  | CallValidateContext _ => HttpOutcome unit
  | CallBulkOperations _ _ => HttpOutcome (list ContextBulkResponse)
  | CallUpdateDefaultConfig _ _ _ => result string Value
  | CallConfig => HttpOutcome Config
  | CallWebhook _ _ _ => result unit bool
  end.

(** What the outside answers, given everything it was asked before; the clock
    and the id generator. *)
Class Env := {
  env_reply : list Event → ∀ e, reply e;
  env_now : nat → Z;
  env_snowflake : nat → Result Z;
}.

(** ** The world *)

Record World : Type := mkWorld {
  w_experiments : gmap Z Experiment;
  w_groups : gmap Z ExperimentGroup;
  w_trace : list Event;
  w_ticks : nat;
  w_ids : nat;
}.

Abbreviation M := (ST World).

(** What a rollback restores: the tables, not the calls made. *)
Definition rollback (before after : World) : World :=
  mkWorld (w_experiments before) (w_groups before) (w_trace after) (w_ticks after) (w_ids after).

(** [conn.transaction(...)]. *)
Definition transaction {A} (m : M A) : M A := transaction_by rollback m.

Section effects.
Context `{Env}.

Definition now : M Z := λ w,
  (Ok (env_now (w_ticks w)),
   mkWorld (w_experiments w) (w_groups w) (w_trace w) (S (w_ticks w)) (w_ids w)).

Definition generate_snowflake_id : M Z := λ w,
  (env_snowflake (w_ids w),
   mkWorld (w_experiments w) (w_groups w) (w_trace w) (w_ticks w) (S (w_ids w))).

Definition call (e : Event) : M (reply e) := λ w,
  (Ok (env_reply (w_trace w) e),
   mkWorld (w_experiments w) (w_groups w) (e :: w_trace w) (w_ticks w) (w_ids w)).
End effects.

(** ** Tables *)

Definition set_experiments (w : World) (es : gmap Z Experiment) : World :=
  mkWorld es (w_groups w) (w_trace w) (w_ticks w) (w_ids w).
Definition set_groups (w : World) (gs : gmap Z ExperimentGroup) : World :=
  mkWorld (w_experiments w) gs (w_trace w) (w_ticks w) (w_ids w).

Definition duplicate_key {A} : Result A :=
  Err (DbError (ConstraintViolation "duplicate key value violates unique constraint")).
Definition no_row {A} : Result A := Err (DbError DbNotFound).

(** [experiments.find(id).get_result()]. *)
Definition fetch_experiment (experiment_id : Z) : M Experiment := λ w,
  (match w_experiments w !! experiment_id with Some e => Ok e | None => no_row end, w).

(** [diesel::update(..).set(..).get_result()]: fails when no row matches. *)
Definition update_experiment (experiment_id : Z) (f : Experiment → Experiment) : M Experiment :=
  λ w, match w_experiments w !! experiment_id with
       | Some e => (Ok (f e), set_experiments w (<[experiment_id := f e]> (w_experiments w)))
       | None => (no_row, w)
       end.

(** [diesel::update(..).set(..).execute()]: the number of rows is ignored. *)
Definition execute_update_experiment (experiment_id : Z) (f : Experiment → Experiment) : M unit :=
  λ w, (Ok tt, set_experiments w (alter f experiment_id (w_experiments w))).

Definition insert_experiment (e : Experiment) : M Experiment := λ w,
  match w_experiments w !! e_id e with
  | Some _ => (duplicate_key, w)
  | None => (Ok e, set_experiments w (<[e_id e := e]> (w_experiments w)))
  end.

Definition select_experiments `{RowOrder} (p : Experiment → bool) : M (list Experiment) := λ w,
  (Ok (List.filter p (row_order (w_experiments w)).*2), w).

(** [fetch_experiment_group], with its row lock, which is not modelled. *)
Definition fetch_experiment_group (id : Z) : M ExperimentGroup := λ w,
  (match w_groups w !! id with Some g => Ok g | None => no_row end, w).

Definition update_group (id : Z) (f : ExperimentGroup → ExperimentGroup) : M ExperimentGroup :=
  λ w, match w_groups w !! id with
       | Some g => (Ok (f g), set_groups w (<[id := f g]> (w_groups w)))
       | None => (no_row, w)
       end.

Definition execute_update_group (id : Z) (f : ExperimentGroup → ExperimentGroup) : M unit :=
  λ w, (Ok tt, set_groups w (alter f id (w_groups w))).

Definition insert_group (g : ExperimentGroup) : M ExperimentGroup := λ w,
  match w_groups w !! g_id g with
  | Some _ => (duplicate_key, w)
  | None => (Ok g, set_groups w (<[g_id g := g]> (w_groups w)))
  end.

Definition delete_group (id : Z) : M unit := λ w,
  (Ok tt, set_groups w (delete id (w_groups w))).

(** ** The workspace a request runs in *)

Record Workspace : Type := mkWorkspace {
  ws_enable_change_reason_validation : bool;
  ws_allow_experiment_self_approval : bool;
  ws_auto_populate_control : bool;
  ws_metrics : Metrics;
  ws_flags : ExperimentationFlags;
}.

(** ** Calls to the configuration service

    [cac_api.rs] and the fetching functions of [helpers.rs]. The headers are
    assumed to be well-formed. *)

Definition is_success (status : Z) : bool := bool_decide (200 ≤ status < 300)%Z.
Definition is_client_error (status : Z) : bool := bool_decide (400 ≤ status < 500)%Z.

Definition internal_server_error {A} : Result A := unexpected_error "Something went wrong.".

(** [parse_error_response], on a client error. *)
Definition error_of_response {T A} (status : Z) (body : HttpBody T) : Result A :=
  match body with
  | ErrorMessage message => Err (ResponseError message status)
  | _ => unexpected_error "Something went wrong"
  end.

Definition process_cac_bulk_operation_http_response {T} (response : HttpOutcome T)
    : Result (T * option string) :=
  match response with
  | Responded status version body =>
      if is_success status then
        match body with Parsed v => Ok (v, version) | _ => internal_server_error end
      else if is_client_error status then error_of_response status body
      else internal_server_error
  | SendFailed _ => internal_server_error
  end.

Definition process_cac_http_response {T} (response : HttpOutcome T) : Result T :=
  match response with
  | Responded status _ body =>
      if is_success status then
        match body with Parsed v => Ok v | _ => internal_server_error end
      else if is_client_error status then error_of_response status body
      else internal_server_error
  | SendFailed _ => internal_server_error
  end.

Section calls.
Context `{Env}.

Definition get_resolved_config (dimension_query : Map) (context_id : option string) : M Map :=
  response ← call (CallResolve dimension_query context_id);
  lift (process_cac_http_response response).

Definition get_partial_resolve_config (exp_context : Condition) (context_id : string) : M Map :=
  get_resolved_config exp_context (Some context_id).

Definition get_context_override (context_id : string) : M DbContext :=
  response ← call (CallGetContext context_id);
  lift (match process_cac_http_response response with
        | Err (ResponseError message status) =>
            if bool_decide (status = 404%Z) then
              Err (ResponseError "Context not found in CAC for given experiment, you should discard this experiment" 412)
            else Err (ResponseError message status)
        | r => r
        end).

Definition validate_context (condition : Condition) : M unit :=
  payload ← lift (map_err BadArgument (cac_condition_try_from condition));
  response ← call (CallValidateContext payload);
  lift (match response with
        | Responded status _ body =>
            if bool_decide (status = 200%Z) then Ok tt
            else match body with
                 | ErrorMessage message => bad_argument message
                 | _ => unexpected_error "failed to parse Context validate error. Please checks the system logs"
                 end
        | SendFailed err => unexpected_error err
        end).

Definition fetch_cac_config : M (Config * option string) :=
  response ← call CallConfig;
  lift (match response with
        | Responded _ config_version body =>
            match body with
            | Parsed config => Ok (config, config_version)
            | _ => unexpected_error "Failed to parse cac config."
            end
        | SendFailed error => unexpected_error error
        end).

Definition fetch_and_validate_change_reason_with_function (ws : Workspace)
    (change_reason : string) : M unit :=
  if negb (ws_enable_change_reason_validation ws) then mret tt
  else
    response ← call (CallChangeReason change_reason);
    lift (match response with
          | Responded _ _ (Parsed _) => Ok tt
          | Responded _ _ _ => bad_argument "Change reason validation failed."
          | SendFailed error => unexpected_error error
          end).

(** [fetch_webhook_by_event] and [execute_webhook_call]: [Err] is a webhook
    that could not be fetched, which counts as success; the answer is the
    status of the response, 200 or 512. *)
Definition webhook_status (event : WebhookEvent) (response : ExperimentResponse)
    (config_version_id : option string) : M Z :=
  answer ← call (CallWebhook event response config_version_id);
  mret (match answer with
        | Ok true | Err _ => 200%Z
        | Ok false => 512%Z
        end).
End calls.
