(* ===== verification/Groups.v ===== *)
(** * Experiment groups

    [crates/experimentation_platform/src/api/experiment_groups]: the helpers
    and the handlers, on the world of [Store]. The authorisation of the
    requests is not modelled. *)

From S2P Require Import Prelude Pages Json Types Text Effects ExpModels Bucketing BucketAlloc CacClient ExpChecks CacStore Store.

(** The elements of a [HashSet<i64>] in the order it happens to iterate. *)
Class SetOrder := set_order : gset Z → list Z.
Class SetOrderOk (S : SetOrder) : Prop := set_order_perm : ∀ s, set_order s ≡ₚ elements s.

Definition list_set_order : SetOrder := λ s, elements s.
#[export] Instance list_set_order_ok : SetOrderOk list_set_order.
Proof. by intros s. Qed.

(** [ids.iter().map(to_string).join(", ")]. *)
Definition show_ids (ids : list Z) : string := join ", " (pretty <$> ids).

Record ExpGroupCreateRequest : Type := mkGroupCreate {
  gc_name : string;
  gc_description : string;
  gc_change_reason : string;
  gc_context : Condition;
  gc_traffic_percentage : Z;
  gc_member_experiment_ids : option (list Z);
}.

Record ExpGroupUpdateRequest : Type := mkGroupUpdate {
  gu_change_reason : string;
  gu_description : option string;
  gu_traffic_percentage : option Z;
}.

Record ExpGroupMemberRequest : Type := mkMemberRequest {
  gm_change_reason : string;
  gm_member_experiment_ids : list Z;
}.

(** A group after an update of its columns. *)
Definition set_group (g : ExperimentGroup) (description change_reason : string)
    (traffic_percentage : Z) (members : list Z) (buckets : Buckets) (user : string) (time : Z)
    : ExperimentGroup :=
  mkExperimentGroup (g_id g) (g_context_hash g) (g_name g) description change_reason (g_context g)
    traffic_percentage members (g_created_at g) (g_created_by g) time user buckets
    (g_group_type g).

(** An experiment after an update of its group. *)
Definition set_experiment_group (e : Experiment) (group : option Z) (user : string) (time : Z)
    (change_reason : string) : Experiment :=
  mkExperiment (e_id e) (e_created_at e) (e_created_by e) time (e_name e)
    (e_experiment_type e) (e_override_keys e) (e_status e) (e_traffic_percentage e)
    (e_started_at e) (e_started_by e) (e_context e) (e_variants e) user
    (e_chosen_variant e) (e_description e) change_reason (e_metrics e) group.

Section groups.
Context `{Env} `{RowOrder} `{SetOrder} `{FloatText} `{Blake3}.

(** ** Helpers *)

Definition ensure_experiments_exist (requested_ids : gset Z) (found_experiments : list Experiment)
    (error_message : string) : Result unit :=
  let found_ids : gset Z := list_to_set (e_id <$> found_experiments) in
  let missing_experiment_ids := set_order (requested_ids ∖ found_ids) in
  if negb (bool_decide (missing_experiment_ids = [])) then
    bad_argument (error_message +:+ ": " +:+ show_ids missing_experiment_ids)
  else Ok tt.

Definition fetch_and_validate_members (new_members existing_members : list Z)
    : M (list Experiment) :=
  if bool_decide (new_members = []) then mret []
  else
    let new_members : gset Z := list_to_set new_members in
    let existing_members : gset Z := list_to_set existing_members in
    let repeating_members := set_order (new_members ∩ existing_members) in
    if negb (bool_decide (repeating_members = [])) then
      bad ("The new members list contains IDs that are already in the group: "
           +:+ show_ids repeating_members)
    else
      members ← select_experiments (λ e,
        bool_decide (e_id e ∈ new_members) && bool_decide (e_status e = CREATED));
      _ ← lift (ensure_experiments_exist new_members members
        "The following experiment IDs are not present in the database/are not in the created stage");
      mret members.

(** The first member whose context does not contain the group's is an error. *)
Fixpoint check_member_contexts (member_experiments : list Experiment) (group_context : Condition)
    : Result unit :=
  match member_experiments with
  | [] => Ok tt
  | member_experiment :: member_experiments =>
      contains ← map_err (λ e, BadArgument ("The contexts do not match. Error: " +:+ e))
        (Condition.contains (e_context member_experiment) group_context);
      if negb contains then
        bad_argument ("Experiment with id " +:+ pretty (e_id member_experiment) +:+
          " does not fit in with the experiment group. The contexts do not match.")
      else check_member_contexts member_experiments group_context
  end.

Definition validate_experiment_group_constraints (member_experiments : list Experiment)
    (existing_members : list Z) (group_context : Condition) : Result (list Z) :=
  _ ← check_member_contexts member_experiments group_context;
  Ok (set_order (list_to_set (e_id <$> member_experiments) ∪ list_to_set existing_members)).

Definition add_members (exp_group_id : Z) (member_experiments : list Experiment)
    (req : ExpGroupMemberRequest) (user : string) : M ExperimentGroup :=
  if bool_decide (gm_member_experiment_ids req = []) then
    bad "Please provide at least one experiment ID to add to the group"
  else
    experiment_group ← fetch_experiment_group exp_group_id;
    if bool_decide (g_group_type experiment_group = SystemGenerated) then
      bad "Cannot add members to a system-generated experiment groups."
    else
      members ← lift (validate_experiment_group_constraints member_experiments
        (g_member_experiment_ids experiment_group) (g_context experiment_group));
      time ← now;
      update_group exp_group_id (λ g,
        set_group g (g_description g) (gm_change_reason req) (g_traffic_percentage g) members
          (g_buckets g) user time).

(** The loop over the experiments that leave. *)
Fixpoint release_buckets (experiments_to_remove : list Experiment) (buckets : Buckets)
    : Result Buckets :=
  match experiments_to_remove with
  | [] => Ok buckets
  | member_experiment :: experiments_to_remove =>
      buckets ← update_bucket_allocation member_experiment buckets 0;
      release_buckets experiments_to_remove buckets
  end.

Definition remove_members (id : Z) (req : ExpGroupMemberRequest) (user : string)
    : M ExperimentGroup :=
  if bool_decide (gm_member_experiment_ids req = []) then
    bad "Please provide at least one experiment ID to remove from the group"
  else
    experiment_group ← fetch_experiment_group id;
    if bool_decide (g_group_type experiment_group = SystemGenerated) then
      bad "Cannot remove members from a system-generated experiment group."
    else
      let current_members : gset Z := list_to_set (g_member_experiment_ids experiment_group) in
      let members_to_remove : gset Z := list_to_set (gm_member_experiment_ids req) in
      let members := set_order (current_members ∖ members_to_remove) in
      experiments_to_remove ← select_experiments (λ e, bool_decide (e_id e ∈ members_to_remove));
      _ ← lift (ensure_experiments_exist members_to_remove experiments_to_remove
        "The following experiment IDs are not present in the database");
      buckets ← lift (release_buckets experiments_to_remove (g_buckets experiment_group));
      time ← now;
      update_group id (λ g,
        set_group g (g_description g) (gm_change_reason req) (g_traffic_percentage g) members
          buckets user time).

Definition detach_experiment_from_group (experiment : Experiment) (experiment_group_id : Z)
    (user : string) : M unit :=
  experiment_group ← fetch_experiment_group experiment_group_id;
  buckets ← lift (update_bucket_allocation experiment (g_buckets experiment_group) 0);
  let member_experiment_ids :=
    List.filter (λ id, negb (bool_decide (id = e_id experiment)))
      (g_member_experiment_ids experiment_group) in
  change_reason ← lift (or_unexpected (ChangeReason.try_from
    ("Removed experiment " +:+ pretty (e_id experiment) +:+ " from group " +:+
     pretty experiment_group_id)));
  time ← now;
  _ ← execute_update_group experiment_group_id (λ g,
    set_group g (g_description g) change_reason (g_traffic_percentage g) member_experiment_ids
      buckets user time);
  if bool_decide (g_group_type experiment_group = SystemGenerated)
  then delete_group experiment_group_id
  else mret tt.

(** [variants.len() as u8 * **exp_traffic_percentage] in [u8]. A build that
    checks for overflow panics, which is an error here; a release build wraps
    around. No traffic that is stored makes the difference: it is set so that
    the product is at most 100. *)
Definition u8_mul (a b : Z) : Result Z :=
  if bool_decide (a * b < 2 ^ 8)%Z then Ok (a * b)%Z
  else unexpected_error "attempt to multiply with overflow".

Definition create_system_generated_experiment_group (experiment : Experiment)
    (exp_traffic_percentage : Z) (user : string) : M ExperimentGroup :=
  let context := e_context experiment in
  id ← generate_snowflake_id;
  let context_hash := hash (VObject context) in
  time ← now;
  let variants := e_variants experiment in
  product ← lift (u8_mul (wrap8 (Z.of_nat (length variants))) exp_traffic_percentage);
  group_traffic_percentage ← lift (or_unexpected (TrafficPercentage.try_from product));
  buckets ← lift (update_bucket_allocation experiment Buckets.default exp_traffic_percentage);
  description ← lift (or_unexpected (Description.try_from
    ("Experiment group for experiment " +:+ e_name experiment)));
  change_reason ← lift (or_unexpected (ChangeReason.try_from
    ("System generated experiment group for experiment " +:+ pretty (e_id experiment))));
  insert_group (mkExperimentGroup id context_hash (e_name experiment) description change_reason
    context group_traffic_percentage [e_id experiment] time user time user buckets
    SystemGenerated).

Definition update_experiment_group_buckets (experiment : Experiment) (experiment_group_id : Z)
    (exp_traffic_percentage : Z) (user : string) : M unit :=
  experiment_group ← fetch_experiment_group experiment_group_id;
  new_traffic_percentage ← lift (
    match g_group_type experiment_group with
    | SystemGenerated => or_unexpected (TrafficPercentage.try_from
        (Z.of_nat (length (e_variants experiment)) * exp_traffic_percentage))
    | UserCreated => Ok (g_traffic_percentage experiment_group)
    end);
  buckets ← lift (update_bucket_allocation experiment (g_buckets experiment_group)
    exp_traffic_percentage);
  change_reason ← lift (or_unexpected (ChangeReason.try_from
    ("Updated traffic percentage for experiment group " +:+ pretty (g_id experiment_group))));
  time ← now;
  execute_update_group (g_id experiment_group) (λ g,
    set_group g (g_description g) change_reason new_traffic_percentage
      (g_member_experiment_ids g) buckets user time).

(** ** Membership seen from the experiments

    [validate_and_add_experiment_group_id] and
    [validate_and_remove_experiment_group_id] of
    [api/experiments/helpers.rs]. *)

Fixpoint add_experiment_group_id_loop (member_experiments : list Experiment)
    (new_experiment_group_id time : Z) (user : string) : M unit :=
  match member_experiments with
  | [] => mret tt
  | experiment :: member_experiments =>
      let experiment_id := e_id experiment in
      _ ← (match e_experiment_group_id experiment with
           | Some existing_group_id =>
               if negb (bool_decide (existing_group_id = new_experiment_group_id)) then
                 bad ("Experiment " +:+ pretty experiment_id +:+
                      " is already a part of a different experiment group " +:+
                      pretty existing_group_id)
               else mret tt
           | None => mret tt
           end);
      change_reason ← lift (or_unexpected (ChangeReason.try_from
        ("Adding experiment " +:+ pretty experiment_id +:+ " to group " +:+
         pretty new_experiment_group_id)));
      _ ← execute_update_experiment experiment_id (λ e,
        set_experiment_group e (Some new_experiment_group_id) user time change_reason);
      add_experiment_group_id_loop member_experiments new_experiment_group_id time user
  end.

Definition validate_and_add_experiment_group_id (member_experiments : list Experiment)
    (new_experiment_group_id : Z) (user : string) : M unit :=
  time ← now;
  add_experiment_group_id_loop member_experiments new_experiment_group_id time user.

(** The group an experiment belongs to once it left: a new system-generated
    one when it runs. *)
Definition group_after_removal (experiment : Experiment) (user : string) : M (option Z) :=
  if bool_decide (e_status experiment = INPROGRESS) || bool_decide (e_status experiment = PAUSED)
  then
    new_experiment_group ← create_system_generated_experiment_group experiment
      (e_traffic_percentage experiment) user;
    mret (Some (g_id new_experiment_group))
  else mret None.

Fixpoint remove_experiment_group_id_loop (member_experiments : list Experiment)
    (experiment_group_id time : Z) (user : string) : M unit :=
  match member_experiments with
  | [] => mret tt
  | experiment :: member_experiments =>
      new_experiment_group_id ← (
        match e_experiment_group_id experiment with
        | None =>
            bad ("Experiment with id " +:+ pretty (e_id experiment) +:+
                 " is not part of any experiment group")
        | Some existing_group_id =>
            if negb (bool_decide (existing_group_id = experiment_group_id)) then
              bad ("Experiment with id " +:+ pretty (e_id experiment) +:+
                   " is part of a different experiment group: " +:+ pretty existing_group_id +:+
                   ". Cannot remove from group " +:+ pretty experiment_group_id)
            else group_after_removal experiment user
        end);
      change_reason ← lift (or_unexpected (ChangeReason.try_from
        ("Removing experiment " +:+ pretty (e_id experiment) +:+ " from group " +:+
         pretty experiment_group_id)));
      _ ← execute_update_experiment (e_id experiment) (λ e,
        set_experiment_group e new_experiment_group_id user time change_reason);
      remove_experiment_group_id_loop member_experiments experiment_group_id time user
  end.

Definition validate_and_remove_experiment_group_id (member_experiment_ids : list Z)
    (experiment_group_id : Z) (user : string) : M unit :=
  experiment_group ← fetch_experiment_group experiment_group_id;
  if bool_decide (g_group_type experiment_group = SystemGenerated) then
    bad "Cannot remove experiments from a system-generated experiment group"
  else
    member_experiments ← select_experiments (λ e,
      bool_decide (e_id e ∈ member_experiment_ids));
    _ ← lift (ensure_experiments_exist (list_to_set member_experiment_ids) member_experiments
      "The following experiment IDs are not present in the database");
    time ← now;
    remove_experiment_group_id_loop member_experiments experiment_group_id time user.

(** ** Handlers *)

Definition create_group_handler (ws : Workspace) (req : ExpGroupCreateRequest) (user : string)
    : M ExperimentGroup :=
  let exp_context := gc_context req in
  member_experiments ← (
    match gc_member_experiment_ids req with
    | Some members => fetch_and_validate_members members []
    | None => mret []
    end);
  _ ← fetch_and_validate_change_reason_with_function ws (gc_change_reason req);
  _ ← validate_context exp_context;
  _ ← lift (validate_experiment_group_constraints member_experiments [] exp_context);
  let members := e_id <$> member_experiments in
  id ← generate_snowflake_id;
  let context_hash := hash (VObject exp_context) in
  time ← now;
  let new_experiment_group :=
    mkExperimentGroup id context_hash (gc_name req) (gc_description req) (gc_change_reason req)
      exp_context (gc_traffic_percentage req) members time user time user Buckets.default
      UserCreated in
  transaction (
    _ ← validate_and_add_experiment_group_id member_experiments id user;
    insert_group new_experiment_group).

Definition update_group_handler (ws : Workspace) (exp_group_id : Z) (req : ExpGroupUpdateRequest)
    (user : string) : M ExperimentGroup :=
  experiment_group ← fetch_experiment_group exp_group_id;
  if bool_decide (g_group_type experiment_group = SystemGenerated) then
    bad ("Cannot update system generated experiment group with id " +:+ pretty exp_group_id)
  else
    _ ← fetch_and_validate_change_reason_with_function ws (gu_change_reason req);
    time ← now;
    update_group exp_group_id (λ g,
      set_group g (default (g_description g) (gu_description req)) (gu_change_reason req)
        (default (g_traffic_percentage g) (gu_traffic_percentage req))
        (g_member_experiment_ids g) (g_buckets g) user time).

Definition add_members_handler (ws : Workspace) (exp_group_id : Z) (req : ExpGroupMemberRequest)
    (user : string) : M ExperimentGroup :=
  _ ← fetch_and_validate_change_reason_with_function ws (gm_change_reason req);
  member_experiments ← fetch_and_validate_members (gm_member_experiment_ids req) [];
  transaction (
    _ ← validate_and_add_experiment_group_id member_experiments exp_group_id user;
    add_members exp_group_id member_experiments req user).

Definition remove_members_handler (ws : Workspace) (exp_group_id : Z)
    (req : ExpGroupMemberRequest) (user : string) : M ExperimentGroup :=
  _ ← fetch_and_validate_change_reason_with_function ws (gm_change_reason req);
  transaction (
    _ ← validate_and_remove_experiment_group_id (gm_member_experiment_ids req) exp_group_id user;
    remove_members exp_group_id req user).

Definition get_group_handler (exp_group_id : Z) : M ExperimentGroup :=
  fetch_experiment_group exp_group_id.

Definition delete_group_handler (exp_group_id : Z) (user : string) : M ExperimentGroup :=
  transaction (
    time ← now;
    marked_group ← update_group exp_group_id (λ g,
      set_group g (g_description g) (g_change_reason g) (g_traffic_percentage g)
        (g_member_experiment_ids g) (g_buckets g) user time);
    if negb (bool_decide (g_member_experiment_ids marked_group = [])) then
      bad ("Cannot delete experiment group " +:+ g_name marked_group +:+ " since it has members")
    else
      _ ← delete_group exp_group_id;
      mret marked_group).

Definition backfill_user : string := "system@superposition.io".

Fixpoint backfill_loop (experiments : list Experiment) : M (list ExperimentGroup) :=
  match experiments with
  | [] => mret []
  | experiment :: experiments =>
      experiment_group ← create_system_generated_experiment_group experiment
        (e_traffic_percentage experiment) backfill_user;
      change_reason ← lift (or_unexpected (ChangeReason.try_from
        ("Experiment " +:+ e_name experiment +:+ " backfilled to group " +:+
         pretty (g_id experiment_group))));
      time ← now;
      _ ← execute_update_experiment (e_id experiment) (λ e,
        set_experiment_group e (Some (g_id experiment_group)) backfill_user time change_reason);
      results ← backfill_loop experiments;
      mret (experiment_group :: results)
  end.

Definition backfill_handler : M (list ExperimentGroup) :=
  transaction (
    experiments ← select_experiments (λ e,
      (bool_decide (e_status e = INPROGRESS) || bool_decide (e_status e = PAUSED)) &&
      bool_decide (e_experiment_group_id e = None));
    backfill_loop experiments).
End groups.
