(* ===== verification/Experiments.v ===== *)
(** * Experiments

    The handlers of
    [crates/experimentation_platform/src/api/experiments/handlers.rs]: create,
    ramp, update, pause, resume, conclude, discard, and the queries. *)

From S2P Require Import Prelude Pages Json Types Text Effects Logic Config ExpModels Bucketing BucketAlloc CacClient ExpChecks CacStore Store Groups.

(** The iteration order of a [HashSet<String>], and the printing of times. *)
Class KeyOrder := key_order : gset string → list string.
Class TimeText := {
  time_to_string : Z → string;
  timestamp_millis : Z → Z;
}.

(** ** Requests *)

Record ExperimentCreateRequest : Type := mkCreate {
  rc_name : string;
  rc_context : Condition;
  rc_variants : list Variant;
  rc_metrics : option Metrics;
  rc_experiment_type : ExperimentType;
  rc_description : string;
  rc_change_reason : string;
  rc_experiment_group_id : option Z;
}.

Record RampRequest : Type := mkRamp {
  rr_traffic_percentage : Z;
  rr_change_reason : string;
}.

Record ConcludeExperimentRequest : Type := mkConclude {
  co_chosen_variant : string;
  co_description : option string;
  co_change_reason : string;
}.

Record VariantUpdateRequest : Type := mkVariantUpdate {
  vu_id : string;
  vu_overrides : Overrides;
}.

Record OverrideKeysUpdateRequest : Type := mkUpdate {
  ru_variants : list VariantUpdateRequest;
  ru_metrics : option Metrics;
  ru_description : option string;
  ru_change_reason : string;
  ru_experiment_group_id : option I64Update;
}.

(** The answer to a request: status, experiment and configuration version. *)
Definition HttpAnswer : Type := Z * ExperimentResponse * option string.

(** ** Updates of a row *)

Definition set_status (e : Experiment) (status : ExperimentStatusType) (chosen_variant : option string)
    (group : option Z) (user : string) (time : Z) (change_reason : string) : Experiment :=
  mkExperiment (e_id e) (e_created_at e) (e_created_by e) time (e_name e)
    (e_experiment_type e) (e_override_keys e) status (e_traffic_percentage e)
    (e_started_at e) (e_started_by e) (e_context e) (e_variants e) user
    chosen_variant (e_description e) change_reason (e_metrics e) group.

(** [StartedByChangeSet]: [None] leaves the column as it is. *)
Definition set_ramped (e : Experiment) (started : option (string * Z)) (traffic_percentage : Z)
    (group : option Z) (user : string) (time : Z) (change_reason : string) : Experiment :=
  mkExperiment (e_id e) (e_created_at e) (e_created_by e) time (e_name e)
    (e_experiment_type e) (e_override_keys e) INPROGRESS traffic_percentage
    (match started with Some (_, at_) => Some at_ | None => e_started_at e end)
    (match started with Some (by_, _) => Some by_ | None => e_started_by e end)
    (e_context e) (e_variants e) user (e_chosen_variant e) (e_description e) change_reason
    (e_metrics e) group.

Definition set_overrides (e : Experiment) (variants : Variants) (override_keys : list string)
    (description : string) (metrics : Metrics) (group : option Z) (user : string) (time : Z)
    (change_reason : string) : Experiment :=
  mkExperiment (e_id e) (e_created_at e) (e_created_by e) time (e_name e)
    (e_experiment_type e) override_keys (e_status e) (e_traffic_percentage e)
    (e_started_at e) (e_started_by e) (e_context e) variants user
    (e_chosen_variant e) description change_reason metrics group.

Section experiments.
Context `{Env} `{RowOrder} `{SetOrder} `{KeyOrder} `{FloatText} `{Blake3} `{JsonText} `{TimeText}.

(** [impl From<Experiment> for ExperimentResponse]. *)
Definition metrics_url (experiment : Experiment) : option string :=
  started_at ← e_started_at experiment;
  source ← Metrics.source (e_metrics experiment);
  let to := if ExperimentStatusType.active (e_status experiment) then "now"
            else time_to_string (e_last_modified experiment) in
  let from := timestamp_millis started_at in
  let variant_var := "var-" +:+ default "variantIds" (ms_variant_id_alias source) in
  let query := join "&" ((λ v, variant_var +:+ "=" +:+ v_id v) <$> e_variants experiment) in
  Some (ms_base_url source +:+ "/d/" +:+ ms_dashboard_uid source +:+ "/" +:+
        ms_dashboard_slug source +:+ "?" +:+ query +:+ "&from=" +:+ pretty from +:+
        "&to=" +:+ to +:+ "&kiosk&theme=light").

Definition ExperimentResponse_from (experiment : Experiment) : ExperimentResponse :=
  mkExperimentResponse (pretty (e_id experiment)) experiment (metrics_url experiment)
    (pretty <$> e_experiment_group_id experiment).

(** ** Validations that need the outside *)

Definition validate_delete_experiment_variants (exp_context : Condition) (context_id : string)
    (variants : list Variant) : M unit :=
  current_context ← get_context_override context_id;
  partial_resolved_config ← get_partial_resolve_config exp_context context_id;
  lift (check_delete_experiment_variants (x_override current_context) partial_resolved_config
          variants).

Definition validate_control_overrides (control_overrides : Overrides) (exp_context : Condition)
    : M unit :=
  resolved_config ← get_resolved_config exp_context None;
  lift (check_control_overrides control_overrides resolved_config).

Definition validate_experiment (context : Condition) (override_keys : list string)
    (experiment_id : option Z) (flags : ExperimentationFlags) : M (bool * string) :=
  active_experiments ← select_experiments (λ e,
    negb (bool_decide (e_id e = default 0%Z experiment_id)) &&
    (bool_decide (e_status e = CREATED) || bool_decide (e_status e = INPROGRESS)));
  lift (is_valid_experiment context override_keys flags active_experiments).

(** The [match] on the experiment type of [create_handler] and
    [update_handler], for a default experiment. *)
Definition validate_default_experiment (ws : Workspace) (control : Result Overrides)
    (context : Condition) (override_keys : list string) (experiment_id : option Z) : M unit :=
  _ ← (if ws_auto_populate_control ws then
         control_overrides ← lift control;
         validate_control_overrides control_overrides context
       else mret tt);
  '(valid, reason) ← validate_experiment context override_keys experiment_id (ws_flags ws);
  if negb valid then bad reason else mret tt.

(** The control variant among those given, or an error. *)
Definition find_control {V} (is_control : V → bool) (overrides : V → Overrides) (variants : list V)
    (e : AppError) : Result Overrides :=
  ok_or (overrides <$> List.find is_control variants) e.

Definition is_control_variant (v : Variant) : bool := bool_decide (v_variant_type v = CONTROL).

(** ** Create *)

Definition variant_put (experiment_id : Z) (exp_context : Condition) (description change_reason : string)
    (variant : Variant) : Result (Variant * ContextAction) :=
  let variant_id := pretty experiment_id +:+ "-" +:+ v_id variant in
  let updated_cacccontext := add_variant_dimension_to_ctx exp_context variant_id in
  context_map ← ok_or (as_object updated_cacccontext)
    (UnexpectedError "Failed to convert context to object");
  context ← or_unexpected (cac_condition_try_from context_map);
  Ok (mkVariant variant_id (v_variant_type variant) (v_context_id variant)
        (v_override_id variant) (v_overrides variant),
      Put (mkPutRequest context (v_overrides variant) (Some description) change_reason)).

(** The responses to a bulk request must all be of the kind asked for. *)
Definition expect_put (item : ContextBulkResponse) : Result DbContext :=
  match item with
  | RPut context => Ok context
  | _ => unexpected_error "Something went wrong"
  end.

Definition expect_replace (item : ContextBulkResponse) : Result DbContext :=
  match item with
  | RReplace context => Ok context
  | _ => unexpected_error "Something went wrong"
  end.

(** [variants[i].context_id = ..] for every created context; an index beyond
    the variants panics. *)
Fixpoint record_created (created_contexts : list DbContext) (variants : list Variant)
    : Result (list Variant) :=
  match created_contexts, variants with
  | [], variants => Ok variants
  | _ :: _, [] => unexpected_error "index out of bounds"
  | created_context :: created_contexts, variant :: variants =>
      rest ← record_created created_contexts variants;
      Ok (mkVariant (v_id variant) (v_variant_type variant) (Some (x_id created_context))
            (Some (x_override_id created_context)) (v_overrides variant) :: rest)
  end.

Definition first_variant (variants : list Variant) : Result Variant :=
  ok_or (head variants) (UnexpectedError "index out of bounds").

(** The validation of a request: the override keys of the experiment. *)
Definition create_checks (ws : Workspace) (req : ExperimentCreateRequest) : M (list string) :=
  let variants := rc_variants req in
  _ ← fetch_and_validate_change_reason_with_function ws (rc_change_reason req);
  _ ← lift (check_variant_types variants);
  variant0 ← lift (first_variant variants);
  let unique_override_keys := key_order (extract_override_keys (v_overrides variant0)) in
  let unique_ids_of_variants_from_req : gset string := list_to_set (v_id <$> variants) in
  if negb (size unique_ids_of_variants_from_req =? length variants) then
    bad "Variant ids are expected to be unique. Provide unqiue variant IDs"
  else
    let exp_context := rc_context req in
    let exp_context_id := hash (VObject exp_context) in
    let variant_overrides := v_overrides <$> variants in
    _ ← (match rc_experiment_type req with
         | EDefault =>
             if negb (check_variants_override_coverage variant_overrides unique_override_keys) then
               bad ("all variants should contain the keys mentioned in override_keys. Check if any of the following keys ["
                 +:+ join "," unique_override_keys +:+ "] are missing from keys in your variants")
             else
               validate_default_experiment ws
                 (find_control is_control_variant v_overrides variants
                    (UnexpectedError "Control variant not found in existing experiment variants"))
                 exp_context unique_override_keys None
         | DeleteOverrides =>
             validate_delete_experiment_variants exp_context exp_context_id variants
         end);
    mret unique_override_keys.

(** The creation of the variants' contexts in the configuration service. *)
Definition create_contexts (experiment_id : Z) (config_tags : option string)
    (req : ExperimentCreateRequest) : M (list Variant * option string) :=
  puts ← lift (try_map
    (variant_put experiment_id (rc_context req) (rc_description req) (rc_change_reason req))
    (rc_variants req));
  let variants := puts.*1 in
  let cac_operations := puts.*2 in
  response ← call (CallBulkOperations cac_operations config_tags);
  '(resp_contexts, config_version_id) ← lift (process_cac_bulk_operation_http_response response);
  created_contexts ← lift (try_map expect_put resp_contexts);
  variants ← lift (record_created created_contexts variants);
  mret (variants, config_version_id).

Definition new_experiment (ws : Workspace) (req : ExperimentCreateRequest) (experiment_id time : Z)
    (unique_override_keys : list string) (variants : list Variant) (user : string) : Experiment :=
  mkExperiment experiment_id time user time (rc_name req) (rc_experiment_type req)
    unique_override_keys CREATED 0 None None (rc_context req) variants user None
    (rc_description req) (rc_change_reason req) (default (ws_metrics ws) (rc_metrics req))
    (rc_experiment_group_id req).

(** The transaction that inserts the experiment and joins its group. *)
Definition store_experiment (experiment : Experiment) (user : string) : M Experiment :=
  transaction (
    inserted_experiment ← insert_experiment experiment;
    _ ← (match e_experiment_group_id experiment with
         | Some experiment_group_id =>
             reason ← lift (or_unexpected (ChangeReason.try_from
               ("Adding experiment " +:+ pretty (e_id experiment) +:+
                " to the group, while creating the experiment.")));
             _ ← add_members experiment_group_id [inserted_experiment]
               (mkMemberRequest reason [e_id experiment]) user;
             mret tt
         | None => mret tt
         end);
    mret inserted_experiment).

Definition create_handler (ws : Workspace) (config_tags : option string)
    (req : ExperimentCreateRequest) (user : string) : M HttpAnswer :=
  unique_override_keys ← create_checks ws req;
  experiment_id ← generate_snowflake_id;
  '(variants, config_version_id) ← create_contexts experiment_id config_tags req;
  time ← now;
  inserted_experiment ← store_experiment
    (new_experiment ws req experiment_id time unique_override_keys variants user) user;
  let response := ExperimentResponse_from inserted_experiment in
  status ← webhook_status ExperimentCreated response config_version_id;
  mret (status, response, config_version_id).

(** ** Ramp *)

Definition user_allowed_to_ramp (experiment : Experiment) (user : string)
    (allow_experiment_self_approval : bool) : bool :=
  allow_experiment_self_approval ||
  negb (bool_decide (e_status experiment = CREATED) &&
        bool_decide (e_created_by experiment = user)).

(** The validation of a ramp request against the experiment. *)
Definition ramp_checks (ws : Workspace) (experiment : Experiment) (req : RampRequest)
    (user : string) : M unit :=
  if negb (ExperimentStatusType.active (e_status experiment)) then
    bad "Experiment is not active, cannot ramp a concluded experiment"
  else if negb (user_allowed_to_ramp experiment user (ws_allow_experiment_self_approval ws)) then
    bad "Experiment creator is not allowed to start experiment, if this is not intended, please change the workspace settings to allow self-approval"
  else
    let experiment_variants := e_variants experiment in
    _ ← (match e_experiment_type experiment with
         | EDefault =>
             if ws_auto_populate_control ws && bool_decide (e_status experiment = CREATED) then
               control_overrides ← lift (find_control is_control_variant v_overrides
                 experiment_variants
                 (UnexpectedError "Error finding control variant in the experiment variants"));
               validate_control_overrides control_overrides (e_context experiment)
             else mret tt
         | DeleteOverrides =>
             validate_delete_experiment_variants (e_context experiment)
               (hash (VObject (e_context experiment))) experiment_variants
         end);
    let variants_count := wrap8 (Z.of_nat (length experiment_variants)) in
    _ ← lift (map_err BadArgument
      (TrafficPercentage.check_max_allowed (rr_traffic_percentage req) variants_count));
    lift (map_err BadArgument
      (TrafficPercentage.compare_old (rr_traffic_percentage req)
        (e_traffic_percentage experiment))).

(** The group of a ramped experiment: created on the first ramp, otherwise its
    buckets are reallocated. *)
Definition ramp_group (experiment : Experiment) (new_traffic_percentage : Z) (user : string)
    : M (option Z) :=
  if bool_decide (e_status experiment = CREATED)
     && bool_decide (e_experiment_group_id experiment = None) then
    experiment_group ← create_system_generated_experiment_group experiment
      new_traffic_percentage user;
    mret (Some (g_id experiment_group))
  else
    match e_experiment_group_id experiment with
    | Some experiment_group_id =>
        _ ← update_experiment_group_buckets experiment experiment_group_id
          new_traffic_percentage user;
        mret (Some experiment_group_id)
    | None => mret None
    end.

Definition ramp_transaction (experiment : Experiment) (req : RampRequest) (time : Z)
    (user : string) : M Experiment :=
  let started :=
    if bool_decide (e_status experiment = CREATED) then Some (user, time) else None in
  transaction (
    experiment_group_id ← ramp_group experiment (rr_traffic_percentage req) user;
    update_experiment (e_id experiment) (λ e,
      set_ramped e started (rr_traffic_percentage req) experiment_group_id user time
        (rr_change_reason req))).

Definition ramp_handler (ws : Workspace) (exp_id : Z) (req : RampRequest) (user : string)
    : M HttpAnswer :=
  _ ← fetch_and_validate_change_reason_with_function ws (rr_change_reason req);
  experiment ← fetch_experiment exp_id;
  _ ← ramp_checks ws experiment req user;
  time ← now;
  updated_experiment ← ramp_transaction experiment req time user;
  '(_, config_version_id) ← fetch_cac_config;
  let experiment_response := ExperimentResponse_from updated_experiment in
  let webhook_event :=
    if bool_decide (e_status experiment = CREATED) then ExperimentStarted
    else ExperimentInprogress in
  status ← webhook_status webhook_event experiment_response config_version_id;
  mret (status, experiment_response, None).

(** ** Pause and resume *)

Definition pause (experiment_id : Z) (change_reason user : string) : M Experiment :=
  experiment ← fetch_experiment experiment_id;
  if negb (ExperimentStatusType.pausable (e_status experiment)) then
    bad ("experiment with id " +:+ pretty experiment_id +:+ " cannot be paused")
  else
    time ← now;
    update_experiment experiment_id (λ e,
      set_status e PAUSED (e_chosen_variant e) (e_experiment_group_id e) user time change_reason).

Definition resume (experiment_id : Z) (change_reason user : string) : M Experiment :=
  experiment ← fetch_experiment experiment_id;
  if negb (ExperimentStatusType.resumable (e_status experiment)) then
    bad ("experiment with id " +:+ pretty experiment_id +:+ " cannot be resumed")
  else
    time ← now;
    update_experiment experiment_id (λ e,
      set_status e INPROGRESS (e_chosen_variant e) (e_experiment_group_id e) user time
        change_reason).

(** The shape the handlers around [pause], [resume], [conclude] and [discard]
    share. *)
Definition state_change_handler (ws : Workspace) (change_reason : string)
    (act : M (Experiment * option string)) (event : WebhookEvent) : M HttpAnswer :=
  _ ← fetch_and_validate_change_reason_with_function ws change_reason;
  '(experiment, config_version_id) ← act;
  let experiment_response := ExperimentResponse_from experiment in
  status ← webhook_status event experiment_response config_version_id;
  mret (status, experiment_response, config_version_id).

Definition pause_handler (ws : Workspace) (experiment_id : Z) (change_reason user : string)
    : M HttpAnswer :=
  state_change_handler ws change_reason
    (e ← pause experiment_id change_reason user; mret (e, None)) ExperimentPaused.

Definition resume_handler (ws : Workspace) (experiment_id : Z) (change_reason user : string)
    : M HttpAnswer :=
  state_change_handler ws change_reason
    (e ← resume experiment_id change_reason user; mret (e, None)) ExperimentInprogress.

(** ** Discard *)

Definition delete_action (message : string) (variant : Variant) : Result ContextAction :=
  context_id ← ok_or (v_context_id variant) (UnexpectedError message);
  Ok (Delete context_id).

(** The transaction that ends an experiment. *)
Definition close_experiment (experiment : Experiment) (f : Z → Experiment → Experiment)
    (user : string) : M Experiment :=
  transaction (
    _ ← (match e_experiment_group_id experiment with
         | Some experiment_group_id =>
             detach_experiment_from_group experiment experiment_group_id user
         | None => mret tt
         end);
    time ← now;
    update_experiment (e_id experiment) (f time)).

Definition discard (experiment_id : Z) (config_tags : option string) (change_reason user : string)
    : M (Experiment * option string) :=
  experiment ← fetch_experiment experiment_id;
  if negb (ExperimentStatusType.discardable (e_status experiment)) then
    bad ("experiment with id " +:+ pretty experiment_id +:+ " cannot be discarded")
  else
    operations ← lift (try_map
      (delete_action "Something went wrong, failed to discard experiment") (e_variants experiment));
    response ← call (CallBulkOperations operations config_tags);
    '(_, config_version_id) ← lift (process_cac_bulk_operation_http_response response);
    updated_experiment ← close_experiment experiment
      (λ time e, set_status e DISCARDED None None user time change_reason) user;
    mret (updated_experiment, config_version_id).

Definition discard_handler (ws : Workspace) (experiment_id : Z) (config_tags : option string)
    (change_reason user : string) : M HttpAnswer :=
  state_change_handler ws change_reason (discard experiment_id config_tags change_reason user)
    ExperimentDiscarded.

(** ** Conclude *)

(** The operations for the variant that won. *)
Definition winner_operations (experiment : Experiment) (exp_context_id context_id : string)
    (description change_reason : string) (variant : Variant) : M (list ContextAction) :=
  if negb (bool_decide (e_context experiment = ∅)) then
    match e_experiment_type experiment, v_variant_type variant with
    | EDefault, _ =>
        context ← lift (or_unexpected (cac_condition_try_from (e_context experiment)));
        mret [Move context_id (mkMoveRequest context (Some description) change_reason)]
    | DeleteOverrides, CONTROL => mret [Delete context_id]
    | DeleteOverrides, EXPERIMENTAL =>
        current_context ← get_context_override exp_context_id;
        let context_override :=
          foldl (λ m key, delete key m) (x_override current_context)
            (map_to_list (v_overrides variant)).*1 in
        operation ← (
          if bool_decide (context_override = ∅) then mret (Delete exp_context_id)
          else
            override_ ← lift (map_err
              (λ _, BadArgument "failed to convert variant overrides to cac override")
              (cac_overrides_try_from context_override));
            mret (Replace (mkUpdateRequest (Id exp_context_id) override_ None change_reason)));
        mret [operation; Delete context_id]
    end
  else
    _ ← for_each (λ '(key, val),
          answer ← call (CallUpdateDefaultConfig key val change_reason);
          lift (match answer with Ok _ => Ok tt | Err err => unexpected_error err end))
        (sorted_entries (v_overrides variant));
    mret [Delete context_id].

(** The loop over the variants: the operations so far and whether the winner
    was met. *)
Fixpoint conclude_operations (experiment : Experiment) (exp_context_id winner_variant_id : string)
    (description change_reason : string) (variants : list Variant)
    (operations : list ContextAction) (is_valid_winner_variant : bool)
    : M (list ContextAction * bool) :=
  match variants with
  | [] => mret (operations, is_valid_winner_variant)
  | variant :: variants =>
      context_id ← lift (ok_or (v_context_id variant)
        (UnexpectedError "Something went wrong, failed to conclude experiment"));
      if negb (bool_decide (v_id variant = winner_variant_id)) then
        conclude_operations experiment exp_context_id winner_variant_id description change_reason
          variants (operations ++ [Delete context_id]) is_valid_winner_variant
      else
        winner ← winner_operations experiment exp_context_id context_id description change_reason
          variant;
        conclude_operations experiment exp_context_id winner_variant_id description change_reason
          variants (operations ++ winner) true
  end.

Definition conclude (experiment_id : Z) (config_tags : option string)
    (req : ConcludeExperimentRequest) (user : string) : M (Experiment * option string) :=
  let change_reason := co_change_reason req in
  let winner_variant_id := co_chosen_variant req in
  experiment ← fetch_experiment experiment_id;
  let exp_context_id := hash (VObject (e_context experiment)) in
  let description := default (e_description experiment) (co_description req) in
  if negb (ExperimentStatusType.concludable (e_status experiment)) then
    bad ("experiment with id " +:+ pretty experiment_id +:+ " is " +:+
         ExperimentStatusType.to_string (e_status experiment) +:+ ", and cannot be concluded")
  else
    '(operations, is_valid_winner_variant) ← conclude_operations experiment exp_context_id
      winner_variant_id description change_reason (e_variants experiment) [] false;
    if negb is_valid_winner_variant then
      bad "winner variant not found. A wrong variant id may have been sent, check and try again"
    else
      response ← call (CallBulkOperations operations config_tags);
      '(_, config_version_id) ← lift (process_cac_bulk_operation_http_response response);
      updated_experiment ← close_experiment experiment
        (λ time e, set_status e CONCLUDED (Some winner_variant_id) None user time change_reason)
        user;
      mret (updated_experiment, config_version_id).

Definition conclude_handler (ws : Workspace) (experiment_id : Z) (config_tags : option string)
    (req : ConcludeExperimentRequest) (user : string) : M HttpAnswer :=
  state_change_handler ws (co_change_reason req) (conclude experiment_id config_tags req user)
    ExperimentConcluded.

(** ** Update *)

(** [handle_experiment_group_membership] of [helpers.rs]. *)
Definition create_member_request (action : string) (experiment_id : Z)
    : Result ExpGroupMemberRequest :=
  change_reason ← or_unexpected (ChangeReason.try_from
    (action +:+ " experiment " +:+ pretty experiment_id +:+
     " to/from the group, while updating the experiment."));
  Ok (mkMemberRequest change_reason [experiment_id]).

Definition handle_experiment_group_membership (experiment : Experiment)
    (new_group_id : option I64Update) (current_group_id : option Z) (user : string)
    : M I64Update :=
  let experiment_id := e_id experiment in
  let add (experiment_group_id : Z) : M I64Update :=
    req ← lift (create_member_request "Adding" experiment_id);
    _ ← add_members experiment_group_id [experiment] req user;
    mret (Add experiment_group_id) in
  let remove (current_group_id : Z) : M unit :=
    req ← lift (create_member_request "Removing" experiment_id);
    _ ← remove_members current_group_id req user;
    mret tt in
  let unchanged : M I64Update :=
    mret (match current_group_id with Some id => Add id | None => Remove end) in
  match new_group_id, current_group_id with
  | Some (Add experiment_group_id), None => add experiment_group_id
  | Some (Add experiment_group_id), Some current_group_id =>
      if negb (bool_decide (experiment_group_id = current_group_id)) then
        _ ← remove current_group_id;
        add experiment_group_id
      else unchanged
  | Some Remove, Some current_group_id =>
      _ ← remove current_group_id;
      if bool_decide (e_status experiment = INPROGRESS)
         || bool_decide (e_status experiment = PAUSED) then
        new_experiment_group ← create_system_generated_experiment_group experiment
          (e_traffic_percentage experiment) user;
        mret (Add (g_id new_experiment_group))
      else mret Remove
  | _, _ => unchanged
  end.

(** [HashMap::from_iter] over the variants: a later one replaces an earlier
    one with the same id. *)
Definition existing_variants (experiment_variants : list Variant) : gmap string Variant :=
  collect_map ((λ v, (v_id v, v)) <$> experiment_variants).

Definition updated_variant (id_to_existing_variant : gmap string Variant)
    (variant : VariantUpdateRequest) : Result Variant :=
  existing_variant ← ok_or (id_to_existing_variant !! vu_id variant)
    (UnexpectedError "Something went wrong");
  Ok (mkVariant (v_id existing_variant) (v_variant_type existing_variant)
        (v_context_id existing_variant) None (vu_overrides variant)).

Definition variant_replace (description : option string) (change_reason : string)
    (variant : Variant) : Result ContextAction :=
  context_id ← ok_or (v_context_id variant)
    (UnexpectedError ("context id not available for variant " +:+ v_id variant));
  override_ ← map_err (λ _, BadArgument "failed to convert variant overrides to cac override")
    (cac_overrides_try_from (v_overrides variant));
  Ok (Replace (mkUpdateRequest (Id context_id) override_ description change_reason)).

(** The contexts must keep their ids; the override ids are recorded. *)
Fixpoint record_replaced (created_contexts : list DbContext) (new_variants : list Variant)
    : Result (list Variant) :=
  match created_contexts, new_variants with
  | [], new_variants => Ok new_variants
  | _ :: _, [] => unexpected_error "index out of bounds"
  | created_context :: created_contexts, variant :: new_variants =>
      if match v_context_id variant with
         | Some id => negb (bool_decide (id = x_id created_context))
         | None => false
         end
      then unexpected_error "Something went wrong"
      else
        rest ← record_replaced created_contexts new_variants;
        Ok (mkVariant (v_id variant) (v_variant_type variant) (v_context_id variant)
              (Some (x_override_id created_context)) (v_overrides variant) :: rest)
  end.

(** The control variant of the request, for a default experiment. *)
Definition requested_control (experiment : Experiment) (variants : list VariantUpdateRequest)
    : Result Overrides :=
  control_variant ← ok_or (List.find is_control_variant (e_variants experiment))
    (UnexpectedError "Control variant not found in existing experiment variants");
  find_control (λ v, bool_decide (vu_id v = v_id control_variant)) vu_overrides variants
    (BadArgument "Control variant missing from request variants").

(** The validation of an update against the experiment: the variants with
    their new overrides. *)
Definition update_checks (ws : Workspace) (experiment : Experiment) (override_keys : list string)
    (variants : list VariantUpdateRequest) : M (list Variant) :=
  if negb (bool_decide (e_status experiment = CREATED)) then
    bad "Only experiments in CREATED state can be updated"
  else
    let id_to_existing_variant := existing_variants (e_variants experiment) in
    if negb (length variants =? size id_to_existing_variant) then
      bad "Number of variants passed in the request does not match with existing experiment variants"
    else
      _ ← lift (validate_override_keys override_keys);
      let variant_ids : gset string := list_to_set (vu_id <$> variants) in
      if negb (bool_decide (dom id_to_existing_variant ⊆ variant_ids)) then
        bad "Some variant ids do not match with exisiting experiment variants. Provide all existing variants of the experiment"
      else
        new_variants ← lift (try_map (updated_variant id_to_existing_variant) variants);
        let variant_overrides := v_overrides <$> new_variants in
        experiment_condition ← lift (or_unexpected
          (exp_condition_try_from (e_context experiment)));
        let exp_context_id := hash (VObject experiment_condition) in
        _ ← (match e_experiment_type experiment with
             | EDefault =>
                 if negb (check_variants_override_coverage variant_overrides override_keys) then
                   bad ("All variants should contain the keys mentioned in override_keys. Check if any of the following keys ["
                     +:+ join "," override_keys +:+ "] are missing from keys in your variants")
                 else
                   validate_default_experiment ws (requested_control experiment variants)
                     experiment_condition override_keys (Some (e_id experiment))
             | DeleteOverrides =>
                 validate_delete_experiment_variants experiment_condition exp_context_id
                   new_variants
             end);
        mret new_variants.

(** The replacement of the contexts' overrides in the configuration service. *)
Definition update_contexts (req : OverrideKeysUpdateRequest) (config_tags : option string)
    (new_variants : list Variant) : M (list Variant * option string) :=
  cac_operations ← lift (try_map (variant_replace (ru_description req) (ru_change_reason req))
    new_variants);
  response ← call (CallBulkOperations cac_operations config_tags);
  '(resp_contexts, config_version_id) ←
    lift (process_cac_bulk_operation_http_response response);
  created_contexts ← lift (try_map expect_replace resp_contexts);
  new_variants ← lift (record_replaced created_contexts new_variants);
  mret (new_variants, config_version_id).

(** The transaction that moves the experiment between groups and stores it. *)
Definition store_update (experiment : Experiment) (req : OverrideKeysUpdateRequest)
    (new_variants : list Variant) (override_keys : list string) (user : string) : M Experiment :=
  let updated_metrics := default (e_metrics experiment) (ru_metrics req) in
  transaction (
    experiment_group_id_result ← handle_experiment_group_membership experiment
      (ru_experiment_group_id req) (e_experiment_group_id experiment) user;
    time ← now;
    update_experiment (e_id experiment) (λ e,
      set_overrides e new_variants override_keys
        (default (e_description experiment) (ru_description req)) updated_metrics
        (I64Update.get_value experiment_group_id_result) user time (ru_change_reason req))).

Definition update_handler (ws : Workspace) (experiment_id : Z) (config_tags : option string)
    (req : OverrideKeysUpdateRequest) (user : string) : M HttpAnswer :=
  _ ← fetch_and_validate_change_reason_with_function ws (ru_change_reason req);
  first_variant ← lift (ok_or (head (ru_variants req)) (BadArgument
    "Variant not found in request. Provide at least one entry in variant's list"));
  let override_keys := key_order (extract_override_keys (vu_overrides first_variant)) in
  experiment ← fetch_experiment experiment_id;
  new_variants ← update_checks ws experiment override_keys (ru_variants req);
  '(new_variants, config_version_id) ← update_contexts req config_tags new_variants;
  updated_experiment ← store_update experiment req new_variants override_keys user;
  let experiment_response := ExperimentResponse_from updated_experiment in
  status ← webhook_status ExperimentUpdated experiment_response config_version_id;
  mret (status, experiment_response, config_version_id).
End experiments.
