(* ===== verification/Queries.v ===== *)
(** * The queries of the experimentation service

    [get_applicable_variants_helper] and its handler, [list_handler] and
    [get_handler] of
    [crates/experimentation_platform/src/api/experiments/handlers.rs], and the
    listing of [experiment_groups/handlers.rs]. They read the tables and write
    nothing. *)

From S2P Require Import Prelude Pages Json Types Text Effects Logic Config ExpModels Bucketing CacClient ExpChecks CacStore CacQueries Store Groups Experiments.

(** ** Filters *)

Inductive ExperimentSortOn : Type := LastModifiedAt | CreatedAt.

Record ExperimentListFilters : Type := mkListFilters {
  lf_status : option (list ExperimentStatusType);
  lf_from_date : option Z;
  lf_to_date : option Z;
  lf_experiment_name : option string;
  lf_experiment_ids : option (list string);
  lf_experiment_group_ids : option (list string);
  lf_created_by : option (list string);
  lf_sort_on : option ExperimentSortOn;
  lf_sort_by : option SortBy;
  lf_global_experiments_only : option bool;
  lf_dimension_match_strategy : option DimensionMatchStrategy;
}.

(** The [304] has no body. *)
Inductive ListAnswer : Type :=
  | NotModified
  | Listed (response : Paginated ExperimentResponse).

(** [ids.iter().filter_map(|i| i.parse::<i64>().ok())]. *)
Definition parsed_ids (ids : list string) : list Z :=
  omap (λ i, match parse_i64 i with Ok z => Some z | Err _ => None end) ids.

Section queries.
Context `{Env} `{RowOrder} `{MapOrder} `{JsonLogic} `{TimeText} `{SqlLike}.

(** The [WHERE] clause that [query_builder] builds. *)
Definition query_builder (filters : ExperimentListFilters) (e : Experiment) : bool :=
  when (lf_status filters) (λ states, bool_decide (e_status e ∈ states)) &&
  when (lf_experiment_name filters) (λ name, sql_contains name (e_name e)) &&
  when (lf_created_by filters) (λ users, bool_decide (e_created_by e ∈ users)) &&
  when (lf_experiment_ids filters) (λ ids, bool_decide (e_id e ∈ parsed_ids ids)) &&
  when (lf_experiment_group_ids filters) (λ ids,
    match e_experiment_group_id e with
    | Some gid => bool_decide (gid ∈ parsed_ids ids)
    | None => false
    end) &&
  when (lf_from_date filters) (λ from, bool_decide (from ≤ e_last_modified e)%Z) &&
  when (lf_to_date filters) (λ to, bool_decide (e_last_modified e ≤ to)%Z).

(** The [ORDER BY] clause: the time compared. *)
Definition sort_key (sort_on : ExperimentSortOn) (e : Experiment) : Z :=
  match sort_on with LastModifiedAt => e_last_modified e | CreatedAt => e_created_at e end.

Definition ordered (sort_on : ExperimentSortOn) (sort_by : SortBy) (e e' : Experiment) : Prop :=
  match sort_by with
  | Desc => (sort_key sort_on e' ≤ sort_key sort_on e)%Z
  | Asc => (sort_key sort_on e ≤ sort_key sort_on e')%Z
  end.

#[global] Instance ordered_dec sort_on sort_by e e' : Decision (ordered sort_on sort_by e e').
Proof. unfold ordered. destruct sort_by; apply _. Defined.

(** The rows of [base_query]. *)
Definition base_query (filters : ExperimentListFilters) (es : gmap Z Experiment)
    : list Experiment :=
  merge_sort (ordered (default LastModifiedAt (lf_sort_on filters))
                (default Desc (lf_sort_by filters)))
    (List.filter (query_builder filters) (row_order es).*2).

(** The filters on the context, which the database does not do. *)
Definition in_memory_filter (filters : ExperimentListFilters) (dimension_params : Map)
    (all_experiments : list Experiment) : list Experiment :=
  if default false (lf_global_experiments_only filters) then
    List.filter (λ experiment, bool_decide (e_context experiment = ∅)) all_experiments
  else
    let dimension_filtered_experiments :=
      filter_by_dimension all_experiments (map_to_list dimension_params).*1 in
    match default Subset (lf_dimension_match_strategy filters) with
    | Exact => filter_exact_match dimension_filtered_experiments dimension_params
    | Subset => filter_by_eval dimension_filtered_experiments dimension_params
    end.

(** The offset is an [i64]; the product is exact as long as it fits. *)
Definition list_experiments (pagination_params : PaginationParams)
    (filters : ExperimentListFilters) (dimension_params : Map) (es : gmap Z Experiment)
    : Paginated ExperimentResponse :=
  let rows := base_query filters es in
  let show_all := default false (pg_all pagination_params) in
  let limit := default 10%Z (pg_count pagination_params) in
  let offset := ((default 1 (pg_page pagination_params) - 1) * limit)%Z in
  let perform_in_memory_filter := negb (bool_decide (dimension_params = ∅)) ||
    default false (lf_global_experiments_only filters) in
  if perform_in_memory_filter then
    let experiments := ExperimentResponse_from <$> in_memory_filter filters dimension_params rows in
    if show_all then list_all experiments
    else
      let total_items := Z.of_nat (length experiments) in
      mkPaginated (ceil_div total_items limit) total_items (slice experiments offset limit)
  else if show_all then list_all (ExperimentResponse_from <$> rows)
  else
    let number_of_experiments :=
      Z.of_nat (length (List.filter (query_builder filters) (row_order es).*2)) in
    mkPaginated (ceil_div number_of_experiments limit) number_of_experiments
      (ExperimentResponse_from <$> take (Z.to_nat limit) (drop (Z.to_nat offset) rows)).

(** [max_event_timestamp] is the time of the last event on the table and
    [last_modified] the header of the request. *)
Definition list_handler (max_event_timestamp last_modified : option Z)
    (pagination_params : PaginationParams) (filters : ExperimentListFilters)
    (dimension_params : Map) : M ListAnswer := λ w,
  let unchanged :=
    match max_event_timestamp, last_modified with
    | Some m, Some l => bool_decide (m < l)%Z
    | _, _ => false
    end in
  if unchanged then (Ok NotModified, w)
  else (Ok (Listed (list_experiments pagination_params filters dimension_params
                      (w_experiments w))), w).

Definition get_handler (id : Z) : M ExperimentResponse :=
  response ← fetch_experiment id; mret (ExperimentResponse_from response).

(** ** Applicable variants *)

Definition select_groups : M (list ExperimentGroup) := λ w, (Ok (row_order (w_groups w)).*2, w).

(** The cohorts of a cyclic configuration do not terminate; the fuel of
    [evaluate_local_cohorts] makes it an error here. *)
Definition get_applicable_variants_helper (fuel : nat) (context : Map) (config : Config)
    (identifier : string) : M (list string * gmap string ExperimentResponse) :=
  experiment_groups ← select_groups;
  context ← lift (ok_or (evaluate_local_cohorts fuel (dimensions config) context)
    (UnexpectedError "the cohorts do not terminate"));
  let buckets := get_applicable_buckets_from_group experiment_groups context identifier in
  let exp_ids := parsed_ids (b_experiment_id ∘ snd <$> buckets) in
  rows ← select_experiments (λ e,
    bool_decide (e_id e ∈ exp_ids) && bool_decide (e_status e = INPROGRESS));
  let exps := collect_map ((λ exp, (pretty (e_id exp), ExperimentResponse_from exp)) <$> rows) in
  mret (get_applicable_variants_from_group_response exps context buckets, exps).

(** The request's context and identifier: from the query of a [GET], from the
    body of a [POST]. *)
Definition applicable_input (method : Method) (query_data : option string)
    (dimension_params : option Map) (req_body : option (Map * string)) : Result (Map * string) :=
  match method, query_data, dimension_params, req_body with
  | GET, Some identifier, Some dimension_params, _ => Ok (dimension_params, identifier)
  | POST, _, _, Some req_body => Ok req_body
  | _, _, _, _ => bad_argument "Invalid input for the method"
  end.

Definition get_applicable_variants_handler (fuel : nat) (method : Method)
    (query_data : option string) (dimension_params : option Map)
    (req_body : option (Map * string)) : M (list Variant) :=
  '(context, identifier) ← lift (applicable_input method query_data dimension_params req_body);
  '(config, _) ← fetch_cac_config;
  '(applicable_variants, exps) ← get_applicable_variants_helper fuel context config identifier;
  mret (omap (λ '(_, experiment),
      List.find (λ variant, bool_decide (v_id variant ∈ applicable_variants))
        (e_variants (r_experiment experiment))) (map_order exps)).
End queries.

(** ** Groups *)

Inductive GroupSortOn : Type := GroupName | GroupCreatedAt | GroupLastModifiedAt.

Record ExpGroupFilters : Type := mkGroupFilters {
  gf_name : option string;
  gf_created_by : option string;
  gf_last_modified_by : option string;
  gf_sort_on : option GroupSortOn;
  gf_sort_by : option SortBy;
  gf_group_type : option (list GroupType);
}.

Section groups.
Context `{Env} `{RowOrder} `{SqlLike} `{Collation}.

Definition group_filter (filters : ExpGroupFilters) (g : ExperimentGroup) : bool :=
  when (gf_name filters) (λ name, sql_contains name (g_name g)) &&
  when (gf_created_by filters) (λ user, bool_decide (g_created_by g = user)) &&
  when (gf_last_modified_by filters) (λ user, bool_decide (g_last_modified_by g = user)) &&
  when (gf_group_type filters) (λ types, bool_decide (g_group_type g ∈ types)).

Definition group_order (sort_on : GroupSortOn) (sort_by : SortBy) (gs : list ExperimentGroup)
    : list ExperimentGroup :=
  match sort_on with
  | GroupName => merge_sort (sorted_by collated g_name sort_by) gs
  | GroupCreatedAt => order_by g_created_at sort_by gs
  | GroupLastModifiedAt => order_by g_last_modified_at sort_by gs
  end.

(** Ordered also when every group is asked for. *)
Definition group_list_handler (pagination : PaginationParams) (filters : ExpGroupFilters)
    : M (Paginated ExperimentGroup) := λ w,
  let rows := group_order (default GroupLastModifiedAt (gf_sort_on filters))
    (default Desc (gf_sort_by filters))
    (List.filter (group_filter filters) (row_order (w_groups w)).*2) in
  (Ok (if default false (pg_all pagination) then list_all rows else sql_page pagination rows), w).
End groups.
