(* ===== verification/Service.v ===== *)
(** * The service as a whole

    The requests that change the tables, the handler each is routed to, and
    the worlds reached by serving requests one after the other from empty
    tables. Requests are served to completion: interleavings of two requests
    between their statements are not modelled. *)

From S2P Require Import Prelude Pages Json Types Text Effects ExpModels Bucketing CacClient ExpChecks CacStore Store Groups Experiments.

Inductive Request : Type :=
  | CreateExperiment (config_tags : option string) (req : ExperimentCreateRequest)
  | RampExperiment (experiment_id : Z) (req : RampRequest)
  | UpdateOverrides (experiment_id : Z) (config_tags : option string)
      (req : OverrideKeysUpdateRequest)
  | PauseExperiment (experiment_id : Z) (change_reason : string)
  | ResumeExperiment (experiment_id : Z) (change_reason : string)
  | ConcludeExperiment (experiment_id : Z) (config_tags : option string)
      (req : ConcludeExperimentRequest)
  | DiscardExperiment (experiment_id : Z) (config_tags : option string) (change_reason : string)
  | CreateGroup (req : ExpGroupCreateRequest)
  | UpdateGroup (exp_group_id : Z) (req : ExpGroupUpdateRequest)
  | AddMembers (exp_group_id : Z) (req : ExpGroupMemberRequest)
  | RemoveMembers (exp_group_id : Z) (req : ExpGroupMemberRequest)
  | DeleteGroup (exp_group_id : Z)
  | BackfillGroups.

Inductive Answer : Type :=
  | ExperimentAnswer (answer : HttpAnswer)
  | GroupAnswer (group : ExperimentGroup)
  | GroupsAnswer (groups : list ExperimentGroup).

(** The traffic percentages of a body, which its deserialisation validates. *)
Definition body_traffic (r : Request) : option Z :=
  match r with
  | RampExperiment _ req => Some (rr_traffic_percentage req)
  | CreateGroup req => Some (gc_traffic_percentage req)
  | UpdateGroup _ req => gu_traffic_percentage req
  | _ => None
  end.

Definition deserialize_body (r : Request) : Result unit :=
  match body_traffic r with
  | Some traffic_percentage =>
      _ ← map_err BadArgument (TrafficPercentage.try_from traffic_percentage); Ok tt
  | None => Ok tt
  end.

Section service.
Context `{Env} `{RowOrder} `{SetOrder} `{KeyOrder} `{FloatText} `{Blake3} `{JsonText} `{TimeText}.

Definition route (ws : Workspace) (user : string) (r : Request) : M Answer :=
  match r with
  | CreateExperiment config_tags req =>
      a ← create_handler ws config_tags req user; mret (ExperimentAnswer a)
  | RampExperiment experiment_id req =>
      a ← ramp_handler ws experiment_id req user; mret (ExperimentAnswer a)
  | UpdateOverrides experiment_id config_tags req =>
      a ← update_handler ws experiment_id config_tags req user; mret (ExperimentAnswer a)
  | PauseExperiment experiment_id change_reason =>
      a ← pause_handler ws experiment_id change_reason user; mret (ExperimentAnswer a)
  | ResumeExperiment experiment_id change_reason =>
      a ← resume_handler ws experiment_id change_reason user; mret (ExperimentAnswer a)
  | ConcludeExperiment experiment_id config_tags req =>
      a ← conclude_handler ws experiment_id config_tags req user; mret (ExperimentAnswer a)
  | DiscardExperiment experiment_id config_tags change_reason =>
      a ← discard_handler ws experiment_id config_tags change_reason user;
      mret (ExperimentAnswer a)
  | CreateGroup req => g ← create_group_handler ws req user; mret (GroupAnswer g)
  | UpdateGroup exp_group_id req =>
      g ← update_group_handler ws exp_group_id req user; mret (GroupAnswer g)
  | AddMembers exp_group_id req =>
      g ← add_members_handler ws exp_group_id req user; mret (GroupAnswer g)
  | RemoveMembers exp_group_id req =>
      g ← remove_members_handler ws exp_group_id req user; mret (GroupAnswer g)
  | DeleteGroup exp_group_id => g ← delete_group_handler exp_group_id user; mret (GroupAnswer g)
  | BackfillGroups => gs ← backfill_handler; mret (GroupsAnswer gs)
  end.

Definition serve (ws : Workspace) (user : string) (r : Request) : M Answer :=
  _ ← lift (deserialize_body r);
  route ws user r.

(** The world after the requests, whatever they were answered. *)
Fixpoint serve_all (rs : list (Workspace * string * Request)) (w : World) : World :=
  match rs with
  | [] => w
  | (ws, user, r) :: rs => serve_all rs (serve ws user r w).2
  end.
End service.

Definition empty_world : World := mkWorld ∅ ∅ [] 0 0.
