(* ===== verification/Tenants.v ===== *)
(** * The databases of the platform

    The schema [superposition] has the organisations and their workspaces; each
    workspace has a schema of its own with the tables of both services and the
    webhooks. The rows are those of
    [crates/superposition_types/src/database/models.rs] and
    [database/models/others.rs]. *)

From S2P Require Import Prelude Json Types Text Effects ExpModels ExpChecks CacStore Store.

(** ** Organisations and workspaces *)

Inductive OrgStatus : Type := Active | Inactive | PendingKyb.

Record Organisation : Type := mkOrganisation {
  og_id : string;
  og_name : string;
  og_country_code : option string;
  og_contact_email : option string;
  og_contact_phone : option string;
  og_created_by : string;
  og_admin_email : string;
  og_status : OrgStatus;
  og_sector : option string;
  og_updated_at : Z;
  og_created_at : Z;
  og_updated_by : string;
}.

Inductive WorkspaceStatus : Type := ENABLED | DISABLED.

Module WorkspaceStatus.
Definition from_str (s : string) : result string WorkspaceStatus :=
  if bool_decide (s = "ENABLED") then Ok ENABLED
  else if bool_decide (s = "DISABLED") then Ok DISABLED
  else Err ("Invalid enum string: " +:+ s).
End WorkspaceStatus.

Record WorkspaceRow : Type := mkWorkspaceRow {
  wk_organisation_id : string;
  wk_organisation_name : string;
  wk_workspace_name : string;
  wk_workspace_schema_name : string;
  wk_workspace_status : WorkspaceStatus;
  wk_workspace_admin_email : string;
  wk_config_version : option Z;
  wk_created_by : string;
  wk_last_modified_by : string;
  wk_last_modified_at : Z;
  wk_created_at : Z;
  wk_mandatory_dimensions : option (list string);
  wk_metrics : Metrics;
  wk_allow_experiment_self_approval : bool;
  wk_auto_populate_control : bool;
  wk_enable_context_validation : bool;
  wk_enable_change_reason_validation : bool;
}.

(** What the handlers of the two services read of the row of the workspace;
    the flags of experiments come from the environment of the process. *)
Definition settings_of (row : WorkspaceRow) : Settings :=
  mkSettings (wk_mandatory_dimensions row) (wk_enable_context_validation row)
    (wk_enable_change_reason_validation row) (wk_config_version row).

Definition workspace_of (flags : ExperimentationFlags) (row : WorkspaceRow) : Workspace :=
  mkWorkspace (wk_enable_change_reason_validation row) (wk_allow_experiment_self_approval row)
    (wk_auto_populate_control row) (wk_metrics row) flags.

(** ** Webhooks *)

Inductive HttpMethod : Type := HGet | HPut | HPost | HDelete | HPatch | HHead.
Inductive PayloadVersion : Type := PayloadV1.

Record Webhook : Type := mkWebhook {
  hk_name : string;
  hk_description : string;
  hk_enabled : bool;
  hk_url : string;
  hk_method : HttpMethod;
  hk_payload_version : PayloadVersion;
  hk_custom_headers : Map;
  hk_events : list WebhookEvent;
  hk_max_retries : Z;
  hk_last_triggered_at : option Z;
  hk_change_reason : string;
  hk_created_by : string;
  hk_created_at : Z;
  hk_last_modified_by : string;
  hk_last_modified_at : Z;
}.

#[export] Instance WebhookEvent_eq_dec : EqDecision WebhookEvent.
Proof. solve_decision. Defined.

(** ** The schema of a workspace *)

Record Schema : Type := mkSchema {
  sc_cac : CacWorld;
  sc_exp : World;
  sc_webhooks : gmap string Webhook;
}.

Abbreviation Sc := (ST Schema).

Definition set_cac (s : Schema) (w : CacWorld) : Schema := mkSchema w (sc_exp s) (sc_webhooks s).
Definition set_exp (s : Schema) (w : World) : Schema := mkSchema (sc_cac s) w (sc_webhooks s).
Definition set_webhooks (s : Schema) (hs : gmap string Webhook) : Schema :=
  mkSchema (sc_cac s) (sc_exp s) hs.

(** A computation on the tables of one of the services. *)
Definition on_cac {A} (m : C A) : Sc A := λ s, let '(r, w) := m (sc_cac s) in (r, set_cac s w).
Definition on_exp {A} (m : M A) : Sc A := λ s, let '(r, w) := m (sc_exp s) in (r, set_exp s w).

Definition all_webhooks `{MapOrder} : Sc (list Webhook) :=
  λ s, (Ok (map_order (sc_webhooks s)).*2, s).
Definition find_webhook (name : string) : Sc Webhook := λ s, (found (sc_webhooks s !! name), s).
Definition insert_webhook (hook : Webhook) : Sc unit := λ s,
  match sc_webhooks s !! hk_name hook with
  | Some _ => (cac_duplicate_key, s)
  | None => (Ok tt, set_webhooks s (<[hk_name hook := hook]> (sc_webhooks s)))
  end.
Definition update_webhook (name : string) (f : Webhook → Webhook) : Sc Webhook := λ s,
  match sc_webhooks s !! name with
  | Some hook => (Ok (f hook), set_webhooks s (<[name := f hook]> (sc_webhooks s)))
  | None => (cac_no_row, s)
  end.
(** Statements whose number of rows is ignored. *)
Definition execute_update_webhook (name : string) (f : Webhook → Webhook) : Sc unit :=
  λ s, (Ok tt, set_webhooks s (alter f name (sc_webhooks s))).
Definition execute_delete_webhook (name : string) : Sc unit :=
  λ s, (Ok tt, set_webhooks s (delete name (sc_webhooks s))).

(** ** The platform *)

(** The workspaces are keyed by the name of their schema, which is unique. *)
Record Platform : Type := mkPlatform {
  pf_organisations : gmap string Organisation;
  pf_workspaces : gmap string WorkspaceRow;
  pf_schemas : gmap string Schema;
  pf_ticks : nat;
  pf_ids : nat;
  pf_runs : nat;
}.

Abbreviation Pf := (ST Platform).

Definition set_organisations (p : Platform) (os : gmap string Organisation) : Platform :=
  mkPlatform os (pf_workspaces p) (pf_schemas p) (pf_ticks p) (pf_ids p) (pf_runs p).
Definition set_workspaces (p : Platform) (ws : gmap string WorkspaceRow) : Platform :=
  mkPlatform (pf_organisations p) ws (pf_schemas p) (pf_ticks p) (pf_ids p) (pf_runs p).
Definition set_schemas (p : Platform) (ss : gmap string Schema) : Platform :=
  mkPlatform (pf_organisations p) (pf_workspaces p) ss (pf_ticks p) (pf_ids p) (pf_runs p).

Definition pf_rollback (before after : Platform) : Platform :=
  mkPlatform (pf_organisations before) (pf_workspaces before) (pf_schemas before) (pf_ticks after)
    (pf_ids after) (pf_runs after).

Definition pf_transaction {A} (m : Pf A) : Pf A := transaction_by pf_rollback m.

Definition pf_clock `{CacEnv} : Pf Z := λ p,
  (Ok (cac_now (pf_ticks p)),
   mkPlatform (pf_organisations p) (pf_workspaces p) (pf_schemas p) (S (pf_ticks p)) (pf_ids p)
     (pf_runs p)).

(** A computation on the schema of a workspace; without the schema every
    statement fails. *)
Definition undefined_relation {A} : Result A := Err (DbError (OtherDbError "relation does not exist")).

Definition on_schema {A} (schema_name : string) (m : Sc A) : Pf A := λ p,
  match pf_schemas p !! schema_name with
  | Some s => let '(r, s) := m s in (r, set_schemas p (<[schema_name := s]> (pf_schemas p)))
  | None => (undefined_relation, p)
  end.
