(* ===== verification/Http.v ===== *)
(** * Requests and the middlewares they pass

    [crates/service_utils/src/extensions.rs] and [middlewares]: what is read of
    a request, the authentication of its sender, the organisation and the
    workspace it is for, and its authorisation. The decoding of tokens, the
    exchange of a password for one and the parsing of a user are parameters. *)

From S2P Require Import Prelude Json Types Text Effects ExpModels CacStore Contexts Store Tenants.

(** ** Requests *)

(** The headers that are texts, by their names in lower case; the pattern is
    that of the route that matches the path. *)
Record HttpRequest : Type := mkHttpRequest {
  hr_path : string;
  hr_pattern : option string;
  hr_query : string;
  hr_headers : gmap string string;
  hr_cookies : gmap string string;
}.

Module HttpRequestExt.
Definition get_path_param (self : HttpRequest) (param : string) : option string :=
  pattern ← hr_pattern self;
  '(p, _) ← list_find (λ mp, mp = param) (split_at "/" pattern);
  split_at "/" (hr_path self) !! p.

Definition get_header (self : HttpRequest) (header_name : string) : option string :=
  hr_headers self !! header_name.

Definition get_query_param (self : HttpRequest) (query_param : string) : option string :=
  segment ← List.find (λ segment, str_contains segment (query_param +:+ "="))
    (split_at "&" (hr_query self));
  split_at "=" segment !! 1%nat.

Definition or_else {A} (o o' : option A) : option A := match o with Some _ => o | None => o' end.

Definition get_organisation_id (self : HttpRequest) : option string :=
  or_else (get_header self "x-org-id")
    (or_else (get_path_param self "{org_id}") (get_query_param self "org")).

Definition get_workspace_id (self : HttpRequest) : option string :=
  or_else (get_header self "x-workspace")
    (or_else (get_header self "x-tenant")
      (or_else (get_path_param self "{workspace}")
        (or_else (get_path_param self "{tenant}")
          (or_else (get_query_param self "workspace") (get_query_param self "tenant"))))).
End HttpRequestExt.

(** What a middleware answers in place of the handler: a way to the page of the
    identity provider that comes back to a path, a new cookie with the way to
    the same request, or an error. *)
Inductive Login : Type := LoginNone | LoginGlobal | LoginOrg (org_id : string).

Module Login.
Definition to_string (self : Login) : string :=
  match self with
  | LoginNone => "none"
  | LoginGlobal => "user"
  | LoginOrg org_id => "org_" +:+ org_id
  end.
End Login.

Inductive HttpReply : Type :=
  | ToProvider (cookie_type : Login) (redirect_uri : string)
  | WithCookie (cookie token location : string)
  | ErrorReply (status : Z) (message : string).

(** [User::default()]. *)
Definition default_user : User := mkUser "user@superposition.io" "superposition".

Definition default_organisation_id : string := "superposition".
Definition default_schema_name : string := "superposition".

(** The part of [AppState] the middlewares read. *)
Class AppState := {
  tenant_middleware_exclusion_list : gset string;
  service_prefix : string;
  superposition_token : string;
}.

(** [serde_json::from_str::<User>] and [to_string]. *)
Class UserText := {
  user_from_str : string → option User;
  user_to_str : User → string;
}.

Definition base_path `{AppState} : string :=
  if bool_decide (service_prefix = "") || bool_decide (service_prefix = "/") then ""
  else "/" +:+ service_prefix.

(** ** Authentication *)

Class Authenticator := {
  authenticate : HttpRequest → Login → result HttpReply User;
  generate_org_user : HttpRequest → string → Login → result HttpReply string;
}.

(** The prefix of the paths given to the authenticator is [base_path]. *)
Definition excluded_pattern `{AppState} (req : HttpRequest) : string :=
  str_replace (default (hr_path req) (hr_pattern req)) base_path "".

Definition get_login_type `{AppState} (request : HttpRequest) : Login :=
  let excep := bool_decide (excluded_pattern request ∈ tenant_middleware_exclusion_list) in
  let org_request := str_contains (hr_path request) "/organisations" in
  match excep, org_request with
  | true, false => LoginNone
  | _, true => LoginGlobal
  | false, false => LoginOrg (default "" (HttpRequestExt.get_organisation_id request))
  end.

(** The sender of a call of the service to itself. *)
Definition internal_user `{AppState} `{UserText} (request : HttpRequest) : option User :=
  auth ← HttpRequestExt.get_header request "authorization";
  match split_at " " auth with
  | kind :: token :: _ =>
      if bool_decide (kind = "Internal") && bool_decide (token = superposition_token) then
        user_str ← HttpRequestExt.get_header request "x-user";
        user_from_str user_str
      else None
  | _ => None
  end.

(** The user put into the extensions, and whether the request is internal. *)
Definition authn_call `{AppState} `{UserText} `{Authenticator} (request : HttpRequest)
    : result HttpReply (User * bool) :=
  match internal_user request with
  | Some user => Ok (user, true)
  | None =>
      match authenticate request (get_login_type request) with
      | Ok user => Ok (user, false)
      | Err resp => Err resp
      end
  end.

(** [DisabledAuthenticator]. *)
#[local] Instance disabled_authenticator : Authenticator := {|
  authenticate _ _ := Ok default_user;
  generate_org_user _ _ _ := Ok "org_token";
|}.

(** ** OpenID Connect *)

Record Claims : Type := mkClaims {
  cl_email : option string;
  cl_preferred_username : option string;
}.

Record GlobalClaims : Type := mkGlobalClaims {
  gl_claims : Claims;
  gl_organisations : list string;
  gl_switch_pass : string;
}.

Inductive PasswordExchange : Type :=
  | ExchangeFailed
  | NoIdToken
  | ClaimsRefused
  | Exchanged (token : option string).

(** The tokens of the providers: that of all users and, where organisations have
    one of their own, the providers at the addresses of an organisation. An
    address that cannot be parsed is none. *)
Class Provider := {
  decode_global : string → option GlobalClaims;
  decode_at : string → string → option Claims;
  exchange_at : string → string → string → PasswordExchange;
  parse_url : string → bool;
  issuer_endpoint_format : string;
  token_endpoint_format : string;
  base_url : string;
}.

Definition bad_request (msg : string) : HttpReply := ErrorReply 400 msg.
Definition internal_error (msg : string) : HttpReply := ErrorReply 500 msg.

Definition try_user_from (claims : Claims) : option User :=
  email ← cl_email claims;
  username ← cl_preferred_username claims;
  Some (mkUser email username).

Definition user_or_bad_request (claims : Claims) : result HttpReply User :=
  match try_user_from claims with
  | Some user => Ok user
  | None => Err (bad_request "Unable to get user")
  end.

Section oidc.
Context `{AppState} `{Provider}.

Definition cookie (request : HttpRequest) (login_type : Login) : option string :=
  hr_cookies request !! Login.to_string login_type.

Definition global_claims (request : HttpRequest) : option GlobalClaims :=
  c ← cookie request LoginGlobal; decode_global c.

Definition organisations_page : string := base_path +:+ "/admin/organisations".

Definition get_global_user (request : HttpRequest) (path : string) : result HttpReply User :=
  match global_claims request with
  | Some claims => user_or_bad_request (gl_claims claims)
  | None => Err (ToProvider LoginGlobal path)
  end.

(** [SimpleOIDCAuthenticator]. *)
Definition simple_authenticate (request : HttpRequest) (login_type : Login)
    : result HttpReply User :=
  match login_type with
  | LoginNone => Ok default_user
  | LoginGlobal => get_global_user request organisations_page
  | LoginOrg _ => get_global_user request (hr_path request)
  end.

Definition simple_generate_org_user (req : HttpRequest) (org_id : string) (login_type : Login)
    : result HttpReply string :=
  match cookie req LoginGlobal with
  | Some c =>
      if bool_decide (is_Some (decode_global c)) then Ok c
      else Err (ToProvider login_type organisations_page)
  | None => Err (ToProvider login_type organisations_page)
  end.

(** [SaasOIDCAuthenticator]. *)
Definition get_issuer_url (organisation_id : string) : string :=
  str_replace issuer_endpoint_format "<organisation>" organisation_id.
Definition get_token_url (organisation_id : string) : string :=
  str_replace token_endpoint_format "<organisation>" organisation_id.

Definition get_org_client (org_id : string) : option (string * string) :=
  if parse_url (get_issuer_url org_id) && parse_url (get_token_url org_id) &&
     parse_url (base_url +:+ base_path +:+ "/")
  then Some (get_issuer_url org_id, get_token_url org_id) else None.

Definition decode_org_token (org_id cookie : string) : option Claims :=
  '(issuer_url, _) ← get_org_client org_id;
  decode_at issuer_url cookie.

Definition saas_generate_org_user (req : HttpRequest) (org_id : string) (login_type : Login)
    : result HttpReply string :=
  match get_org_client org_id with
  | None => Err (internal_error "Error in getting Org specific client")
  | Some (_, token_url) =>
      match global_claims req with
      | None => Err (bad_request "Cookie incorrect")
      | Some claims =>
          match cl_preferred_username (gl_claims claims) with
          | None => Err (bad_request "Username not found")
          | Some username =>
              match exchange_at token_url username (gl_switch_pass claims) with
              | ExchangeFailed => Err (internal_error "Failed to switch organisation for token")
              | NoIdToken | ClaimsRefused => Err (ToProvider login_type organisations_page)
              | Exchanged None => Err (internal_error "Unable to stringify data")
              | Exchanged (Some token) => Ok token
              end
          end
      end
  end.

Definition get_org_user (request : HttpRequest) (login_type : Login) : result HttpReply User :=
  let org_id := default default_organisation_id (HttpRequestExt.get_organisation_id request) in
  match (c ← cookie request login_type; decode_org_token org_id c) with
  | Some claims => user_or_bad_request claims
  | None =>
      match saas_generate_org_user request org_id login_type with
      | Ok token => Err (WithCookie (Login.to_string login_type) token (hr_path request))
      | Err resp => Err resp
      end
  end.

Definition saas_authenticate (request : HttpRequest) (login_type : Login) : result HttpReply User :=
  match login_type with
  | LoginNone => Ok default_user
  | LoginGlobal => get_global_user request organisations_page
  | LoginOrg _ =>
      match get_global_user request (hr_path request) with
      | Err e => Err e
      | Ok _ => get_org_user request login_type
      end
  end.

(** [get_organisations]: those of the claims. *)
Definition saas_get_organisations (req : HttpRequest) : result HttpReply (list string) :=
  match global_claims req with
  | Some claims => Ok (gl_organisations claims)
  | None => Err (ToProvider LoginGlobal organisations_page)
  end.

#[local] Instance simple_authenticator : Authenticator := {|
  authenticate := simple_authenticate;
  generate_org_user := simple_generate_org_user;
|}.

#[local] Instance saas_authenticator : Authenticator := {|
  authenticate := saas_authenticate;
  generate_org_user := saas_generate_org_user;
|}.
End oidc.

(** [switch_organisation]. *)
Definition switch_organisation `{AppState} `{Authenticator} (req : HttpRequest) (organisation_id : string)
    : HttpReply :=
  let login_type := LoginOrg organisation_id in
  match generate_org_user req organisation_id login_type with
  | Ok token =>
      WithCookie (Login.to_string login_type) token
        (base_path +:+ "/admin/" +:+ organisation_id +:+ "/workspaces")
  | Err resp => resp
  end.

(** [fetch_org_ids_from_db], which the other authenticators answer with: the
    latest organisation first. *)
Definition created_later (o o' : Organisation) : Prop := (og_created_at o' ≤ og_created_at o)%Z.

#[export] Instance created_later_dec : RelDecision created_later.
Proof. intros o o'. unfold created_later. apply _. Defined.

Definition fetch_org_ids_from_db `{MapOrder} : Pf (list string) := λ p,
  (Ok (og_id <$> merge_sort created_later (map_order (pf_organisations p)).*2), p).

(** ** The page the provider comes back to *)

Record ProtectionCookie : Type := mkProtectionCookie { pc_csrf : string; pc_nonce : string }.

(** The code of the provider, and the state it was sent with. *)
Record LoginParams : Type := mkLoginParams {
  lp_code : string;
  lp_csrf : string;
  lp_redirect_uri : string;
}.

(** The exchange of a code: the text of the token, when it can be written, and
    whether its claims verify with a nonce, when it has an identity token. *)
Inductive CodeExchange : Type :=
  | CodeRefused
  | CodeAccepted (claims_verify : option (string → bool)) (token : option string).

Class LoginProvider := {
  parse_protection : string → option ProtectionCookie;
  exchange_code : string → CodeExchange;
}.

Definition login `{AppState} `{LoginProvider} (req : HttpRequest) (params : LoginParams) : HttpReply :=
  match (c ← hr_cookies req !! "protection"; parse_protection c) with
  | None => ToProvider LoginGlobal organisations_page
  | Some p_cookie =>
      if negb (bool_decide (lp_csrf params = pc_csrf p_cookie)) then
        ToProvider LoginGlobal organisations_page
      else
        match exchange_code (lp_code params) with
        | CodeRefused => internal_error "Failed to exchange auth-code for token"
        | CodeAccepted claims_verify token =>
            if default false ((λ verify, verify (pc_nonce p_cookie)) <$> claims_verify) then
              match token with
              | Some token => WithCookie (Login.to_string LoginGlobal) token (lp_redirect_uri params)
              | None => internal_error "Unable to stringify data"
              end
            else ToProvider LoginGlobal organisations_page
        end
  end.

(** ** The organisation and the workspace of a request *)

Record WorkspaceContext : Type := mkWorkspaceContext {
  wx_workspace_id : string;
  wx_organisation_id : string;
  wx_schema_name : string;
  wx_settings : WorkspaceRow;
}.

(** The extensions of a request. *)
Record Extensions : Type := mkExtensions {
  ext_user : User;
  ext_internal : bool;
  ext_organisation : option string;
  ext_schema_name : option string;
  ext_workspace : option WorkspaceContext;
}.

Definition authenticated (user : User) (internal : bool) : Extensions :=
  mkExtensions user internal None None None.

Definition get_workspace (workspace_schema_name : string) : Pf WorkspaceRow :=
  λ p, (found (pf_workspaces p !! workspace_schema_name), p).

Definition is_excluded `{AppState} `{RegexEngine} (req : HttpRequest) : Result bool :=
  let request_path := str_replace (hr_path req) base_path "" in
  pkg ← ok_or (regex_is_match ".*/pkg/.+" request_path) (UnexpectedError "regex");
  assets ← ok_or (regex_is_match ".*/assets/.+" request_path) (UnexpectedError "regex");
  Ok (bool_decide (excluded_pattern req ∈ tenant_middleware_exclusion_list) || pkg || assets).

Definition required_org : string :=
  "The parameter org id is required, and must be passed through headers/url params/query params.".
Definition required_workspace : string :=
  "The parameter workspace id is required, and must be passed through headers/url params/query params.".

(** What the middleware adds to the extensions. *)
Definition org_workspace_call `{AppState} `{RegexEngine} (enable_org_id enable_workspace_id : bool)
    (req : HttpRequest) (ext : Extensions) : Pf Extensions :=
  excluded ← lift (is_excluded req);
  if excluded : bool then mret ext
  else
    organisation ← lift (
      match enable_org_id, HttpRequestExt.get_organisation_id req with
      | true, None => bad_argument required_org
      | true, Some org_id => Ok org_id
      | false, _ => Ok default_organisation_id
      end);
    match enable_workspace_id, HttpRequestExt.get_workspace_id req with
    | true, None => bad required_workspace
    | true, Some workspace_id =>
        let schema_name := organisation +:+ "_" +:+ workspace_id in
        workspace_settings ← get_workspace schema_name;
        mret (mkExtensions (ext_user ext) (ext_internal ext) (Some organisation) (Some schema_name)
          (Some (mkWorkspaceContext workspace_id organisation schema_name workspace_settings)))
    | false, _ =>
        mret (mkExtensions (ext_user ext) (ext_internal ext) (Some organisation)
          (Some default_schema_name) (ext_workspace ext))
    end.

(** ** Authorisation *)

Inductive Resource : Type :=
  | RDefaultConfig | RDimension | RContext | RFunction | RTypeTemplate | RConfig | RExperiment
  | RExperimentGroup | RWorkspace | ROrganisation | RWebhook | RAuditLog | RAuth | RVariable.

Class Authorizer := is_allowed : string * string → User → Resource → string → result string bool.

(** [NoAuth]. *)
#[local] Instance no_auth : Authorizer := λ _ _ _ _, Ok true.

(** Where the handlers of a resource look for the organisation and the schema. *)
Definition authz_scope (resource : Resource) (ext : Extensions) : Result (string * string) :=
  match resource with
  | ROrganisation | RWorkspace =>
      org_id ← ok_or (ext_organisation ext)
        (UnexpectedError "Organisation Id not found in request extensions.");
      schema_name ← ok_or (ext_schema_name ext)
        (UnexpectedError "Schema Name not found in request extensions.");
      Ok (org_id, schema_name)
  | _ =>
      context ← ok_or (ext_workspace ext)
        (UnexpectedError "Workspace Context not found in request extensions.");
      Ok (wx_organisation_id context, wx_schema_name context)
  end.

Definition authz_from_request `{Authorizer} (resource : Resource) (action : string) (ext : Extensions)
    : Result unit :=
  if ext_internal ext then Ok tt
  else
    scope ← authz_scope resource ext;
    match is_allowed scope (ext_user ext) resource action with
    | Err e => unexpected_error ("Error checking authorization: " +:+ e)
    | Ok true => Ok tt
    | Ok false => Err (Forbidden "You are not authorized to perform this action.")
    end.
