(* ===== verification/Webhooks.v ===== *)
(** * Webhooks

    The handlers of [crates/superposition/src/webhooks/handlers.rs] and the
    helpers of [helper.rs]. No handler opens a transaction. *)

From S2P Require Import Prelude Pages Json Types Text Effects Config ExpModels CacClient ExpChecks CacStore CacConfig Contexts CacQueries Store Tenants.

(** ** Requests *)

Record CreateWebhookRequest : Type := mkCreateWebhook {
  ch_name : string;
  ch_description : string;
  ch_enabled : bool;
  ch_url : string;
  ch_method : HttpMethod;
  ch_payload_version : option PayloadVersion;
  ch_custom_headers : option Map;
  ch_events : list WebhookEvent;
  ch_change_reason : string;
}.

Record UpdateWebhookRequest : Type := mkUpdateWebhook {
  uh_description : option string;
  uh_enabled : option bool;
  uh_url : option string;
  uh_method : option HttpMethod;
  uh_payload_version : option PayloadVersion;
  uh_custom_headers : option Map;
  uh_events : option (list WebhookEvent);
  uh_change_reason : string;
}.

Module WebhookName.
Definition validate_data `{RegexEngine} (name : string) : result string string :=
  let name := trim name in
  _ ← RegexEnum.match_regex FunctionName name;
  Ok name.
End WebhookName.

(** [strum_macros::Display]. *)
Definition event_to_string (event : WebhookEvent) : string :=
  match event with
  | ExperimentCreated => "ExperimentCreated"
  | ExperimentStarted => "ExperimentStarted"
  | ExperimentInprogress => "ExperimentInprogress"
  | ExperimentUpdated => "ExperimentUpdated"
  | ExperimentConcluded => "ExperimentConcluded"
  | ExperimentDiscarded => "ExperimentDiscarded"
  | ExperimentPaused => "ExperimentPaused"
  end.

(** ** Validation *)

(** The loop over the webhooks of the table. *)
Fixpoint duplicate_event (events : list WebhookEvent) (exclude_webhook : option string)
    (webhooks : list Webhook) : option WebhookEvent :=
  match webhooks with
  | [] => None
  | webhook :: webhooks =>
      if bool_decide (exclude_webhook = Some (hk_name webhook)) then
        duplicate_event events exclude_webhook webhooks
      else
        match List.find (λ event, bool_decide (event ∈ events)) (hk_events webhook) with
        | Some event => Some event
        | None => duplicate_event events exclude_webhook webhooks
        end
  end.

Definition new_webhook (req : CreateWebhookRequest) (name : string) (user : User) (now : Z) : Webhook :=
  mkWebhook name (ch_description req) (ch_enabled req) (ch_url req) (ch_method req)
    (default PayloadV1 (ch_payload_version req)) (default ∅ (ch_custom_headers req)) (ch_events req)
    0 None (ch_change_reason req) (user_email user) now (user_email user) now.

Definition apply_webhook_update (req : UpdateWebhookRequest) (now : Z) (user : User) (h : Webhook)
    : Webhook :=
  mkWebhook (hk_name h) (default (hk_description h) (uh_description req))
    (default (hk_enabled h) (uh_enabled req)) (default (hk_url h) (uh_url req))
    (default (hk_method h) (uh_method req)) (default (hk_payload_version h) (uh_payload_version req))
    (default (hk_custom_headers h) (uh_custom_headers req)) (default (hk_events h) (uh_events req))
    (hk_max_retries h) (hk_last_triggered_at h) (uh_change_reason req) (hk_created_by h)
    (hk_created_at h) (user_email user) now.

Definition touch_webhook (now : Z) (user : User) (h : Webhook) : Webhook :=
  mkWebhook (hk_name h) (hk_description h) (hk_enabled h) (hk_url h) (hk_method h)
    (hk_payload_version h) (hk_custom_headers h) (hk_events h) (hk_max_retries h)
    (hk_last_triggered_at h) (hk_change_reason h) (hk_created_by h) (hk_created_at h)
    (user_email user) now.

Section webhooks.
Context `{CacEnv} `{JsonParse} `{MapOrder} `{RegexEngine}.

Definition validate_events (events : list WebhookEvent) (exclude_webhook : option string) : Sc unit :=
  result ← all_webhooks;
  lift (match duplicate_event events exclude_webhook result with
        | Some event => bad_argument ("Duplicate event found: " +:+ event_to_string event)
        | None => Ok tt
        end).

(** ** Handlers *)

(** Reading the name of the body or the path trims it. *)
Definition webhook_create_handler (settings : Settings) (req : CreateWebhookRequest) (user : User)
    : Sc Webhook :=
  name ← lift (map_err BadArgument (WebhookName.validate_data (ch_name req)));
  _ ← on_cac (validate_change_reason settings (ch_change_reason req));
  _ ← validate_events (ch_events req) None;
  now ← on_cac cac_clock;
  let webhook_data := new_webhook req name user now in
  _ ← insert_webhook webhook_data;
  mret webhook_data.

Definition webhook_update_handler (settings : Settings) (params : string)
    (req : UpdateWebhookRequest) (user : User) : Sc Webhook :=
  w_name ← lift (map_err BadArgument (WebhookName.validate_data params));
  _ ← on_cac (validate_change_reason settings (uh_change_reason req));
  _ ← (match uh_events req with
       | Some webhook_events => validate_events webhook_events (Some w_name)
       | None => mret tt
       end);
  now ← on_cac cac_clock;
  update_webhook w_name (apply_webhook_update req now user).

Definition webhook_get_handler (params : string) : Sc Webhook :=
  w_name ← lift (map_err BadArgument (WebhookName.validate_data params));
  find_webhook w_name.

Definition webhook_list_handler (pagination : PaginationParams) : Sc (Paginated Webhook) :=
  result ← all_webhooks;
  mret (sql_listing pagination (order_by hk_last_modified_at Desc) result).

Definition webhook_delete_handler (params : string) (user : User) : Sc unit :=
  w_name ← lift (map_err BadArgument (WebhookName.validate_data params));
  now ← on_cac cac_clock;
  _ ← execute_update_webhook w_name (touch_webhook now user);
  execute_delete_webhook w_name.

(** [first] on the rows whose events contain the event. *)
Definition get_by_event_handler (event : WebhookEvent) : Sc Webhook :=
  result ← all_webhooks;
  lift (found (List.find (λ h, bool_decide (event ∈ hk_events h)) result)).
End webhooks.

(** ** Requests that write *)

Inductive WebhookRequest : Type :=
  | CreateWebhook (req : CreateWebhookRequest)
  | UpdateWebhook (name : string) (req : UpdateWebhookRequest)
  | DeleteWebhook (name : string).

(** Reading a body validates its texts. *)
Definition all_valid (checks : list (result string string)) : Result unit :=
  _ ← map_err BadArgument (try_map id checks); Ok tt.
Definition optional (f : string → result string string) (o : option string)
    : list (result string string) :=
  match o with Some s => [f s] | None => [] end.

Definition webhook_body `{RegexEngine} (r : WebhookRequest) : Result unit :=
  match r with
  | CreateWebhook req =>
      all_valid [WebhookName.validate_data (ch_name req); Description.try_from (ch_description req);
                 NonEmptyString.try_from (ch_url req); ChangeReason.try_from (ch_change_reason req)]
  | UpdateWebhook name req =>
      all_valid ([WebhookName.validate_data name] ++
                 optional Description.try_from (uh_description req) ++
                 optional NonEmptyString.try_from (uh_url req) ++
                 [ChangeReason.try_from (uh_change_reason req)])
  | DeleteWebhook name => all_valid [WebhookName.validate_data name]
  end.

Definition webhook_route `{CacEnv} `{JsonParse} `{MapOrder} `{RegexEngine} (settings : Settings)
    (user : User) (r : WebhookRequest) : Sc unit :=
  _ ← lift (webhook_body r);
  match r with
  | CreateWebhook req => _ ← webhook_create_handler settings req user; mret tt
  | UpdateWebhook name req => _ ← webhook_update_handler settings name req user; mret tt
  | DeleteWebhook name => webhook_delete_handler name user
  end.

(** * Calls of webhooks

    [execute_webhook_call] of [crates/service_utils/src/helpers.rs]: the
    headers of the call, with the variables of the workspace put into the custom
    ones, and what its outcome is taken for. The engine of regular expressions,
    the syntax of headers, the secrets of the process and the exchange itself
    are parameters; the variables are asked from the configuration service. *)

(** The matches of [VAR_REGEX] in a text, from the left: each with the text
    before it and the name it captures; then the text after the last. *)
Class VarRegex := var_matches : string → list (string * string) * string.

(** A name as it is normalised and a value, when they are well-formed. *)
Class HeaderSyntax := {
  header_name : string → option string;
  header_value : string → bool;
}.

Class HookEnv := {
  encrypted_keys : gmap string string;
  hook_send : HttpMethod → string → gmap string string → WebhookEvent → option string → result unit Z;
}.

(** The body of the call without the payload and the time, which are passed on
    as they are. *)
Record WebhookCall : Type := mkWebhookCall {
  wc_method : HttpMethod;
  wc_url : string;
  wc_headers : gmap string string;
  wc_event : WebhookEvent;
  wc_config_version : option string;
}.

Section calls.
Context `{VarRegex} `{HeaderSyntax} `{HookEnv} `{JsonText} `{MapOrder} `{Collation}.

Definition is_var (s : string) : bool := negb (bool_decide ((var_matches s).1 = [])).

(** The closure given to [replace_all]: a name that is not among the variables
    is replaced by the whole text. *)
Definition replacement (s : string) (variables : gmap string string) (name : string) : string :=
  default s (variables !! name).

Definition replace_all (s : string) (variables : gmap string string) : string :=
  let '(matches, rest) := var_matches s in
  foldr (λ '(before, name) text, before +:+ replacement s variables name +:+ text) rest matches.

Definition substitute_variables (template : Value) (variables : gmap string string) : string :=
  match template with
  | VString s => replace_all s variables
  | other => json_to_string other
  end.

Definition has_variables (custom_headers : Map) : bool :=
  List.existsb (λ '(_, value_json),
      match as_str value_json with Some s => is_var s | None => false end)
    (sorted_entries custom_headers).

(** The page that [GET {cac_host}/variables] answers without a query. *)
Definition variables_page : C (Paginated Variable_) :=
  variable_list_handler (mkPaginationParams None None None)
    (mkVariableFilters None None None None None).

Definition variables_of (res : option (Paginated Variable_)) : gmap string string :=
  match res with
  | Some res => collect_map ((λ v, (vr_name v, vr_value v)) <$> pr_data res)
  | None => ∅
  end.

Definition insert_header (headers : gmap string string) (name value : string) : gmap string string :=
  match header_name name with
  | Some k => if header_value value then <[k := value]> headers else headers
  | None => headers
  end.

Definition render (variables_map : gmap string string) (value : Value) : string :=
  let value_str := match as_str value with Some s => s | None => json_to_string value end in
  match encrypted_keys !! value_str with
  | Some decrypted => decrypted
  | None => substitute_variables value variables_map
  end.

Definition call_headers (webhook : Webhook) (config_version_opt : option string)
    (workspace_id : string) (variables_map : gmap string string) : gmap string string :=
  let headers := insert_header ∅ "x-config-version" (default "" config_version_opt) in
  let headers := insert_header headers "x-tenant" workspace_id in
  foldl (λ headers '(key, value), insert_header headers key (render variables_map value)) headers
    (sorted_entries (hk_custom_headers webhook)).

Definition webhook_call (webhook : Webhook) (config_version_opt : option string)
    (workspace_id : string) (event : WebhookEvent) (variables_map : gmap string string) : WebhookCall :=
  mkWebhookCall (hk_method webhook) (hk_url webhook)
    (call_headers webhook config_version_opt workspace_id variables_map) event config_version_opt.

(** Whether the webhook is taken to have been told; one that is disabled is
    not called. [fetch] is the request for the variables, [None] when it failed. *)
Definition execute_webhook_call {W} (fetch : ST W (option (Paginated Variable_))) (webhook : Webhook)
    (config_version_opt : option string) (workspace_id : string) (event : WebhookEvent) : ST W bool :=
  if negb (hk_enabled webhook) then mret true
  else
    variables_map ← (if has_variables (hk_custom_headers webhook) then
                       res ← fetch; mret (variables_of res)
                     else mret ∅);
    let c := webhook_call webhook config_version_opt workspace_id event variables_map in
    mret (match hook_send (wc_method c) (wc_url c) (wc_headers c) (wc_event c) (wc_config_version c) with
          | Ok status => bool_decide (status = 200%Z)
          | Err _ => false
          end).
End calls.
