(* ===== verification/Organisations.v ===== *)
(** * Organisations and workspaces

    The handlers of [crates/superposition/src/organisation/handlers.rs] and
    [workspace/handlers.rs]. Creating a workspace runs the statements of
    [workspace_template.sql] on its schema; migrating one runs them again, which
    puts back what is missing and leaves the rest. *)

From S2P Require Import Prelude Pages Json Types Text Effects ExpModels ExpChecks CacStore Contexts CacQueries CacService Store Service Tenants.

(** ** Requests *)

Record OrgCreateRequest : Type := mkOrgCreate {
  oc_country_code : option string;
  oc_contact_email : option string;
  oc_contact_phone : option string;
  oc_admin_email : string;
  oc_name : string;
  oc_sector : option string;
}.

Record OrgUpdateRequest : Type := mkOrgUpdate {
  ou_country_code : option string;
  ou_contact_email : option string;
  ou_contact_phone : option string;
  ou_admin_email : option string;
  ou_sector : option string;
  ou_status : option OrgStatus;
}.

Record CreateWorkspaceRequest : Type := mkCreateWorkspace {
  cw_workspace_admin_email : string;
  cw_workspace_name : string;
  cw_workspace_status : option WorkspaceStatus;
  cw_metrics : option Metrics;
  cw_allow_experiment_self_approval : bool;
  cw_auto_populate_control : bool;
  cw_enable_context_validation : bool;
  cw_enable_change_reason_validation : bool;
}.

Record UpdateWorkspaceRequest : Type := mkUpdateWorkspace {
  uw_workspace_admin_email : string;
  uw_workspace_status : option WorkspaceStatus;
  uw_mandatory_dimensions : option (list string);
  uw_config_version : option I64Update;
  uw_metrics : option Metrics;
  uw_allow_experiment_self_approval : option bool;
  uw_auto_populate_control : option bool;
  uw_enable_context_validation : option bool;
  uw_enable_change_reason_validation : option bool;
}.

(** ** The outside *)

(** [IdInstance::next_id], and what running the template comes to: the file may
    be missing, the database may refuse a statement. *)
Class PlatformEnv := {
  next_id : nat → Z;
  setup_outcome : nat → Result unit;
}.

(** ** Organisations *)

(** A column of an update that is [None] keeps its value. *)
Definition keep_or {A} (new old : option A) : option A :=
  match new with Some a => Some a | None => old end.

Definition apply_org_update (req : OrgUpdateRequest) (now : Z) (user : User) (o : Organisation)
    : Organisation :=
  mkOrganisation (og_id o) (og_name o) (keep_or (ou_country_code req) (og_country_code o))
    (keep_or (ou_contact_email req) (og_contact_email o))
    (keep_or (ou_contact_phone req) (og_contact_phone o)) (og_created_by o)
    (default (og_admin_email o) (ou_admin_email req)) (default (og_status o) (ou_status req))
    (keep_or (ou_sector req) (og_sector o)) now (og_created_at o) (user_email user).

Definition new_organisation (req : OrgCreateRequest) (org_id : string) (user : User) (now : Z)
    : Organisation :=
  mkOrganisation org_id (oc_name req) (oc_country_code req) (oc_contact_email req)
    (oc_contact_phone req) (user_username user) (oc_admin_email req) PendingKyb (oc_sector req) now
    now (user_username user).

Section organisations.
Context `{CacEnv} `{PlatformEnv} `{MapOrder}.

Definition new_numeric_id : Pf Z := λ p,
  (Ok (next_id (pf_ids p)),
   mkPlatform (pf_organisations p) (pf_workspaces p) (pf_schemas p) (pf_ticks p) (S (pf_ids p))
     (pf_runs p)).

Definition find_organisation (org_id : string) : Pf Organisation :=
  λ p, (found (pf_organisations p !! org_id), p).

Definition insert_organisation (new_org : Organisation) : Pf Organisation := λ p,
  match pf_organisations p !! og_id new_org with
  | Some _ => (cac_duplicate_key, p)
  | None => (Ok new_org, set_organisations p (<[og_id new_org := new_org]> (pf_organisations p)))
  end.

Definition update_organisation (org_id : string) (f : Organisation → Organisation)
    : Pf Organisation := λ p,
  match pf_organisations p !! org_id with
  | Some o => (Ok (f o), set_organisations p (<[org_id := f o]> (pf_organisations p)))
  | None => (cac_no_row, p)
  end.

Definition org_create_handler (req : OrgCreateRequest) (user : User) : Pf Organisation :=
  numeric_id ← new_numeric_id;
  now ← pf_clock;
  insert_organisation (new_organisation req ("orgid" +:+ pretty numeric_id) user now).

Definition org_update_handler (org_id : string) (req : OrgUpdateRequest) (user : User)
    : Pf Organisation :=
  now ← pf_clock;
  update_organisation org_id (apply_org_update req now user).

Definition org_get_handler (org_id : string) : Pf Organisation := find_organisation org_id.

(** Ordered also when every organisation is asked for. *)
Definition org_list_handler (filters : PaginationParams) : Pf (Paginated Organisation) := λ p,
  (Ok (sql_listing filters id (order_by og_created_at Desc (map_order (pf_organisations p)).*2)), p).

(** ** Workspaces *)

Definition WORKSPACE_NAME_REGEX : string := "^[a-zA-Z0-9]+$".

Definition validate_workspace_name `{RegexEngine} (workspace_name : string) : Result unit :=
  match regex_is_match WORKSPACE_NAME_REGEX workspace_name with
  | None => unexpected_error "Could not process the regex for validating workspace names"
  | Some matches =>
      if 25 <? String.length workspace_name then
        validation_error "the workspace name cannot be larger than 25 characters"
      else if negb matches then
        validation_error "the workspace name can only contain letters and numbers"
      else Ok tt
  end.

Definition schema_name (org_id workspace_name : string) : string :=
  org_id +:+ "_" +:+ workspace_name.

Definition fresh_schema : Schema := mkSchema fresh_workspace empty_world ∅.

(** The statements of the template on the tables there are: the reserved
    dimension, functions and types are inserted where they are missing. *)
Definition rerun_template (s : Schema) : Schema :=
  let w := sc_cac s in
  set_cac s (mkCacWorld (k_contexts w) (k_default_configs w)
    (k_dimensions w ∪ k_dimensions fresh_workspace) (k_versions w)
    (k_functions w ∪ k_functions fresh_workspace) (k_variables w)
    (k_type_templates w ∪ k_type_templates fresh_workspace) (k_ticks w) (k_ids w) (k_runs w)).

Definition setup_workspace_schema (workspace_schema_name : string) : Pf unit := λ p,
  (setup_outcome (pf_runs p),
   let s := match pf_schemas p !! workspace_schema_name with
            | Some s => rerun_template s
            | None => fresh_schema
            end in
   mkPlatform (pf_organisations p) (pf_workspaces p)
     (if is_ok (setup_outcome (pf_runs p)) then <[workspace_schema_name := s]> (pf_schemas p)
      else pf_schemas p) (pf_ticks p) (pf_ids p) (S (pf_runs p))).

Definition of_workspace (org_id workspace_name : string) (row : WorkspaceRow) : bool :=
  bool_decide (wk_organisation_id row = org_id) &&
  bool_decide (wk_workspace_name row = workspace_name).

(** The row with an organisation and a name, which are the primary key. *)
Definition find_workspace (org_id workspace_name : string) : Pf WorkspaceRow := λ p,
  (found (List.find (of_workspace org_id workspace_name) (map_order (pf_workspaces p)).*2), p).

(** Both keys are unique, and the organisation is there. *)
Definition insert_workspace (row : WorkspaceRow) : Pf WorkspaceRow := λ p,
  if bool_decide (is_Some (pf_workspaces p !! wk_workspace_schema_name row)) ||
     List.existsb (of_workspace (wk_organisation_id row) (wk_workspace_name row))
       (map_order (pf_workspaces p)).*2
  then (cac_duplicate_key, p)
  else (Ok row, set_workspaces p (<[wk_workspace_schema_name row := row]> (pf_workspaces p))).

Definition new_workspace (org_info : Organisation) (request : CreateWorkspaceRequest) (email : string)
    (timestamp : Z) : WorkspaceRow :=
  mkWorkspaceRow (og_id org_info) (og_name org_info) (cw_workspace_name request)
    (schema_name (og_id org_info) (cw_workspace_name request)) ENABLED
    (cw_workspace_admin_email request) None email email timestamp timestamp None
    (default (mkMetrics false None) (cw_metrics request)) (cw_allow_experiment_self_approval request)
    (cw_auto_populate_control request) (cw_enable_context_validation request)
    (cw_enable_change_reason_validation request).

Definition workspace_create_handler `{RegexEngine} (org_id : string) (request : CreateWorkspaceRequest)
    (user : User) : Pf WorkspaceRow :=
  org_info ← find_organisation org_id;
  timestamp ← pf_clock;
  _ ← lift (validate_workspace_name (cw_workspace_name request));
  let workspace := new_workspace org_info request (user_email user) timestamp in
  pf_transaction (
    inserted ← insert_workspace workspace;
    _ ← setup_workspace_schema (wk_workspace_schema_name workspace);
    mret inserted).

Definition apply_workspace_update (request : UpdateWorkspaceRequest) (user : User) (timestamp : Z)
    (w : WorkspaceRow) : WorkspaceRow :=
  mkWorkspaceRow (wk_organisation_id w) (wk_organisation_name w) (wk_workspace_name w)
    (wk_workspace_schema_name w) (default (wk_workspace_status w) (uw_workspace_status request))
    (uw_workspace_admin_email request)
    (match uw_config_version request with
     | Some u => I64Update.get_value u
     | None => wk_config_version w
     end) (wk_created_by w) (user_email user) timestamp (wk_created_at w)
    (keep_or (uw_mandatory_dimensions request) (wk_mandatory_dimensions w))
    (default (wk_metrics w) (uw_metrics request))
    (default (wk_allow_experiment_self_approval w) (uw_allow_experiment_self_approval request))
    (default (wk_auto_populate_control w) (uw_auto_populate_control request))
    (default (wk_enable_context_validation w) (uw_enable_context_validation request))
    (default (wk_enable_change_reason_validation w) (uw_enable_change_reason_validation request)).

(** The version pinned is one of those stored. *)
Definition check_pinned (name : string) (request : UpdateWorkspaceRequest) : Pf unit :=
  match uw_config_version request with
  | Some (Add version) =>
      on_schema name (on_cac (λ w, (_ ← found (k_versions w !! version); Ok tt, w)))
  | _ => mret tt
  end.

Definition put_workspace (name : string) (row : WorkspaceRow) : Pf WorkspaceRow := λ p,
  (Ok row, set_workspaces p (<[name := row]> (pf_workspaces p))).

(** The update of the row with the keys, which are not among the columns set. *)
Definition update_workspace (org_id workspace_name : string) (f : WorkspaceRow → WorkspaceRow)
    : Pf WorkspaceRow :=
  row ← find_workspace org_id workspace_name;
  put_workspace (wk_workspace_schema_name row) (f row).

Definition workspace_update_handler (org_id workspace_name : string)
    (request : UpdateWorkspaceRequest) (user : User) : Pf WorkspaceRow :=
  timestamp ← pf_clock;
  _ ← check_pinned (schema_name org_id workspace_name) request;
  pf_transaction (update_workspace org_id workspace_name
    (apply_workspace_update request user timestamp)).

Definition workspace_get_handler (org_id workspace_name : string) : Pf WorkspaceRow :=
  find_workspace org_id workspace_name.

Definition workspace_list_handler `{SqlLike} (pagination_filters : PaginationParams)
    (workspace_name : option string) (org_id : string) : Pf (Paginated WorkspaceRow) := λ p,
  let of_org := List.filter (λ row, bool_decide (wk_organisation_id row = org_id))
    (map_order (pf_workspaces p)).*2 in
  (Ok (if default false (pg_all pagination_filters) then list_all of_org
       else sql_page pagination_filters (order_by wk_created_at Desc
         (List.filter (λ row, when workspace_name (λ n, sql_contains n (wk_workspace_name row)))
            of_org))), p).

Definition migrate_schema_handler (org_id workspace_name : string) : Pf WorkspaceRow :=
  workspace ← find_workspace org_id workspace_name;
  _ ← pf_transaction (setup_workspace_schema (wk_workspace_schema_name workspace));
  mret workspace.
End organisations.
