(* ===== verification/Internal.v ===== *)
(** * Calls of the service to itself

    The experimentation handlers ask the configuration service over HTTP, which
    is the same process: [cac_api.rs], [helpers.rs] and [handlers.rs] of
    [crates/experimentation_platform/src/api/experiments]. An exchange builds
    the request with the headers the caller sets, takes it through the
    middlewares, runs the handler and turns its answer into what the caller
    sees. The network is a parameter: a request may not arrive, and its answer
    may not either. *)

From S2P Require Import Prelude Pages Stack Json Types Text Effects Logic LogicProps Config ExpModels Bucketing CacClient ExpChecks CacStore CacConfig Contexts Dimensions DefaultConfigs Functions CacServing QueryStrings CacQueries CacReduce CacService Store Tenants Http Webhooks.

(** ** Handlers behind the middlewares *)

Inductive Outcome (A : Type) : Type :=
  | Intercepted (reply : HttpReply)
  | Handled (r : Result A).
Arguments Intercepted {A} reply.
Arguments Handled {A} r.

Section pipeline.
Context `{AppState} `{UserText} `{Authenticator} `{Authorizer} `{RegexEngine}.

(** The middlewares of a scope, the authorisation of the action, the handler. *)
Definition serve_scope {A} (enable_org_id enable_workspace_id : bool) (resource : Resource)
    (action : string) (req : HttpRequest) (handler : Extensions → Pf A)
    : Platform → Outcome A * Platform := λ p,
  match authn_call req with
  | Err reply => (Intercepted reply, p)
  | Ok (user, internal) =>
      let '(r, p) := (ext ← org_workspace_call enable_org_id enable_workspace_id req
                        (authenticated user internal);
                      _ ← lift (authz_from_request resource action ext);
                      handler ext) p in
      (Handled r, p)
  end.

(** [WorkspaceContext::from_request]. *)
Definition workspace_handler {A} (handler : WorkspaceContext → User → Sc A) (ext : Extensions)
    : Pf A :=
  match ext_workspace ext with
  | Some context => on_schema (wx_schema_name context) (handler context (ext_user ext))
  | None =>
      fail (UnexpectedError
        "Please check that the organisation id and workspace id are being properly sent")
  end.

Definition serve_workspace {A} (resource : Resource) (action : string) (req : HttpRequest)
    (handler : WorkspaceContext → User → Sc A) : Platform → Outcome A * Platform :=
  serve_scope true true resource action req (workspace_handler handler).
End pipeline.

(** ** Exchanges *)

Inductive Delivery : Type := Delivered | Undelivered (err : string) | AnswerLost (err : string).

(** The call itself, or that for the variables of a webhook. *)
Inductive Hop : Type := Main | Variables.

(** What becomes of a call, given the calls before it, and what following a
    redirect to the page of a provider comes to: a page that is not JSON. *)
Class Network := {
  delivery : list Event → Event → Hop → Delivery;
  follow_redirect : HttpReply → result string Z;
  url_query : string → string;
  default_config_json : DefaultConfig → Value;
}.

(** The error body is [{"message": ..}]. *)
Definition error_json (message : string) : Value := VObject {[ "message" := VString message ]}.

Definition http_outcome `{Network} {T} (o : Outcome (T * option string)) : HttpOutcome T :=
  match o with
  | Handled (Ok (value, version)) => Responded 200 version (Parsed value)
  | Handled (Err e) =>
      let '(status, message) := AppError.error_response e in
      Responded status None (ErrorMessage message)
  | Intercepted (ErrorReply status _) => Responded status None Unparsable
  | Intercepted reply =>
      match follow_redirect reply with
      | Ok status => Responded status None Unparsable
      | Err err => SendFailed err
      end
  end.

Definition deliver {T} (d : Delivery) (m : Platform → HttpOutcome T * Platform)
    : Platform → HttpOutcome T * Platform := λ p,
  match d with
  | Delivered => m p
  | Undelivered err => (SendFailed err, p)
  | AnswerLost err => (SendFailed err, (m p).2)
  end.

Section internal.
Context `{AppState} `{UserText} `{Authenticator} `{Authorizer} `{RegexEngine}.
Context `{Network} `{UrlEncoded} `{RegexCaptures}.
Context `{CacEnv} `{JsonParse} `{MapOrder} `{RowOrder} `{JsonLogic} `{FloatText} `{Blake3}.
Context `{ConfigText} `{JsonText} `{JsonSchema} `{JsonLogicVariables} `{DebugText}.
Context `{VarRegex} `{HeaderSyntax} `{HookEnv} `{Collation}.

(** Whom a call names: the workspace, and as the caller chooses the token of the
    service and the user. *)
Inductive Credentials : Type := NoToken | TokenOnly | TokenAndUser (user : User).

Definition internal_headers (workspace_id organisation_id : string) (credentials : Credentials)
    : gmap string string :=
  let headers := {[ "x-tenant" := workspace_id; "x-org-id" := organisation_id ]} in
  match credentials with
  | NoToken => headers
  | TokenOnly => <["authorization" := "Internal " +:+ superposition_token]> headers
  | TokenAndUser user =>
      <["x-user" := user_to_str user]>
        (<["authorization" := "Internal " +:+ superposition_token]> headers)
  end.

Definition internal_request (context : WorkspaceContext) (credentials : Credentials)
    (path pattern query : string) : HttpRequest :=
  mkHttpRequest (base_path +:+ path) (Some (base_path +:+ pattern)) query
    (internal_headers (wx_workspace_id context) (wx_organisation_id context) credentials) ∅.

(** A call to a handler of the configuration service, whose answer may name the
    version it stored. *)
Definition cac_call {T} (req : HttpRequest) (resource : Resource) (action : string)
    (handler : Settings → User → C (T * option string)) : Platform → HttpOutcome T * Platform :=
  λ p,
  let '(o, p) := serve_workspace resource action req
    (λ context user, on_cac (handler (settings_of (wx_settings context)) user)) p in
  (http_outcome o, p).

Definition no_version {T} (m : C T) : C (T * option string) := a ← m; mret (a, None).

Definition settled {T} (m : C (Served T)) : C (T * option string) :=
  served ← m;
  match served with
  | Fresh response => mret (rp_body response, pretty <$> rp_config_version response)
  | Unmodified => fail (ResponseError "" 304)
  end.

Definition get_request (dimension_params : Map) : ServeRequest :=
  mkServeRequest GET None None dimension_params.

Definition or_bad_argument {A} (r : result string A) : Result A := map_err BadArgument r.

(** *** The calls of [cac_api.rs] *)

Definition resolve_query_text (dimension_query : Map) (context_id : option string) : string :=
  ResolveConfigQuery.to_query_param
    (mkResolveConfigQuery (Some "latest") None (Some true) context_id None) +:+ "&" +:+
  DimensionQuery.to_query_param dimension_query.

Definition exchange_resolve (context : WorkspaceContext) (user : User) (dimensions : Map)
    (context_id : option string) : Platform → HttpOutcome Map * Platform :=
  let query := url_query (resolve_query_text dimensions context_id) in
  cac_call (internal_request context (TokenAndUser user) "/config/resolve" "/config/resolve" query)
    RConfig "resolve" (λ settings _,
      dimension_params ← lift (or_bad_argument (dimension_params query));
      query_filters ← lift (or_bad_argument (resolve_query query));
      settled (config_resolve_handler settings (get_request dimension_params) MERGE query_filters)).

Definition exchange_get_context (context : WorkspaceContext) (user : User) (context_id : string)
    : Platform → HttpOutcome DbContext * Platform :=
  cac_call (internal_request context (TokenAndUser user) ("/context/" +:+ context_id)
      "/context/{ctx_id}" "")
    RContext "get" (λ _ _, no_version (ctx_get_handler context_id)).

Definition exchange_validate (context : WorkspaceContext) (user : User) (condition : Condition)
    : Platform → HttpOutcome unit * Platform :=
  cac_call (internal_request context (TokenAndUser user) "/context/validate" "/context/validate" "")
    RContext "validate" (λ settings _,
      _ ← lift (all_ok [check_condition condition]);
      no_version (ctx_validate_handler settings condition)).

(** *** The other calls *)

Definition exchange_bulk (context : WorkspaceContext) (user : User) (operations : list ContextAction)
    (config_tags : option string) : Platform → HttpOutcome (list ContextBulkResponse) * Platform :=
  cac_call (internal_request context (TokenAndUser user) "/context/bulk-operations"
      "/context/bulk-operations" "")
    RContext "bulk_operations" (λ settings user,
      _ ← lift (all_ok (body_checks (BulkOperations operations)));
      '(response, version_id) ← bulk_operations_handler settings config_tags operations user;
      mret (response, Some (pretty version_id))).

Definition value_update (value : Value) (change_reason : string) : DefaultConfigUpdateRequest :=
  mkDefaultConfigUpdate (Some value) None None None None change_reason.

(** The body of any answer is JSON, also that of an error. *)
Definition exchange_default_config (context : WorkspaceContext) (user : User) (key : string)
    (value : Value) (change_reason : string) : Platform → HttpOutcome DefaultConfig * Platform :=
  let req := value_update value change_reason in
  cac_call (internal_request context (TokenAndUser user) ("/default-config/" +:+ key)
      "/default-config/{key}" "")
    RDefaultConfig "update" (λ settings user,
      _ ← lift (all_ok (body_checks (UpdateDefaultConfig key req)));
      '(val, version_id) ← default_update_handler settings key None req user;
      mret (val, Some (pretty version_id))).

Definition any_json (o : HttpOutcome DefaultConfig) : result string Value :=
  match o with
  | Responded _ _ (Parsed val) => Ok (default_config_json val)
  | Responded _ _ (ErrorMessage message) => Ok (error_json message)
  | Responded _ _ Unparsable => Err "error decoding response body"
  | SendFailed err => Err err
  end.

Definition config_query_text : string :=
  ConfigQuery.to_query_param (mkConfigQuery (Some "latest") None).

(** [fetch_cac_config] does not name the user. *)
Definition exchange_config (context : WorkspaceContext) : Platform → HttpOutcome Config * Platform :=
  let query := url_query config_query_text in
  cac_call (internal_request context TokenOnly "/config" "/config" query)
    RConfig "get" (λ settings _,
      dimension_params ← lift (or_bad_argument (dimension_params query));
      query_filters ← lift (or_bad_argument (config_query query));
      settled (config_get_handler settings (get_request dimension_params) query_filters)).

(** [fetch_and_validate_change_reason_with_function] names neither. *)
Definition exchange_change_reason (context : WorkspaceContext) (change_reason : string)
    : Platform → HttpOutcome unit * Platform :=
  cac_call (internal_request context NoToken
      ("/function/" +:+ CHANGE_REASON_VALIDATION_FN_NAME +:+ "/published/test")
      "/function/{function_name}/{stage}/test" "")
    RFunction "test" (λ _ _,
      _ ← function_test_handler CHANGE_REASON_VALIDATION_FN_NAME Published
        (ChangeReasonValidationFunctionRequest change_reason);
      mret (tt, None)).

(** *** Webhooks *)

(** [Webhook::default()], which is disabled. *)
Definition default_webhook : Webhook :=
  mkWebhook "" "Description not provided" false "String not provided" HPost PayloadV1 ∅ [] 0 None
    "Change Reason not provided" "" 0 "" 0.

Definition exchange_webhook_by_event (context : WorkspaceContext) (user : User) (event : WebhookEvent)
    : Platform → HttpOutcome Webhook * Platform := λ p,
  let '(o, p) := serve_workspace RWebhook "get_by_event"
    (internal_request context (TokenAndUser user) ("/webhook/event/" +:+ event_to_string event)
      "/webhook/event/{event}" "")
    (λ _ _, w ← get_by_event_handler event; mret (w, None)) p in
  (http_outcome o, p).

Definition webhook_of (response : HttpOutcome Webhook) : result unit Webhook :=
  match response with
  | Responded status _ body =>
      if bool_decide (status = 404%Z) then Ok default_webhook
      else match body with Parsed webhook => Ok webhook | _ => Err tt end
  | SendFailed _ => Err tt
  end.

(** [request::<(), PaginatedResponse<Variable>>], without the user. *)
Definition exchange_variables (context : WorkspaceContext)
    : Platform → HttpOutcome (Paginated Variable_) * Platform :=
  cac_call (internal_request context TokenOnly "/variables" "/variables" "") RVariable "list"
    (λ _ _, no_version variables_page).

Definition parsed {T} (response : HttpOutcome T) : option T :=
  match response with Responded _ _ (Parsed value) => Some value | _ => None end.

Definition exchange_webhook (context : WorkspaceContext) (user : User) (trace : list Event)
    (event : WebhookEvent) (response : ExperimentResponse) (config_version_id : option string)
    : Platform → result unit bool * Platform := λ p,
  let e := CallWebhook event response config_version_id in
  let '(fetched, p) := deliver (delivery trace e Main) (exchange_webhook_by_event context user event) p in
  match webhook_of fetched with
  | Err _ => (Err tt, p)
  | Ok webhook =>
      let fetch : Pf (option (Paginated Variable_)) := λ p,
        let '(o, p) := deliver (delivery trace e Variables) (exchange_variables context) p in
        (Ok (parsed o), p) in
      let '(r, p) := execute_webhook_call fetch webhook config_version_id
        (wx_workspace_id context) event p in
      (Ok (match r with Ok told => told | Err _ => false end), p)
  end.

(** ** All calls *)

Definition exchange (context : WorkspaceContext) (user : User) (trace : list Event) (e : Event)
    : Platform → reply e * Platform :=
  match e return Platform → reply e * Platform with
  | CallChangeReason change_reason =>
      deliver (delivery trace (CallChangeReason change_reason) Main)
        (exchange_change_reason context change_reason)
  | CallGetContext context_id =>
      deliver (delivery trace (CallGetContext context_id) Main)
        (exchange_get_context context user context_id)
  | CallResolve dimensions context_id =>
      deliver (delivery trace (CallResolve dimensions context_id) Main)
        (exchange_resolve context user dimensions context_id)
  | CallValidateContext condition =>
      deliver (delivery trace (CallValidateContext condition) Main)
        (exchange_validate context user condition)
  | CallBulkOperations operations config_tags =>
      deliver (delivery trace (CallBulkOperations operations config_tags) Main)
        (exchange_bulk context user operations config_tags)
  | CallUpdateDefaultConfig key value change_reason => λ p,
      let '(o, p) := deliver (delivery trace (CallUpdateDefaultConfig key value change_reason) Main)
        (exchange_default_config context user key value change_reason) p in
      (any_json o, p)
  | CallConfig => deliver (delivery trace CallConfig Main) (exchange_config context)
  | CallWebhook event response config_version_id =>
      exchange_webhook context user trace event response config_version_id
  end.
End internal.
