(* ===== verification/Platform.v ===== *)
(** * The resolution endpoint of the server

    [resolve_with_exp_handler] of
    [crates/superposition/src/resolve/handlers.rs]: a request is resolved in the
    configuration of a version; when it names who it is for and no version is
    asked for or pinned, with the variants of the experiments it takes part in. *)

From S2P Require Import Prelude Pages Stack Json Types Text Effects Logic LogicProps Config Resolve ExpModels Bucketing CacClient ExpChecks CacStore CacConfig Contexts Dimensions Functions CacServing QueryStrings CacQueries CacReduce CacService Store Groups Experiments Queries Service Tenants Http Webhooks Organisations Internal.

Section resolve_service.
Context `{CacEnv} `{JsonParse} `{MapOrder} `{RowOrder} `{JsonLogic} `{TimeText}.

Definition get_applicable_variants (config : Config) (query_data : Map) (identifier : string)
    : Sc (list string) :=
  '(applicable_variants, _) ← on_exp (get_applicable_variants_helper
    (cohort_fuel (dimensions config)) query_data config identifier);
  mret applicable_variants.

Definition resolve_with_exp_handler (settings : Settings) (req : ServeRequest)
    (merge_strategy : MergeStrategy) (query_filters : ResolveConfigQuery) (identifier : option string)
    : Sc (Served Map) :=
  max_created_at ← on_cac (attempt get_max_created_at);
  if bool_decide (identifier = None) && is_not_modified max_created_at req then mret Unmodified
  else
    '(is_smithy, query_data) ← lift (setup_query_data req);
    config_ver ← lift (get_config_version (rv_version query_filters) settings);
    '(config_version, config) ← on_cac (generate_config_from_version config_ver);
    query_data ← (match config_ver, identifier with
                  | None, Some identifier =>
                      applicable_variants ← get_applicable_variants config query_data identifier;
                      mret (<["variantIds" := strings applicable_variants]> query_data)
                  | _, _ => mret query_data
                  end);
    resolved_config ← on_cac (resolve config query_data merge_strategy query_filters);
    mret (Fresh (mkServeResponse (add_last_modified max_created_at is_smithy) config_version
            resolved_config)).
End resolve_service.

(** * The server

    Both services, the webhooks, organisations and workspaces behind the routes
    of [crates/superposition/src/main.rs]: a request passes the middlewares of
    its scope and reaches the tables of one workspace. The calls that an
    experimentation handler makes are exchanges with the tables as the calls
    before left them. Requests are served one after the other, to completion. *)

(** The clock and the ids of the experimentation service. *)
Class ExpClock := {
  exp_now : nat → Z;
  exp_snowflake : nat → Result Z;
}.

(** ** Requests *)

Inductive OrganisationRequest : Type :=
  | CreateOrganisation (req : OrgCreateRequest)
  | UpdateOrganisation (org_id : string) (req : OrgUpdateRequest).

Inductive WorkspaceRequest : Type :=
  | CreateWorkspace (req : CreateWorkspaceRequest)
  | UpdateWorkspace (workspace_name : string) (req : UpdateWorkspaceRequest)
  | MigrateWorkspace (workspace_name : string).

(** The requests that write, by the scope they are routed to. *)
Inductive Operation : Type :=
  | Configure (config_tags : option string) (r : CacRequest)
  | Experiment_ (r : Request)
  | Hook (r : WebhookRequest)
  | Organise (r : OrganisationRequest)
  | Provision (r : WorkspaceRequest).

Record Call : Type := mkCall {
  cl_request : HttpRequest;
  cl_operation : Operation;
}.

(** ** The resource and the action of a handler *)

Definition cac_target (r : CacRequest) : Resource * string :=
  match r with
  | PutContext _ => (RContext, "create")
  | UpdateContext _ => (RContext, "update")
  | MoveContext _ _ => (RContext, "move")
  | DeleteContext _ => (RContext, "delete")
  | BulkOperations _ => (RContext, "bulk_operations")
  | RecomputeWeights => (RContext, "weight_recompute")
  | ReduceConfig _ => (RConfig, "reduce")
  | CreateDimension _ => (RDimension, "create")
  | UpdateDimension _ _ => (RDimension, "update")
  | DeleteDimension _ => (RDimension, "delete")
  | CreateDefaultConfig _ => (RDefaultConfig, "create")
  | UpdateDefaultConfig _ _ => (RDefaultConfig, "update")
  | DeleteDefaultConfig _ => (RDefaultConfig, "delete")
  | CreateFunction _ => (RFunction, "create")
  | UpdateFunction _ _ => (RFunction, "update")
  | DeleteFunction _ => (RFunction, "delete")
  | TestFunction _ _ _ => (RFunction, "test")
  | PublishFunction _ _ => (RFunction, "publish")
  | CreateVariable _ => (RVariable, "create")
  | UpdateVariable _ _ => (RVariable, "update")
  | DeleteVariable _ => (RVariable, "delete")
  | CreateTypeTemplate _ => (RTypeTemplate, "create")
  | UpdateTypeTemplate _ _ => (RTypeTemplate, "update")
  | DeleteTypeTemplate _ => (RTypeTemplate, "delete")
  end.

Definition exp_target (r : Request) : Resource * string :=
  match r with
  | CreateExperiment _ _ => (RExperiment, "create")
  | RampExperiment _ _ => (RExperiment, "ramp")
  | UpdateOverrides _ _ _ => (RExperiment, "update")
  | PauseExperiment _ _ => (RExperiment, "pause")
  | ResumeExperiment _ _ => (RExperiment, "resume")
  | ConcludeExperiment _ _ _ => (RExperiment, "conclude")
  | DiscardExperiment _ _ _ => (RExperiment, "discard")
  | CreateGroup _ => (RExperimentGroup, "create")
  | UpdateGroup _ _ => (RExperimentGroup, "update")
  | AddMembers _ _ => (RExperimentGroup, "add_members")
  | RemoveMembers _ _ => (RExperimentGroup, "remove_members")
  | DeleteGroup _ => (RExperimentGroup, "delete")
  | BackfillGroups => (RExperimentGroup, "backfill")
  end.

Definition hook_target (r : WebhookRequest) : string :=
  match r with
  | CreateWebhook _ => "create"
  | UpdateWebhook _ _ => "update"
  | DeleteWebhook _ => "delete"
  end.

Definition organisation_target (r : OrganisationRequest) : string :=
  match r with CreateOrganisation _ => "create" | UpdateOrganisation _ _ => "update" end.

Definition workspace_target (r : WorkspaceRequest) : string :=
  match r with
  | CreateWorkspace _ => "create"
  | UpdateWorkspace _ _ => "update"
  | MigrateWorkspace _ => "migrate_schema"
  end.

Section platform.
Context `{AppState} `{UserText} `{Authenticator} `{Authorizer} `{RegexEngine}.
Context `{Network} `{UrlEncoded} `{RegexCaptures} `{ExpClock} `{PlatformEnv}.
Context `{CacEnv} `{JsonParse} `{MapOrder} `{RowOrder} `{JsonLogic} `{FloatText} `{Blake3}.
Context `{ConfigText} `{JsonText} `{JsonSchema} `{JsonLogicVariables} `{DebugText}.
Context `{VarRegex} `{HeaderSyntax} `{HookEnv} `{Collation} `{SetOrder} `{KeyOrder} `{TimeText}.

(** ** Experimentation handlers *)

(** The platform after calls, the latest first, made from [p]. *)
Fixpoint replay (context : WorkspaceContext) (user : User) (p : Platform) (trace : list Event)
    : Platform :=
  match trace with
  | [] => p
  | e :: trace => (exchange context user trace e (replay context user p trace)).2
  end.

(** The calls of a trace since it had [past] of them. *)
Definition since (past : nat) (trace : list Event) : list Event := take (length trace - past) trace.

(** What the outside answers a handler that runs from [p]. *)
Definition linked_env (context : WorkspaceContext) (user : User) (p : Platform) (past : nat) : Env := {|
  env_reply trace e :=
    (exchange context user (since past trace) e (replay context user p (since past trace))).1;
  env_now := exp_now;
  env_snowflake := exp_snowflake;
|}.

Definition put_exp (schema_name : string) (w : World) (p : Platform) : Platform :=
  set_schemas p (alter (λ s, set_exp s w) schema_name (pf_schemas p)).

Definition run_linked {A} (context : WorkspaceContext) (user : User) (m : Env → M A) : Pf A := λ p,
  match pf_schemas p !! wx_schema_name context with
  | None => (undefined_relation, p)
  | Some s =>
      let past := length (w_trace (sc_exp s)) in
      let '(r, w) := m (linked_env context user p past) (sc_exp s) in
      (r, put_exp (wx_schema_name context) w (replay context user p (since past (w_trace w))))
  end.

Definition experiment_handler (flags : ExperimentationFlags) (r : Request) (ext : Extensions) : Pf unit :=
  match ext_workspace ext with
  | Some context =>
      _ ← run_linked context (ext_user ext) (λ env,
        @serve env _ _ _ _ _ _ _ (workspace_of flags (wx_settings context))
          (user_email (ext_user ext)) r);
      mret tt
  | None =>
      fail (UnexpectedError
        "Please check that the organisation id and workspace id are being properly sent")
  end.

(** ** Organisations and workspaces *)

Definition organisation_handler (r : OrganisationRequest) (ext : Extensions) : Pf unit :=
  match r with
  | CreateOrganisation req =>
      _ ← lift (all_valid [NonEmptyString.try_from (oc_name req)]);
      _ ← org_create_handler req (ext_user ext); mret tt
  | UpdateOrganisation org_id req => _ ← org_update_handler org_id req (ext_user ext); mret tt
  end.

(** [OrganisationId::from_request]. *)
Definition organisation_of (ext : Extensions) : Result string :=
  ok_or (ext_organisation ext) (UnexpectedError "Organisation Id not found").

Definition provision_handler (r : WorkspaceRequest) (ext : Extensions) : Pf unit :=
  org_id ← lift (organisation_of ext);
  match r with
  | CreateWorkspace req => _ ← workspace_create_handler org_id req (ext_user ext); mret tt
  | UpdateWorkspace workspace_name req =>
      _ ← workspace_update_handler org_id workspace_name req (ext_user ext); mret tt
  | MigrateWorkspace workspace_name => _ ← migrate_schema_handler org_id workspace_name; mret tt
  end.

(** ** Routes *)

Definition serve_call (flags : ExperimentationFlags) (c : Call) : Platform → Outcome unit * Platform :=
  let req := cl_request c in
  match cl_operation c with
  | Configure config_tags r =>
      let '(resource, action) := cac_target r in
      serve_workspace resource action req (λ context user,
        on_cac (cac_serve (mkCacCall (settings_of (wx_settings context)) config_tags user r)))
  | Experiment_ r =>
      let '(resource, action) := exp_target r in
      serve_scope true true resource action req (experiment_handler flags r)
  | Hook r =>
      serve_workspace RWebhook (hook_target r) req (λ context user,
        webhook_route (settings_of (wx_settings context)) user r)
  | Organise r =>
      serve_scope false false ROrganisation (organisation_target r) req (organisation_handler r)
  | Provision r => serve_scope true false RWorkspace (workspace_target r) req (provision_handler r)
  end.

Fixpoint serve_calls (flags : ExperimentationFlags) (cs : list Call) (p : Platform) : Platform :=
  match cs with
  | [] => p
  | c :: cs => serve_calls flags cs (serve_call flags c p).2
  end.

(** [GET] and [POST] of [/resolve]. *)
Definition serve_resolve (req : HttpRequest) (method : Method) (if_modified_since : option Z)
    (body : option Map) (merge_strategy : option string)
    : Platform → Outcome (Served Map) * Platform :=
  serve_workspace RConfig "resolve_with_exp" req (λ context _,
    dimension_params ← lift (or_bad_argument (dimension_params (hr_query req)));
    query_filters ← lift (or_bad_argument (resolve_query (hr_query req)));
    identifier ← lift (or_bad_argument (identifier_query (hr_query req)));
    resolve_with_exp_handler (settings_of (wx_settings context))
      (mkServeRequest method if_modified_since body dimension_params)
      (merge_strategy_of merge_strategy) query_filters identifier).
End platform.

(** A database with the tables of the platform and nothing in them. *)
Definition empty_platform : Platform := mkPlatform ∅ ∅ ∅ 0 0 0.
