(* ===== verification/Reallocation.v ===== *)
(** * What a reallocation changes

    A reallocation of an experiment's buckets, seen from outside: the buckets
    of the other experiments stay, the experiment's variants hold the number
    asked for, and every new bucket names the experiment and one of its
    variants. *)

From S2P Require Import Prelude Types Text Effects ExpModels BucketAlloc.

(** The bucket belongs to the experiment. *)
Definition owned (e : Experiment) (b : Bucket) : Prop :=
  b_variant_id b ∈ variant_ids e ∧ b_experiment_id b = pretty (e_id e).

Record rebucketed (e : Experiment) (c : nat) (bs bs' : Buckets) : Prop := {
  rb_length : length bs' = length bs;
  rb_balanced : balanced e c bs';
  rb_kept i b : bs !! i = Some (Some b) → b_variant_id b ∉ variant_ids e → bs' !! i = Some (Some b);
  rb_new i b : bs' !! i = Some (Some b) → bs !! i = Some (Some b) ∨ owned e b;
}.

(** ** New buckets *)

Definition own_step (e : Experiment) (bs bs' : Buckets) : Prop :=
  ∀ i b, bs' !! i = Some (Some b) → bs !! i = Some (Some b) ∨ owned e b.

Lemma own_step_refl e bs : own_step e bs bs.
Proof. intros i b Hb. by left. Qed.

Lemma own_step_trans e bs bs' bs'' : own_step e bs bs' → own_step e bs' bs'' → own_step e bs bs''.
Proof. intros H1 H2 i b [Hb|?]%H2; [by apply H1|by right]. Qed.

Lemma own_step_insert e i ob bs :
  (∀ b, ob = Some b → owned e b) → own_step e bs (<[i := ob]> bs).
Proof.
  intros Hob j b Hj. destruct (decide (i = j)) as [->|Hne].
  - destruct (decide (j < length bs)).
    + rewrite list_lookup_insert_eq in Hj by done. right. apply Hob. congruence.
    + rewrite list_insert_ge in Hj by lia. by left.
  - rewrite list_lookup_insert_ne in Hj by done. by left.
Qed.

Lemma own_step_iter {S} e (π : S → Buckets) (f : S → S) k s :
  (∀ s, own_step e (π s) (π (f s))) → own_step e (π s) (π (Nat.iter k f s)).
Proof.
  intros Hf. induction k as [|k IH]; [apply own_step_refl|].
  simpl. eapply own_step_trans; [apply IH|apply Hf].
Qed.

Lemma own_step_foldl {S V} e (π : S → Buckets) (f : S → V → S) l s :
  (∀ s v, v ∈ l → own_step e (π s) (π (f s v))) → own_step e (π s) (π (foldl f s l)).
Proof.
  revert s. induction l as [|v l IH]; intros s Hf; [apply own_step_refl|].
  simpl. eapply own_step_trans; [|apply IH; intros; apply Hf; set_solver]. apply Hf. set_solver.
Qed.

Lemma assign_one_own e v st : v ∈ e_variants e → own_step e st.2 (assign_one e v st).2.
Proof.
  destruct st as [us bs]. intros Hv. unfold assign_one.
  destruct (vec_pop us) as [[i|] rest]; simpl; [|apply own_step_refl].
  apply own_step_insert. intros b [= <-]. split; [apply list_elem_of_fmap; eauto|done].
Qed.

Lemma unassign_one_own e cur v bs : own_step e bs (unassign_one cur v bs).
Proof.
  unfold unassign_one. case_match; [|apply own_step_refl]. by apply own_step_insert.
Qed.

Lemma update_own e bs t bs' :
  update_bucket_allocation e bs t = Ok bs' → own_step e bs bs'.
Proof.
  unfold update_bucket_allocation. destruct (Nat.compare _ _).
  - intros [= <-]. apply own_step_refl.
  - intros [= <-]. unfold unassign_excess_buckets.
    apply (own_step_foldl e id). intros s v _. apply (own_step_iter e id).
    intros. apply unassign_one_own.
  - unfold assign_additional_buckets. case_match; [done|]. intros [= <-].
    change bs with (reverse (indices_of is_unassigned bs), bs).2 at 1.
    apply (own_step_foldl e snd). intros s v Hv. apply (own_step_iter e snd).
    intros. by apply assign_one_own.
Qed.

Lemma update_rebucketed e bs c t bs' :
  NoDup (variant_ids e) → e_variants e ≠ [] → balanced e c bs → (0 ≤ t)%Z →
  update_bucket_allocation e bs t = Ok bs' → rebucketed e (Z.to_nat t) bs bs'.
Proof.
  intros Hnd Hne Hbal Ht Hup.
  destruct (update_bucket_allocation_balanced e bs c t Hnd Hne Hbal Ht) as [Hok Herr].
  destruct (decide (length (e_variants e) * Z.to_nat t ≤
                    length (e_variants e) * c + countb is_unassigned bs)) as [Hle|Hgt].
  - destruct (Hok Hle) as (bs2 & Heq & [Hlen Hkeep] & Hbal'). rewrite Hup in Heq.
    simplify_eq. split; [done..|]. by eapply update_own.
  - destruct Herr as [msg Hmsg]; [lia|]. congruence.
Qed.

(** A successful allocation fits in the array. *)
Lemma balanced_le e c bs :
  NoDup (variant_ids e) → balanced e c bs → length (e_variants e) * c ≤ length bs.
Proof.
  intros Hnd Hbal. pose proof (countb_le (is_current e) bs) as Hle.
  rewrite current_count, (sum_list_with_const _ _ c) in Hle by done.
  unfold variant_ids in Hle. rewrite length_fmap in Hle. done.
Qed.

(** Only the identifiers of the experiment and of its variants matter. *)
Lemma update_bucket_allocation_ext e e' bs t :
  e_id e = e_id e' → e_variants e = e_variants e' →
  update_bucket_allocation e bs t = update_bucket_allocation e' bs t.
Proof.
  intros Hid Hvs.
  assert (∀ v st, assign_one e v st = assign_one e' v st) as Hone.
  { intros v [us bs']. unfold assign_one. by rewrite Hid. }
  assert (∀ us bs k, assign_additional_buckets us bs e k = assign_additional_buckets us bs e' k)
    as Hassign.
  { intros us bs' k. unfold assign_additional_buckets. rewrite Hvs. case_match; [done|].
    do 2 f_equal. generalize (reverse us, bs'). generalize (e_variants e') at 2 4 as vs.
    induction vs as [|v vs IH]; intros st; [done|]. simpl.
    assert (∀ n, Nat.iter n (assign_one e v) st = Nat.iter n (assign_one e' v) st) as ->; [|apply IH].
    intros n. induction n as [|n IHn]; [done|]. simpl. by rewrite IHn, Hone. }
  unfold update_bucket_allocation, unassign_excess_buckets.
  assert (∀ b, is_current e b = is_current e' b) as Hcur by (intros; unfold is_current; by rewrite Hvs).
  assert (indices_of (is_current e) bs = indices_of (is_current e') bs) as ->.
  { unfold indices_of. generalize 0. induction bs as [|b bs IH]; intros k; [done|].
    simpl. by rewrite Hcur, IH. }
  rewrite Hvs. case_match; [done|done|apply Hassign].
Qed.

(** ** Releasing *)

(** The buckets of the given variants emptied. *)
Definition clear (ids : gset string) (bs : Buckets) : Buckets :=
  (λ ob, match ob with
         | Some b => if bool_decide (b_variant_id b ∈ ids) then None else Some b
         | None => None
         end) <$> bs.

Lemma length_clear ids bs : length (clear ids bs) = length bs.
Proof. apply length_fmap. Qed.

Lemma clear_lookup ids bs i b :
  clear ids bs !! i = Some (Some b) ↔ bs !! i = Some (Some b) ∧ b_variant_id b ∉ ids.
Proof.
  unfold clear. rewrite list_lookup_fmap. destruct (bs !! i) as [[c|]|]; simpl; [|naive_solver..].
  case_bool_decide; naive_solver.
Qed.

Lemma clear_clear ids ids' bs : clear ids (clear ids' bs) = clear (ids ∪ ids') bs.
Proof.
  unfold clear. rewrite <-list_fmap_compose. apply list_fmap_ext. intros _ [b|] _; simpl; [|done].
  destruct (decide (b_variant_id b ∈ ids')).
  - by rewrite !bool_decide_true by set_solver.
  - rewrite (bool_decide_false (_ ∈ ids')) by done. simpl.
    rewrite (bool_decide_ext (b_variant_id b ∈ ids) (b_variant_id b ∈ ids ∪ ids')); [done|].
    set_solver.
Qed.

Lemma clear_empty bs : clear ∅ bs = bs.
Proof.
  unfold clear. rewrite <-(list_fmap_id bs) at 2. apply list_fmap_ext. intros _ [b|] _; [|done].
  by rewrite bool_decide_false by set_solver.
Qed.

(** Two bucket arrays of one length agree when their held buckets do. *)
Lemma buckets_eq (bs bs' : Buckets) :
  length bs = length bs' →
  (∀ i b, bs !! i = Some (Some b) ↔ bs' !! i = Some (Some b)) → bs = bs'.
Proof.
  intros Hlen Hb. apply list_eq. intros i.
  destruct (bs !! i) as [[b|]|] eqn:E, (bs' !! i) as [[b'|]|] eqn:E'; try done.
  - apply Hb in E. congruence.
  - apply Hb in E. congruence.
  - apply Hb in E. congruence.
  - apply Hb in E'. congruence.
  - apply lookup_lt_Some in E. apply lookup_ge_None in E'. lia.
  - apply Hb in E'. congruence.
  - apply lookup_lt_Some in E'. apply lookup_ge_None in E. lia.
Qed.

Lemma held_0 w bs : held w bs = 0 ↔ ∀ i b, bs !! i = Some (Some b) → b_variant_id b ≠ w.
Proof.
  split.
  - intros H0 i b Hi Hb. assert (Some b ∈ List.filter (held_by w) bs) as Hin.
    { apply elem_of_filterb. split; [by eapply list_elem_of_lookup_2|]. apply held_by_iff. eauto. }
    unfold held, countb in H0. destruct (List.filter _ bs); [by apply elem_of_nil in Hin|done].
  - intros H. destruct (held w bs) eqn:E; [done|]. exfalso.
    destruct (held_pos w bs) as (i & ob & Hi & (b & -> & Hb)%held_by_iff); [lia|]. by eapply H.
Qed.

(** Releasing an experiment empties exactly its buckets. *)
Lemma release_is_clear e c bs bs' :
  NoDup (variant_ids e) → e_variants e ≠ [] → balanced e c bs →
  update_bucket_allocation e bs 0 = Ok bs' → bs' = clear (list_to_set (variant_ids e)) bs.
Proof.
  intros Hnd Hne Hbal Hup. pose proof (update_rebucketed _ _ _ _ _ Hnd Hne Hbal (Z.le_refl 0) Hup) as R.
  apply buckets_eq; [by rewrite length_clear, (rb_length _ _ _ _ R)|].
  intros i b. rewrite clear_lookup, elem_of_list_to_set. split.
  - intros Hi. assert (b_variant_id b ∉ variant_ids e) as Hn.
    { intros Hin. pose proof (rb_balanced _ _ _ _ R _ Hin) as H0. simpl in H0.
      rewrite held_0 in H0. by eapply H0. }
    destruct (rb_new _ _ _ _ R i b Hi) as [?|[? _]]; [done|done].
  - intros [Hi Hn]. by apply (rb_kept _ _ _ _ R).
Qed.

Lemma clear_rebucketed e bs : rebucketed e 0 bs (clear (list_to_set (variant_ids e)) bs).
Proof.
  split.
  - apply length_clear.
  - intros w Hw. apply held_0. intros i b [_ Hn]%clear_lookup <-. set_solver.
  - intros i b Hi Hn. apply clear_lookup. set_solver.
  - intros i b [Hi _]%clear_lookup. by left.
Qed.

(** Others hold what they held. *)
Lemma countb_lookup {A} (p : A → bool) (l l' : list A) :
  length l = length l' →
  (∀ i x y, l !! i = Some x → l' !! i = Some y → p x = p y) → countb p l = countb p l'.
Proof.
  revert l'. induction l as [|x l IH]; intros [|y l'] Hlen Hp; simplify_eq/=; [done|].
  rewrite !countb_cons, (IH l') by (try done; intros i; apply (Hp (S i))).
  by rewrite (Hp 0 x y).
Qed.

Lemma rebucketed_other e c bs bs' w :
  rebucketed e c bs bs' → w ∉ variant_ids e → held w bs' = held w bs.
Proof.
  intros R Hw. apply countb_lookup; [apply (rb_length _ _ _ _ R)|].
  intros i x y Hx Hy.
  destruct (held_by w x) eqn:E.
  - apply held_by_iff in E as (b & -> & <-). destruct (rb_new _ _ _ _ R _ _ Hx) as [Hb|[? _]]; [|done].
    rewrite Hy in Hb. injection Hb as ->. symmetry. apply held_by_iff. eauto.
  - destruct (held_by w y) eqn:E'; [|done]. exfalso. apply held_by_iff in E' as (b & -> & <-).
    apply (rb_kept _ _ _ _ R) in Hy; [|done]. rewrite Hx in Hy. injection Hy as ->.
    simpl in E. by rewrite bool_decide_true in E.
Qed.
