(* ===== verification/Spec.v ===== *)
(** * What the experimentation service promises

    An abstract machine for the two tables: the experiments, and of each group
    what matters for the traffic: its kind, its traffic, the set of its
    members and its buckets. [step] lists what may happen to them; [inv] is
    what holds in every state reached. The handlers are shown in [Refine] to
    perform nothing but sequences of steps. *)

From S2P Require Import Prelude Types Text Effects ExpModels BucketAlloc Reallocation.

Record Group : Type := mkGroup {
  sg_type : GroupType;
  sg_traffic : Z;
  sg_members : gset Z;
  sg_buckets : Buckets;
}.

Record Spec : Type := mkSpec {
  s_experiments : gmap Z Experiment;
  s_groups : gmap Z Group;
}.

(** ** Rows *)

(** What no request changes of an experiment; the variants keep their ids. *)
Record same_identity (e e' : Experiment) : Prop := {
  si_id : e_id e' = e_id e;
  si_created_at : e_created_at e' = e_created_at e;
  si_created_by : e_created_by e' = e_created_by e;
  si_name : e_name e' = e_name e;
  si_type : e_experiment_type e' = e_experiment_type e;
  si_context : e_context e' = e_context e;
  si_variants : variant_ids e' ≡ₚ variant_ids e;
}.

(** Besides, the state of the experiment is the same. *)
Record same_state (e e' : Experiment) : Prop := {
  ss_identity : same_identity e e';
  ss_status : e_status e' = e_status e;
  ss_traffic : e_traffic_percentage e' = e_traffic_percentage e;
}.

Definition closed (status : ExperimentStatusType) : Prop :=
  status = CONCLUDED ∨ status = DISCARDED.
Definition running (status : ExperimentStatusType) : Prop :=
  status = INPROGRESS ∨ status = PAUSED.

(** The transitions of the status that a request can make. *)
Inductive status_step : ExperimentStatusType → ExperimentStatusType → Prop :=
  | st_start : status_step CREATED INPROGRESS
  | st_ramp : status_step INPROGRESS INPROGRESS
  | st_pause : status_step INPROGRESS PAUSED
  | st_resume : status_step PAUSED INPROGRESS
  | st_conclude : status_step INPROGRESS CONCLUDED
  | st_discard status : ¬ closed status → status_step status DISCARDED.

(** A variant's id starts with its experiment's. *)
Definition variant_of (id : Z) (w : string) : Prop := ∃ x, w = pretty id +:+ "-" +:+ x.

Record variants_ok (e : Experiment) : Prop := {
  vo_nodup : NoDup (variant_ids e);
  vo_nonempty : e_variants e ≠ [];
  vo_own w : w ∈ variant_ids e → variant_of (e_id e) w;
}.

Record row_ok (id : Z) (e : Experiment) : Prop := {
  ro_id : e_id e = id;
  ro_variants : variants_ok e;
  ro_traffic : (0 ≤ e_traffic_percentage e)%Z;
  ro_created : e_status e = CREATED → e_traffic_percentage e = 0%Z;
  ro_closed : closed (e_status e) → e_experiment_group_id e = None;
}.

(** The traffic of a system-generated group for [n] variants at [t]. *)
Definition group_traffic (e : Experiment) (t : Z) : Z := (Z.of_nat (length (e_variants e)) * t)%Z.

(** ** Steps *)

Definition set_row (id : Z) (e : Experiment) (s : Spec) : Spec :=
  mkSpec (<[id := e]> (s_experiments s)) (s_groups s).
Definition set_group_row (gid : Z) (g : Group) (s : Spec) : Spec :=
  mkSpec (s_experiments s) (<[gid := g]> (s_groups s)).
Definition delete_group_row (gid : Z) (s : Spec) : Spec :=
  mkSpec (s_experiments s) (delete gid (s_groups s)).

(** The group after an experiment joined, left or moved its buckets. *)
Definition joined (id : Z) (g : Group) : Group :=
  mkGroup (sg_type g) (sg_traffic g) ({[id]} ∪ sg_members g) (sg_buckets g).
Definition left_by (ids : gset Z) (variants : gset string) (g : Group) : Group :=
  mkGroup (sg_type g) (sg_traffic g) (sg_members g ∖ ids) (clear variants (sg_buckets g)).
Definition reallocated (traffic : Z) (buckets : Buckets) (g : Group) : Group :=
  mkGroup (sg_type g) traffic (sg_members g) buckets.

Inductive step (s : Spec) : Spec → Prop :=
  | step_create id e :
      s_experiments s !! id = None → row_ok id e → e_status e = CREATED →
      e_experiment_group_id e = None →
      step s (set_row id e s)
  | step_edit id e e' :
      s_experiments s !! id = Some e → e_status e = CREATED → same_state e e' →
      e_experiment_group_id e' = e_experiment_group_id e →
      step s (set_row id e' s)
  | step_switch id e e' :
      s_experiments s !! id = Some e → same_identity e e' → running (e_status e) →
      running (e_status e') → status_step (e_status e) (e_status e') →
      e_traffic_percentage e' = e_traffic_percentage e →
      e_experiment_group_id e' = e_experiment_group_id e →
      step s (set_row id e' s)
  | step_join id e e' gid g :
      s_experiments s !! id = Some e → e_status e = CREATED → same_state e e' →
      e_experiment_group_id e = None → e_experiment_group_id e' = Some gid →
      s_groups s !! gid = Some g → sg_type g = UserCreated →
      step s (set_row id e' (set_group_row gid (joined id g) s))
  | step_leave id e e' gid g :
      s_experiments s !! id = Some e → same_state e e' →
      e_experiment_group_id e = Some gid → e_experiment_group_id e' = None →
      s_groups s !! gid = Some g → sg_type g = UserCreated →
      step s (set_row id e' (set_group_row gid
                (left_by {[id]} (list_to_set (variant_ids e)) g) s))
  | step_enroll id e e' gid t bs :
      s_experiments s !! id = Some e → same_identity e e' →
      (e_status e = CREATED ∧ e_status e' = INPROGRESS ∨
       running (e_status e) ∧ e_status e' = e_status e ∧ t = e_traffic_percentage e) →
      (0 ≤ t)%Z → e_traffic_percentage e' = t →
      e_experiment_group_id e = None → e_experiment_group_id e' = Some gid →
      s_groups s !! gid = None → update_bucket_allocation e' Buckets.default t = Ok bs →
      step s (set_row id e' (set_group_row gid
                (mkGroup SystemGenerated (group_traffic e' t) {[id]} bs) s))
  | step_ramp id e e' gid g t bs :
      s_experiments s !! id = Some e → same_identity e e' →
      ExperimentStatusType.active (e_status e) = true → e_status e' = INPROGRESS →
      (0 ≤ t)%Z → e_traffic_percentage e' = t →
      e_experiment_group_id e = Some gid → e_experiment_group_id e' = Some gid →
      s_groups s !! gid = Some g → update_bucket_allocation e' (sg_buckets g) t = Ok bs →
      step s (set_row id e' (set_group_row gid (reallocated
                (match sg_type g with
                 | SystemGenerated => group_traffic e' t
                 | UserCreated => sg_traffic g
                 end) bs g) s))
  | step_close id e e' :
      s_experiments s !! id = Some e → same_identity e e' →
      status_step (e_status e) (e_status e') → closed (e_status e') →
      e_traffic_percentage e' = e_traffic_percentage e →
      e_experiment_group_id e = None → e_experiment_group_id e' = None →
      step s (set_row id e' s)
  | step_close_system id e e' gid g :
      s_experiments s !! id = Some e → same_identity e e' →
      status_step (e_status e) (e_status e') → closed (e_status e') →
      e_traffic_percentage e' = e_traffic_percentage e →
      e_experiment_group_id e = Some gid → e_experiment_group_id e' = None →
      s_groups s !! gid = Some g → sg_type g = SystemGenerated →
      step s (set_row id e' (delete_group_row gid s))
  | step_new_group gid t :
      s_groups s !! gid = None →
      step s (set_group_row gid (mkGroup UserCreated t ∅ Buckets.default) s)
  | step_tune_group gid g t :
      s_groups s !! gid = Some g → sg_type g = UserCreated →
      step s (set_group_row gid (reallocated t (sg_buckets g) g) s)
  | step_delete_group gid g :
      s_groups s !! gid = Some g → sg_members g = ∅ →
      step s (delete_group_row gid s).

(** ** The invariant *)

Record inv (s : Spec) : Prop := {
  inv_row id e : s_experiments s !! id = Some e → row_ok id e;
  inv_link id e gid :
    s_experiments s !! id = Some e → e_experiment_group_id e = Some gid →
    ∃ g, s_groups s !! gid = Some g ∧ id ∈ sg_members g ∧
      balanced e (Z.to_nat (e_traffic_percentage e)) (sg_buckets g) ∧
      (sg_type g = SystemGenerated → sg_traffic g = group_traffic e (e_traffic_percentage e));
  inv_member gid g id :
    s_groups s !! gid = Some g → id ∈ sg_members g →
    ∃ e, s_experiments s !! id = Some e ∧ e_experiment_group_id e = Some gid;
  inv_owner gid g i b :
    s_groups s !! gid = Some g → sg_buckets g !! i = Some (Some b) →
    ∃ id e, id ∈ sg_members g ∧ s_experiments s !! id = Some e ∧ owned e b;
  inv_size gid g : s_groups s !! gid = Some g → length (sg_buckets g) = 100;
  inv_system gid g :
    s_groups s !! gid = Some g → sg_type g = SystemGenerated → ∃ id, sg_members g = {[id]};
}.

(** * The invariant of the abstract machine

    Every step of [Spec] preserves [inv]. *)

(** ** The owner of a variant *)

Lemma dash_no_digits s : all_digits (String "-" s) = true → False.
Proof. intros [H _]%andb_true_iff. by apply bool_decide_eq_true in H as [? ?]. Qed.

Lemma digits_dash s t x y :
  all_digits s = true → all_digits t = true → s +:+ "-" +:+ x = t +:+ "-" +:+ y → s = t.
Proof.
  revert t. induction s as [|c s IH]; intros [|d t] Hs Ht Heq; [done|..].
  - injection Heq as <- _. by apply dash_no_digits in Ht.
  - injection Heq as -> _. by apply dash_no_digits in Hs.
  - injection Heq as -> Heq. apply andb_true_iff in Hs as [_ Hs], Ht as [_ Ht]. f_equal.
    by apply IH.
Qed.

Lemma pretty_Z_digits (z : Z) :
  (all_digits (pretty z) = true ∧ pretty z ≠ "") ∨
  ∃ s, pretty z = String "-" s ∧ all_digits s = true.
Proof.
  assert (∀ n : N, all_digits (pretty n) = true ∧ pretty n ≠ "") as HN.
  { intros n. destruct (pretty_N_value n) as (Hd & _ & c & s & E & _).
    split; [exact Hd|]. by rewrite E. }
  destruct z as [|p|p].
  - left. exact (HN 0%N).
  - left. exact (HN (N.pos p)).
  - right. exists (pretty (N.pos p)). split; [done|]. apply HN.
Qed.

Lemma variant_of_inj a b w : variant_of a w → variant_of b w → a = b.
Proof.
  assert (∀ s t x y, all_digits s = true → s ≠ "" → s +:+ "-" +:+ x ≠ String "-" t +:+ "-" +:+ y)
    as Hmix.
  { intros [|c s] t x y Hs Hne Heq; [done|]. injection Heq as -> _. by apply dash_no_digits in Hs. }
  intros [x ->] [y Heq]. apply (inj pretty).
  destruct (pretty_Z_digits a) as [[Ha Hna]|(s & Ha & Hs)],
    (pretty_Z_digits b) as [[Hb Hnb]|(t & Hb & Ht)].
  - by eapply digits_dash.
  - rewrite Hb in Heq. by apply Hmix in Heq.
  - rewrite Ha in Heq. symmetry in Heq. by apply Hmix in Heq.
  - rewrite Ha, Hb in *. injection Heq as Heq. f_equal. by eapply digits_dash.
Qed.

(** Distinct experiments have no variant in common. *)
Lemma row_variants_disjoint id id' e e' w :
  row_ok id e → row_ok id' e' → w ∈ variant_ids e → w ∈ variant_ids e' → id = id'.
Proof.
  intros R R' Hw Hw'. rewrite <-(ro_id _ _ R), <-(ro_id _ _ R').
  apply (variant_of_inj _ _ w); [by apply (ro_variants _ _ R)|by apply (ro_variants _ _ R')].
Qed.

Lemma variants_ok_identity e e' : same_identity e e' → variants_ok e → variants_ok e'.
Proof.
  intros I [Hnd Hne Hown]. pose proof (si_variants _ _ I) as Hp. split.
  - by rewrite Hp.
  - intros Hnil. unfold variant_ids in *. rewrite Hnil in Hp. apply Permutation_nil in Hp.
    by apply fmap_nil_inv in Hp.
  - intros w. rewrite Hp, (si_id _ _ I). apply Hown.
Qed.

Lemma identity_length e e' : same_identity e e' → length (e_variants e') = length (e_variants e).
Proof.
  intros I. pose proof (Permutation_length (si_variants _ _ I)) as Hl.
  unfold variant_ids in Hl. by rewrite !length_fmap in Hl.
Qed.

Lemma group_traffic_identity e e' t : same_identity e e' → group_traffic e' t = group_traffic e t.
Proof. intros I. unfold group_traffic. by rewrite (identity_length _ _ I). Qed.

Lemma balanced_identity e e' c bs : same_identity e e' → balanced e c bs → balanced e' c bs.
Proof. intros I Hb w. rewrite (si_variants _ _ I). apply Hb. Qed.

Lemma owned_identity e e' b : same_identity e e' → owned e b → owned e' b.
Proof. intros I [Hv Hid]. split; [by rewrite (si_variants _ _ I)|by rewrite (si_id _ _ I)]. Qed.

Lemma default_held w : held w Buckets.default = 0.
Proof.
  apply held_0. unfold Buckets.default. intros i b Hi. by apply lookup_replicate in Hi as [? ?].
Qed.

(** ** Rows *)

Lemma row_ok_update id e e' :
  row_ok id e → same_identity e e' → (0 ≤ e_traffic_percentage e')%Z →
  (e_status e' = CREATED → e_traffic_percentage e' = 0%Z) →
  (closed (e_status e') → e_experiment_group_id e' = None) →
  row_ok id e'.
Proof.
  intros R I Ht Hc Hcl. split; [|by eapply variants_ok_identity; [|apply R]|done..].
  rewrite (si_id _ _ I). apply R.
Qed.

(** A row changes, its group and the buckets it holds do not. *)
Lemma inv_set_row s id e e' :
  inv s → s_experiments s !! id = Some e → same_identity e e' → row_ok id e' →
  e_experiment_group_id e' = e_experiment_group_id e →
  (e_experiment_group_id e = None ∨ e_traffic_percentage e' = e_traffic_percentage e) →
  inv (set_row id e' s).
Proof.
  intros I He Hid Hrow Hg Ht. split; simpl.
  - intros id2 e2. rewrite lookup_insert_Some. intros [[<- <-]|[_ H2]]; [done|]. by apply I.
  - intros id2 e2 gid. rewrite lookup_insert_Some. intros [[<- <-]|[_ H2]] H2g; [|by eapply I].
    destruct Ht as [?|Ht]; [congruence|]. rewrite Hg in H2g.
    destruct (inv_link _ I _ _ _ He H2g) as (g & Hgid & Hm & Hb & Hs). exists g.
    split_and!; [done..| |].
    + rewrite Ht. by eapply balanced_identity.
    + intros Hsys. rewrite Ht, (group_traffic_identity e e') by done. by apply Hs.
  - intros gid g id2 Hgid Hm. destruct (inv_member _ I _ _ _ Hgid Hm) as (e2 & He2 & H2g).
    destruct (decide (id = id2)) as [<-|Hne].
    + exists e'. rewrite lookup_insert_eq. split; [done|]. congruence.
    + exists e2. by rewrite lookup_insert_ne.
  - intros gid g i b Hgid Hb. destruct (inv_owner _ I _ _ _ _ Hgid Hb) as (id2 & e2 & Hm & He2 & Ho).
    destruct (decide (id = id2)) as [<-|Hne].
    + exists id, e'. rewrite lookup_insert_eq. split_and!; [done..|].
      simplify_eq. by eapply owned_identity.
    + exists id2, e2. by rewrite lookup_insert_ne.
  - apply I.
  - apply I.
Qed.

Lemma inv_create s id e :
  inv s → s_experiments s !! id = None → row_ok id e → e_experiment_group_id e = None →
  inv (set_row id e s).
Proof.
  intros I He Hrow Hg. split; simpl.
  - intros id2 e2. rewrite lookup_insert_Some. intros [[<- <-]|[_ H2]]; [done|]. by apply I.
  - intros id2 e2 gid. rewrite lookup_insert_Some.
    intros [[<- <-]|[_ H2]] H2g; [congruence|by eapply I].
  - intros gid g id2 Hgid Hm. destruct (inv_member _ I _ _ _ Hgid Hm) as (e2 & He2 & H2g).
    exists e2. rewrite lookup_insert_ne by congruence. done.
  - intros gid g i b Hgid Hb. destruct (inv_owner _ I _ _ _ _ Hgid Hb) as (id2 & e2 & Hm & He2 & Ho).
    exists id2, e2. rewrite lookup_insert_ne by congruence. done.
  - apply I.
  - apply I.
Qed.

(** ** Groups *)

(** The buckets of a group that may not exist yet. *)
Definition buckets_of (og : option Group) : Buckets := from_option sg_buckets Buckets.default og.

Definition held_count (gid : Z) (e : Experiment) : nat :=
  if bool_decide (e_experiment_group_id e = Some gid) then Z.to_nat (e_traffic_percentage e) else 0.

(** How a row and the group it enters, leaves or stays in may change. *)
Record group_change (s : Spec) (id : Z) (e e' : Experiment) (gid : Z) (g' : Group) : Prop := {
  gc_before : e_experiment_group_id e = None ∨ e_experiment_group_id e = Some gid;
  gc_after : e_experiment_group_id e' = None ∨ e_experiment_group_id e' = Some gid;
  gc_member : id ∈ sg_members g' ↔ e_experiment_group_id e' = Some gid;
  gc_others id' : id' ≠ id →
    id' ∈ sg_members g' ↔ ∃ g, s_groups s !! gid = Some g ∧ id' ∈ sg_members g;
  gc_buckets : rebucketed e' (held_count gid e') (buckets_of (s_groups s !! gid)) (sg_buckets g');
  gc_system : sg_type g' = SystemGenerated →
    sg_members g' = {[id]} ∧ sg_traffic g' = group_traffic e' (e_traffic_percentage e');
}.

Section group_change.
Context (s : Spec) (id : Z) (e e' : Experiment) (gid : Z) (g' : Group).
Context (I : inv s) (He : s_experiments s !! id = Some e) (Hid : same_identity e e').
Context (Hrow : row_ok id e') (C : group_change s id e e' gid g').

Lemma change_linked id2 e2 :
  id2 ≠ id → s_experiments s !! id2 = Some e2 → e_experiment_group_id e2 = Some gid →
  id2 ∈ sg_members g' ∧ balanced e2 (Z.to_nat (e_traffic_percentage e2)) (sg_buckets g') ∧
  sg_type g' ≠ SystemGenerated.
Proof.
  intros Hne He2 H2g. destruct (inv_link _ I _ _ _ He2 H2g) as (g & Hg & Hm & Hb & _).
  assert (id2 ∈ sg_members g') as Hm' by (apply (gc_others _ _ _ _ _ _ C); eauto).
  split_and!; [done| |].
  - intros w Hw. rewrite (rebucketed_other _ _ _ _ _ (gc_buckets _ _ _ _ _ _ C)).
    + rewrite Hg. by apply Hb.
    + intros Hw'. apply Hne. apply (row_variants_disjoint id2 id e2 e' w); [by apply I|done..].
  - intros Hsys. destruct (gc_system _ _ _ _ _ _ C Hsys) as [Hs _]. set_solver.
Qed.

Lemma change_owner i b :
  sg_buckets g' !! i = Some (Some b) →
  ∃ id2 e2, id2 ∈ sg_members g' ∧ <[id := e']> (s_experiments s) !! id2 = Some e2 ∧ owned e2 b.
Proof.
  intros Hb. pose proof (gc_buckets _ _ _ _ _ _ C) as R.
  assert (b_variant_id b ∈ variant_ids e' → e_experiment_group_id e' = Some gid) as Hheld.
  { intros Hin. pose proof (rb_balanced _ _ _ _ R _ Hin) as Hc. unfold held_count in Hc.
    case_bool_decide; [done|]. rewrite held_0 in Hc. by apply Hc in Hb. }
  assert (owned e' b → ∃ id2 e2, id2 ∈ sg_members g' ∧
    <[id := e']> (s_experiments s) !! id2 = Some e2 ∧ owned e2 b) as Hown.
  { intros Ho. exists id, e'. rewrite lookup_insert_eq. split_and!; [|done..].
    apply (gc_member _ _ _ _ _ _ C), Hheld, Ho. }
  destruct (rb_new _ _ _ _ R _ _ Hb) as [Hb0|Ho]; [|by apply Hown].
  destruct (s_groups s !! gid) as [g|] eqn:Hg; simpl in Hb0.
  - destruct (inv_owner _ I _ _ _ _ Hg Hb0) as (id2 & e2 & Hm & He2 & Ho).
    destruct (decide (id2 = id)) as [->|Hne].
    + apply Hown. rewrite He in He2. injection He2 as <-. by apply (owned_identity e).
    + exists id2, e2. rewrite lookup_insert_ne by done. split_and!; [|done..].
      apply (gc_others _ _ _ _ _ _ C); eauto.
  - unfold Buckets.default in Hb0. by apply lookup_replicate in Hb0 as [? ?].
Qed.

Lemma inv_group_change : inv (set_row id e' (set_group_row gid g' s)).
Proof.
  pose proof (gc_before _ _ _ _ _ _ C) as Hbefore.
  assert (∀ gid2 g, gid2 ≠ gid → s_groups s !! gid2 = Some g → id ∉ sg_members g) as Hout.
  { intros gid2 g Hne Hg Hm. destruct (inv_member _ I _ _ _ Hg Hm) as (e2 & He2 & H2g).
    rewrite He in He2. simplify_eq. destruct Hbefore; congruence. }
  split; simpl.
  - intros id2 e2. rewrite lookup_insert_Some. intros [[<- <-]|[_ H2]]; [done|]. by apply I.
  - intros id2 e2 gid2. rewrite lookup_insert_Some. intros [[<- <-]|[Hne H2]] H2g.
    + destruct (gc_after _ _ _ _ _ _ C) as [?|Hafter]; [congruence|].
      assert (gid2 = gid) as -> by congruence. exists g'. rewrite lookup_insert_eq.
      split_and!; [done|by apply (gc_member _ _ _ _ _ _ C)| |].
      * pose proof (rb_balanced _ _ _ _ (gc_buckets _ _ _ _ _ _ C)) as Hb.
        unfold held_count in Hb. by rewrite bool_decide_true in Hb.
      * intros Hsys. by apply (gc_system _ _ _ _ _ _ C).
    + destruct (decide (gid2 = gid)) as [->|Hgne].
      * exists g'. rewrite lookup_insert_eq.
        destruct (change_linked id2 e2) as (? & ? & ?); [done..|]. by split_and!.
      * rewrite lookup_insert_ne by done. by eapply I.
  - intros gid2 g2 id2. rewrite lookup_insert_Some. intros [[<- <-]|[Hgne Hg2]] Hm.
    + destruct (decide (id2 = id)) as [->|Hne].
      * exists e'. rewrite lookup_insert_eq. split; [done|]. by apply (gc_member _ _ _ _ _ _ C).
      * apply (gc_others _ _ _ _ _ _ C) in Hm as (g & Hg & Hm); [|done].
        rewrite lookup_insert_ne by done. by eapply I.
    + rewrite lookup_insert_ne; [by eapply I|]. intros <-. by eapply Hout.
  - intros gid2 g2 i b. rewrite lookup_insert_Some. intros [[<- <-]|[Hgne Hg2]] Hb.
    + by eapply change_owner.
    + destruct (inv_owner _ I _ _ _ _ Hg2 Hb) as (id2 & e2 & Hm & He2 & Ho).
      exists id2, e2. rewrite lookup_insert_ne; [done|]. intros <-. by eapply Hout.
  - intros gid2 g2. rewrite lookup_insert_Some. intros [[<- <-]|[_ Hg2]]; [|by eapply I].
    rewrite (rb_length _ _ _ _ (gc_buckets _ _ _ _ _ _ C)).
    destruct (s_groups s !! gid) eqn:Hg; [by eapply I|done].
  - intros gid2 g2. rewrite lookup_insert_Some. intros [[<- <-]|[_ Hg2]] Hsys; [|by eapply I].
    exists id. by apply (gc_system _ _ _ _ _ _ C).
Qed.
End group_change.

(** ** The steps *)

Lemma rebucketed_refl e c bs : balanced e c bs → rebucketed e c bs bs.
Proof. intros Hb. split; auto. Qed.

Lemma unlinked_holds_none s id e gid g w :
  inv s → s_experiments s !! id = Some e → e_experiment_group_id e ≠ Some gid →
  s_groups s !! gid = Some g → w ∈ variant_ids e → held w (sg_buckets g) = 0.
Proof.
  intros I He Hn Hg Hw. apply held_0. intros i b Hb <-.
  destruct (inv_owner _ I _ _ _ _ Hg Hb) as (id2 & e2 & Hm & He2 & Ho & _).
  destruct (inv_member _ I _ _ _ Hg Hm) as (e3 & He3 & H3g).
  assert (id = id2) as <- by (eapply (row_variants_disjoint _ _ e e2); [by apply I|by apply I|done..]).
  simplify_eq.
Qed.

Lemma running_not_created status : running status → status ≠ CREATED.
Proof. by intros [->| ->]. Qed.
Lemma running_not_closed status : running status → ¬ closed status.
Proof. by intros [->| ->] [?|?]. Qed.
Lemma closed_not_created status : closed status → status ≠ CREATED.
Proof. by intros [->| ->]. Qed.

Lemma same_state_row_ok id e e' :
  row_ok id e → ¬ closed (e_status e) → same_state e e' → row_ok id e'.
Proof.
  intros R Hc [I Hs Ht]. apply (row_ok_update id e e'); rewrite ?Hs, ?Ht; [done..|apply R|apply R|done].
Qed.

Lemma linked_not_closed s id e gid :
  inv s → s_experiments s !! id = Some e → e_experiment_group_id e = Some gid →
  ¬ closed (e_status e).
Proof. intros I He Hg Hc. apply (ro_closed _ _ (inv_row _ I _ _ He)) in Hc. congruence. Qed.

Lemma inv_join s id e e' gid g :
  inv s → s_experiments s !! id = Some e → e_status e = CREATED → same_state e e' →
  e_experiment_group_id e = None → e_experiment_group_id e' = Some gid →
  s_groups s !! gid = Some g → sg_type g = UserCreated →
  inv (set_row id e' (set_group_row gid (joined id g) s)).
Proof.
  intros I He Hst Hss Hn Hg' Hg Hty.
  pose proof (inv_row _ I _ _ He) as R. pose proof (ss_identity _ _ Hss) as Hid.
  apply (inv_group_change s id e); [done..| |split; simpl].
  - apply (same_state_row_ok id e); [done| |done]. rewrite Hst. by intros [?|?].
  - by left.
  - by right.
  - set_solver.
  - rewrite Hg. set_solver.
  - rewrite Hg. simpl. unfold held_count. rewrite bool_decide_true by done.
    rewrite (ss_traffic _ _ Hss), (ro_created _ _ R) by done. apply rebucketed_refl.
    apply (balanced_identity e); [done|]. intros w Hw.
    apply (unlinked_holds_none s id e gid); [done..|congruence|done|done].
  - congruence.
Qed.

Lemma inv_leave s id e e' gid g :
  inv s → s_experiments s !! id = Some e → same_state e e' →
  e_experiment_group_id e = Some gid → e_experiment_group_id e' = None →
  s_groups s !! gid = Some g → sg_type g = UserCreated →
  inv (set_row id e' (set_group_row gid (left_by {[id]} (list_to_set (variant_ids e)) g) s)).
Proof.
  intros I He Hss Hs Hn Hg Hty. pose proof (ss_identity _ _ Hss) as Hid.
  apply (inv_group_change s id e); [done..| |split; simpl].
  - apply (same_state_row_ok id e); [by apply I| |done]. by eapply linked_not_closed.
  - by right.
  - by left.
  - set_solver.
  - rewrite Hg. set_solver.
  - rewrite Hg. simpl. unfold held_count. rewrite bool_decide_false by congruence.
    assert (list_to_set (variant_ids e) = list_to_set (variant_ids e') :> gset string) as ->.
    { apply leibniz_equiv. by rewrite (si_variants _ _ Hid). }
    apply clear_rebucketed.
  - congruence.
Qed.

Lemma inv_enroll s id e e' gid t bs :
  inv s → s_experiments s !! id = Some e → same_identity e e' →
  (e_status e = CREATED ∧ e_status e' = INPROGRESS ∨
   running (e_status e) ∧ e_status e' = e_status e ∧ t = e_traffic_percentage e) →
  (0 ≤ t)%Z → e_traffic_percentage e' = t →
  e_experiment_group_id e = None → e_experiment_group_id e' = Some gid →
  s_groups s !! gid = None → update_bucket_allocation e' Buckets.default t = Ok bs →
  inv (set_row id e' (set_group_row gid
         (mkGroup SystemGenerated (group_traffic e' t) {[id]} bs) s)).
Proof.
  intros I He Hid Hst Ht Ht' Hn Hg' Hg Hup. subst t.
  assert (running (e_status e')) as Hrun by (destruct Hst as [[_ ->]|(? & -> & _)]; [by left|done]).
  assert (row_ok id e') as R'.
  { apply (row_ok_update id e); [by apply I|done..| |].
    - by intros ?%running_not_created.
    - by intros ?%running_not_closed. }
  apply (inv_group_change s id e); [done..|split; simpl].
  - by left.
  - by right.
  - set_solver.
  - rewrite Hg. set_solver.
  - rewrite Hg. simpl. unfold held_count. rewrite bool_decide_true by done.
    eapply update_rebucketed; [apply (ro_variants _ _ R')..| |done|done].
    intros w _. apply default_held.
  - done.
Qed.

Lemma inv_ramp s id e e' gid g t bs :
  inv s → s_experiments s !! id = Some e → same_identity e e' →
  e_status e' = INPROGRESS → (0 ≤ t)%Z → e_traffic_percentage e' = t →
  e_experiment_group_id e = Some gid → e_experiment_group_id e' = Some gid →
  s_groups s !! gid = Some g → update_bucket_allocation e' (sg_buckets g) t = Ok bs →
  inv (set_row id e' (set_group_row gid (reallocated
         (match sg_type g with
          | SystemGenerated => group_traffic e' t
          | UserCreated => sg_traffic g
          end) bs g) s)).
Proof.
  intros I He Hid Hst Ht Ht' Hg0 Hg' Hg Hup. subst t.
  destruct (inv_link _ I _ _ _ He Hg0) as (g2 & Hg2 & Hm & Hb & _).
  rewrite Hg in Hg2. injection Hg2 as <-.
  assert (row_ok id e') as R'.
  { apply (row_ok_update id e); [by apply I|done|done|by rewrite Hst|].
    rewrite Hst. by intros [?|?]. }
  apply (inv_group_change s id e); [done..|split; simpl].
  - by right.
  - by right.
  - split; done.
  - rewrite Hg. naive_solver.
  - rewrite Hg. simpl. unfold held_count. rewrite bool_decide_true by done.
    eapply update_rebucketed; [apply (ro_variants _ _ R')..| |done|done].
    by apply (balanced_identity e).
  - intros Hsys. destruct (inv_system _ I _ _ Hg Hsys) as [id0 Hid0].
    assert (id0 = id) as -> by set_solver. rewrite Hsys. done.
Qed.

Lemma inv_close_system s id e e' gid g :
  inv s → s_experiments s !! id = Some e → same_identity e e' → row_ok id e' →
  e_experiment_group_id e = Some gid → e_experiment_group_id e' = None →
  s_groups s !! gid = Some g → sg_type g = SystemGenerated →
  inv (set_row id e' (delete_group_row gid s)).
Proof.
  intros I He Hid Hrow Hg0 Hn Hg Hsys.
  destruct (inv_system _ I _ _ Hg Hsys) as [id0 Hm].
  destruct (inv_link _ I _ _ _ He Hg0) as (g2 & Hg2 & Hm2 & _).
  assert (id0 = id) as -> by (rewrite Hg in Hg2; simplify_eq; set_solver).
  assert (∀ gid2 g2, gid2 ≠ gid → s_groups s !! gid2 = Some g2 → id ∉ sg_members g2) as Hout.
  { intros gid2 g3 Hne Hg3 Hm3. destruct (inv_member _ I _ _ _ Hg3 Hm3) as (e2 & He2 & H2g).
    simplify_eq. }
  split; simpl.
  - intros id2 e2. rewrite lookup_insert_Some. intros [[<- <-]|[_ H2]]; [done|]. by apply I.
  - intros id2 e2 gid2. rewrite lookup_insert_Some.
    intros [[<- <-]|[Hne H2]] H2g; [congruence|].
    destruct (inv_link _ I _ _ _ H2 H2g) as (g3 & Hg3 & Hm3 & ?). exists g3.
    rewrite lookup_delete_ne; [done|]. intros <-. simplify_eq. set_solver.
  - intros gid2 g3 id2. rewrite lookup_delete_Some. intros [Hne Hg3] Hm3.
    rewrite lookup_insert_ne; [by eapply I|]. intros <-. by eapply Hout.
  - intros gid2 g3 i b. rewrite lookup_delete_Some. intros [Hne Hg3] Hb.
    destruct (inv_owner _ I _ _ _ _ Hg3 Hb) as (id2 & e2 & Hm3 & He2 & Ho). exists id2, e2.
    rewrite lookup_insert_ne; [done|]. intros <-. by eapply Hout.
  - intros gid2 g3. rewrite lookup_delete_Some. intros [_ ?]. by eapply I.
  - intros gid2 g3. rewrite lookup_delete_Some. intros [_ ?]. by eapply I.
Qed.

(** Rows stay, and a group changes in a way that members cannot see. *)
Lemma inv_set_group s gid g :
  inv s → length (sg_buckets g) = 100 → sg_type g = UserCreated →
  match s_groups s !! gid with
  | Some g0 => sg_members g = sg_members g0 ∧ sg_buckets g = sg_buckets g0
  | None => sg_members g = ∅ ∧ sg_buckets g = Buckets.default
  end → inv (set_group_row gid g s).
Proof.
  intros I Hlen Hty Hg. split; simpl.
  - apply I.
  - intros id e gid2 He H2g. destruct (inv_link _ I _ _ _ He H2g) as (g2 & Hg2 & Hm & Hb & Hs).
    destruct (decide (gid = gid2)) as [<-|Hne]; [|rewrite lookup_insert_ne by done; by exists g2].
    rewrite Hg2 in Hg. destruct Hg as [Hgm Hgb]. exists g. rewrite lookup_insert_eq, Hgm, Hgb.
    split_and!; [done..|congruence].
  - intros gid2 g2 id. rewrite lookup_insert_Some. intros [[<- <-]|[_ ?]] Hm; [|by eapply I].
    destruct (s_groups s !! gid) eqn:E; destruct Hg as [Hgm _]; [|set_solver].
    rewrite Hgm in Hm. by eapply I.
  - intros gid2 g2 i b. rewrite lookup_insert_Some. intros [[<- <-]|[_ ?]] Hb; [|by eapply I].
    destruct (s_groups s !! gid) eqn:E; destruct Hg as [Hgm Hgb]; rewrite Hgb in Hb.
    + rewrite Hgm. by eapply I.
    + by apply lookup_replicate in Hb as [? ?].
  - intros gid2 g2. rewrite lookup_insert_Some. intros [[<- <-]|[_ ?]]; [done|by eapply I].
  - intros gid2 g2. rewrite lookup_insert_Some. intros [[<- <-]|[_ ?]] ?; [congruence|by eapply I].
Qed.

Lemma inv_delete_group s gid g :
  inv s → s_groups s !! gid = Some g → sg_members g = ∅ → inv (delete_group_row gid s).
Proof.
  intros I Hg Hm. split; simpl.
  - apply I.
  - intros id e gid2 He H2g. destruct (inv_link _ I _ _ _ He H2g) as (g2 & Hg2 & Hm2 & ?).
    exists g2. rewrite lookup_delete_ne; [done|]. intros <-. simplify_eq. set_solver.
  - intros gid2 g2 id. rewrite lookup_delete_Some. intros [_ ?] ?. by eapply I.
  - intros gid2 g2 i b. rewrite lookup_delete_Some. intros [_ ?] ?. by eapply I.
  - intros gid2 g2. rewrite lookup_delete_Some. intros [_ ?]. by eapply I.
  - intros gid2 g2. rewrite lookup_delete_Some. intros [_ ?]. by eapply I.
Qed.

Lemma step_inv s s' : inv s → step s s' → inv s'.
Proof.
  intros I. destruct 1.
  - by apply inv_create.
  - eapply inv_set_row; [done..|apply H1| |done|right; apply H1].
    apply (same_state_row_ok id e); [by apply I| |done]. rewrite H0. by intros [?|?].
  - eapply inv_set_row; [done..| |done|by right].
    apply (row_ok_update id e); [by apply I|done| | |].
    + rewrite H4. by eapply ro_traffic, I.
    + by intros ?%running_not_created.
    + by intros ?%running_not_closed.
  - by eapply inv_join.
  - by eapply inv_leave.
  - by eapply inv_enroll.
  - by eapply inv_ramp.
  - eapply inv_set_row; [done..| |congruence|by left].
    apply (row_ok_update id e); [by apply I|done| |by intros ?%(closed_not_created _ H2)|done].
    rewrite H3. by eapply ro_traffic, I.
  - eapply inv_close_system; [done..| |done|done|done|done].
    apply (row_ok_update id e); [by apply I|done| |by intros ?%(closed_not_created _ H2)|done].
    rewrite H3. by eapply ro_traffic, I.
  - apply inv_set_group; [done..|]. simpl. by rewrite H.
  - apply inv_set_group; simpl; [done|by eapply I|done|]. by rewrite H.
  - by eapply inv_delete_group.
Qed.

Lemma inv_empty : inv (mkSpec ∅ ∅).
Proof. split; done. Qed.

Lemma steps_inv s s' : inv s → rtc step s s' → inv s'.
Proof. intros I Hs. induction Hs as [|s1 s2 s3 Hstep _ IH]; [done|]. apply IH. by eapply step_inv. Qed.

(** ** How a row evolves *)

Record evolves (e e' : Experiment) : Prop := {
  ev_identity : same_identity e e';
  ev_status : rtc status_step (e_status e) (e_status e');
  ev_closed : closed (e_status e) → e' = e;
}.

Lemma same_identity_refl e : same_identity e e.
Proof. by split. Qed.

Lemma same_identity_trans e1 e2 e3 :
  same_identity e1 e2 → same_identity e2 e3 → same_identity e1 e3.
Proof. intros [] []. split; [congruence..|]. by etrans. Qed.

Lemma evolves_refl e : evolves e e.
Proof. split; [apply same_identity_refl|done|done]. Qed.

Lemma evolves_trans e1 e2 e3 : evolves e1 e2 → evolves e2 e3 → evolves e1 e3.
Proof.
  intros [I1 S1 C1] [I2 S2 C2]. split; [by eapply same_identity_trans|by etrans|].
  intros Hc. specialize (C1 Hc). subst e2. by apply C2.
Qed.

Lemma evolves_open e e' :
  same_identity e e' → ¬ closed (e_status e) →
  (e_status e' = e_status e ∨ status_step (e_status e) (e_status e')) → evolves e e'.
Proof. intros I Hc Hs. split; [done| |done]. destruct Hs as [->|Hs]; [done|by apply rtc_once]. Qed.

Lemma status_step_open status status' : status_step status status' → ¬ closed status.
Proof. destruct 1; [by intros [?|?]..|done]. Qed.

Lemma active_open status : ExperimentStatusType.active status = true → ¬ closed status.
Proof. destruct status; intros E [?|?]; done. Qed.

Lemma step_evolves s s' id e :
  inv s → step s s' → s_experiments s !! id = Some e →
  ∃ e', s_experiments s' !! id = Some e' ∧ evolves e e'.
Proof.
  assert (∀ id' e0 e', s_experiments s !! id' = Some e0 → evolves e0 e' →
    s_experiments s !! id = Some e →
    ∃ e2, <[id' := e']> (s_experiments s) !! id = Some e2 ∧ evolves e e2) as Hset.
  { intros id' e0 e' H0 Hev He. destruct (decide (id' = id)) as [->|Hne].
    - exists e'. rewrite lookup_insert_eq. simplify_eq. done.
    - exists e. rewrite lookup_insert_ne by done. split; [done|apply evolves_refl]. }
  assert (¬ closed CREATED) as Hcr by (by intros [?|?]).
  intros I. destruct 1; intros He; simpl.
  - exists e. rewrite lookup_insert_ne by congruence. split; [done|apply evolves_refl].
  - apply (Hset id0 e0); [done| |done]. apply evolves_open; [apply H1|by rewrite H0|left; apply H1].
  - apply (Hset id0 e0); [done| |done]. apply evolves_open; [done|by apply running_not_closed|by right].
  - apply (Hset id0 e0); [done| |done]. apply evolves_open; [apply H1|by rewrite H0|left; apply H1].
  - apply (Hset id0 e0); [done| |done].
    apply evolves_open; [apply H0|by eapply linked_not_closed|left; apply H0].
  - apply (Hset id0 e0); [done| |done].
    destruct H1 as [[Hs Hs']|(Hr & Hs & _)]; apply evolves_open; try done.
    + by rewrite Hs.
    + right. rewrite Hs, Hs'. constructor.
    + by apply running_not_closed.
    + by left.
  - apply (Hset id0 e0); [done| |done]. apply evolves_open; [done|by apply active_open|].
    right. rewrite H2. destruct (e_status e0); try done; constructor.
  - apply (Hset id0 e0); [done| |done].
    apply evolves_open; [done|by eapply status_step_open|by right].
  - apply (Hset id0 e0); [done| |done].
    apply evolves_open; [done|by eapply status_step_open|by right].
  - exists e. split; [done|apply evolves_refl].
  - exists e. split; [done|apply evolves_refl].
  - exists e. split; [done|apply evolves_refl].
Qed.

Lemma steps_evolve s s' id e :
  inv s → rtc step s s' → s_experiments s !! id = Some e →
  ∃ e', s_experiments s' !! id = Some e' ∧ evolves e e'.
Proof.
  intros I Hs. revert e. induction Hs as [s|s1 s2 s3 Hstep _ IH]; intros e He.
  { exists e. split; [done|apply evolves_refl]. }
  destruct (step_evolves _ _ _ _ I Hstep He) as (e2 & He2 & Hev).
  destruct (IH (step_inv _ _ I Hstep) _ He2) as (e3 & He3 & Hev').
  exists e3. split; [done|]. by eapply evolves_trans.
Qed.
