(* ===== verification/Refine.v ===== *)
(** * Reasoning about the service's effects

    [wp m Φ Ψ t]: run on any world whose tables are [t], [m] ends either with
    a value and tables that satisfy [Φ], or with an error and tables that
    satisfy [Ψ]. The clock, the ids and the answers of the outside are
    quantified away. A computation is [Neutral] when it never writes a table. *)

From S2P Require Import Prelude Pages Json Types Text Effects ExpModels Bucketing BucketAlloc CacClient ExpChecks CacStore Store Groups Experiments Reallocation Spec.

Definition Tables : Type := gmap Z Experiment * gmap Z ExperimentGroup.
Definition tables (w : World) : Tables := (w_experiments w, w_groups w).

Abbreviation wp := (wp_on tables).
Abbreviation Neutral := (NeutralOn tables).

(** An error rolls the tables back. *)
Lemma wp_transaction {A} (m : M A) (Φ : A → Tables → Prop) (Ψ : Tables → Prop) t :
  wp m Φ (λ _, Ψ t) t → wp (transaction m) Φ Ψ t.
Proof. by apply wp_transaction_by. Qed.

Section tables.
Context `{Env}.
Implicit Types (Ψ : Tables → Prop) (es : gmap Z Experiment) (gs : gmap Z ExperimentGroup).

Lemma wp_fetch_experiment id Φ Ψ es gs :
  (∀ e, es !! id = Some e → Φ e (es, gs)) → Ψ (es, gs) →
  wp (fetch_experiment id) Φ Ψ (es, gs).
Proof.
  intros H1 H2 w [= <- <-]. unfold fetch_experiment.
  destruct (w_experiments w !! id) eqn:E; [by apply H1|done].
Qed.

Lemma wp_fetch_group id Φ Ψ es gs :
  (∀ g, gs !! id = Some g → Φ g (es, gs)) → Ψ (es, gs) →
  wp (fetch_experiment_group id) Φ Ψ (es, gs).
Proof.
  intros H1 H2 w [= <- <-]. unfold fetch_experiment_group.
  destruct (w_groups w !! id) eqn:E; [by apply H1|done].
Qed.

Lemma wp_update_experiment id f Φ Ψ es gs :
  (∀ e, es !! id = Some e → Φ (f e) (<[id := f e]> es, gs)) → Ψ (es, gs) →
  wp (update_experiment id f) Φ Ψ (es, gs).
Proof.
  intros H1 H2 w [= <- <-]. unfold update_experiment.
  destruct (w_experiments w !! id) eqn:E; [by apply H1|done].
Qed.

Lemma wp_execute_update_experiment id f Φ Ψ es gs :
  Φ tt (alter f id es, gs) → wp (execute_update_experiment id f) Φ Ψ (es, gs).
Proof. by intros H1 w [= <- <-]. Qed.

Lemma wp_insert_experiment e Φ Ψ es gs :
  (es !! e_id e = None → Φ e (<[e_id e := e]> es, gs)) → Ψ (es, gs) →
  wp (insert_experiment e) Φ Ψ (es, gs).
Proof.
  intros H1 H2 w [= <- <-]. unfold insert_experiment.
  destruct (w_experiments w !! e_id e) eqn:E; [done|by apply H1].
Qed.

Lemma wp_select `{RowOrder} p Φ Ψ es gs :
  Φ (List.filter p (row_order es).*2) (es, gs) → wp (select_experiments p) Φ Ψ (es, gs).
Proof. by intros H1 w [= <- <-]. Qed.

Lemma wp_update_group id f Φ Ψ es gs :
  (∀ g, gs !! id = Some g → Φ (f g) (es, <[id := f g]> gs)) → Ψ (es, gs) →
  wp (update_group id f) Φ Ψ (es, gs).
Proof.
  intros H1 H2 w [= <- <-]. unfold update_group.
  destruct (w_groups w !! id) eqn:E; [by apply H1|done].
Qed.

Lemma wp_execute_update_group id f Φ Ψ es gs :
  Φ tt (es, alter f id gs) → wp (execute_update_group id f) Φ Ψ (es, gs).
Proof. by intros H1 w [= <- <-]. Qed.

Lemma wp_insert_group g Φ Ψ es gs :
  (gs !! g_id g = None → Φ g (es, <[g_id g := g]> gs)) → Ψ (es, gs) →
  wp (insert_group g) Φ Ψ (es, gs).
Proof.
  intros H1 H2 w [= <- <-]. unfold insert_group.
  destruct (w_groups w !! g_id g) eqn:E; [done|by apply H1].
Qed.

Lemma wp_delete_group id Φ Ψ es gs :
  Φ tt (es, delete id gs) → wp (delete_group id) Φ Ψ (es, gs).
Proof. by intros H1 w [= <- <-]. Qed.
End tables.

(** ** Computations that write no table *)

Section neutral.
Context `{Env}.

#[global] Instance neutral_call e : Neutral (call e).
Proof. done. Qed.
#[global] Instance neutral_now : Neutral now.
Proof. done. Qed.
#[global] Instance neutral_id : Neutral generate_snowflake_id.
Proof. done. Qed.
#[global] Instance neutral_fetch id : Neutral (fetch_experiment id).
Proof. done. Qed.
#[global] Instance neutral_fetch_group id : Neutral (fetch_experiment_group id).
Proof. done. Qed.
#[global] Instance neutral_select `{RowOrder} p : Neutral (select_experiments p).
Proof. done. Qed.
End neutral.

(** The type of a reply is computed from the call. *)
#[global] Hint Extern 1 (NeutralOn _ (call _)) => exact (neutral_call _) : typeclass_instances.

Section neutral_calls.
Context `{Env}.

#[global] Instance neutral_get_resolved_config q c : Neutral (get_resolved_config q c).
Proof. unfold get_resolved_config. solve_neutral. Qed.
#[global] Instance neutral_get_partial_resolve_config q c :
  Neutral (get_partial_resolve_config q c).
Proof. unfold get_partial_resolve_config. solve_neutral. Qed.
#[global] Instance neutral_get_context_override c : Neutral (get_context_override c).
Proof. unfold get_context_override. solve_neutral. Qed.
#[global] Instance neutral_validate_context c : Neutral (validate_context c).
Proof. unfold validate_context. solve_neutral. Qed.
#[global] Instance neutral_fetch_cac_config : Neutral fetch_cac_config.
Proof. unfold fetch_cac_config. solve_neutral. Qed.
#[global] Instance neutral_change_reason ws r :
  Neutral (fetch_and_validate_change_reason_with_function ws r).
Proof. unfold fetch_and_validate_change_reason_with_function. solve_neutral. Qed.
#[global] Instance neutral_webhook_status e r v : Neutral (webhook_status e r v).
Proof. unfold webhook_status. solve_neutral. Qed.
End neutral_calls.

(** * The handlers refine the abstract machine

    [sim t t']: the tables [t'] are reached from [t] by steps of [Spec]. Every
    request leaves the service in such tables, also when it fails. *)

Definition abs_group (g : ExperimentGroup) : Group :=
  mkGroup (g_group_type g) (g_traffic_percentage g) (list_to_set (g_member_experiment_ids g))
    (g_buckets g).

Definition abs (t : Tables) : Spec := mkSpec t.1 (abs_group <$> t.2).

(** The rows of the groups' table are under their own ids. *)
Definition keyed (t : Tables) : Prop := ∀ gid g, t.2 !! gid = Some g → g_id g = gid.

(** Between two requests, every experiment that runs has a group. *)
Definition staffed (t : Tables) : Prop :=
  ∀ id e, t.1 !! id = Some e → running (e_status e) → is_Some (e_experiment_group_id e).

Definition tidy (t : Tables) : Prop := keyed t ∧ staffed t.

Definition good (t : Tables) : Prop := inv (abs t) ∧ tidy t.
Definition sim (t t' : Tables) : Prop := rtc step (abs t) (abs t') ∧ tidy t'.

Lemma sim_refl t : good t → sim t t.
Proof. by intros [_ K]. Qed.

Lemma sim_good t t' : good t → sim t t' → good t'.
Proof. intros [I _] [S K]. split; [by eapply steps_inv|done]. Qed.

Lemma sim_trans t1 t2 t3 : sim t1 t2 → sim t2 t3 → sim t1 t3.
Proof. intros [S1 _] [S2 K]. split; [by etrans|done]. Qed.

(** ** Abstract tables after the statements *)

Section abs.
Implicit Types (es : gmap Z Experiment) (gs : gmap Z ExperimentGroup).

Lemma abs_lookup es gs gid : s_groups (abs (es, gs)) !! gid = abs_group <$> gs !! gid.
Proof. apply lookup_fmap. Qed.

Lemma abs_group_lookup es gs gid g :
  gs !! gid = Some g → s_groups (abs (es, gs)) !! gid = Some (abs_group g).
Proof. intros Hg. by rewrite abs_lookup, Hg. Qed.

Lemma abs_insert_row es gs id e : abs (<[id := e]> es, gs) = set_row id e (abs (es, gs)).
Proof. done. Qed.

Lemma abs_insert_group es gs gid g :
  abs (es, <[gid := g]> gs) = set_group_row gid (abs_group g) (abs (es, gs)).
Proof. unfold abs, set_group_row. simpl. by rewrite fmap_insert. Qed.

Lemma abs_delete_group es gs gid : abs (es, delete gid gs) = delete_group_row gid (abs (es, gs)).
Proof. unfold abs, delete_group_row. simpl. by rewrite fmap_delete. Qed.

Lemma keyed_insert es es' gs gid g : keyed (es, gs) → g_id g = gid → keyed (es', <[gid := g]> gs).
Proof.
  intros K Hg gid' g'. simpl. rewrite lookup_insert_Some.
  intros [[<- <-]|[_ ?]]; [done|by eapply K].
Qed.

Lemma keyed_delete es es' gs gid : keyed (es, gs) → keyed (es', delete gid gs).
Proof. intros K gid' g'. simpl. rewrite lookup_delete_Some. intros [_ ?]. by eapply K. Qed.

Lemma tidy_row es gs id e :
  tidy (es, gs) → (running (e_status e) → is_Some (e_experiment_group_id e)) →
  tidy (<[id := e]> es, gs).
Proof.
  intros [K S] He. split; [done|]. intros id2 e2. simpl. rewrite lookup_insert_Some.
  intros [[<- <-]|[_ ?]]; [done|by eapply S].
Qed.

Lemma tidy_group es gs gid g : tidy (es, gs) → g_id g = gid → tidy (es, <[gid := g]> gs).
Proof. intros [K S] Hg. split; [by eapply keyed_insert|done]. Qed.

Lemma tidy_delete es gs gid : tidy (es, gs) → tidy (es, delete gid gs).
Proof. intros [K S]. split; [by eapply keyed_delete|done]. Qed.

(** Rows whose status asks nothing of their group. *)
Lemma grouped_row e gid : e_experiment_group_id e = Some gid →
  running (e_status e) → is_Some (e_experiment_group_id e).
Proof. intros ->. eauto. Qed.

Lemma closed_row e : closed (e_status e) →
  running (e_status e) → is_Some (e_experiment_group_id e).
Proof. intros Hc Hr. by apply running_not_closed in Hr. Qed.

Lemma created_row e : e_status e = CREATED →
  running (e_status e) → is_Some (e_experiment_group_id e).
Proof. by intros Hc ?%running_not_created. Qed.

Lemma same_identity_fields e e' :
  e_id e' = e_id e → e_created_at e' = e_created_at e → e_created_by e' = e_created_by e →
  e_name e' = e_name e → e_experiment_type e' = e_experiment_type e →
  e_context e' = e_context e → e_variants e' = e_variants e → same_identity e e'.
Proof. intros ?????? Hv. split; [done..|]. unfold variant_ids. by rewrite Hv. Qed.
End abs.

#[export] Hint Resolve tidy_row tidy_group tidy_delete grouped_row closed_row created_row
  : superposition.

(** The statements' rules in weakest-precondition style need the error
    postcondition at the same tables. *)
Ltac wp_auto :=
  repeat first
    [ apply wp_bind
    | apply wp_neutral; [solve_neutral; fail|intros ?|assumption]
    | apply wp_bad; assumption ].

(** ** Group operations *)

Section groups.
Context `{Env} `{RowOrder} `{SetOrder} `{FloatText} `{Blake3}.
Context {Rok : RowOrderOk _} {Sok : SetOrderOk _}.
Implicit Types (es : gmap Z Experiment) (gs : gmap Z ExperimentGroup).

Lemma set_order_to_set (s : gset Z) : list_to_set (set_order s) = s.
Proof. apply leibniz_equiv. rewrite (set_order_perm (S:=_) s). apply list_to_set_elements. Qed.

Lemma wp_add_members gid members req user Φ Ψ es gs :
  (∀ g g', gs !! gid = Some g → g_group_type g = UserCreated → g_id g' = g_id g →
     abs_group g' = mkGroup UserCreated (g_traffic_percentage g)
       (list_to_set (e_id <$> members) ∪ list_to_set (g_member_experiment_ids g)) (g_buckets g) →
     Φ g' (es, <[gid := g']> gs)) →
  Ψ (es, gs) → wp (add_members gid members req user) Φ Ψ (es, gs).
Proof.
  intros HΦ HΨ. unfold add_members. case_bool_decide; [by apply wp_bad|].
  apply wp_bind, wp_fetch_group; [|done]. intros g Hg.
  case_bool_decide as Hty; [by apply wp_bad|].
  apply wp_bind, wp_lift; [|done]. intros ms Hms.
  apply wp_bind, wp_neutral; [apply _|intros time|done].
  apply wp_update_group; [|done]. intros g2 Hg2. simplify_eq.
  assert (g_group_type g = UserCreated) as Hu by (by destruct (g_group_type g)).
  apply (HΦ g); [done..|]. unfold validate_experiment_group_constraints in Hms.
  apply result_bind_ok in Hms as (_ & _ & [= <-]).
  unfold abs_group. simpl. by rewrite Hu, set_order_to_set.
Qed.

Lemma or_unexpected_ok {A} (r : result string A) a : or_unexpected r = Ok a ↔ r = Ok a.
Proof. destruct r; naive_solver. Qed.

(** The product of the group's traffic does not wrap once the buckets fit. *)
Lemma system_product e t bs product traffic :
  variants_ok e → (0 ≤ t)%Z → update_bucket_allocation e Buckets.default t = Ok bs →
  u8_mul (wrap8 (Z.of_nat (length (e_variants e)))) t = Ok product →
  or_unexpected (TrafficPercentage.try_from product) = Ok traffic →
  traffic = group_traffic e t.
Proof.
  intros V Ht Hup Hmul [-> _]%or_unexpected_ok%TrafficPercentage.traffic_percentage_try_from_ok.
  unfold u8_mul in Hmul. case_bool_decide; [|done]. injection Hmul as <-.
  destruct (decide (t = 0)%Z) as [->|Hne]; [unfold group_traffic; lia|].
  assert (rebucketed e (Z.to_nat t) Buckets.default bs) as R.
  { apply (update_rebucketed e Buckets.default 0 t); [apply V..| |done|done].
    intros w _. apply default_held. }
  pose proof (balanced_le e _ _ (vo_nodup _ V) (rb_balanced _ _ _ _ R)) as Hle.
  rewrite (rb_length _ _ _ _ R) in Hle. change (length Buckets.default) with 100 in Hle.
  unfold group_traffic. rewrite wrap8_id; [done|]. unfold u8. nia.
Qed.

Lemma wp_create_system e t user Φ Ψ es gs :
  variants_ok e → (0 ≤ t)%Z →
  (∀ g bs, gs !! g_id g = None → update_bucket_allocation e Buckets.default t = Ok bs →
     abs_group g = mkGroup SystemGenerated (group_traffic e t) {[e_id e]} bs →
     Φ g (es, <[g_id g := g]> gs)) →
  Ψ (es, gs) → wp (create_system_generated_experiment_group e t user) Φ Ψ (es, gs).
Proof.
  intros V Ht HΦ HΨ. unfold create_system_generated_experiment_group. cbn zeta.
  apply wp_bind, wp_neutral; [apply _|intros id|done].
  apply wp_bind, wp_neutral; [apply _|intros time|done].
  apply wp_bind, wp_lift; [|done]. intros product Hp.
  apply wp_bind, wp_lift; [|done]. intros traffic Htr.
  apply wp_bind, wp_lift; [|done]. intros bs Hbs.
  do 2 (apply wp_bind, wp_neutral; [apply _|intros ?|done]).
  apply wp_insert_group; [|done]. simpl. intros Hfresh.
  apply (HΦ (mkExperimentGroup _ _ _ _ _ _ _ _ _ _ _ _ _ _) bs); [done..|].
  unfold abs_group. simpl. rewrite union_empty_r_L. f_equal.
  by eapply system_product.
Qed.

(** What a reallocation does to its group. *)
Lemma wp_update_buckets e gid t user Φ Ψ es gs :
  keyed (es, gs) →
  (∀ g g' bs, gs !! gid = Some g → update_bucket_allocation e (g_buckets g) t = Ok bs →
     g_id g' = gid →
     abs_group g' = reallocated (match g_group_type g with
                                 | SystemGenerated => group_traffic e t
                                 | UserCreated => g_traffic_percentage g
                                 end) bs (abs_group g) →
     Φ tt (es, <[gid := g']> gs)) →
  Ψ (es, gs) → wp (update_experiment_group_buckets e gid t user) Φ Ψ (es, gs).
Proof.
  intros K HΦ HΨ. unfold update_experiment_group_buckets.
  apply wp_bind, wp_fetch_group; [|done]. intros g Hg.
  apply wp_bind, wp_lift; [|done]. intros traffic Htr.
  apply wp_bind, wp_lift; [|done]. intros bs Hbs.
  do 2 (apply wp_bind, wp_neutral; [apply _|intros ?|done]).
  apply wp_execute_update_group. rewrite (K gid g Hg), (alter_found _ _ _ g) by done.
  apply (HΦ g _ bs); [done..| |].
  - simpl. by apply (K gid).
  - unfold abs_group, reallocated. simpl. f_equal. destruct (g_group_type g).
    + by injection Htr as <-.
    + by apply or_unexpected_ok, TrafficPercentage.traffic_percentage_try_from_ok in Htr as [-> _].
Qed.

Lemma wp_detach e gid user Φ Ψ es gs :
  keyed (es, gs) →
  (∀ g bs, gs !! gid = Some g → update_bucket_allocation e (g_buckets g) 0 = Ok bs →
     if bool_decide (g_group_type g = SystemGenerated) then Φ tt (es, delete gid gs)
     else ∀ g', g_id g' = gid →
       abs_group g' = mkGroup (g_group_type g) (g_traffic_percentage g)
         (list_to_set (g_member_experiment_ids g) ∖ {[e_id e]}) bs →
       Φ tt (es, <[gid := g']> gs)) →
  Ψ (es, gs) → wp (detach_experiment_from_group e gid user) Φ Ψ (es, gs).
Proof.
  intros K HΦ HΨ. unfold detach_experiment_from_group.
  apply wp_bind, wp_fetch_group; [|done]. intros g Hg.
  apply wp_bind, wp_lift; [|done]. intros bs Hbs. specialize (HΦ g bs Hg Hbs).
  do 2 (apply wp_bind, wp_neutral; [apply _|intros ?|done]).
  apply wp_bind, wp_execute_update_group. rewrite (alter_found _ _ _ g) by done.
  case_bool_decide.
  - apply wp_delete_group. by rewrite delete_insert_eq.
  - apply wp_ret, HΦ; [simpl; by apply (K gid)|]. unfold abs_group. simpl. f_equal.
    apply set_eq. intros id. rewrite elem_of_difference, !elem_of_list_to_set, elem_of_filterb.
    rewrite negb_true_iff, bool_decide_eq_false. set_solver.
Qed.

(** The rows a query selects. *)
Lemma elem_of_select p es e :
  e ∈ List.filter p (row_order es).*2 ↔ (∃ id, es !! id = Some e) ∧ p e = true.
Proof.
  rewrite elem_of_filterb, list_elem_of_fmap. f_equiv. split.
  - intros ([id e2] & -> & Hin). rewrite (row_order_perm (R:=_) _ es) in Hin.
    apply elem_of_map_to_list in Hin. eauto.
  - intros [id He]. exists (id, e). split; [done|]. rewrite (row_order_perm (R:=_) _ es).
    by apply elem_of_map_to_list.
Qed.

(** The variants of several experiments. *)
Definition all_variants (l : list Experiment) : gset string :=
  ⋃ ((λ e, list_to_set (variant_ids e)) <$> l).

Lemma release_clear l bs bs' :
  (∀ e, e ∈ l → variants_ok e ∧ ∃ c, balanced e c bs) → NoDup (e_id <$> l) →
  release_buckets l bs = Ok bs' → bs' = clear (all_variants l) bs.
Proof.
  revert bs. induction l as [|e l IH]; intros bs Hl Hnd Hr.
  { injection Hr as <-. by rewrite clear_empty. }
  simpl in Hr. apply result_bind_ok in Hr as (bs1 & Hup & Hr).
  rewrite fmap_cons in Hnd. apply NoDup_cons in Hnd as [He Hnd].
  destruct (Hl e) as [V [c Hb]]; [set_solver|].
  rewrite (release_is_clear e c bs bs1) in Hr by (done || apply V).
  apply IH in Hr; [|intros e2 He2|done].
  - subst bs'. rewrite clear_clear. f_equal. unfold all_variants. simpl. set_solver.
  - destruct (Hl e2) as [V2 [c2 Hb2]]; [set_solver|]. split; [done|]. exists c2. intros w Hw.
    rewrite (rebucketed_other e 0 bs _ w (clear_rebucketed e bs)); [by apply Hb2|].
    intros Hw'. apply He, list_elem_of_fmap. exists e2. split; [|done].
    apply (variant_of_inj _ _ w); [by apply (vo_own _ V)|by apply (vo_own _ V2)].
Qed.

Lemma NoDup_select p es :
  (∀ id e, es !! id = Some e → e_id e = id) → NoDup (e_id <$> List.filter p (row_order es).*2).
Proof.
  intros Hk.
  assert (∀ l : list (Z * Experiment), NoDup l.*1 → (∀ id e, (id, e) ∈ l → e_id e = id) →
    NoDup (e_id <$> List.filter p l.*2)) as Hgen.
  { induction l as [|[id e] l IH]; intros Hnd Hl; [constructor|].
    rewrite fmap_cons in Hnd. apply NoDup_cons in Hnd as [Hid Hnd]. simpl in Hid |- *.
    specialize (IH Hnd ltac:(set_solver)). destruct (p e); [|done].
    rewrite fmap_cons. apply NoDup_cons. split; [|done]. intros Hin. apply Hid.
    apply list_elem_of_fmap in Hin as (e2 & Heq & [Hin _]%elem_of_filterb).
    apply list_elem_of_fmap in Hin as ([id2 e3] & -> & Hin). simpl in Heq.
    apply list_elem_of_fmap. exists (id2, e3). split; [|done]. simpl.
    rewrite <-(Hl id e), Heq by set_solver. apply Hl. set_solver. }
  apply Hgen; [rewrite (row_order_perm (R:=_) _ es); apply NoDup_fst_map_to_list|].
  intros id e. rewrite (row_order_perm (R:=_) _ es). intros Hin%elem_of_map_to_list. by apply Hk.
Qed.

Lemma ensure_experiments_exist_ok ids l msg u :
  ensure_experiments_exist ids l msg = Ok u → ids ⊆ list_to_set (e_id <$> l).
Proof.
  unfold ensure_experiments_exist. case_bool_decide as E; simpl; [|done]. intros _.
  assert (ids ∖ list_to_set (e_id <$> l) = ∅) as Hd.
  { rewrite <-(set_order_to_set (ids ∖ _)), E. done. }
  intros x Hx. destruct (decide (x ∈ (list_to_set (e_id <$> l) : gset Z))) as [?|Hn]; [done|].
  assert (x ∈ ids ∖ list_to_set (e_id <$> l)) as Hin by by apply elem_of_difference.
  rewrite Hd in Hin. by apply elem_of_empty in Hin.
Qed.

Lemma wp_remove_members gid req user Φ Ψ es gs :
  (∀ g g' rem bs, gs !! gid = Some g → g_group_type g = UserCreated → g_id g' = g_id g →
     rem = List.filter (λ e, bool_decide (e_id e ∈ (list_to_set (gm_member_experiment_ids req) : gset Z)))
             (row_order es).*2 →
     release_buckets rem (g_buckets g) = Ok bs →
     abs_group g' = mkGroup UserCreated (g_traffic_percentage g)
       (list_to_set (g_member_experiment_ids g) ∖ list_to_set (gm_member_experiment_ids req)) bs →
     Φ g' (es, <[gid := g']> gs)) →
  Ψ (es, gs) → wp (remove_members gid req user) Φ Ψ (es, gs).
Proof.
  intros HΦ HΨ. unfold remove_members. case_bool_decide; [by apply wp_bad|].
  apply wp_bind, wp_fetch_group; [|done]. intros g Hg.
  case_bool_decide as Hty; [by apply wp_bad|]. cbn zeta.
  apply wp_bind, wp_select. apply wp_bind, wp_lift; [|done]. intros _ _.
  apply wp_bind, wp_lift; [|done]. intros bs Hbs.
  apply wp_bind, wp_neutral; [apply _|intros time|done].
  apply wp_update_group; [|done]. intros g2 Hg2. simplify_eq.
  assert (g_group_type g = UserCreated) as Hu by (by destruct (g_group_type g)).
  eapply (HΦ g); [done..|]. unfold abs_group. simpl. by rewrite Hu, set_order_to_set.
Qed.
End groups.
