(* ===== verification/RefineExperiments.v ===== *)
(** * The experiment handlers refine the abstract machine *)

From S2P Require Import Prelude Pages Json Types Text Effects Config ExpModels Bucketing BucketAlloc CacClient ExpChecks CacStore Store Groups Experiments Reallocation Spec Refine.

Lemma set_status_identity e st cv grp user time cr :
  same_identity e (set_status e st cv grp user time cr).
Proof. by apply same_identity_fields. Qed.
Lemma set_ramped_identity e started t grp user time cr :
  same_identity e (set_ramped e started t grp user time cr).
Proof. by apply same_identity_fields. Qed.
Lemma set_experiment_group_state e grp user time cr :
  same_state e (set_experiment_group e grp user time cr).
Proof. split; [by apply same_identity_fields|done..]. Qed.
#[export] Hint Resolve set_status_identity set_ramped_identity set_experiment_group_state
  : superposition.

Lemma pausable_inprogress st : ExperimentStatusType.pausable st = true → st = INPROGRESS.
Proof. by destruct st. Qed.
Lemma resumable_paused st : ExperimentStatusType.resumable st = true → st = PAUSED.
Proof. by destruct st. Qed.
Lemma concludable_inprogress st : ExperimentStatusType.concludable st = true → st = INPROGRESS.
Proof. by destruct st. Qed.
Lemma discardable_open st : ExperimentStatusType.discardable st = true → ¬ closed st.
Proof. destruct st; intros E [?|?]; done. Qed.

Lemma set_row_twice id e1 e2 s : set_row id e2 (set_row id e1 s) = set_row id e2 s.
Proof. unfold set_row. simpl. by rewrite insert_insert_eq. Qed.

Lemma set_row_group id e gid g s :
  set_row id e (set_group_row gid g s) = set_group_row gid g (set_row id e s).
Proof. done. Qed.

(** A change of one row that is a step. *)
Lemma sim_row es gs id e' :
  good (es, gs) → (running (e_status e') → is_Some (e_experiment_group_id e')) →
  step (abs (es, gs)) (set_row id e' (abs (es, gs))) →
  sim (es, gs) (<[id := e']> es, gs).
Proof. intros [_ K] He Hs. split; [by apply rtc_once|by apply tidy_row]. Qed.

Lemma good_row es gs id e : good (es, gs) → es !! id = Some e → row_ok id e.
Proof. intros [I _]. apply I. Qed.

Lemma good_staffed es gs id e :
  good (es, gs) → es !! id = Some e → running (e_status e) → is_Some (e_experiment_group_id e).
Proof. intros [_ [_ S]]. apply S. Qed.

Lemma good_keyed es gs : good (es, gs) → keyed (es, gs).
Proof. by intros [_ [K _]]. Qed.

Lemma good_tidy es gs : good (es, gs) → tidy (es, gs).
Proof. by intros [_ K]. Qed.

Lemma good_link es gs id e gid :
  good (es, gs) → es !! id = Some e → e_experiment_group_id e = Some gid →
  ∃ g, gs !! gid = Some g ∧ id ∈ g_member_experiment_ids g ∧
    balanced e (Z.to_nat (e_traffic_percentage e)) (g_buckets g).
Proof.
  intros [I _] He Hg. destruct (inv_link _ I _ _ _ He Hg) as (g0 & Hg0 & Hm & Hb & _).
  rewrite abs_lookup in Hg0. destruct (gs !! gid) as [g|] eqn:E; [|done]. injection Hg0 as <-.
  exists g. split_and!; [done| |done]. simpl in Hm. by apply elem_of_list_to_set in Hm.
Qed.

(** The buckets a linked experiment releases. *)
Lemma good_release es gs id e gid g bs :
  good (es, gs) → es !! id = Some e → e_experiment_group_id e = Some gid → gs !! gid = Some g →
  update_bucket_allocation e (g_buckets g) 0 = Ok bs →
  bs = clear (list_to_set (variant_ids e)) (g_buckets g).
Proof.
  intros G He Hl Hg Hup. destruct (good_link _ _ _ _ _ G He Hl) as (g2 & Hg2 & _ & Hb).
  simplify_eq. pose proof (ro_variants _ _ (good_row _ _ _ _ G He)) as V.
  eapply release_is_clear; [apply V..|done|done].
Qed.

Section experiments.
Context `{Env} `{RowOrder} `{SetOrder} `{KeyOrder} `{FloatText} `{Blake3} `{JsonText} `{TimeText}.
Context {Rok : RowOrderOk _} {Sok : SetOrderOk _}.
Implicit Types (es : gmap Z Experiment) (gs : gmap Z ExperimentGroup).

(** ** Validations write no table *)

#[global] Instance neutral_validate_delete c i vs : Neutral (validate_delete_experiment_variants c i vs).
Proof. unfold validate_delete_experiment_variants. solve_neutral. Qed.
#[global] Instance neutral_validate_control o c : Neutral (validate_control_overrides o c).
Proof. unfold validate_control_overrides. solve_neutral. Qed.
#[global] Instance neutral_validate_experiment c k i f : Neutral (validate_experiment c k i f).
Proof. unfold validate_experiment. solve_neutral. Qed.
#[global] Instance neutral_validate_default ws c x k i :
  Neutral (validate_default_experiment ws c x k i).
Proof. unfold validate_default_experiment. solve_neutral. Qed.
#[global] Instance neutral_winner e i c d r v : Neutral (winner_operations e i c d r v).
Proof. unfold winner_operations. solve_neutral. Qed.
#[global] Instance neutral_conclude_operations e i w d r vs ops b :
  Neutral (conclude_operations e i w d r vs ops b).
Proof.
  revert ops b. induction vs as [|v vs IH]; intros ops b; simpl; [apply _|].
  apply neutral_bind; [apply _|intros c]. case_match; [apply IH|].
  apply neutral_bind; [apply _|intros winner]. apply IH.
Qed.

(** ** Pause and resume *)

Lemma wp_state_change ws cr act event Ψ es gs :
  Ψ (es, gs) → wp act (λ _, Ψ) Ψ (es, gs) →
  wp (state_change_handler ws cr act event) (λ _, Ψ) Ψ (es, gs).
Proof.
  intros HΨ Hact. unfold state_change_handler.
  apply wp_bind, wp_neutral; [apply _|intros _|done]. apply wp_bind.
  eapply wp_mono; [exact Hact| |done]. intros [e v] t Ht. by apply wp_neutral; [solve_neutral|..].
Qed.

Lemma wp_switch id (ok : ExperimentStatusType → bool) msg st cr user es gs :
  good (es, gs) → running st →
  (∀ st0, ok st0 = true → running st0 ∧ status_step st0 st) →
  wp (experiment ← fetch_experiment id;
      if negb (ok (e_status experiment)) then bad msg
      else time ← now; update_experiment id (λ e,
        set_status e st (e_chosen_variant e) (e_experiment_group_id e) user time cr))
    (λ _, sim (es, gs)) (sim (es, gs)) (es, gs).
Proof.
  intros G Hst Hok. pose proof (sim_refl _ G) as Hsim.
  apply wp_bind, wp_fetch_experiment; [|done]. intros e He.
  destruct (ok (e_status e)) eqn:E; simpl; [|by apply wp_bad].
  apply wp_bind, wp_neutral; [apply _|intros time|done].
  apply wp_update_experiment; [|done]. intros e2 He2. simplify_eq.
  destruct (Hok _ E) as [Hrun Hstep].
  apply sim_row; [done|intros _; simpl; by eapply (good_staffed es gs)|].
  eapply step_switch; eauto with superposition.
Qed.

Lemma pause_sim ws id cr user es gs :
  good (es, gs) → wp (pause_handler ws id cr user) (λ _, sim (es, gs)) (sim (es, gs)) (es, gs).
Proof.
  intros G. apply wp_state_change; [by apply sim_refl|]. apply wp_bind.
  eapply wp_mono; [apply (wp_switch id ExperimentStatusType.pausable)| |done]; [done|by right| |].
  - intros st ->%pausable_inprogress. split; [by left|constructor].
  - intros e t Ht. by apply wp_ret.
Qed.

Lemma resume_sim ws id cr user es gs :
  good (es, gs) → wp (resume_handler ws id cr user) (λ _, sim (es, gs)) (sim (es, gs)) (es, gs).
Proof.
  intros G. apply wp_state_change; [by apply sim_refl|]. apply wp_bind.
  eapply wp_mono; [apply (wp_switch id ExperimentStatusType.resumable)| |done]; [done|by left| |].
  - intros st ->%resumable_paused. split; [by right|constructor].
  - intros e t Ht. by apply wp_ret.
Qed.

(** ** Ending an experiment *)

Lemma wp_close_experiment id e st cv user cr es gs :
  good (es, gs) → es !! id = Some e → status_step (e_status e) st → closed st →
  wp (close_experiment e (λ time e, set_status e st cv None user time cr) user)
    (λ _, sim (es, gs)) (sim (es, gs)) (es, gs).
Proof.
  intros G He Hst Hcl. pose proof (sim_refl _ G) as Hsim.
  pose proof (good_keyed _ _ G) as K. pose proof (good_tidy _ _ G) as T. assert (e_id e = id) as Hid by (by apply (good_row es gs)).
  unfold close_experiment. rewrite Hid. apply wp_transaction, wp_bind.
  destruct (e_experiment_group_id e) as [gid|] eqn:Hgid.
  - apply wp_detach; [done| |done]. intros g bs Hg Hup.
    pose proof (good_release _ _ _ _ _ _ _ G He Hgid Hg Hup) as ->.
    pose proof (abs_group_lookup es gs gid g Hg) as Hag.
    case_bool_decide as Hty.
    + apply wp_bind, wp_neutral; [apply _|intros time|done].
      apply wp_update_experiment; [|done]. intros e2 He2. simplify_eq.
      split; [|eauto with superposition]. apply rtc_once. rewrite abs_insert_row, abs_delete_group.
      eapply step_close_system; eauto with superposition.
    + intros g' Hk Hg'. apply wp_bind, wp_neutral; [apply _|intros time|done].
      apply wp_update_experiment; [|done]. intros e2 He2.
      assert (e2 = e) as -> by congruence.
      split; [|eauto with superposition]. rewrite abs_insert_row, abs_insert_group, Hg', Hid.
      set (e1 := set_experiment_group e None user time cr).
      assert (sg_type (abs_group g) = UserCreated) as Hu by (simpl; by destruct (g_group_type g)).
      eapply rtc_l; [apply (step_leave _ id e e1 gid (abs_group g));
        eauto with superposition|].
      apply rtc_once.
      rewrite <-(set_row_twice id e1 (set_status e st cv None user time cr)).
      eapply (step_close _ id e1); simpl; try done. by rewrite lookup_insert_eq.
  - apply wp_ret. apply wp_bind, wp_neutral; [apply _|intros time|done].
    apply wp_update_experiment; [|done]. intros e2 He2. simplify_eq.
    apply sim_row; [done|by eapply closed_row|]. eapply step_close; eauto with superposition.
Qed.

Lemma discard_sim ws id tags cr user es gs :
  good (es, gs) →
  wp (discard_handler ws id tags cr user) (λ _, sim (es, gs)) (sim (es, gs)) (es, gs).
Proof.
  intros G. pose proof (sim_refl _ G) as Hsim. apply wp_state_change; [done|].
  unfold discard. apply wp_bind, wp_fetch_experiment; [|done]. intros e He.
  destruct (ExperimentStatusType.discardable (e_status e)) eqn:E; simpl; [|by apply wp_bad].
  apply wp_bind, wp_neutral; [apply _|intros ops|done].
  apply wp_bind, wp_neutral; [apply neutral_call|intros response|done].
  apply wp_bind, wp_neutral; [apply _|intros [_ v]|done].
  apply wp_bind. eapply wp_mono; [eapply wp_close_experiment| |done]; [done|done| |by right|].
  - constructor. by apply discardable_open.
  - intros e' t Ht. by apply wp_ret.
Qed.

Lemma conclude_sim ws id tags req user es gs :
  good (es, gs) →
  wp (conclude_handler ws id tags req user) (λ _, sim (es, gs)) (sim (es, gs)) (es, gs).
Proof.
  intros G. pose proof (sim_refl _ G) as Hsim. apply wp_state_change; [done|].
  unfold conclude. apply wp_bind, wp_fetch_experiment; [|done]. intros e He. cbn zeta.
  destruct (ExperimentStatusType.concludable (e_status e)) eqn:E; cbn; [|by apply wp_bad].
  apply wp_bind, wp_neutral; [apply _|intros [ops b]|done].
  destruct b; cbn; [|by apply wp_bad].
  apply wp_bind, wp_neutral; [apply neutral_call|intros response|done].
  apply wp_bind, wp_neutral; [apply _|intros [_ v]|done].
  apply wp_bind. eapply wp_mono; [eapply wp_close_experiment| |done]; [done|done| |by left|].
  - apply concludable_inprogress in E as ->. constructor.
  - intros e' t Ht. by apply wp_ret.
Qed.
End experiments.

(** * Creation, ramping and updates refine the abstract machine *)

Section lifecycle.
Context `{Env} `{RowOrder} `{SetOrder} `{KeyOrder} `{FloatText} `{Blake3} `{JsonText} `{TimeText}.
Context {Rok : RowOrderOk _} {Sok : SetOrderOk _}.
Implicit Types (es : gmap Z Experiment) (gs : gmap Z ExperimentGroup).

(** ** Ramp *)

Lemma wp_ramp_checks ws e req user Φ Ψ t :
  (ExperimentStatusType.active (e_status e) = true → Φ tt t) → Ψ t →
  wp (ramp_checks ws e req user) Φ Ψ t.
Proof.
  intros HΦ HΨ. unfold ramp_checks.
  destruct (ExperimentStatusType.active (e_status e)); simpl; [|by apply wp_bad].
  case_match; [by apply wp_bad|].
  apply wp_neutral; [solve_neutral|intros []; by apply HΦ|done].
Qed.

Lemma active_not_created st :
  ExperimentStatusType.active st = true → st ≠ CREATED → st = INPROGRESS.
Proof. by destruct st. Qed.

Lemma wp_ramp_transaction id e req time user es gs :
  good (es, gs) → es !! id = Some e → ExperimentStatusType.active (e_status e) = true →
  (0 ≤ rr_traffic_percentage req)%Z →
  wp (ramp_transaction e req time user) (λ _, sim (es, gs)) (sim (es, gs)) (es, gs).
Proof.
  intros G He Hact Ht. pose proof (sim_refl _ G) as Hsim. pose proof (good_tidy _ _ G) as T.
  pose proof (good_keyed _ _ G) as K.
  pose proof (good_row _ _ _ _ G He) as R.
  assert (e_id e = id) as Hid by apply R. set (t := rr_traffic_percentage req) in *.
  unfold ramp_transaction. rewrite Hid. apply wp_transaction, wp_bind. unfold ramp_group.
  destruct (bool_decide (e_status e = CREATED) && bool_decide (e_experiment_group_id e = None))
    eqn:E.
  - apply andb_true_iff in E as [Hst%bool_decide_eq_true Hn%bool_decide_eq_true].
    apply wp_bind, wp_create_system; [apply R|done| |done]. intros g bs Hfresh Hup Hg.
    apply wp_ret. apply wp_update_experiment; [|done]. intros e2 He2.
    assert (e2 = e) as -> by congruence. split; [|eauto with superposition].
    apply rtc_once. rewrite abs_insert_row, abs_insert_group, Hg, Hid.
    eapply (step_enroll _ id e (set_ramped e _ t (Some (g_id g)) user time _) (g_id g) t bs);
      eauto with superposition.
    by rewrite abs_lookup, Hfresh.
  - destruct (e_experiment_group_id e) as [gid|] eqn:Hgid.
    + apply wp_bind, wp_update_buckets; [done| |done]. intros g g' bs Hg Hup Hk Hg'.
      apply wp_ret. apply wp_update_experiment; [|done]. intros e2 He2.
      assert (e2 = e) as -> by congruence. split; [|eauto with superposition].
      apply rtc_once. rewrite abs_insert_row, abs_insert_group, Hg'.
      eapply (step_ramp _ id e (set_ramped e _ t (Some gid) user time _) gid (abs_group g) t);
        eauto using abs_group_lookup with superposition.
    + apply wp_ret. apply wp_update_experiment; [|done]. intros e2 He2.
      assert (e2 = e) as -> by congruence.
      assert (e_status e = INPROGRESS) as Hst.
      { apply active_not_created; [done|]. intros Hst. by rewrite Hst in E. }
      destruct (good_staffed _ _ _ _ G He) as [gid Hg]; [by left|congruence].
Qed.

Lemma ramp_sim ws id req user es gs :
  good (es, gs) → (0 ≤ rr_traffic_percentage req)%Z →
  wp (ramp_handler ws id req user) (λ _, sim (es, gs)) (sim (es, gs)) (es, gs).
Proof.
  intros G Ht. pose proof (sim_refl _ G) as Hsim. unfold ramp_handler.
  apply wp_bind, wp_neutral; [apply _|intros _|done].
  apply wp_bind, wp_fetch_experiment; [|done]. intros e He.
  apply wp_bind, wp_ramp_checks; [|done]. intros Hact.
  apply wp_bind, wp_neutral; [apply _|intros time|done].
  apply wp_bind. eapply wp_mono; [by apply (wp_ramp_transaction id)| |done].
  intros e' t Hs. by apply wp_neutral; [solve_neutral|..].
Qed.

(** ** Create *)

(** The group after the experiment joined it. *)
Lemma joined_one g e :
  g_group_type g = UserCreated →
  mkGroup UserCreated (g_traffic_percentage g)
    (list_to_set (e_id <$> [e]) ∪ list_to_set (g_member_experiment_ids g)) (g_buckets g) =
  joined (e_id e) (abs_group g).
Proof. intros Hu. unfold joined, abs_group. simpl. by rewrite Hu, union_empty_r_L. Qed.

Lemma check_variant_types_nonempty variants u :
  check_variant_types variants = Ok u → variants ≠ [].
Proof. by intros Hok ->. Qed.

Lemma wp_create_checks ws req Φ Ψ t :
  (∀ keys, NoDup (v_id <$> rc_variants req) → rc_variants req ≠ [] → Φ keys t) → Ψ t →
  wp (create_checks ws req) Φ Ψ t.
Proof.
  intros HΦ HΨ. unfold create_checks. cbn zeta.
  apply wp_bind, wp_neutral; [apply _|intros _|done].
  apply wp_bind, wp_lift; [|done]. intros u Hty.
  apply wp_bind, wp_lift; [|done]. intros v0 _.
  destruct (Nat.eqb_spec (size (list_to_set (v_id <$> rc_variants req) : gset string))
    (length (rc_variants req))) as [Hsize|]; [|by apply wp_bad].
  cbn [negb]. apply wp_neutral; [solve_neutral| |done]. intros keys. apply HΦ.
  - apply NoDup_size_list_to_set. by rewrite Hsize, length_fmap.
  - by eapply check_variant_types_nonempty.
Qed.

(** The variants of the experiment are those of the request, under its id. *)
Definition renamed (id : Z) (variants variants' : list Variant) : Prop :=
  v_id <$> variants' = (λ v, pretty id +:+ "-" +:+ v_id v) <$> variants.

Lemma variant_put_id id c d cr v v' a :
  variant_put id c d cr v = Ok (v', a) → v_id v' = pretty id +:+ "-" +:+ v_id v.
Proof.
  unfold variant_put. intros (m & _ & (cx & _ & [= <- _])%result_bind_ok)%result_bind_ok. done.
Qed.

Lemma variant_puts_renamed id c d cr vs puts :
  try_map (variant_put id c d cr) vs = Ok puts → renamed id vs puts.*1.
Proof.
  intros Hp%try_map_ok. unfold renamed.
  induction Hp as [|v [v' a] vs puts Hv _ IH]; [done|]. rewrite !fmap_cons. cbn.
  f_equal; [by eapply variant_put_id|done].
Qed.

Lemma record_created_ids cs vs vs' : record_created cs vs = Ok vs' → v_id <$> vs' = v_id <$> vs.
Proof.
  revert vs vs'. induction cs as [|c cs IH]; intros vs vs'; simpl; [by intros [= <-]|].
  destruct vs as [|v vs]; [done|]. intros (rest & Hr & [= <-])%result_bind_ok.
  rewrite !fmap_cons. simpl. f_equal. by apply IH.
Qed.

Lemma wp_create_contexts id tags req Φ Ψ t :
  (∀ vs v, renamed id (rc_variants req) vs → Φ (vs, v) t) → Ψ t →
  wp (create_contexts id tags req) Φ Ψ t.
Proof.
  intros HΦ HΨ. unfold create_contexts.
  apply wp_bind, wp_lift; [|done]. intros puts Hputs. cbn zeta.
  apply wp_bind, wp_neutral; [apply neutral_call|intros response|done].
  apply wp_bind, wp_neutral; [apply _|intros [cs v]|done].
  apply wp_bind, wp_neutral; [apply _|intros created|done].
  apply wp_bind, wp_lift; [|done]. intros vs Hvs. apply wp_ret, HΦ.
  unfold renamed. rewrite (record_created_ids _ _ _ Hvs). by eapply variant_puts_renamed.
Qed.

Lemma string_app_inv s t u : s +:+ t = s +:+ u → t = u.
Proof. induction s as [|c s IH]; [done|]. intros [=]. auto. Qed.

Lemma renamed_ok e vs :
  renamed (e_id e) vs (e_variants e) → NoDup (v_id <$> vs) → vs ≠ [] → variants_ok e.
Proof.
  unfold renamed. intros Hr Hnd Hne. split; unfold variant_ids.
  - rewrite Hr. change (λ v, pretty (e_id e) +:+ "-" +:+ v_id v)
      with ((λ w, pretty (e_id e) +:+ "-" +:+ w) ∘ v_id).
    rewrite list_fmap_compose. apply NoDup_fmap; [|done].
    intros x y Hxy. by apply string_app_inv, (string_app_inv "-") in Hxy.
  - intros Hnil. rewrite Hnil in Hr. by destruct vs.
  - intros w. rewrite Hr. intros (v & -> & _)%list_elem_of_fmap. by exists (v_id v).
Qed.

Lemma wp_store_experiment e user es gs :
  good (es, gs) → variants_ok e → e_status e = CREATED → e_traffic_percentage e = 0%Z →
  wp (store_experiment e user) (λ _, sim (es, gs)) (sim (es, gs)) (es, gs).
Proof.
  intros G V Hst Ht. pose proof (sim_refl _ G) as Hsim. unfold store_experiment.
  assert (∀ e', same_state e e' → row_ok (e_id e) e') as Hrow.
  { intros e' Hss. assert (¬ closed (e_status e')) as Hc.
    { rewrite (ss_status _ _ Hss), Hst. by intros [?|?]. }
    split; [apply (ss_identity _ _ Hss)|by eapply variants_ok_identity; [apply Hss|]|..|done].
    - rewrite (ss_traffic _ _ Hss), Ht. done.
    - by rewrite (ss_traffic _ _ Hss). }
  apply wp_transaction, wp_bind, wp_insert_experiment; [|done]. intros Hfresh.
  destruct (e_experiment_group_id e) as [gid|] eqn:Hgid.
  - apply wp_bind, wp_bind, wp_neutral; [apply _|intros reason|done].
    apply wp_bind, wp_add_members; [|done]. intros g g' Hg Hu Hk Hg'.
    assert (g_id g' = gid) by (rewrite Hk; by apply (good_keyed es gs)).
    pose proof (good_tidy _ _ G). do 2 apply wp_ret. split; [|eauto with superposition].
    rewrite abs_insert_row, abs_insert_group, Hg'.
    set (e1 := set_experiment_group e None user 0 "").
    assert (same_state e e1) as He1 by apply set_experiment_group_state.
    eapply rtc_l; [by apply (step_create _ (e_id e) e1); [|apply Hrow|..]|].
    apply rtc_once. rewrite <-(set_row_twice (e_id e) e1 e), (set_row_group _ e1).
    rewrite joined_one by done.
    eapply (step_join _ (e_id e) e1 e gid (abs_group g)); simpl; try done.
    + by rewrite lookup_insert_eq.
    + by rewrite lookup_fmap, Hg.
  - apply wp_bind, wp_ret. apply wp_ret. apply sim_row; [done|by eapply created_row|].
    apply step_create; [done| |done..]. apply Hrow. split; [apply same_identity_refl|done..].
Qed.

Lemma create_sim ws tags req user es gs :
  good (es, gs) →
  wp (create_handler ws tags req user) (λ _, sim (es, gs)) (sim (es, gs)) (es, gs).
Proof.
  intros G. pose proof (sim_refl _ G) as Hsim. unfold create_handler.
  apply wp_bind, wp_create_checks; [|done]. intros keys Hnd Hne.
  apply wp_bind, wp_neutral; [apply _|intros id|done].
  apply wp_bind, wp_create_contexts; [|done]. intros vs v Hr.
  apply wp_bind, wp_neutral; [apply _|intros time|done].
  apply wp_bind. eapply wp_mono; [apply wp_store_experiment| |done]; [done| |done|done|].
  - by eapply renamed_ok.
  - intros e t Hs. by apply wp_neutral; [solve_neutral|..].
Qed.

(** ** Update *)

Lemma existing_variants_dom vs : dom (existing_variants vs) = list_to_set (v_id <$> vs).
Proof.
  apply set_eq. intros w. unfold existing_variants.
  rewrite elem_of_dom, collect_map_is_Some, elem_of_list_to_set, <-list_fmap_compose. done.
Qed.

Lemma existing_variants_id vs w v : existing_variants vs !! w = Some v → v_id v = w.
Proof. intros Hv%collect_map_Some. apply list_elem_of_fmap in Hv as (v' & [= -> ->] & _). done. Qed.

Lemma updated_variants_ids m vs nvs :
  (∀ w v, m !! w = Some v → v_id v = w) → try_map (updated_variant m) vs = Ok nvs →
  v_id <$> nvs = vu_id <$> vs.
Proof.
  intros Hm Hnvs%try_map_ok. induction Hnvs as [|v nv vs nvs Hv _ IH]; [done|].
  unfold updated_variant in Hv. apply result_bind_ok in Hv as (ex & Hex & [= <-]).
  destruct (m !! vu_id v) as [ex'|] eqn:E; [|done]. injection Hex as ->.
  rewrite !fmap_cons. simpl. f_equal; [by apply Hm|done].
Qed.

(** As many ids as the experiment has, and all of them, are its ids. *)
Lemma covering_ids (l k : list string) :
  NoDup l → length k = length l → (∀ w, w ∈ l → w ∈ k) → k ≡ₚ l.
Proof.
  intros Hnd Hlen Hsub. symmetry. apply submseteq_length_Permutation; [|lia].
  by apply NoDup_submseteq.
Qed.

Lemma wp_update_checks ws e keys vs Φ Ψ t :
  NoDup (variant_ids e) →
  (∀ nvs, e_status e = CREATED → v_id <$> nvs ≡ₚ variant_ids e → Φ nvs t) → Ψ t →
  wp (update_checks ws e keys vs) Φ Ψ t.
Proof.
  intros Hnd HΦ HΨ. unfold update_checks. case_bool_decide as Hst; [|by apply wp_bad].
  cbn zeta. cbn [negb].
  destruct (Nat.eqb_spec (length vs) (size (existing_variants (e_variants e)))) as [Hsize|];
    cbn [negb]; [|by apply wp_bad].
  apply wp_bind, wp_neutral; [apply _|intros _|done].
  case_bool_decide as Hdom; cbn [negb]; [|by apply wp_bad].
  apply wp_bind, wp_lift; [|done]. intros nvs Hnvs.
  apply wp_bind, wp_neutral; [apply _|intros cond|done].
  apply wp_bind, wp_neutral; [solve_neutral|intros _|done].
  apply wp_ret, HΦ; [done|]. unfold variant_ids in *.
  rewrite (updated_variants_ids _ _ _ (existing_variants_id _) Hnvs).
  rewrite existing_variants_dom in Hdom. apply covering_ids; [done| |set_solver].
  rewrite !length_fmap, Hsize, <-size_dom, existing_variants_dom.
  rewrite size_list_to_set by done. apply length_fmap.
Qed.

Lemma record_replaced_ids cs vs vs' : record_replaced cs vs = Ok vs' → v_id <$> vs' = v_id <$> vs.
Proof.
  revert vs vs'. induction cs as [|c cs IH]; intros vs vs'; cbn; [by intros [= <-]|].
  destruct vs as [|v vs]; [done|].
  assert ((rest ← record_replaced cs vs;
           Ok (mkVariant (v_id v) (v_variant_type v) (v_context_id v) (Some (x_override_id c))
                 (v_overrides v) :: rest)) = Ok vs' → v_id <$> vs' = v_id <$> v :: vs) as Hrest.
  { intros (rest & Hr & [= <-])%result_bind_ok. rewrite !fmap_cons. simpl. f_equal. by apply IH. }
  destruct (v_context_id v) as [c0|]; [|done]. case_bool_decide; [done|by intros].
Qed.

Lemma wp_update_contexts req tags nvs Φ Ψ t :
  (∀ nvs' v, v_id <$> nvs' = v_id <$> nvs → Φ (nvs', v) t) → Ψ t →
  wp (update_contexts req tags nvs) Φ Ψ t.
Proof.
  intros HΦ HΨ. unfold update_contexts.
  apply wp_bind, wp_neutral; [apply _|intros ops|done].
  apply wp_bind, wp_neutral; [apply neutral_call|intros response|done].
  apply wp_bind, wp_neutral; [apply _|intros [cs v]|done].
  apply wp_bind, wp_neutral; [apply _|intros created|done].
  apply wp_bind, wp_lift; [|done]. intros nvs' Hnvs. apply wp_ret, HΦ. by eapply record_replaced_ids.
Qed.

Lemma member_request_ids action id r :
  create_member_request action id = Ok r → gm_member_experiment_ids r = [id].
Proof. unfold create_member_request. by intros (cr & _ & [= <-])%result_bind_ok. Qed.

(** Removing the experiment alone from its group. *)
Lemma remove_one es gs id e gid g bs :
  good (es, gs) → es !! id = Some e → e_experiment_group_id e = Some gid → gs !! gid = Some g →
  release_buckets (List.filter (λ e', bool_decide (e_id e' ∈ (list_to_set [e_id e] : gset Z)))
    (row_order es).*2) (g_buckets g) = Ok bs →
  bs = clear (list_to_set (variant_ids e)) (g_buckets g).
Proof.
  intros G He Hl Hg Hr. pose proof (good_row _ _ _ _ G He) as R.
  destruct (good_link _ _ _ _ _ G He Hl) as (g2 & Hg2 & _ & Hb). simplify_eq.
  set (rem := List.filter _ _) in Hr.
  assert (∀ e2, e2 ∈ rem ↔ e2 = e) as Hrem.
  { intros e2. unfold rem. rewrite elem_of_select, bool_decide_eq_true.
    rewrite elem_of_list_to_set, list_elem_of_singleton. split.
    - intros [[id2 He2] Hin]. pose proof (ro_id _ _ (good_row _ _ _ _ G He2)).
      pose proof (ro_id _ _ R). congruence.
    - intros ->. split; [by exists id|done]. }
  apply release_clear in Hr.
  - subst bs. f_equal. apply set_eq. intros w. unfold all_variants.
    rewrite elem_of_union_list. split.
    + intros (X & (e2 & -> & He2%Hrem)%list_elem_of_fmap & Hw). by subst e2.
    + intros Hw. exists (list_to_set (variant_ids e)). split; [|done].
      apply list_elem_of_fmap. exists e. split; [done|by apply Hrem].
  - intros e2 ->%Hrem. split; [apply R|]. eauto.
  - apply NoDup_select. intros id2 e2 He2. by apply (good_row es gs).
Qed.

Lemma set_overrides_identity e nvs keys d m grp user time cr :
  v_id <$> nvs ≡ₚ variant_ids e → same_identity e (set_overrides e nvs keys d m grp user time cr).
Proof. intros Hp. by split. Qed.

(** The group after the experiment left it. *)
Lemma left_by_one g id vs :
  g_group_type g = UserCreated →
  mkGroup UserCreated (g_traffic_percentage g)
    (list_to_set (g_member_experiment_ids g) ∖ list_to_set [id])
    (clear (list_to_set vs) (g_buckets g)) =
  left_by {[id]} (list_to_set vs) (abs_group g).
Proof. intros Hu. unfold left_by, abs_group. simpl. by rewrite Hu, union_empty_r_L. Qed.


(** One group and one row: the experiment edited, leaving and joining. *)
Section one_group.
Context (es : gmap Z Experiment) (gs : gmap Z ExperimentGroup) (id : Z) (e e' : Experiment).
Context (G : good (es, gs)) (He : es !! id = Some e) (Hss : same_state e e').

Lemma sim_edit :
  e_status e = CREATED → e_experiment_group_id e' = e_experiment_group_id e →
  sim (es, gs) (<[id := e']> es, gs).
Proof.
  intros Hst Hg. pose proof (ss_status _ _ Hss).
  apply sim_row; [done|apply created_row; congruence|]. by eapply step_edit.
Qed.

Lemma sim_leave gid g g' :
  e_status e = CREATED → e_experiment_group_id e = Some gid → e_experiment_group_id e' = None →
  gs !! gid = Some g → g_group_type g = UserCreated → g_id g' = g_id g →
  abs_group g' = left_by {[id]} (list_to_set (variant_ids e)) (abs_group g) →
  sim (es, gs) (<[id := e']> es, <[gid := g']> gs).
Proof.
  intros Hst Hg0 Hn Hg Hu Hk Hg'. assert (g_id g' = gid) by (rewrite Hk; by apply (good_keyed es gs)).
  pose proof (good_tidy _ _ G). assert (e_status e' = CREATED) by (by rewrite (ss_status _ _ Hss)).
  split; [|eauto with superposition]. apply rtc_once.
  rewrite abs_insert_row, abs_insert_group, Hg'.
  eapply step_leave; eauto using abs_group_lookup.
Qed.

Lemma sim_join gid g g' :
  e_status e = CREATED → e_experiment_group_id e = None → e_experiment_group_id e' = Some gid →
  gs !! gid = Some g → g_group_type g = UserCreated → g_id g' = g_id g →
  abs_group g' = joined id (abs_group g) →
  sim (es, gs) (<[id := e']> es, <[gid := g']> gs).
Proof.
  intros Hst Hg0 Hn Hg Hu Hk Hg'. assert (g_id g' = gid) by (rewrite Hk; by apply (good_keyed es gs)).
  pose proof (good_tidy _ _ G). assert (e_status e' = CREATED) by (by rewrite (ss_status _ _ Hss)).
  split; [|eauto with superposition]. apply rtc_once.
  rewrite abs_insert_row, abs_insert_group, Hg'.
  eapply step_join; eauto using abs_group_lookup.
Qed.
End one_group.

Lemma set_experiment_group_back e e' grp user time cr :
  same_state e e' → same_state (set_experiment_group e grp user time cr) e'.
Proof. intros [[] ? ?]. split; [split|..]; done. Qed.

(** Moving between two groups: leaving, then joining. *)
Lemma sim_move es gs id e e' cur g1 g1' gid g2 g2' :
  good (es, gs) → es !! id = Some e → e_status e = CREATED → same_state e e' →
  e_experiment_group_id e = Some cur → e_experiment_group_id e' = Some gid → gid ≠ cur →
  gs !! cur = Some g1 → g_group_type g1 = UserCreated → g_id g1' = g_id g1 →
  abs_group g1' = left_by {[id]} (list_to_set (variant_ids e)) (abs_group g1) →
  gs !! gid = Some g2 → g_group_type g2 = UserCreated → g_id g2' = g_id g2 →
  abs_group g2' = joined id (abs_group g2) →
  sim (es, gs) (<[id := e']> es, <[gid := g2']> (<[cur := g1']> gs)).
Proof.
  intros G He Hst Hss Hg0 Hg' Hne Hg1 Hu1 Hk1 Ha1 Hg2 Hu2 Hk2 Ha2.
  set (e1 := set_experiment_group e None "" 0 "").
  assert (sim (es, gs) (<[id := e1]> es, <[cur := g1']> gs)) as Hleave.
  { by eapply sim_leave. }
  eapply sim_trans; [exact Hleave|]. rewrite <-(insert_insert_eq es id e' e1).
  apply (sim_join _ _ id e1 e') with (g := g2); try done.
  - by eapply sim_good.
  - apply lookup_insert_eq.
  - by apply set_experiment_group_back.
  - by rewrite lookup_insert_ne.
Qed.

Section store_update.
Context (es : gmap Z Experiment) (gs : gmap Z ExperimentGroup) (id : Z) (e : Experiment).
Context (G : good (es, gs)) (He : es !! id = Some e) (Hst : e_status e = CREATED).

(** The row is stored after its group's. *)
Lemma wp_store_row (f : Z → Experiment → Experiment) gs' :
  (∀ time, sim (es, gs) (<[id := f time e]> es, gs')) →
  wp (time ← now; update_experiment (e_id e) (f time)) (λ _, sim (es, gs))
    (λ _, sim (es, gs) (es, gs)) (es, gs').
Proof.
  intros Hs. pose proof (sim_refl _ G) as Hsim.
  assert (e_id e = id) as -> by (by apply (good_row es gs)).
  apply wp_bind, wp_neutral; [apply _|intros time|done].
  apply wp_update_experiment; [|done]. intros e2 He2.
  assert (e2 = e) as -> by congruence. apply Hs.
Qed.

Lemma wp_remove_one gid req user Φ :
  e_experiment_group_id e = Some gid → gm_member_experiment_ids req = [e_id e] →
  (∀ g g', gs !! gid = Some g → g_group_type g = UserCreated → g_id g' = g_id g →
     abs_group g' = left_by {[e_id e]} (list_to_set (variant_ids e)) (abs_group g) →
     Φ g' (es, <[gid := g']> gs)) →
  wp (remove_members gid req user) Φ (λ _, sim (es, gs) (es, gs)) (es, gs).
Proof.
  intros Hg0 Hreq HΦ. pose proof (sim_refl _ G) as Hsim.
  apply wp_remove_members; [|done]. rewrite Hreq. intros g g' rem bs Hg Hu Hk -> Hr Hg'.
  apply (HΦ g); [done..|]. rewrite Hg'. rewrite (remove_one es gs id e gid g bs) by done.
  by apply left_by_one.
Qed.

Lemma wp_store_update req nvs keys user :
  v_id <$> nvs ≡ₚ variant_ids e →
  wp (store_update e req nvs keys user) (λ _, sim (es, gs)) (sim (es, gs)) (es, gs).
Proof.
  intros Hnvs. pose proof (sim_refl _ G) as Hsim.
  assert (e_id e = id) as Hid by (by apply (good_row es gs)).
  assert (∀ d m grp time cr, same_state e (set_overrides e nvs keys d m grp user time cr)) as Hss.
  { intros. split; [by apply set_overrides_identity|done..]. }
  unfold store_update. cbn zeta. apply wp_transaction, wp_bind.
  unfold handle_experiment_group_membership. cbn zeta.
  assert (∀ grp, e_experiment_group_id e = I64Update.get_value grp →
    wp (mret grp) (λ r t', wp (time ← now; update_experiment (e_id e) (λ e2, set_overrides e2 nvs keys
        (default (e_description e) (ru_description req))
        (default (e_metrics e) (ru_metrics req)) (I64Update.get_value r) user time
        (ru_change_reason req))) (λ _, sim (es, gs)) (λ _, sim (es, gs) (es, gs)) t')
      (λ _, sim (es, gs) (es, gs)) (es, gs)) as Hunchanged.
  { intros grp Hg. apply wp_ret, wp_store_row. intros time. by apply (sim_edit es gs id e). }
  destruct (ru_experiment_group_id req) as [[gid|]|] eqn:Er,
    (e_experiment_group_id e) as [cur|] eqn:Hcur.
  - case_bool_decide as Hne; cbn [negb]; [by apply Hunchanged|].
    apply wp_bind, wp_bind, wp_lift; [|done]. intros r1 Hr1.
    apply wp_bind, wp_remove_one; [done|by eapply member_request_ids|].
    intros g1 g1' Hg1 Hu1 Hk1 Ha1. apply wp_ret.
    apply wp_bind, wp_neutral; [apply _|intros r2|done].
    apply wp_bind, wp_add_members; [|done]. intros g2 g2' Hg2 Hu2 Hk2 Ha2.
    rewrite lookup_insert_ne in Hg2 by done. apply wp_ret, wp_store_row. intros time.
    rewrite joined_one in Ha2 by done. rewrite Hid in *.
    by eapply (sim_move es gs id e _ cur g1 g1' gid g2 g2').
  - apply wp_bind, wp_neutral; [apply _|intros r|done].
    apply wp_bind, wp_add_members; [|done]. intros g g' Hg Hu Hk Hg'.
    apply wp_ret, wp_store_row. intros time. rewrite joined_one in Hg' by done.
    rewrite Hid in *. by eapply (sim_join es gs id e).
  - apply wp_bind, wp_bind, wp_lift; [|done]. intros r Hr.
    apply wp_bind, wp_remove_one; [done|by eapply member_request_ids|].
    intros g g' Hg Hu Hk Hg'. apply wp_ret. rewrite Hst. cbn.
    apply wp_ret, wp_store_row. intros time. rewrite Hid in *. by eapply (sim_leave es gs id e).
  - by apply Hunchanged.
  - by apply Hunchanged.
  - by apply Hunchanged.
Qed.
End store_update.

Lemma update_sim ws id tags req user es gs :
  good (es, gs) →
  wp (update_handler ws id tags req user) (λ _, sim (es, gs)) (sim (es, gs)) (es, gs).
Proof.
  intros G. pose proof (sim_refl _ G) as Hsim. unfold update_handler.
  apply wp_bind, wp_neutral; [apply _|intros _|done].
  apply wp_bind, wp_neutral; [apply _|intros v0|done]. cbn zeta.
  apply wp_bind, wp_fetch_experiment; [|done]. intros e He.
  pose proof (good_row _ _ _ _ G He) as R.
  apply wp_bind, wp_update_checks; [apply R| |done]. intros nvs Hst Hnvs.
  apply wp_bind, wp_update_contexts; [|done]. intros nvs' v Hnvs'.
  apply wp_bind. eapply wp_mono; [apply (wp_store_update es gs id)| |done]; [done..| |].
  - by rewrite Hnvs'.
  - intros e' t Hs. by apply wp_neutral; [solve_neutral|..].
Qed.
End lifecycle.
