(* ===== verification/RefineGroups.v ===== *)
(** * The group handlers refine the abstract machine *)

From S2P Require Import Prelude Pages Json Types Text Effects ExpModels Bucketing BucketAlloc CacClient ExpChecks CacStore Store Groups Experiments Reallocation Spec Refine RefineExperiments.

(** The rows read are those of the table, one for each id. *)
Definition rows_of (es : gmap Z Experiment) (l : list Experiment) : Prop :=
  (∀ e, e ∈ l → es !! e_id e = Some e) ∧ NoDup (e_id <$> l).

Lemma rows_of_cons es e l e' :
  rows_of es (e :: l) → rows_of (<[e_id e := e']> es) l ∧ es !! e_id e = Some e.
Proof.
  intros [Hl Hnd]. rewrite fmap_cons in Hnd. apply NoDup_cons in Hnd as [He Hnd].
  split; [split; [|done]|apply Hl; set_solver]. intros e2 He2. rewrite lookup_insert_ne.
  - apply Hl. set_solver.
  - intros Heq. apply He, list_elem_of_fmap. eauto.
Qed.

Lemma set_group_row_id es gs gid g :
  gs !! gid = Some g → set_group_row gid (abs_group g) (abs (es, gs)) = abs (es, gs).
Proof. intros Hg. rewrite <-abs_insert_group. by rewrite insert_id. Qed.

Lemma set_group_row_twice gid g1 g2 s : set_group_row gid g2 (set_group_row gid g1 s) = set_group_row gid g2 s.
Proof. unfold set_group_row. simpl. by rewrite insert_insert_eq. Qed.

Lemma set_group_row_comm gid1 gid2 g1 g2 s :
  gid1 ≠ gid2 →
  set_group_row gid1 g1 (set_group_row gid2 g2 s) = set_group_row gid2 g2 (set_group_row gid1 g1 s).
Proof. intros Hne. unfold set_group_row. simpl. f_equal. by apply insert_insert_ne. Qed.

Section groups.
Context `{Env} `{RowOrder} `{SetOrder} `{KeyOrder} `{FloatText} `{Blake3} `{JsonText} `{TimeText}.
Context {Rok : RowOrderOk _} {Sok : SetOrderOk _}.
Implicit Types (es : gmap Z Experiment) (gs : gmap Z ExperimentGroup).

Lemma select_rows_of p es gs :
  good (es, gs) → rows_of es (List.filter p (row_order es).*2).
Proof.
  intros G. split.
  - intros e [[id He] _]%elem_of_select. by rewrite (ro_id _ _ (good_row _ _ _ _ G He)).
  - apply NoDup_select. intros id e He. by apply (good_row es gs).
Qed.

Lemma wp_fetch_members new old Φ Ψ es gs :
  good (es, gs) →
  (∀ l, rows_of es l → (∀ e, e ∈ l → e_status e = CREATED) → Φ l (es, gs)) → Ψ (es, gs) →
  wp (fetch_and_validate_members new old) Φ Ψ (es, gs).
Proof.
  intros G HΦ HΨ. unfold fetch_and_validate_members. case_bool_decide.
  { apply wp_ret, HΦ; [split; [by intros ? ?%elem_of_nil|constructor]|by intros ? ?%elem_of_nil]. }
  cbn zeta. case_match; [by apply wp_bad|]. apply wp_bind, wp_select.
  apply wp_bind, wp_neutral; [apply _|intros _|done]. apply wp_ret, HΦ.
  - by eapply select_rows_of.
  - intros e [_ Hp]%elem_of_select. apply andb_true_iff in Hp as [_ Hp].
    by apply bool_decide_eq_true in Hp.
Qed.

(** ** Joining *)

(** The loop that writes the group's id into its new members' rows: together
    with the group's update that follows it, a sequence of joins. *)
Lemma wp_add_loop l gid time user s0 g P Φ es gs :
  inv s0 → rtc step s0 (set_group_row gid g (abs (es, gs))) → sg_type g = UserCreated →
  rows_of es l → (∀ e, e ∈ l → e_status e = CREATED) → P → tidy (es, gs) →
  (∀ es', tidy (es', gs) → rtc step s0 (set_group_row gid (mkGroup UserCreated (sg_traffic g)
      (list_to_set (e_id <$> l) ∪ sg_members g) (sg_buckets g)) (abs (es', gs))) →
    Φ tt (es', gs)) →
  wp (add_experiment_group_id_loop l gid time user) Φ (λ _, P) (es, gs).
Proof.
  intros I0. revert g es. induction l as [|e l IH]; intros g es Hs Hu Hl Hcr HP T HΦ.
  { apply wp_ret, HΦ; [done|]. simpl. rewrite union_empty_l_L, <-Hu. by destruct g. }
  cbn [add_experiment_group_id_loop]. cbn zeta.
  pose proof (steps_inv _ _ I0 Hs) as I.
  apply wp_bind. set (k := λ _ : unit, _).
  assert (e_experiment_group_id e = None ∨ e_experiment_group_id e = Some gid →
    k tt (es, gs)) as Hk.
  { intros Hg. unfold k. apply wp_bind, wp_neutral; [apply _|intros cr|done].
    apply wp_bind, wp_execute_update_experiment.
    set (e' := set_experiment_group e (Some gid) user time cr).
    destruct (rows_of_cons _ _ _ e' Hl) as [Hl' He]. rewrite (alter_found _ _ _ e) by done.
    fold e'. assert (step (set_group_row gid g (abs (es, gs)))
      (set_group_row gid (joined (e_id e) g) (abs (<[e_id e := e']> es, gs)))) as Hstep.
    { assert (same_state e e') as Hss by apply set_experiment_group_state.
      assert (e_status e = CREATED) by (apply Hcr; set_solver). destruct Hg as [Hg|Hg].
      - assert (s_groups (set_group_row gid g (abs (es, gs))) !! gid = Some g) as Hgid
          by (simpl; by rewrite lookup_insert_eq).
        pose proof (step_join (set_group_row gid g (abs (es, gs))) _ e e' gid g He
          ltac:(done) Hss Hg eq_refl Hgid Hu) as Hj.
        by rewrite set_group_row_twice in Hj.
      - assert (joined (e_id e) g = g) as ->.
        { destruct (inv_link _ I (e_id e) e gid He Hg) as (g2 & Hg2 & Hm & _).
          simpl in Hg2. rewrite lookup_insert_eq in Hg2. injection Hg2 as <-. unfold joined.
          assert ({[e_id e]} ∪ sg_members g = sg_members g) as -> by set_solver. by destruct g. }
        rewrite abs_insert_row, <-set_row_group. by eapply step_edit. }
    apply (IH (joined (e_id e) g)); [by eapply rtc_r|done|done|set_solver|done|by eapply tidy_row, grouped_row|].
    intros es' T' Hs'. apply HΦ; [done|]. simpl in Hs'. rewrite fmap_cons. simpl.
    assert ({[e_id e]} ∪ list_to_set (e_id <$> l) ∪ sg_members g =
      list_to_set (e_id <$> l) ∪ ({[e_id e]} ∪ sg_members g)) as -> by set_solver. done. }
  destruct (e_experiment_group_id e) as [gid2|]; [|apply wp_ret, Hk; by left].
  case_bool_decide as E; cbn [negb]; [|by apply wp_bad]. apply wp_ret, Hk. right. congruence.
Qed.

(** Whatever happens, the loop leaves the groups alone. *)
Lemma wp_add_loop_groups l gid time user P es gs :
  P → wp (add_experiment_group_id_loop l gid time user) (λ _ t', t'.2 = gs) (λ _, P) (es, gs).
Proof.
  intros HP. revert es. induction l as [|e l IH]; intros es; [by apply wp_ret|].
  cbn [add_experiment_group_id_loop]. cbn zeta.
  apply wp_bind, wp_neutral; [solve_neutral|intros _|done].
  apply wp_bind, wp_neutral; [apply _|intros cr|done].
  apply wp_bind, wp_execute_update_experiment. apply IH.
Qed.

Lemma add_members_sim ws gid req user es gs :
  good (es, gs) →
  wp (add_members_handler ws gid req user) (λ _, sim (es, gs)) (sim (es, gs)) (es, gs).
Proof.
  intros G. pose proof (sim_refl _ G) as Hsim. unfold add_members_handler.
  apply wp_bind, wp_neutral; [apply _|intros _|done].
  apply wp_bind, wp_fetch_members; [done| |done]. intros l Hl Hcr.
  apply wp_transaction, wp_bind. unfold validate_and_add_experiment_group_id.
  apply wp_bind, wp_neutral; [apply _|intros time|done].
  assert (∀ g, gs !! gid = Some g → g_group_type g = UserCreated →
    wp (add_experiment_group_id_loop l gid time user)
      (λ _ t', wp (add_members gid l req user) (λ _, sim (es, gs)) (λ _, sim (es, gs) (es, gs)) t')
      (λ _, sim (es, gs) (es, gs)) (es, gs)) as Huser.
  { intros g Hg Hu. eapply (wp_add_loop l gid time user (abs (es, gs)) (abs_group g));
      [apply G|by rewrite set_group_row_id|done|done|done|done|apply G|].
    intros es' T Hs. apply wp_add_members; [|done]. intros g2 g' Hg2 _ Hk Hg'.
    rewrite Hg in Hg2. injection Hg2 as <-.
    split; [by rewrite abs_insert_group, Hg'|].
    apply tidy_group; [done|]. rewrite Hk. by apply (good_keyed es gs). }
  destruct (gs !! gid) as [g|] eqn:Hg; [destruct (g_group_type g) eqn:Hu|]; [by eapply Huser|..].
  all: eapply wp_mono; [by apply wp_add_loop_groups| |done].
  all: intros _ [es' gs'] Hgs; simpl in Hgs; subst gs'.
  all: apply wp_add_members; [|done]; intros g2 g' Hg2 Hu2; congruence.
Qed.

Lemma create_group_sim ws req user es gs :
  good (es, gs) →
  wp (create_group_handler ws req user) (λ _, sim (es, gs)) (sim (es, gs)) (es, gs).
Proof.
  intros G. pose proof (sim_refl _ G) as Hsim. unfold create_group_handler. cbn zeta.
  apply wp_bind.
  eapply (wp_mono _ (λ l t, t = (es, gs) ∧ rows_of es l ∧ ∀ e, e ∈ l → e_status e = CREATED) _
    (λ t, t = (es, gs))); [|intros l t (-> & Hl & Hcr)|by intros t ->].
  { destruct (gc_member_experiment_ids req) as [ms|]; [by apply wp_fetch_members|].
    apply wp_ret. split_and!; [done|split; [by intros ? ?%elem_of_nil|constructor]|].
    by intros ? ?%elem_of_nil. }
  do 3 (apply wp_bind, wp_neutral; [apply _|intros _|done]).
  apply wp_bind, wp_neutral; [apply _|intros gid|done].
  apply wp_bind, wp_neutral; [apply _|intros time|done].
  apply wp_transaction, wp_bind. unfold validate_and_add_experiment_group_id.
  apply wp_bind, wp_neutral; [apply _|intros time2|done].
  destruct (gs !! gid) as [g|] eqn:Hg.
  { eapply wp_mono; [by apply wp_add_loop_groups| |done].
    intros _ [es' gs'] Hgs. simpl in Hgs. subst gs'.
    apply wp_insert_group; [|done]. simpl. congruence. }
  eapply (wp_add_loop l gid time2 user (abs (es, gs))
    (mkGroup UserCreated (gc_traffic_percentage req) ∅ Buckets.default));
    [apply G|apply rtc_once; apply step_new_group; by rewrite abs_lookup, Hg|done|done|done|done|apply G|].
  intros es' T Hs. apply wp_insert_group; [|done]. intros _.
  split; [|by apply tidy_group].
  rewrite abs_insert_group. unfold abs_group. simpl in *. by rewrite union_empty_r_L in Hs.
Qed.

(** ** Traffic and deletion *)

Lemma update_group_sim ws gid req user es gs :
  good (es, gs) →
  wp (update_group_handler ws gid req user) (λ _, sim (es, gs)) (sim (es, gs)) (es, gs).
Proof.
  intros G. pose proof (sim_refl _ G) as Hsim. unfold update_group_handler.
  apply wp_bind, wp_fetch_group; [|done]. intros g Hg.
  case_bool_decide as Hty; [by apply wp_bad|].
  apply wp_bind, wp_neutral; [apply _|intros _|done].
  apply wp_bind, wp_neutral; [apply _|intros time|done].
  apply wp_update_group; [|done]. intros g2 Hg2. rewrite Hg in Hg2. injection Hg2 as <-.
  assert (g_group_type g = UserCreated) as Hu by (by destruct (g_group_type g)).
  split; [|apply tidy_group; [apply G|simpl; by apply (good_keyed es gs)]].
  apply rtc_once. rewrite abs_insert_group.
  eapply (step_tune_group _ gid (abs_group g)); [by apply abs_group_lookup|done].
Qed.

Lemma delete_group_sim gid user es gs :
  good (es, gs) →
  wp (delete_group_handler gid user) (λ _, sim (es, gs)) (sim (es, gs)) (es, gs).
Proof.
  intros G. pose proof (sim_refl _ G) as Hsim. unfold delete_group_handler.
  apply wp_transaction. apply wp_bind, wp_neutral; [apply _|intros time|done].
  apply wp_bind, wp_update_group; [|done]. intros g Hg.
  case_bool_decide as Hm; cbn [negb]; [|by apply wp_bad].
  apply wp_bind, wp_delete_group. apply wp_ret. rewrite delete_insert_eq.
  split; [|apply tidy_delete, G]. apply rtc_once. rewrite abs_delete_group.
  eapply step_delete_group; [by apply abs_group_lookup|]. simpl in *. by rewrite Hm.
Qed.

(** ** Backfill *)

Lemma wp_backfill_loop l P es gs :
  good (es, gs) → rows_of es l →
  (∀ e, e ∈ l → running (e_status e) ∧ e_experiment_group_id e = None) → P →
  wp (backfill_loop l) (λ _, sim (es, gs)) (λ _, P) (es, gs).
Proof.
  revert es gs. induction l as [|e l IH]; intros es gs G Hl Hrun HP.
  { by apply wp_ret, sim_refl. }
  cbn [backfill_loop]. destruct (rows_of_cons es e l e Hl) as [_ He].
  pose proof (good_row _ _ _ _ G He) as R. destruct (Hrun e) as [Hr Hn]; [set_solver|].
  apply wp_bind, wp_create_system; [apply R|apply R| |done]. intros g bs Hfresh Hup Hg.
  apply wp_bind, wp_neutral; [apply _|intros cr|done].
  apply wp_bind, wp_neutral; [apply _|intros time|done].
  apply wp_bind, wp_execute_update_experiment. rewrite (alter_found _ _ _ e) by done.
  set (e' := set_experiment_group e (Some (g_id g)) backfill_user time cr).
  assert (sim (es, gs) (<[e_id e := e']> es, <[g_id g := g]> gs)) as Hs.
  { split; [|by eapply tidy_row, grouped_row; [apply tidy_group; [apply G|]|]]. apply rtc_once.
    rewrite abs_insert_row, abs_insert_group, Hg.
    eapply (step_enroll _ (e_id e) e e' (g_id g) (e_traffic_percentage e) bs); try done.
    - by right.
    - apply R.
    - by rewrite abs_lookup, Hfresh. }
  destruct (rows_of_cons es e l e' Hl) as [Hl' _].
  apply wp_bind. eapply wp_mono.
  - apply (IH _ _ (sim_good _ _ G Hs) Hl'); [|exact HP]. intros e2 He2. apply Hrun. set_solver.
  - intros gs' t Ht. apply wp_ret. by eapply sim_trans.
  - done.
Qed.

Lemma backfill_sim es gs :
  good (es, gs) → wp backfill_handler (λ _, sim (es, gs)) (sim (es, gs)) (es, gs).
Proof.
  intros G. pose proof (sim_refl _ G) as Hsim. unfold backfill_handler.
  apply wp_transaction, wp_bind, wp_select. apply wp_backfill_loop; [done| | |done].
  - by eapply select_rows_of.
  - intros e [_ Hp]%elem_of_select. apply andb_true_iff in Hp as [Hp Hn%bool_decide_eq_true].
    apply orb_true_iff in Hp as [Hp%bool_decide_eq_true|Hp%bool_decide_eq_true];
      (split; [|done]); [by left|by right].
Qed.

(** ** Leaving *)

(** The tables have the same experiments, with the same variants. *)
Definition alike (es es' : gmap Z Experiment) : Prop :=
  ∀ id, (λ e, (e_id e, e_variants e)) <$> es' !! id = (λ e, (e_id e, e_variants e)) <$> es !! id.

Lemma alike_insert es es0 id e e' :
  alike es0 es → es !! id = Some e → e_id e' = e_id e → e_variants e' = e_variants e →
  alike es0 (<[id := e']> es).
Proof.
  intros Ha He Hid Hv j. rewrite <-(Ha j). destruct (decide (id = j)) as [<-|Hne].
  - rewrite lookup_insert_eq, He. simpl. by rewrite Hid, Hv.
  - by rewrite lookup_insert_ne.
Qed.

Lemma all_variants_cons e l :
  all_variants (e :: l) = list_to_set (variant_ids e) ∪ all_variants l.
Proof. done. Qed.

Lemma left_by_all e l g :
  left_by (list_to_set (e_id <$> l)) (all_variants l)
    (left_by {[e_id e]} (list_to_set (variant_ids e)) g) =
  left_by (list_to_set (e_id <$> e :: l)) (all_variants (e :: l)) g.
Proof.
  unfold left_by. simpl. rewrite clear_clear, all_variants_cons. f_equal; [set_solver|f_equal; set_solver].
Qed.

(** One experiment leaves: its row in the tables, its place in the group still
    to be written. *)
Lemma leave_step s gid g e e' :
  s_experiments s !! e_id e = Some e → same_state e e' → e_experiment_group_id e = Some gid →
  e_experiment_group_id e' = None → sg_type g = UserCreated →
  step (set_group_row gid g s)
    (set_row (e_id e) e' (set_group_row gid (left_by {[e_id e]} (list_to_set (variant_ids e)) g) s)).
Proof.
  intros He Hss Hg Hn Hu.
  assert (s_groups (set_group_row gid g s) !! gid = Some g) as Hgid
    by (simpl; by rewrite lookup_insert_eq).
  pose proof (step_leave (set_group_row gid g s) _ e e' gid g He Hss Hg Hn Hgid Hu) as Hl.
  by rewrite set_group_row_twice in Hl.
Qed.

Lemma enroll_after_leave s gid g e e1 e' gid2 bs :
  e_id e = e_id e1 → s_experiments s !! e_id e = Some e → same_identity e1 e' →
  running (e_status e1) → e_status e' = e_status e1 →
  e_traffic_percentage e' = e_traffic_percentage e1 → (0 ≤ e_traffic_percentage e1)%Z →
  e_experiment_group_id e1 = None → e_experiment_group_id e' = Some gid2 → gid2 ≠ gid →
  s_groups s !! gid2 = None →
  update_bucket_allocation e' Buckets.default (e_traffic_percentage e1) = Ok bs →
  step (set_row (e_id e) e1 (set_group_row gid g s))
    (set_group_row gid g (set_row (e_id e) e' (set_group_row gid2
       (mkGroup SystemGenerated (group_traffic e' (e_traffic_percentage e1)) {[e_id e]} bs) s))).
Proof.
  intros Hid He Hi Hr Hst Ht Ht0 Hn Hg' Hne Hfresh Hup.
  set (s1 := set_row (e_id e) e1 (set_group_row gid g s)).
  assert (s_experiments s1 !! e_id e = Some e1) as He1 by (simpl; by rewrite lookup_insert_eq).
  assert (s_groups s1 !! gid2 = None) as Hf by (simpl; by rewrite lookup_insert_ne).
  pose proof (step_enroll s1 (e_id e) e1 e' gid2 (e_traffic_percentage e1) bs He1 Hi
    (or_intror (conj Hr (conj Hst eq_refl))) Ht0 Ht Hn Hg' Hf Hup) as Hs.
  rewrite set_row_group in Hs. unfold s1 in Hs. rewrite set_row_twice in Hs.
  rewrite (set_row_group (e_id e) e' gid g), (set_group_row_comm gid2 gid) in Hs by done.
  by rewrite <-(set_row_group (e_id e) e' gid2) in Hs.
Qed.

Lemma wp_remove_loop l gid time user s0 g0 g P Φ es0 es gs :
  inv s0 → rtc step s0 (set_group_row gid g (abs (es, gs))) → sg_type g = UserCreated →
  tidy (es, gs) → gs !! gid = Some g0 → rows_of es l → alike es0 es → P →
  (∀ es' gs', rtc step s0 (set_group_row gid
        (left_by (list_to_set (e_id <$> l)) (all_variants l) g) (abs (es', gs'))) →
     tidy (es', gs') → gs' !! gid = Some g0 → alike es0 es' →
     (∀ e, e ∈ l → e_experiment_group_id e = Some gid) → Φ tt (es', gs')) →
  wp (remove_experiment_group_id_loop l gid time user) Φ (λ _, P) (es, gs).
Proof.
  intros I0. revert g es gs. induction l as [|e l IH]; intros g es gs Hs Hu K Hg0 Hl Ha HP HΦ.
  { apply wp_ret, HΦ; try done; [|by intros ? ?%elem_of_nil].
    unfold left_by. rewrite fmap_nil. simpl. rewrite difference_empty_L, clear_empty. by destruct g. }
  cbn [remove_experiment_group_id_loop].
  pose proof (steps_inv _ _ I0 Hs) as I.
  apply wp_bind. destruct (e_experiment_group_id e) as [gid2|] eqn:Hg; [|by apply wp_bad].
  case_bool_decide as E; cbn [negb]; [subst gid2|by apply wp_bad].
  destruct (rows_of_cons _ _ _ e Hl) as [_ He].
  pose proof (inv_row _ I _ _ He) as R.
  assert (∀ grp gs1 cr, let e' := set_experiment_group e grp user time cr in
    rtc step s0 (set_group_row gid (left_by {[e_id e]} (list_to_set (variant_ids e)) g)
      (abs (<[e_id e := e']> es, gs1))) →
    tidy (<[e_id e := e']> es, gs1) → gs1 !! gid = Some g0 →
    wp (remove_experiment_group_id_loop l gid time user) Φ (λ _, P) (<[e_id e := e']> es, gs1)) as Hrest.
  { intros grp gs1 cr e' Hs1 K1 Hg1. destruct (rows_of_cons _ _ _ e' Hl) as [Hl' _].
    apply (IH (left_by {[e_id e]} (list_to_set (variant_ids e)) g)); try done.
    - by eapply alike_insert.
    - intros es' gs' Hs' K' Hg' Ha' Hall. rewrite left_by_all in Hs'. apply HΦ; try done.
      intros e2 [->|He2]%elem_of_cons; [done|by apply Hall]. }
  unfold group_after_removal.
  destruct (bool_decide (e_status e = INPROGRESS) || bool_decide (e_status e = PAUSED)) eqn:Er.
  - assert (running (e_status e)) as Hr.
    { apply orb_true_iff in Er as [Er|Er]; apply bool_decide_eq_true in Er; [by left|by right]. }
    apply wp_bind, wp_create_system; [apply R|apply R| |done]. intros g2 bs Hfresh Hup Hg2.
    assert (g_id g2 ≠ gid) as Hne by (intros <-; congruence).
    apply wp_ret. apply wp_bind, wp_neutral; [apply _|intros cr|done].
    apply wp_bind, wp_execute_update_experiment. rewrite (alter_found _ _ _ e) by done.
    apply Hrest; [|eapply tidy_row, grouped_row; [by apply tidy_group|done]|by rewrite lookup_insert_ne].
    eapply rtc_r; [eapply rtc_r; [exact Hs|]|].
    + apply (leave_step _ gid g e (set_experiment_group e None user time cr)); done.
    + rewrite abs_insert_row, abs_insert_group, Hg2.
      apply (enroll_after_leave (abs (es, gs)) gid _ e
        (set_experiment_group e None user time cr)
        (set_experiment_group e (Some (g_id g2)) user time cr)); try done.
      * apply R.
      * by rewrite abs_lookup, Hfresh.
  - apply wp_ret. apply wp_bind, wp_neutral; [apply _|intros cr|done].
    apply wp_bind, wp_execute_update_experiment. rewrite (alter_found _ _ _ e) by done.
    apply Hrest; [|apply tidy_row; [done|]; by intros [Hr|Hr]; simpl in Hr; rewrite Hr in Er|done]. eapply rtc_r; [exact Hs|].
    rewrite abs_insert_row, <-set_row_group.
    by apply leave_step.
Qed.

(** The rows of the leaving experiments, read again. *)
Lemma removed_buckets es es' gs gid g l ids bs :
  good (es, gs) → gs !! gid = Some g → alike es es' →
  l = List.filter (λ e, bool_decide (e_id e ∈ ids)) (row_order es).*2 →
  (∀ e, e ∈ l → e_experiment_group_id e = Some gid) →
  release_buckets (List.filter (λ e, bool_decide (e_id e ∈ (list_to_set ids : gset Z)))
    (row_order es').*2) (g_buckets g) = Ok bs →
  bs = clear (all_variants l) (g_buckets g).
Proof.
  intros G Hg Ha -> Hall Hr. set (l := List.filter _ (row_order es).*2) in *.
  set (l' := List.filter _ (row_order es').*2) in Hr.
  assert (∀ e', e' ∈ l' → ∃ e, e ∈ l ∧ e_id e' = e_id e ∧ e_variants e' = e_variants e) as Hback.
  { intros e' [[id He'] Hin]%elem_of_select. specialize (Ha id). rewrite He' in Ha. simpl in Ha.
    destruct (es !! id) as [e|] eqn:He; [|done]. injection Ha as Hid Hv. exists e.
    split; [|done]. apply elem_of_select. split; [by exists id|]. rewrite <-Hid.
    rewrite bool_decide_eq_true in Hin |- *. by apply elem_of_list_to_set in Hin. }
  assert (∀ e, e ∈ l → ∃ e', e' ∈ l' ∧ e_id e' = e_id e ∧ e_variants e' = e_variants e) as Hforth.
  { intros e [[id He] Hin]%elem_of_select. specialize (Ha id). rewrite He in Ha. simpl in Ha.
    destruct (es' !! id) as [e'|] eqn:He'; [|done]. injection Ha as Hid Hv. exists e'.
    split; [|done]. apply elem_of_select. split; [by exists id|]. rewrite Hid.
    rewrite bool_decide_eq_true in Hin |- *. by apply elem_of_list_to_set. }
  apply release_clear in Hr.
  - subst bs. f_equal. apply set_eq. intros w. unfold all_variants. rewrite !elem_of_union_list.
    split; intros (X & (e & -> & He)%list_elem_of_fmap & Hw).
    + destruct (Hback e He) as (e2 & He2 & _ & Hv). exists (list_to_set (variant_ids e2)).
      split; [apply list_elem_of_fmap; eauto|]. unfold variant_ids. by rewrite <-Hv.
    + destruct (Hforth e He) as (e2 & He2 & _ & Hv). exists (list_to_set (variant_ids e2)).
      split; [apply list_elem_of_fmap; eauto|]. unfold variant_ids. by rewrite Hv.
  - intros e' He'. destruct (Hback e' He') as (e & He & Hid & Hv).
    pose proof (Hall e He) as Hl. apply elem_of_select in He as [[id He] _].
    pose proof (ro_variants _ _ (good_row _ _ _ _ G He)) as [V1 V2 V3].
    destruct (good_link _ _ _ _ _ G He Hl) as (g2 & Hg2 & _ & Hb). simplify_eq.
    unfold balanced, variant_ids in *. rewrite <-Hv, <-Hid in *. split; [by split|eauto].
  - apply NoDup_select. intros id e' He'. specialize (Ha id). rewrite He' in Ha. simpl in Ha.
    destruct (es !! id) as [e|] eqn:He; [|done]. injection Ha as -> _. by apply (good_row es gs).
Qed.

Lemma remove_members_sim ws gid req user es gs :
  good (es, gs) →
  wp (remove_members_handler ws gid req user) (λ _, sim (es, gs)) (sim (es, gs)) (es, gs).
Proof.
  intros G. pose proof (sim_refl _ G) as Hsim. unfold remove_members_handler.
  apply wp_bind, wp_neutral; [apply _|intros _|done].
  apply wp_transaction, wp_bind. unfold validate_and_remove_experiment_group_id.
  apply wp_bind, wp_fetch_group; [|done]. intros g Hg.
  case_bool_decide as Hty; [by apply wp_bad|].
  assert (g_group_type g = UserCreated) as Hu by (by destruct (g_group_type g)).
  apply wp_bind, wp_select. apply wp_bind, wp_lift; [|done].
  set (l := List.filter _ _). intros u Hex. apply ensure_experiments_exist_ok in Hex.
  apply wp_bind, wp_neutral; [apply _|intros time|done].
  apply (wp_remove_loop l gid time user (abs (es, gs)) g (abs_group g) _ _ es); try done.
  - apply G.
  - by rewrite set_group_row_id.
  - apply G.
  - by eapply select_rows_of.
  - intros es' gs' Hs K' Hg' Ha Hall. apply wp_remove_members; [|done].
    intros g2 g' rem bs Hg2 _ Hk -> Hr Ha'. rewrite Hg' in Hg2. injection Hg2 as <-.
    split; [|apply tidy_group; [done|]; rewrite Hk; by apply (good_keyed es gs)].
    rewrite abs_insert_group, Ha'.
    rewrite (removed_buckets es es' gs gid g l _ bs G Hg Ha eq_refl Hall Hr).
    assert (list_to_set (gm_member_experiment_ids req) = list_to_set (e_id <$> l) :> gset Z) as ->;
      [|unfold left_by in Hs; simpl in Hs; by rewrite Hu in Hs].
    apply set_eq. intros id. split; [apply Hex|].
    rewrite !elem_of_list_to_set. intros (e & -> & [_ Hin]%elem_of_select)%list_elem_of_fmap.
    by apply bool_decide_eq_true in Hin.
Qed.
End groups.
