(* ===== verification/ServiceProps.v ===== *)
(** * Serving requests *)

From S2P Require Import Prelude Pages Json Types Text Effects ExpModels Bucketing BucketAlloc CacClient ExpChecks CacStore Store Groups Experiments Service Reallocation Spec Refine RefineExperiments RefineGroups.

(** ** Every request is a sequence of steps *)

Section serve.
Context `{Env} `{RowOrder} `{SetOrder} `{KeyOrder} `{FloatText} `{Blake3} `{JsonText} `{TimeText}.
Context {Rok : RowOrderOk _} {Sok : SetOrderOk _}.

Lemma wp_answer {A} (m : M A) (f : A → Answer) Q Ψ t :
  wp m (λ _, Q) Ψ t → wp (a ← m; mret (f a)) (λ _, Q) Ψ t.
Proof. intros Hm. apply wp_bind. eapply wp_mono; [exact Hm| |done]. intros a t' Ht. by apply wp_ret. Qed.

Lemma wp_route ws user r es gs :
  good (es, gs) → deserialize_body r = Ok tt →
  wp (route ws user r) (λ _, sim (es, gs)) (sim (es, gs)) (es, gs).
Proof.
  intros G Hr. destruct r; simpl; apply wp_answer.
  - by apply create_sim.
  - apply ramp_sim; [done|]. unfold deserialize_body, body_traffic in Hr.
    apply result_bind_ok in Hr as (t & Ht & _).
    destruct (TrafficPercentage.try_from _) as [t'|] eqn:E; [|done].
    apply TrafficPercentage.traffic_percentage_try_from_ok in E as [_ ?]. lia.
  - by apply update_sim.
  - by apply pause_sim.
  - by apply resume_sim.
  - by apply conclude_sim.
  - by apply discard_sim.
  - by apply create_group_sim.
  - by apply update_group_sim.
  - by apply add_members_sim.
  - by apply remove_members_sim.
  - by apply delete_group_sim.
  - by apply backfill_sim.
Qed.

Lemma serve_sim ws user r w :
  good (tables w) → sim (tables w) (tables (serve ws user r w).2).
Proof.
  intros G. pose proof (sim_refl _ G) as Hsim.
  assert (wp (serve ws user r) (λ _, sim (tables w)) (sim (tables w)) (tables w)) as Hwp.
  { unfold serve. apply wp_bind, wp_lift; [|done]. intros [] Hr. by apply wp_route. }
  specialize (Hwp w eq_refl). by destruct (serve ws user r w) as [[a|err] w'].
Qed.

Lemma serve_all_sim rs w : good (tables w) → sim (tables w) (tables (serve_all rs w)).
Proof.
  revert w. induction rs as [|[[ws user] r] rs IH]; intros w G; simpl; [by apply sim_refl|].
  pose proof (serve_sim ws user r w G) as Hs. eapply sim_trans; [exact Hs|].
  apply IH. by eapply sim_good.
Qed.

Lemma good_empty : good (tables empty_world).
Proof.
  split; [|split; intros ? ? ?; done]. unfold abs. simpl. rewrite fmap_empty. apply inv_empty.
Qed.

Lemma reachable_good rs : good (tables (serve_all rs empty_world)).
Proof. eapply sim_good; [apply good_empty|]. apply serve_all_sim, good_empty. Qed.

(** What the invariant says of a group's row. *)
Lemma good_member es gs gid g id :
  good (es, gs) → gs !! gid = Some g → id ∈ g_member_experiment_ids g →
  ∃ e, es !! id = Some e ∧ e_experiment_group_id e = Some gid.
Proof.
  intros [I _] Hg Hm. eapply (inv_member _ I gid (abs_group g) id).
  - by apply abs_group_lookup.
  - simpl. by apply elem_of_list_to_set.
Qed.

Lemma good_system_traffic es gs id e gid g :
  good (es, gs) → es !! id = Some e → e_experiment_group_id e = Some gid → gs !! gid = Some g →
  g_group_type g = SystemGenerated →
  g_traffic_percentage g = group_traffic e (e_traffic_percentage e).
Proof.
  intros [I _] He Hl Hg Hty. destruct (inv_link _ I _ _ _ He Hl) as (g2 & Hg2 & _ & _ & Hs).
  rewrite (abs_group_lookup _ _ _ g) in Hg2 by done. injection Hg2 as <-. by apply Hs.
Qed.

Lemma good_owner es gs gid g i b :
  good (es, gs) → gs !! gid = Some g → g_buckets g !! i = Some (Some b) →
  ∃ id e, es !! id = Some e ∧ e_experiment_group_id e = Some gid ∧ ¬ closed (e_status e) ∧
    b_experiment_id b = pretty id ∧ b_variant_id b ∈ variant_ids e.
Proof.
  intros G Hg Hb. pose proof G as [I _].
  destruct (inv_owner _ I gid (abs_group g) i b) as (id & e & Hm & He & Hv & Hid);
    [by apply abs_group_lookup|done|].
  simpl in Hm. apply elem_of_list_to_set in Hm.
  destruct (good_member _ _ _ _ _ G Hg Hm) as (e2 & He2 & Hl). simpl in He. simplify_eq.
  exists id, e. split_and!; [done|done| | |done].
  - by eapply (linked_not_closed (abs (es, gs))).
  - rewrite Hid. f_equal. by apply (good_row es gs).
Qed.
End serve.

(** ** Failed requests *)

Abbreviation Atomic := (AtomicOn tables).

#[export] Instance atomic_transaction {A} (m : M A) : Atomic (transaction m).
Proof. by apply atomic_transaction_by. Qed.
#[export] Instance atomic_update_experiment id f : Atomic (update_experiment id f).
Proof. intros w. unfold update_experiment. by destruct (w_experiments w !! id). Qed.
#[export] Instance atomic_update_group id f : Atomic (update_group id f).
Proof. intros w. unfold update_group. by destruct (w_groups w !! id). Qed.
#[export] Instance infallible_webhook_status `{Env} e r v : Infallible (webhook_status e r v).
Proof. intros w. unfold webhook_status. by do 2 eexists. Qed.

Section failed.
Context `{Env} `{RowOrder} `{SetOrder} `{KeyOrder} `{FloatText} `{Blake3} `{JsonText} `{TimeText}.

#[global] Instance neutral_fetch_members new old : Neutral (fetch_and_validate_members new old).
Proof. unfold fetch_and_validate_members. solve_neutral. Qed.
#[global] Instance neutral_create_checks ws req : Neutral (create_checks ws req).
Proof. unfold create_checks. solve_neutral. Qed.
#[global] Instance neutral_create_contexts id tags req : Neutral (create_contexts id tags req).
Proof. unfold create_contexts. solve_neutral. Qed.
#[global] Instance neutral_update_checks ws e keys vs : Neutral (update_checks ws e keys vs).
Proof. unfold update_checks. solve_neutral. Qed.
#[global] Instance neutral_update_contexts req tags vs : Neutral (update_contexts req tags vs).
Proof. unfold update_contexts. solve_neutral. Qed.

Lemma atomic_create ws tags req user : Atomic (create_handler ws tags req user).
Proof. unfold create_handler, store_experiment. solve_atomic. Qed.
Lemma atomic_update ws id tags req user : Atomic (update_handler ws id tags req user).
Proof. unfold update_handler, store_update. solve_atomic. Qed.
Lemma atomic_state_change ws cr act event :
  Atomic act → Atomic (state_change_handler ws cr act event).
Proof. intros Hact. unfold state_change_handler. solve_atomic. Qed.
Lemma atomic_pause ws id cr user : Atomic (pause_handler ws id cr user).
Proof. apply atomic_state_change. unfold pause. solve_atomic. Qed.
Lemma atomic_resume ws id cr user : Atomic (resume_handler ws id cr user).
Proof. apply atomic_state_change. unfold resume. solve_atomic. Qed.
Lemma atomic_conclude ws id tags req user : Atomic (conclude_handler ws id tags req user).
Proof. apply atomic_state_change. unfold conclude, close_experiment. solve_atomic. Qed.
Lemma atomic_discard ws id tags cr user : Atomic (discard_handler ws id tags cr user).
Proof. apply atomic_state_change. unfold discard, close_experiment. solve_atomic. Qed.
Lemma atomic_create_group ws req user : Atomic (create_group_handler ws req user).
Proof. unfold create_group_handler. solve_atomic. Qed.
Lemma atomic_update_group_handler ws id req user : Atomic (update_group_handler ws id req user).
Proof. unfold update_group_handler. solve_atomic. Qed.
Lemma atomic_add_members ws id req user : Atomic (add_members_handler ws id req user).
Proof. unfold add_members_handler. solve_atomic. Qed.
Lemma atomic_remove_members ws id req user : Atomic (remove_members_handler ws id req user).
Proof. unfold remove_members_handler. solve_atomic. Qed.

(** Every request but a ramp, which reads the configuration after it has
    committed. *)
Lemma atomic_serve ws user r :
  (∀ id req, r ≠ RampExperiment id req) → Atomic (serve ws user r).
Proof.
  intros Hr. unfold serve. apply atomic_bind; [apply _|intros _].
  destruct r; simpl; try (by edestruct Hr); (apply atomic_then; [|apply _]).
  - apply atomic_create.
  - apply atomic_update.
  - apply atomic_pause.
  - apply atomic_resume.
  - apply atomic_conclude.
  - apply atomic_discard.
  - apply atomic_create_group.
  - apply atomic_update_group_handler.
  - apply atomic_add_members.
  - apply atomic_remove_members.
  - apply atomic_transaction.
  - apply atomic_transaction.
Qed.
End failed.
