(* ===== verification/PlatformProps.v ===== *)
(** * What a call does to the platform

    A workspace's tables go through the requests of the two services, one after
    the other, whoever makes them: a caller, or an experimentation handler that
    asks the configuration service. A call touches the tables of one workspace,
    that it names. *)

From stdpp Require Import relations.
From S2P Require Import Prelude Pages Stack Json Types Text Effects Logic LogicProps Config ExpModels Bucketing BucketAlloc CacClient ExpChecks CacStore CacConfig Contexts Dimensions DefaultConfigs Functions CacServing QueryStrings CacQueries CacReduce CacService DimSpec CacInv CacRefine CacProps CacChanges CacServingProps Store Groups Experiments Queries Service Tenants Http Webhooks Organisations Internal Platform Refine ServiceProps.

(** ** Touching one workspace *)

Record touches (n : string) (R : relation Schema) (p p' : Platform) : Prop := {
  tc_organisations : pf_organisations p' = pf_organisations p;
  tc_workspaces : pf_workspaces p' = pf_workspaces p;
  tc_others m : m ≠ n → pf_schemas p' !! m = pf_schemas p !! m;
  tc_none : pf_schemas p !! n = None → pf_schemas p' !! n = None;
  tc_some s : pf_schemas p !! n = Some s → ∃ s', pf_schemas p' !! n = Some s' ∧ R s s';
}.

Lemma touches_refl n (R : relation Schema) `{!Reflexive R} p : touches n R p p.
Proof. split; eauto. Qed.

Lemma touches_trans n (R : relation Schema) `{!Transitive R} p1 p2 p3 :
  touches n R p1 p2 → touches n R p2 p3 → touches n R p1 p3.
Proof.
  intros [O1 W1 D1 N1 S1] [O2 W2 D2 N2 S2]. split; [congruence..| |auto|].
  - intros m Hm. by rewrite D2, D1.
  - intros s Hs. destruct (S1 s Hs) as (s2 & Hs2 & H12). destruct (S2 s2 Hs2) as (s3 & Hs3 & H23).
    eauto.
Qed.

Lemma touches_mono n (R R' : relation Schema) p p' :
  (∀ s s', R s s' → R' s s') → touches n R p p' → touches n R' p p'.
Proof.
  intros HR [? ? ? ? S]. split; [done..|]. intros s Hs. destruct (S s Hs) as (s' & ? & ?). eauto.
Qed.

Lemma touches_map {A B} n R p (m : A * Platform) (f : A → B) :
  touches n R p m.2 → touches n R p (let '(a, p') := m in (f a, p')).2.
Proof. by destruct m. Qed.

#[export] Hint Extern 1 (touches _ _ _ _) => apply touches_refl; apply _ : core.

(** ** Scopes *)

(** The schema that the headers, the path and the query of a request name. *)
Definition named_schema (req : HttpRequest) : string :=
  schema_name (default "" (HttpRequestExt.get_organisation_id req))
    (default "" (HttpRequestExt.get_workspace_id req)).

Section scopes.
Context `{AppState} `{UserText} `{Authenticator} `{Authorizer} `{RegexEngine}.
Implicit Types (req : HttpRequest) (p : Platform) (ext : Extensions) (context : WorkspaceContext).

(** What the middleware says of a request that passes it. *)
Lemma org_workspace_ok enable_org enable_workspace req user internal p ext p' :
  org_workspace_call enable_org enable_workspace req (authenticated user internal) p = (Ok ext, p') →
  ∀ context, ext_workspace ext = Some context →
    HttpRequestExt.get_workspace_id req = Some (wx_workspace_id context) ∧
    (if enable_org then HttpRequestExt.get_organisation_id req = Some (wx_organisation_id context)
     else wx_organisation_id context = default_organisation_id) ∧
    wx_schema_name context = schema_name (wx_organisation_id context) (wx_workspace_id context) ∧
    pf_workspaces p !! wx_schema_name context = Some (wx_settings context).
Proof.
  unfold org_workspace_call. intros E context Hc. unfold mbind, ST_bind, lift in E.
  destruct (is_excluded req) as [excluded|]; [|done].
  destruct excluded; [by injection E as <- <-|].
  assert (∀ o, match enable_org, HttpRequestExt.get_organisation_id req with
      | true, None => bad_argument required_org | true, Some org_id => Ok org_id
      | false, _ => Ok default_organisation_id end = Ok o →
      if enable_org then HttpRequestExt.get_organisation_id req = Some o
      else o = default_organisation_id) as Ho.
  { intros o. destruct enable_org, (HttpRequestExt.get_organisation_id req); naive_solver. }
  destruct (match enable_org, HttpRequestExt.get_organisation_id req with
    | true, None => bad_argument required_org | true, Some org_id => Ok org_id
    | false, _ => Ok default_organisation_id end) as [o|e]; [|done]. specialize (Ho o eq_refl).
  destruct enable_workspace; [|by injection E as <- <-].
  destruct (HttpRequestExt.get_workspace_id req) as [ws|]; [|done].
  unfold get_workspace in E. destruct (pf_workspaces p !! (o +:+ "_" +:+ ws)) as [row|] eqn:Er; [|done].
  simpl in E. unfold mret, ST_ret in E. injection E as <- <-. simpl in Hc. by injection Hc as <-.
Qed.

Lemma org_workspace_state enable_org enable_workspace req ext p :
  (org_workspace_call enable_org enable_workspace req ext p).2 = p.
Proof.
  unfold org_workspace_call, mbind, ST_bind, lift, get_workspace. destruct (is_excluded req) as [[]|]; [done| |done].
  destruct enable_org; destruct (HttpRequestExt.get_organisation_id req); try done;
    destruct enable_workspace; try done; destruct (HttpRequestExt.get_workspace_id req); try done;
    by destruct (pf_workspaces p !! _).
Qed.

(** A scope runs its handler on the platform it was given, or changes nothing. *)
Lemma serve_scope_cases {A} (P : Platform → Prop) enable_org enable_workspace resource action req
    (h : Extensions → Pf A) p :
  P p →
  (∀ user internal ext p', org_workspace_call enable_org enable_workspace req
     (authenticated user internal) p = (Ok ext, p') → P (h ext p).2) →
  P (serve_scope enable_org enable_workspace resource action req h p).2.
Proof.
  intros Hp Hh. unfold serve_scope. destruct (authn_call req) as [[user internal]|reply]; [|done].
  specialize (Hh user internal). unfold mbind, ST_bind.
  pose proof (org_workspace_state enable_org enable_workspace req (authenticated user internal) p) as Hs.
  destruct (org_workspace_call _ _ _ _ p) as [[ext|e] p1]; simpl in Hs; subst p1; [|done].
  specialize (Hh ext p eq_refl). unfold lift. destruct (authz_from_request _ _ _); [|done].
  by destruct (h ext p) as [r p1].
Qed.

Lemma workspace_handler_touches {A} n (R : relation Schema) `{!Reflexive R}
    (h : WorkspaceContext → User → Sc A) ext p :
  (∀ context, ext_workspace ext = Some context → wx_schema_name context = n) →
  (∀ context user s, R s (h context user s).2) →
  touches n R p (workspace_handler h ext p).2.
Proof.
  intros Hn Hh. unfold workspace_handler. destruct (ext_workspace ext) as [context|]; [|by simpl; auto].
  rewrite <- (Hn context eq_refl). unfold on_schema.
  destruct (pf_schemas p !! wx_schema_name context) as [s|] eqn:Es; [|by simpl; auto].
  specialize (Hh context (ext_user ext) s). destruct (h _ _ s) as [r s']. simpl in Hh |- *.
  split; simpl; [done|done| |by rewrite Es|].
  - intros m Hm. by rewrite lookup_insert_ne.
  - intros s0 Hs0. rewrite lookup_insert_eq. exists s'. split; [done|]. congruence.
Qed.

Lemma serve_workspace_touches {A} (R : relation Schema) `{!Reflexive R} resource action req
    (h : WorkspaceContext → User → Sc A) p :
  (∀ context user s, R s (h context user s).2) →
  touches (named_schema req) R p (serve_workspace resource action req h p).2.
Proof.
  intros Hh. unfold serve_workspace. apply serve_scope_cases; [auto|].
  intros user internal ext p' E. apply workspace_handler_touches; [done| |done].
  intros context Hc. destruct (org_workspace_ok _ _ _ _ _ _ _ _ E context Hc) as (Hw & Ho & -> & _).
  unfold named_schema. by rewrite Hw, Ho.
Qed.
End scopes.

(** ** Steps *)

(** The tables of the configuration service serve a request, are read, or are
    completed by the statements of the template. *)
Section cac_steps.
Context `{CacEnv} `{JsonParse} `{MapOrder} `{FloatText} `{Blake3} `{ConfigText} `{JsonText} `{JsonSchema}.
Context `{RegexEngine} `{JsonLogicVariables} `{DebugText}.

Inductive cac_step : relation CacWorld :=
  | cac_step_serve c w : cac_step w (cac_serve c w).2
  | cac_step_read w w' : cac_rows w' = cac_rows w → cac_step w w'.

Record cac_moves (s s' : Schema) : Prop := {
  mv_exp : sc_exp s' = sc_exp s;
  mv_webhooks : sc_webhooks s' = sc_webhooks s;
  mv_cac : rtc cac_step (sc_cac s) (sc_cac s');
}.

#[global] Instance cac_moves_refl : Reflexive cac_moves.
Proof. done. Qed.
#[global] Instance cac_moves_trans : Transitive cac_moves.
Proof. intros s1 s2 s3 [? ? ?] [? ? ?]. split; [congruence..|by etrans]. Qed.

Lemma on_cac_moves {A} (m : C A) s : rtc cac_step (sc_cac s) (m (sc_cac s)).2 →
  cac_moves s (on_cac m s).2.
Proof. unfold on_cac. by destruct (m (sc_cac s)) as [r w]. Qed.

Lemma on_cac_silent {A} (m : C A) s : CacSilent m → cac_moves s (on_cac m s).2.
Proof. intros Hm. apply on_cac_moves, rtc_once, cac_step_read, Hm. Qed.

(** A handler that leaves the rows its request leaves. *)
Lemma on_cac_serves {A} (m : C A) c s : (m (sc_cac s)).2 = (cac_serve c (sc_cac s)).2 →
  cac_moves s (on_cac m s).2.
Proof. intros Hm. apply on_cac_moves. rewrite Hm. apply rtc_once, cac_step_serve. Qed.
End cac_steps.

Lemma state_of_bind {W A B} (m : ST W A) (f : A → ST W B) w :
  (∀ a w', (f a w').2 = w') → ((a ← m; f a) w).2 = (m w).2.
Proof. intros Hf. unfold mbind, ST_bind. destruct (m w) as [[a|e] w']; [apply Hf|done]. Qed.

Lemma state_after_lift {W A B B'} (r : Result A) (f : A → ST W B) (f' : A → ST W B') w :
  (∀ a, (f a w).2 = (f' a w).2) → ((a ← lift r; f a) w).2 = ((a ← lift r; f' a) w).2.
Proof. intros Hf. unfold mbind, ST_bind, lift. by destruct r. Qed.

(** ** Exchanges *)

Section reads.
Context `{CacEnv} `{JsonParse} `{MapOrder} `{RowOrder} `{JsonLogic} `{FloatText} `{Blake3}.
Context `{ConfigText} `{JsonText} `{JsonSchema} `{RegexEngine} `{JsonLogicVariables} `{DebugText}.
Context `{Collation}.

#[global] Instance silent_attempt {A} (m : C A) : CacSilent m → CacSilent (attempt m).
Proof. apply neutral_attempt. Qed.
#[global] Instance silent_versions : CacSilent versions_by_age.
Proof. done. Qed.
#[global] Instance silent_max_created : CacSilent get_max_created_at.
Proof. unfold get_max_created_at. apply _. Qed.
#[global] Instance silent_find_version id : CacSilent (find_version id).
Proof. done. Qed.
#[global] Instance silent_from_version v : CacSilent (generate_config_from_version v).
Proof. unfold generate_config_from_version. solve_neutral. Qed.
#[global] Instance silent_demand {A} (o : option A) : CacSilent (demand o).
Proof. unfold demand. apply _. Qed.
#[global] Instance silent_compute f c k x o v :
  CacSilent (compute_value_with_function f c k x o v).
Proof. unfold compute_value_with_function. apply _. Qed.
#[global] Instance silent_cohort_value c b d m : CacSilent (remote_cohort_value c b d m).
Proof. unfold remote_cohort_value. apply _. Qed.
#[global] Instance silent_remote_loop fuel g ds stack m : CacSilent (remote_loop fuel g ds stack m).
Proof.
  revert stack m. induction fuel as [|fuel IH]; intros [|[c b] stack] m; cbn [remote_loop]; [apply _..|].
  destruct (ds !! c) as [data|]; [|done]. destruct (is_local_cohort _); [done|].
  apply neutral_bind; [apply _|done].
Qed.
#[global] Instance silent_remote_starts fuel ds q starts m : CacSilent (remote_starts fuel ds q starts m).
Proof.
  revert m. induction starts as [|d starts IH]; intros m; cbn [remote_starts]; [apply _|].
  repeat case_match; try done. apply neutral_bind; [apply silent_remote_loop|].
  intros [m'|]; [done|apply _].
Qed.
#[global] Instance silent_remote_cohorts fuel ds q : CacSilent (evaluate_remote_cohorts fuel ds q).
Proof. unfold evaluate_remote_cohorts. solve_neutral. Qed.
#[global] Instance silent_resolve config q strategy filters :
  CacSilent (resolve config q strategy filters).
Proof. unfold resolve. solve_neutral. Qed.

#[global] Instance silent_no_version {T} (m : C T) : CacSilent m → CacSilent (no_version m).
Proof. intros ?. unfold no_version. apply _. Qed.
#[global] Instance silent_settled {T} (m : C (Served T)) : CacSilent m → CacSilent (settled m).
Proof. intros ?. unfold settled. solve_neutral. Qed.
#[global] Instance silent_ctx_get id : CacSilent (ctx_get_handler id).
Proof. unfold ctx_get_handler. apply _. Qed.
#[global] Instance silent_ctx_validate settings c : CacSilent (ctx_validate_handler settings c).
Proof. unfold ctx_validate_handler, validate_ctx. solve_neutral. Qed.
#[global] Instance silent_function_test name stage req : CacSilent (function_test_handler name stage req).
Proof. unfold function_test_handler. solve_neutral. Qed.
#[global] Instance silent_config_get settings req filters :
  CacSilent (config_get_handler settings req filters).
Proof. unfold config_get_handler. solve_neutral. Qed.
#[global] Instance silent_config_resolve settings req strategy filters :
  CacSilent (config_resolve_handler settings req strategy filters).
Proof. unfold config_resolve_handler. solve_neutral. Qed.
#[global] Instance silent_variables_page : CacSilent variables_page.
Proof. done. Qed.
End reads.

(** A workspace context as the middleware makes it. *)
Definition context_ok (context : WorkspaceContext) : Prop :=
  wx_schema_name context = schema_name (wx_organisation_id context) (wx_workspace_id context).

Section exchanges.
Context `{AppState} `{UserText} `{Authenticator} `{Authorizer} `{RegexEngine}.
Context `{Network} `{UrlEncoded} `{RegexCaptures}.
Context `{CacEnv} `{JsonParse} `{MapOrder} `{RowOrder} `{JsonLogic} `{FloatText} `{Blake3}.
Context `{ConfigText} `{JsonText} `{JsonSchema} `{JsonLogicVariables} `{DebugText}.
Context `{VarRegex} `{HeaderSyntax} `{HookEnv} `{Collation}.
Implicit Types (context : WorkspaceContext) (p : Platform).

(** A call of the service to itself names the workspace it is made for. *)
Lemma named_internal context credentials path pattern query : context_ok context →
  named_schema (internal_request context credentials path pattern query) = wx_schema_name context.
Proof. intros ->. by destruct credentials. Qed.

Lemma cac_call_touches {T} context credentials path pattern query resource action
    (h : Settings → User → C (T * option string)) p : context_ok context →
  (∀ settings user s, cac_moves s (on_cac (h settings user) s).2) →
  touches (wx_schema_name context) cac_moves p
    (cac_call (internal_request context credentials path pattern query) resource action h p).2.
Proof.
  intros Hc Hh. unfold cac_call. rewrite <- (named_internal context credentials path pattern query) by done.
  apply touches_map, serve_workspace_touches; [apply _|done].
Qed.

Lemma deliver_touches {T} n R `{!Reflexive R} d (m : Platform → HttpOutcome T * Platform) p :
  touches n R p (m p).2 → touches n R p (deliver d m p).2.
Proof. by destruct d; simpl; auto. Qed.

(** *** The calls that write *)

Lemma bulk_serves settings user operations config_tags w :
  (('(_ : unit) ← lift (all_ok (body_checks (BulkOperations operations)));
    '(response, version_id) ← bulk_operations_handler settings config_tags operations user;
    mret (response, Some (pretty version_id))) w).2 =
  (cac_serve (mkCacCall settings config_tags user (BulkOperations operations)) w).2.
Proof.
  unfold cac_serve. apply state_after_lift. intros _. cbn [cac_route call_request call_settings call_tags call_user].
  unfold forget. by rewrite !state_of_bind by by intros [].
Qed.

Lemma default_serves settings user key req w :
  (('(_ : unit) ← lift (all_ok (body_checks (UpdateDefaultConfig key req)));
    '(val, version_id) ← default_update_handler settings key None req user;
    mret (val, Some (pretty version_id))) w).2 =
  (cac_serve (mkCacCall settings None user (UpdateDefaultConfig key req)) w).2.
Proof.
  unfold cac_serve. apply state_after_lift. intros _. cbn [cac_route call_request call_settings call_tags call_user].
  unfold forget. by rewrite !state_of_bind by by intros [].
Qed.

(** *** All calls *)

Lemma exchange_touches context user trace e p : context_ok context →
  touches (wx_schema_name context) cac_moves p (exchange context user trace e p).2.
Proof.
  intros Hc. destruct e; cbn [exchange].
  - apply deliver_touches, cac_call_touches; [apply _|done|]. intros. apply on_cac_silent. solve_neutral.
  - apply deliver_touches, cac_call_touches; [apply _|done|]. intros. apply on_cac_silent. solve_neutral.
  - apply deliver_touches, cac_call_touches; [apply _|done|]. intros. apply on_cac_silent. solve_neutral.
  - apply deliver_touches, cac_call_touches; [apply _|done|]. intros. apply on_cac_silent. solve_neutral.
  - apply deliver_touches, cac_call_touches; [apply _|done|]. intros. eapply on_cac_serves, bulk_serves.
  - apply touches_map, deliver_touches, cac_call_touches; [apply _|done|]. intros. eapply on_cac_serves, default_serves.
  - apply deliver_touches, cac_call_touches; [apply _|done|]. intros. apply on_cac_silent. solve_neutral.
  - unfold exchange_webhook.
    match goal with |- touches _ _ _ (let '(_, _) := ?m in _).2 =>
      assert (touches (wx_schema_name context) cac_moves p m.2) as Ht; [|destruct m as [fetched p1]] end.
    { apply deliver_touches; [apply _|]. unfold exchange_webhook_by_event.
      erewrite <- named_internal by done. apply touches_map, serve_workspace_touches; [apply _|].
      intros _ _ s. by rewrite state_of_bind. }
    simpl in Ht. destruct (webhook_of fetched) as [webhook|]; [|done].
    set (fetch := λ p0, _).
    assert (∀ p0, touches (wx_schema_name context) cac_moves p0 (fetch p0).2) as Hf.
    { intros p0. unfold fetch.
      apply (touches_map _ _ _ _ (λ o, Ok (parsed o))), deliver_touches, cac_call_touches; [apply _|done|]. intros. apply on_cac_silent. solve_neutral. }
    eapply touches_trans; [apply _|exact Ht|].
    apply (touches_map _ _ _ _ (λ r, Ok (match r with Ok told => told | Err _ => false end))).
    unfold execute_webhook_call. destruct (hk_enabled webhook); [|exact (touches_refl _ cac_moves p1)].
    cbn [negb]. rewrite state_of_bind by done.
    destruct (has_variables _); [|exact (touches_refl _ cac_moves p1)]. by rewrite state_of_bind.
Qed.
End exchanges.

(** ** Handlers of experiments *)

Section services.
Context `{AppState} `{UserText} `{Authenticator} `{Authorizer} `{RegexEngine}.
Context `{Network} `{UrlEncoded} `{RegexCaptures} `{ExpClock} `{PlatformEnv}.
Context `{CacEnv} `{JsonParse} `{MapOrder} `{RowOrder} `{JsonLogic} `{FloatText} `{Blake3}.
Context `{ConfigText} `{JsonText} `{JsonSchema} `{JsonLogicVariables} `{DebugText}.
Context `{VarRegex} `{HeaderSyntax} `{HookEnv} `{Collation} `{SetOrder} `{KeyOrder} `{TimeText}.
Implicit Types (context : WorkspaceContext) (p : Platform) (flags : ExperimentationFlags).

(** What may happen to the tables of a workspace: a step of the configuration
    service, a request of the experimentation service whatever the outside
    answers it, a request on webhooks, a migration. *)
Inductive schema_step : relation Schema :=
  | step_cac s w : cac_step (sc_cac s) w → schema_step s (set_cac s w)
  | step_exp (env : Env) ws user r s :
      schema_step s (set_exp s (serve ws user r (sc_exp s)).2)
  | step_hook settings user r s : schema_step s (webhook_route settings user r s).2
  | step_template s : schema_step s (rerun_template s).

Abbreviation schema_steps := (rtc schema_step).

Lemma cac_moves_steps s s' : cac_moves s s' → schema_steps s s'.
Proof.
  destruct s as [w x hs], s' as [w' x' hs']. intros [He Hh Hw]. simpl in *. subst x' hs'.
  induction Hw as [w|w1 w2 w3 Hs Hr IH]; [done|]. eapply rtc_l; [|exact IH].
  exact (step_cac (mkSchema w1 x hs) w2 Hs).
Qed.

Lemma replay_touches context user p trace : context_ok context →
  touches (wx_schema_name context) cac_moves p (replay context user p trace).
Proof.
  intros Hc. induction trace as [|e trace IH]; cbn [replay]; [auto|].
  eapply touches_trans; [apply _|exact IH|]. by apply exchange_touches.
Qed.

(** The rows that a handler wrote, and those that its calls did. *)
Lemma put_exp_touches n p p1 s w : pf_schemas p !! n = Some s →
  touches n cac_moves p p1 →
  (∀ s1, cac_moves s s1 → schema_steps s (set_exp s1 w)) →
  touches n schema_steps p (put_exp n w p1).
Proof.
  intros Hs [Ho Hw Hd Hn Hm] Hsteps. unfold put_exp. split; simpl; [done|done| | |].
  - intros m Hne. rewrite lookup_alter_ne by done. by apply Hd.
  - intros E. congruence.
  - intros s0 E. simplify_eq. destruct (Hm s Hs) as (s1 & Hs1 & Hmv).
    rewrite lookup_alter_eq, Hs1. simpl. eauto.
Qed.

Lemma experiment_touches flags r ext p :
  (∀ context, ext_workspace ext = Some context → context_ok context) →
  touches (default "" (wx_schema_name <$> ext_workspace ext)) schema_steps p
    (experiment_handler flags r ext p).2.
Proof.
  intros Hc. unfold experiment_handler. destruct (ext_workspace ext) as [context|]; [|by simpl; auto].
  specialize (Hc context eq_refl). simpl. rewrite state_of_bind by done. unfold run_linked.
  destruct (pf_schemas p !! wx_schema_name context) as [s|] eqn:Es; [|by simpl; auto].
  set (past := length _). set (env := linked_env _ _ _ _).
  pose proof (step_exp env (workspace_of flags (wx_settings context)) (user_email (ext_user ext)) r) as Hstep.
  destruct (@serve env _ _ _ _ _ _ _ _ _ r (sc_exp s)) as [a w] eqn:Er. simpl.
  eapply put_exp_touches; [done|by apply replay_touches|].
  intros s1 Hm. eapply rtc_r; [by apply cac_moves_steps|].
  specialize (Hstep s1). rewrite (mv_exp _ _ Hm), Er in Hstep. exact Hstep.
Qed.
End services.

(** * What holds of every platform reached

    [workspace_ok] is the invariant of the tables of one workspace, the
    invariants of both services and that of the webhooks together; [tenants_ok]
    that of the tables of the platform. Every call keeps them. *)

(** ** Webhooks *)

(** A webhook is stored under its name and shares no event with another. *)
Record hooks_ok (hs : gmap string Webhook) : Prop := {
  hk_keyed name h : hs !! name = Some h → hk_name h = name;
  hk_apart name name' h h' event : hs !! name = Some h → hs !! name' = Some h' →
    event ∈ hk_events h → event ∈ hk_events h' → name = name';
}.

Lemma duplicate_event_none events exclude hs : duplicate_event events exclude hs = None →
  ∀ h event, h ∈ hs → exclude ≠ Some (hk_name h) → event ∈ hk_events h → event ∉ events.
Proof.
  induction hs as [|h hs IH]; intros Hd h' event Hin Hx He; [by apply not_elem_of_nil in Hin|].
  simpl in Hd. apply elem_of_cons in Hin as [->|Hin].
  - rewrite bool_decide_eq_false_2 in Hd by done.
    destruct (List.find _ _) eqn:Hf; [done|]. intros Hev.
    pose proof (find_none _ _ Hf event (proj1 (list_elem_of_In _ _) He)) as Hno.
    simpl in Hno. by rewrite bool_decide_eq_true_2 in Hno.
  - case_bool_decide; [by eapply IH|]. destruct (List.find _ _); [done|]. by eapply IH.
Qed.

Lemma hooks_ok_empty : hooks_ok ∅.
Proof. split; intros *; rewrite lookup_empty; done. Qed.

Lemma hooks_ok_put hs h : hooks_ok hs →
  (∀ h' event, hs !! hk_name h' = Some h' → hk_name h' ≠ hk_name h → event ∈ hk_events h' →
    event ∉ hk_events h) →
  hooks_ok (<[hk_name h := h]> hs).
Proof.
  intros [K D] Hn. split.
  - intros name h' [[<- <-]|[_ ?]]%lookup_insert_Some; [done|auto].
  - intros name name' h1 h2 event L1 L2 E1 E2.
    apply lookup_insert_Some in L1 as [[<- <-]|[Hne1 L1]];
      apply lookup_insert_Some in L2 as [[<- <-]|[Hne2 L2]]; [done|..|by eapply D].
    + pose proof (K _ _ L2) as Hk. subst name'. by destruct (Hn h2 event L2).
    + pose proof (K _ _ L1) as Hk. subst name. by destruct (Hn h1 event L1).
Qed.

Section webhooks.
Context `{CacEnv} `{JsonParse} `{MapOrder} `{RegexEngine} `{!MapOrderOk _}.

Lemma elem_of_all_webhooks (hs : gmap string Webhook) h : hooks_ok hs →
  h ∈ (map_order hs).*2 ↔ hs !! hk_name h = Some h.
Proof.
  intros G. rewrite list_elem_of_fmap. split.
  - intros ([name h'] & -> & Hin%elem_of_map_order). simpl. by rewrite (hk_keyed _ G _ _ Hin).
  - intros Hh. exists (hk_name h, h). split; [done|]. by apply elem_of_map_order.
Qed.

(** What a request on webhooks leaves alone, and keeps. *)
Definition hooks_kept {A} (m : Sc A) : Prop := ∀ s, hooks_ok (sc_webhooks s) →
  sc_exp (m s).2 = sc_exp s ∧ cac_rows (sc_cac (m s).2) = cac_rows (sc_cac s) ∧
  hooks_ok (sc_webhooks (m s).2).

Lemma kept_bind {A B} (m : Sc A) (f : A → Sc B) :
  hooks_kept m → (∀ a, hooks_kept (f a)) → hooks_kept (a ← m; f a).
Proof.
  intros Hm Hf s G. destruct (Hm s G) as (E1 & E2 & G'). unfold mbind, ST_bind.
  destruct (m s) as [[a|e] s1]; simpl in *; [|done].
  destruct (Hf a s1 G') as (E1' & E2' & G''). by rewrite E1', E2'.
Qed.

Lemma kept_pure {A} (m : Sc A) : (∀ s, (m s).2 = s) → hooks_kept m.
Proof. intros Hm s G. by rewrite Hm. Qed.

Lemma kept_cac {A} (m : C A) : CacSilent m → hooks_kept (on_cac m).
Proof.
  intros Hm s G. specialize (Hm (sc_cac s)). unfold on_cac. by destruct (m (sc_cac s)).
Qed.

(** The events are checked right before the row is written. *)
Lemma validated_insert events exclude (f : Z → Sc Webhook) :
  (∀ s time, hooks_ok (sc_webhooks s) →
     (∀ h event, sc_webhooks s !! hk_name h = Some h → exclude ≠ Some (hk_name h) →
        event ∈ hk_events h → event ∉ events) →
     sc_exp (f time s).2 = sc_exp s ∧ cac_rows (sc_cac (f time s).2) = cac_rows (sc_cac s) ∧
     hooks_ok (sc_webhooks (f time s).2)) →
  hooks_kept (_ ← validate_events events exclude; time ← on_cac cac_clock; f time).
Proof.
  intros Hf s G. unfold validate_events, all_webhooks, mbind, ST_bind, lift. simpl.
  destruct (duplicate_event _ _ _) eqn:Hd; [done|]. simpl.
  match goal with |- context [f ?time ?s'] => destruct (Hf s' time G) as (-> & -> & ?) end; [|done].
  intros h event Hh Hx He. eapply duplicate_event_none; [exact Hd| |done|done].
  by apply elem_of_all_webhooks.
Qed.

Lemma kept_create settings req user : hooks_kept (webhook_create_handler settings req user).
Proof.
  unfold webhook_create_handler. apply kept_bind; [by apply kept_pure|intros name].
  apply kept_bind; [apply kept_cac, _|intros _].
  apply (validated_insert _ None (λ now, _ ← insert_webhook (new_webhook req name user now);
    mret (new_webhook req name user now))).
  intros s time G Hn. rewrite state_of_bind by done. unfold insert_webhook.
  destruct (_ !! _); [done|]. simpl. split_and!; [done..|].
  apply (hooks_ok_put _ (new_webhook req name user time) G). intros h' event Hh _ He. by eapply Hn.
Qed.

Lemma update_kept s name f : hooks_ok (sc_webhooks s) → (∀ h, hk_name (f h) = hk_name h) →
  (∀ h h' event, sc_webhooks s !! name = Some h → sc_webhooks s !! hk_name h' = Some h' →
     hk_name h' ≠ name → event ∈ hk_events h' → event ∉ hk_events (f h)) →
  sc_exp (update_webhook name f s).2 = sc_exp s ∧
  cac_rows (sc_cac (update_webhook name f s).2) = cac_rows (sc_cac s) ∧
  hooks_ok (sc_webhooks (update_webhook name f s).2).
Proof.
  intros G Hf Hn. unfold update_webhook. destruct (sc_webhooks s !! name) as [h|] eqn:Hh; [|done].
  simpl. split_and!; [done..|]. pose proof (hk_keyed _ G _ _ Hh) as Hk.
  assert (name = hk_name (f h)) as -> by by rewrite Hf.
  apply hooks_ok_put; [done|]. intros h' event Hh' Hne. by eapply Hn.
Qed.

Lemma kept_update settings params req user :
  hooks_kept (webhook_update_handler settings params req user).
Proof.
  unfold webhook_update_handler. apply kept_bind; [by apply kept_pure|intros name].
  apply kept_bind; [apply kept_cac, _|intros _]. destruct (uh_events req) as [events|] eqn:He.
  - apply (validated_insert _ (Some name) (λ now, update_webhook name (apply_webhook_update req now user))).
    intros s time G Hn. apply update_kept; [done..|]. intros h h' event Hh Hh' Hne Hin.
    simpl. rewrite He. simpl. eapply Hn; [done| |done]. congruence.
  - intros s G. unfold mbind at 1, ST_bind at 1. simpl. unfold mbind, ST_bind. simpl.
    match goal with |- context [update_webhook name ?f ?s'] =>
      destruct (update_kept s' name f G) as (-> & -> & ?); [done| |done] end.
    intros h h' event Hh Hh' Hne Hin. simpl. rewrite He. simpl. intros Hin'.
    apply Hne. symmetry. simpl in Hh, Hh'. by eapply hk_apart.
Qed.

Lemma kept_delete params user : hooks_kept (webhook_delete_handler params user).
Proof.
  unfold webhook_delete_handler. apply kept_bind; [by apply kept_pure|intros name].
  apply kept_bind; [apply kept_cac, _|intros now]. intros s [K D]. simpl. split_and!; [done..|].
  assert (delete name (alter (touch_webhook now user) name (sc_webhooks s)) = delete name (sc_webhooks s))
    as -> by apply delete_alter_eq.
  split; [intros ? ? [_ ?]%lookup_delete_Some; auto|].
  intros n n' h h' event [_ ?]%lookup_delete_Some [_ ?]%lookup_delete_Some. by eapply D.
Qed.

Lemma kept_route settings user r : hooks_kept (webhook_route settings user r).
Proof.
  unfold webhook_route. apply kept_bind; [by apply kept_pure|intros _].
  destruct r; [..|apply kept_delete];
    (apply kept_bind; [apply kept_create || apply kept_update|by intros; apply kept_pure]).
Qed.
End webhooks.

(** ** The tables of a workspace *)

Section workspaces.
Context `{AppState} `{UserText} `{Authenticator} `{Authorizer} `{RegexEngine}.
Context `{Network} `{UrlEncoded} `{RegexCaptures} `{ExpClock} `{PlatformEnv}.
Context `{CacEnv} `{JsonParse} `{MapOrder} `{RowOrder} `{JsonLogic} `{FloatText} `{Blake3}.
Context `{ConfigText} `{JsonText} `{JsonSchema} `{JsonLogicVariables} `{DebugText}.
Context `{VarRegex} `{HeaderSyntax} `{HookEnv} `{Collation} `{SetOrder} `{KeyOrder} `{TimeText}.
Context {Ook : MapOrderOk _} {Rok : RowOrderOk _} {Sok : SetOrderOk _}.
Implicit Types (s : Schema).

Record workspace_ok s : Prop := {
  ws_config : good_tables (cac_tables (sc_cac s));
  ws_functions : functions_good (k_functions (sc_cac s));
  ws_experiments : good (tables (sc_exp s));
  ws_webhooks : hooks_ok (sc_webhooks s);
}.

Lemma fresh_schema_ok : workspace_ok fresh_schema.
Proof.
  split; [apply fresh_good|apply fresh_functions|apply good_empty|apply hooks_ok_empty].
Qed.

(** Where the reserved rows are there, the template leaves them. *)
Lemma template_dimensions w : good_tables (cac_tables w) →
  k_dimensions w ∪ k_dimensions fresh_workspace = k_dimensions w.
Proof.
  intros (_ & _ & _ & I). destruct (dims_first _ I) as (shape & Hs & _).
  apply shapes_lookup in Hs as (d & Hd & _). apply map_eq. intros name. apply option_eq. intros d'.
  rewrite lookup_union_Some_raw. unfold fresh_workspace at 1, k_dimensions at 3. split; [|by left].
  intros [?|[Hn [<- <-]%lookup_singleton_Some]]; [done|]. simpl in *. congruence.
Qed.

Lemma template_functions w : functions_good (k_functions w) →
  k_functions w ∪ k_functions fresh_workspace = k_functions w.
Proof.
  intros [_ (f & Hf & _) (g & Hg & _)]. apply map_eq. intros name. apply option_eq. intros f'.
  rewrite lookup_union_Some_raw. unfold fresh_workspace at 1, k_functions at 3. split; [|by left].
  intros [?|[Hn Hl]]; [done|].
  apply lookup_insert_Some in Hl as [[<- <-]|[_ [<- <-]%lookup_singleton_Some]];
    unfold CONTEXT_VALIDATION_FN_NAME, CHANGE_REASON_VALIDATION_FN_NAME in *; congruence.
Qed.

Lemma cac_step_ok w w' : cac_step w w' →
  good_tables (cac_tables w) → functions_good (k_functions w) →
  good_tables (cac_tables w') ∧ functions_good (k_functions w').
Proof.
  intros [c w0|w0 w1 Hrows] G F.
  - split; [by apply cac_serve_sim|exact (functions_serve_all [c] w0 F)].
  - unfold cac_rows in Hrows. injection Hrows as E1 E2 E3 E4 E5 E6 E7. unfold cac_tables in *.
    by rewrite E1, E2, E3, E5.
Qed.

Lemma schema_step_ok s s' : schema_step s s' → workspace_ok s → workspace_ok s'.
Proof.
  intros [s0 w Hs|env ws user r s0|settings user r s0|s0] [G F X K].
  - destruct (cac_step_ok _ _ Hs G F). by split.
  - split; [done..| |done]. eapply sim_good; [exact X|]. by apply serve_sim.
  - destruct (kept_route settings user r s0 K) as (E1 & E2 & K'). unfold cac_rows in E2.
    injection E2 as C1 C2 C3 C4 C5 C6 C7. split; [|by rewrite C5|by rewrite E1|done].
    unfold cac_tables in *. by rewrite C1, C2, C3.
  - unfold rerun_template. split; simpl; [|by rewrite template_functions|done..].
    unfold cac_tables. simpl. by rewrite template_dimensions.
Qed.

Lemma schema_steps_ok s s' : rtc schema_step s s' → workspace_ok s → workspace_ok s'.
Proof. induction 1; eauto using schema_step_ok. Qed.

(** Versions stay. *)
Lemma schema_step_versions s s' : schema_step s s' → workspace_ok s →
  k_versions (sc_cac s) ⊆ k_versions (sc_cac s').
Proof.
  intros [s0 w Hs|env ws user r s0|settings user r s0|s0] [G F X K]; simpl; [|done| |done].
  - destruct Hs as [c w0|w0 w1 Hrows]; [apply versions_grow|].
    unfold cac_rows in Hrows. injection Hrows as _ _ _ -> _ _ _. done.
  - destruct (kept_route settings user r s0 K) as (_ & E2 & _). unfold cac_rows in E2.
    injection E2 as _ _ _ -> _ _ _. done.
Qed.

Lemma schema_steps_versions s s' : rtc schema_step s s' → workspace_ok s →
  k_versions (sc_cac s) ⊆ k_versions (sc_cac s').
Proof.
  induction 1 as [|s1 s2 s3 Hs Hr IH]; intros G; [done|].
  etrans; [by eapply schema_step_versions|]. by eapply IH, schema_step_ok.
Qed.
End workspaces.
