(* ===== verification/Tenancy.v ===== *)
(** * Organisations, workspaces and their schemas agree

    [tenants_ok] is the invariant of the tables of the platform; the handlers of
    organisations and workspaces keep it, and so does every call. *)

From stdpp Require Import relations pretty.
From S2P Require Import Prelude Pages Stack Json Types Text Effects Logic LogicProps Config ExpModels Bucketing BucketAlloc CacClient ExpChecks CacStore CacConfig Contexts Dimensions DefaultConfigs Functions CacServing QueryStrings CacQueries CacReduce CacService Store Groups Experiments Queries Service Tenants Http Webhooks Organisations Internal Platform Refine PlatformProps.

(** What the expression for names of workspaces promises. *)
Class WorkspaceNames `{RegexEngine} : Prop := workspace_names name :
  regex_is_match WORKSPACE_NAME_REGEX name = Some true → name ≠ "" ∧ lacks "_" name = true.

Lemma digits_lack s : all_digits s = true → lacks "_" s = true.
Proof.
  induction s as [|c s IH]; [done|]. simpl. destruct (to_digit c) eqn:Hc; [|done].
  intros Hs. rewrite IH by done. rewrite andb_true_r, negb_true_iff. apply bool_decide_eq_false_2.
  intros ->. done.
Qed.

Lemma pretty_lacks (z : Z) : lacks "_" (pretty z) = true.
Proof.
  destruct z as [|x|x]; [done|..].
  - change (pretty (Zpos x)) with (pretty (Npos x)). apply digits_lack, pretty_N_value.
  - change (pretty (Zneg x)) with ("-" +:+ pretty (Npos x)). rewrite lacks_app.
    apply andb_true_iff. split; [done|]. apply digits_lack, pretty_N_value.
Qed.

Lemma schema_name_unique o w o' w' : lacks "_" o' = true → lacks "_" w' = true →
  schema_name o w = schema_name o' w' → o = o' ∧ w = w'.
Proof. intros Ho Hw E. by apply (split_unique "_"). Qed.

Definition Tenants_ : Type :=
  gmap string Organisation * gmap string WorkspaceRow * gmap string Schema.
Definition pf_tables (p : Platform) : Tenants_ := (pf_organisations p, pf_workspaces p, pf_schemas p).

Abbreviation pwp := (wp_on pf_tables).

Section tenants.
Context `{AppState} `{UserText} `{Authenticator} `{Authorizer} `{RegexEngine}.
Context `{Network} `{UrlEncoded} `{RegexCaptures} `{ExpClock} `{PlatformEnv}.
Context `{CacEnv} `{JsonParse} `{MapOrder} `{RowOrder} `{JsonLogic} `{FloatText} `{Blake3}.
Context `{ConfigText} `{JsonText} `{JsonSchema} `{JsonLogicVariables} `{DebugText}.
Context `{VarRegex} `{HeaderSyntax} `{HookEnv} `{Collation} `{SetOrder} `{KeyOrder} `{TimeText}.
Context {Ook : MapOrderOk _} {Rok : RowOrderOk _} {Sok : SetOrderOk _} {Names : WorkspaceNames}.
Implicit Types (os : gmap string Organisation) (ws : gmap string WorkspaceRow).
Implicit Types (ss : gmap string Schema) (t : Tenants_).

Abbreviation schema_steps := (rtc schema_step).

(** A row names its schema, its organisation is there, and so is the version
    it is pinned to. *)
Record row_ok os ss (n : string) (row : WorkspaceRow) : Prop := {
  rk_schema_name : wk_workspace_schema_name row = n;
  rk_key : n = schema_name (wk_organisation_id row) (wk_workspace_name row);
  rk_name : wk_workspace_name row ≠ "" ∧ lacks "_" (wk_workspace_name row) = true;
  rk_organisation : is_Some (os !! wk_organisation_id row);
  rk_schema : is_Some (ss !! n);
  rk_pinned v : wk_config_version row = Some v →
    ∃ s, ss !! n = Some s ∧ is_Some (k_versions (sc_cac s) !! v);
}.

Definition organisation_ok (id : string) (o : Organisation) : Prop :=
  og_id o = id ∧ id ≠ "" ∧ lacks "_" id = true.

(** Every schema is that of a workspace and has gone through steps since it
    was set up. *)
Definition tenants_ok t : Prop :=
  let '(os, ws, ss) := t in
  map_Forall organisation_ok os ∧
  map_Forall (row_ok os ss) ws ∧
  map_Forall (λ n s, is_Some (ws !! n) ∧ schema_steps fresh_schema s) ss.

Lemma tenants_schema os ws ss n s : tenants_ok (os, ws, ss) → ss !! n = Some s → workspace_ok s.
Proof. intros (_ & _ & T) Hs. apply T in Hs as [_ Hs]. eapply schema_steps_ok; [exact Hs|apply fresh_schema_ok]. Qed.

(** The schemas go on: none disappears, and each takes steps. *)
Definition schemas_grow ss ss' : Prop :=
  ∀ n s, ss !! n = Some s → ∃ s', ss' !! n = Some s' ∧ schema_steps s s'.

Lemma row_ok_grow os os' ws ss ss' n row : tenants_ok (os, ws, ss) →
  (∀ id, is_Some (os !! id) → is_Some (os' !! id)) → schemas_grow ss ss' →
  row_ok os ss n row → row_ok os' ss' n row.
Proof.
  intros T Ho Hg [? ? ? ? [s Hs] Hp]. destruct (Hg _ _ Hs) as (s' & Hs' & Hst).
  split; [done..|by apply Ho|by rewrite Hs'|]. intros v Hv.
  destruct (Hp v Hv) as (s0 & Hs0 & [x Hx]). simplify_eq. exists s'. split; [done|].
  exists x. eapply lookup_weaken; [exact Hx|]. eapply schema_steps_versions; [exact Hst|].
  by eapply tenants_schema.
Qed.

Lemma tenants_ok_grow os ws ss ss' : tenants_ok (os, ws, ss) → schemas_grow ss ss' →
  (∀ n, is_Some (ss' !! n) → is_Some (ss !! n)) → tenants_ok (os, ws, ss').
Proof.
  intros T Hg Hd. pose proof T as (To & Tw & Ts). split_and!; [done|..].
  - intros n row Hrow. eapply row_ok_grow; [exact T|done|exact Hg|by apply Tw].
  - intros n s' Hs'. destruct (Hd n) as [s Hs]; [by eexists|].
    destruct (Ts _ _ Hs) as [? Hst]. destruct (Hg _ _ Hs) as (s'' & Hs'' & Hst').
    simplify_eq. split; [done|]. by etrans.
Qed.

Lemma touches_tenants n p p' : touches n schema_steps p p' →
  tenants_ok (pf_tables p) → tenants_ok (pf_tables p').
Proof.
  intros [Eo Ew Ed En Es] T. unfold pf_tables in *. rewrite Eo, Ew.
  eapply tenants_ok_grow; [exact T|..].
  - intros m s Hs. destruct (decide (m = n)) as [->|Hm]; [by apply Es|].
    exists s. by rewrite Ed.
  - intros m [s Hs]. destruct (decide (m = n)) as [->|Hm]; [|rewrite <- Ed; eauto].
    destruct (pf_schemas p !! n) eqn:E; [eauto|]. rewrite En in Hs; done.
Qed.

(** ** Organisations *)

Lemma tenants_put_organisation os ws ss id o : tenants_ok (os, ws, ss) → organisation_ok id o →
  tenants_ok (<[id := o]> os, ws, ss).
Proof.
  intros T Ho. pose proof T as (To & Tw & Ts). split_and!; [by apply map_Forall_insert_2| |done].
  intros n row Hrow. eapply row_ok_grow; [exact T| |intros m s Hs; by exists s|by apply Tw].
  intros id'. destruct (decide (id = id')) as [->|]; [by rewrite lookup_insert_eq|by rewrite lookup_insert_ne].
Qed.

Lemma wp_organisation r ext t : tenants_ok t →
  pwp (organisation_handler r ext) (λ _, tenants_ok) tenants_ok t.
Proof.
  destruct t as [[os ws] ss]. intros T. destruct r as [req|org_id req]; simpl.
  - apply wp_bind, wp_lift; [intros _ _|done]. apply wp_bind. unfold org_create_handler.
    apply wp_bind, wp_neutral; [done|intros id|done].
    apply wp_bind, wp_neutral; [done|intros now|done].
    intros p Hp. unfold insert_organisation. simpl. unfold pf_tables in Hp. injection Hp as Eo Ew Es.
    destruct (_ !! _); simpl; [unfold pf_tables; by rewrite Eo, Ew, Es|].
    apply wp_ret. unfold pf_tables. simpl. rewrite Eo, Ew, Es.
    apply tenants_put_organisation; [done|]. split_and!; [done|done|]. simpl.
    rewrite lacks_app. apply andb_true_iff. split; [done|]. apply pretty_lacks.
  - apply wp_bind. unfold org_update_handler.
    apply wp_bind, wp_neutral; [done|intros now|done].
    intros p Hp. unfold update_organisation. unfold pf_tables in Hp. injection Hp as Eo Ew Es.
    rewrite Eo. destruct (os !! org_id) as [o|] eqn:Ho; simpl; [|unfold pf_tables; by rewrite Eo, Ew, Es].
    apply wp_ret. unfold pf_tables. simpl. rewrite Ew, Es.
    apply tenants_put_organisation; [done|]. destruct T as (To & _). by apply To in Ho.
Qed.

(** ** Workspaces *)

Lemma find_workspace_row org_id name ws os ss (Φ : WorkspaceRow → Tenants_ → Prop) Ψ :
  (∀ n row, ws !! n = Some row → wk_organisation_id row = org_id → wk_workspace_name row = name →
     Φ row (os, ws, ss)) →
  Ψ (os, ws, ss) → pwp (find_workspace org_id name) Φ Ψ (os, ws, ss).
Proof.
  intros Hf He p Hp. unfold find_workspace. unfold pf_tables in *. injection Hp as Eo Ew Es.
  destruct (List.find _ _) as [row|] eqn:E; simpl; unfold pf_tables; rewrite Eo, Ew, Es; [|done].
  apply List.find_some in E as [Hin Hb]. unfold of_workspace in Hb. breflect. destruct_and?. simplify_eq.
  apply list_elem_of_In, list_elem_of_fmap in Hin as ([n row'] & -> & Hin%elem_of_map_order).
  by eapply Hf.
Qed.

Lemma tenants_put_row os ws ss n row : tenants_ok (os, ws, ss) → row_ok os ss n row →
  tenants_ok (os, <[n := row]> ws, ss).
Proof.
  intros (To & Tw & Ts) Hr. split_and!; [done|by apply map_Forall_insert_2|].
  intros m s Hs. destruct (Ts _ _ Hs) as [? ?]. split; [|done].
  destruct (decide (n = m)) as [->|]; [by rewrite lookup_insert_eq|by rewrite lookup_insert_ne].
Qed.

Lemma tenants_new os ws ss n row : tenants_ok (os, ws, ss) → ss !! n = None →
  row_ok os (<[n := fresh_schema]> ss) n row →
  tenants_ok (os, <[n := row]> ws, <[n := fresh_schema]> ss).
Proof.
  intros T Hn Hr. pose proof T as (To & Tw & Ts). split_and!; [done|..].
  - apply map_Forall_insert_2; [done|]. intros m row' Hrow.
    eapply row_ok_grow; [exact T|done| |by apply Tw]. intros m' s Hm. exists s. split; [|done].
    rewrite lookup_insert_ne; [done|]. congruence.
  - apply map_Forall_insert_2.
    + rewrite lookup_insert_eq. by split.
    + intros m s Hs. destruct (Ts _ _ Hs) as [? ?]. split; [|done].
      rewrite lookup_insert_ne; [done|]. congruence.
Qed.

Lemma validated_name name : validate_workspace_name name = Ok tt →
  name ≠ "" ∧ lacks "_" name = true.
Proof using Names.
  unfold validate_workspace_name. destruct (regex_is_match _ _) as [[]|] eqn:E; try done;
    [intros _; by apply workspace_names|]. by destruct (_ <? _)%nat.
Qed.

Lemma wp_find_organisation org_id os ws ss (Φ : Organisation → Tenants_ → Prop) Ψ :
  (∀ o, os !! org_id = Some o → Φ o (os, ws, ss)) → Ψ (os, ws, ss) →
  pwp (find_organisation org_id) Φ Ψ (os, ws, ss).
Proof.
  intros Hf He p [= Eo Ew Es]. unfold find_organisation, pf_tables. rewrite Eo, Ew, Es.
  destruct (os !! org_id); simpl; [by apply Hf|done].
Qed.

Lemma wp_insert_workspace row os ws ss (Φ : WorkspaceRow → Tenants_ → Prop) Ψ :
  (ws !! wk_workspace_schema_name row = None →
     Φ row (os, <[wk_workspace_schema_name row := row]> ws, ss)) → Ψ (os, ws, ss) →
  pwp (insert_workspace row) Φ Ψ (os, ws, ss).
Proof.
  intros Hf He p [= Eo Ew Es]. unfold insert_workspace, pf_tables. rewrite Ew.
  destruct (ws !! _) eqn:E; simpl; [by rewrite Eo, Ew, Es|].
  destruct (List.existsb _ _); simpl; rewrite ?Eo, ?Ew, ?Es; auto.
Qed.

(** The schema that running the template leaves. *)
Definition templated ss (n : string) : Schema :=
  match ss !! n with Some s => rerun_template s | None => fresh_schema end.

Lemma wp_setup n os ws ss (Φ : unit → Tenants_ → Prop) Ψ :
  Φ tt (os, ws, <[n := templated ss n]> ss) → Ψ (os, ws, ss) →
  pwp (setup_workspace_schema n) Φ Ψ (os, ws, ss).
Proof.
  intros Hf He p [= Eo Ew Es]. unfold setup_workspace_schema, pf_tables. simpl. rewrite Eo, Ew, Es.
  by destruct (setup_outcome (pf_runs p)) as [[]|e].
Qed.

Lemma wp_create_workspace org_id req user t : tenants_ok t →
  pwp (workspace_create_handler org_id req user) (λ _, tenants_ok) tenants_ok t.
Proof using Names Ook Rok Sok.
  destruct t as [[os ws] ss]. intros T. pose proof T as (To & Tw & Ts). unfold workspace_create_handler.
  apply wp_bind, wp_find_organisation; [|done]. intros org_info Ho. destruct (To _ _ Ho) as [Hid _].
  apply wp_bind, wp_neutral; [done|intros time|done].
  apply wp_bind, wp_lift; [intros [] Hn|done]. apply validated_name in Hn.
  set (row := new_workspace org_info req (user_email user) time).
  apply wp_transaction_by; [done|]. apply wp_bind, wp_insert_workspace; [intros Hnew|done].
  apply wp_bind, wp_setup; [|done]. apply wp_ret.
  set (n := wk_workspace_schema_name row) in *.
  assert (ss !! n = None) as Hs.
  { destruct (ss !! n) as [s|] eqn:Hs; [|done]. apply Ts in Hs as [[? ?] _]. congruence. }
  unfold templated. rewrite Hs. apply tenants_new; [done..|].
  split; simpl; [done|done|done|by rewrite Hid, Ho|by rewrite lookup_insert_eq|done].
Qed.

Lemma wp_pinned name req t (Φ : unit → Tenants_ → Prop) Ψ :
  ((∀ v, uw_config_version req = Some (Add v) →
     ∃ s, t.2 !! name = Some s ∧ is_Some (k_versions (sc_cac s) !! v)) → Φ tt t) → Ψ t →
  pwp (check_pinned name req) Φ Ψ t.
Proof.
  destruct t as [[os ws] ss]. intros Hf He. unfold check_pinned.
  destruct (uw_config_version req) as [[v|]|] eqn:E; [|apply wp_ret, Hf; congruence..].
  intros p [= Eo Ew Es]. unfold on_schema, pf_tables.
  destruct (pf_schemas p !! name) as [s|] eqn:Hs; simpl; [|by rewrite Eo, Ew, Es].
  assert (set_cac s (sc_cac s) = s) as Hid by by destruct s.
  destruct (k_versions (sc_cac s) !! v) as [x|] eqn:Hx; simpl;
    rewrite Hid, insert_id, Eo, Ew, Es by done; [|done].
  apply Hf. intros v' E'. assert (v' = v) as -> by congruence. exists s. by rewrite <- Es, Hx.
Qed.

Lemma wp_update_workspace org_id name req user t : tenants_ok t →
  pwp (workspace_update_handler org_id name req user) (λ _, tenants_ok) tenants_ok t.
Proof using Ook Rok Sok.
  destruct t as [[os ws] ss]. intros T. pose proof T as (To & Tw & Ts). unfold workspace_update_handler.
  apply wp_bind, wp_neutral; [done|intros time|done].
  apply wp_bind, wp_pinned; [intros Hp|done].
  apply wp_transaction_by; [done|]. unfold update_workspace.
  apply wp_bind, find_workspace_row; [|done]. intros n row Hrow Hon Hnn.
  destruct (Tw _ _ Hrow) as [Hn Hkey Hl Horg Hsch Hpin].
  intros p [= Eo Ew Es]. unfold put_workspace, pf_tables. simpl. rewrite Eo, Ew, Es, Hn.
  apply tenants_put_row; [done|]. split; simpl; [done..|]. intros v Hv.
  destruct (uw_config_version req) as [[v'|]|] eqn:E; simpl in Hv; [|done|by apply Hpin].
  injection Hv as ->. destruct (Hp v eq_refl) as (s & Hs & Hv). exists s. split; [|done].
  rewrite Hkey, Hon, Hnn. exact Hs.
Qed.

Lemma wp_migrate org_id name t : tenants_ok t →
  pwp (migrate_schema_handler org_id name) (λ _, tenants_ok) tenants_ok t.
Proof using Ook Rok Sok.
  destruct t as [[os ws] ss]. intros T. pose proof T as (To & Tw & Ts). unfold migrate_schema_handler.
  apply wp_bind, find_workspace_row; [|done]. intros n row Hrow _ _.
  destruct (Tw _ _ Hrow) as [-> _ _ _ [s Hs] _].
  apply wp_bind, wp_transaction_by; [done|]. apply wp_setup; [|done]. apply wp_ret.
  unfold templated. rewrite Hs. eapply tenants_ok_grow; [exact T|..].
  - intros m s' Hs'. destruct (decide (n = m)) as [<-|].
    + rewrite lookup_insert_eq. exists (rerun_template s). split; [done|]. simplify_eq.
      apply rtc_once, step_template.
    + exists s'. by rewrite lookup_insert_ne.
  - intros m [s' Hm]. destruct (decide (n = m)) as [<-|]; [done|].
    rewrite lookup_insert_ne in Hm by done. by eexists.
Qed.

Lemma wp_provision r ext t : tenants_ok t →
  pwp (provision_handler r ext) (λ _, tenants_ok) tenants_ok t.
Proof using Names Ook Rok Sok.
  intros T. unfold provision_handler. apply wp_bind, wp_lift; [intros org_id _|done].
  destruct r; apply wp_bind;
    (eapply wp_mono; [first [by apply wp_create_workspace|by apply wp_update_workspace|by apply wp_migrate]
                     |intros row t' T'; by apply wp_ret|done]).
Qed.

(** ** Calls *)

Lemma wp_run (m : Pf unit) p : tenants_ok (pf_tables p) →
  (∀ t, tenants_ok t → pwp m (λ _, tenants_ok) tenants_ok t) → tenants_ok (pf_tables (m p).2).
Proof. intros T Hm. specialize (Hm _ T p eq_refl). by destruct (m p) as [[a|e] p']. Qed.

(** The requests on the tables of a workspace. *)
Definition on_workspace (o : Operation) : bool :=
  match o with Configure _ _ | Experiment_ _ | Hook _ => true | _ => false end.

Lemma workspace_call_touches flags c p : on_workspace (cl_operation c) = true →
  touches (named_schema (cl_request c)) schema_steps p (serve_call flags c p).2.
Proof.
  intros Hc. unfold serve_call. destruct (cl_operation c) as [tags r|r|r|r|r]; [|..|done|done].
  - destruct (cac_target r) as [resource action]. apply serve_workspace_touches; [apply _|].
    intros context user s. apply cac_moves_steps. eapply on_cac_serves. reflexivity.
  - destruct (exp_target r) as [resource action]. apply serve_scope_cases; [auto|].
    intros user internal ext p' E. pose proof (org_workspace_ok _ _ _ _ _ _ _ _ E) as Hw.
    destruct (ext_workspace ext) as [context|] eqn:Ex.
    + destruct (Hw context eq_refl) as (Hws & Ho & Hn & _).
      pose proof (experiment_touches flags r ext p) as Ht. rewrite Ex in Ht. simpl in Ht.
      unfold named_schema. rewrite Hws, Ho. simpl. rewrite <- Hn. apply Ht. by intros ? [= <-].
    + unfold experiment_handler. rewrite Ex. simpl. auto.
  - apply serve_workspace_touches; [apply _|]. intros. apply rtc_once, step_hook.
Qed.

Lemma serve_call_tenants flags c p : tenants_ok (pf_tables p) →
  tenants_ok (pf_tables (serve_call flags c p).2).
Proof using Names Ook Rok Sok.
  intros T. destruct (on_workspace (cl_operation c)) eqn:Hc.
  - eapply touches_tenants; [by apply workspace_call_touches|done].
  - unfold serve_call. destruct (cl_operation c) as [tags r|r|r|r|r]; try done.
    + apply serve_scope_cases; [done|]. intros. apply wp_run; [done|]. intros. by apply wp_organisation.
    + apply serve_scope_cases; [done|]. intros. apply wp_run; [done|]. intros. by apply wp_provision.
Qed.

Lemma serve_calls_tenants flags cs p : tenants_ok (pf_tables p) →
  tenants_ok (pf_tables (serve_calls flags cs p)).
Proof using Names Ook Rok Sok.
  revert p. induction cs as [|c cs IH]; intros p T; [done|]. apply IH. by apply serve_call_tenants.
Qed.

Lemma reachable_tenants flags cs : tenants_ok (pf_tables (serve_calls flags cs empty_platform)).
Proof using Names Ook Rok Sok. by apply serve_calls_tenants. Qed.
End tenants.
