(* ===== verification/ServerSamples.v ===== *)
(** * A concrete run of the service

    An environment whose configuration service accepts every operation, and a
    run of requests: an experiment is created, ramped by somebody else, moved
    between groups and concluded. *)

From S2P Require Import Prelude Pages Json Types Text Effects Logic LogicProps Config Resolve ExpModels Bucketing BucketAlloc Samples CacClient ExpChecks CacStore CacConfig Contexts Dimensions DefaultConfigs Functions CacServing QueryStrings CacService Store Groups Experiments Service Tenants Http Webhooks Organisations Internal.

#[export] Instance sample_float_text : FloatText := λ bits, pretty bits.
#[export] Instance sample_blake3 : Blake3 := λ s, "h:" +:+ s.
#[export] Instance sample_json_text : JsonText := λ _, "{}".
#[export] Instance sample_key_order : KeyOrder := λ s, elements s.
#[export] Instance sample_time_text : TimeText :=
  {| time_to_string := λ t, pretty t; timestamp_millis := λ t, t |}.
#[export] Instance sample_row_order : RowOrder := list_rows.
#[export] Instance sample_row_order_ok : RowOrderOk sample_row_order := list_rows_ok.
#[export] Instance sample_set_order : SetOrder := list_set_order.
#[export] Instance sample_set_order_ok : SetOrderOk sample_set_order := list_set_order_ok.

Definition sample_context (id : string) (value : Condition) (over : Overrides) : DbContext :=
  mkDbContext id value ("ovr-" +:+ id) 0 "cac" over 0 "cac" 0 "d" "r".

Definition accept (operation : ContextAction) : ContextBulkResponse :=
  match operation with
  | Put request => RPut (sample_context "ctx" (p_context request) (p_override request))
  | Replace request => RReplace (sample_context "ctx" ∅ (u_override request))
  | Delete id => RDelete id
  | Move id request => RMove (sample_context id (mv_context request) ∅)
  end.

(** The configuration is served or not. *)
Definition sample_env (config_up : bool) : Env := {|
  env_reply := λ _ e,
    match e return reply e with
    | CallChangeReason _ => Responded 200 None (Parsed tt)
    | CallGetContext id => Responded 200 None (Parsed (sample_context id ∅ ∅))
    | CallResolve _ _ => Responded 200 None (Parsed ∅)
    | CallValidateContext _ => Responded 200 None (Parsed tt)
    | CallBulkOperations operations _ =>
        Responded 200 (Some "v1") (Parsed (accept <$> operations))
    | CallUpdateDefaultConfig _ value _ => Ok value
    | CallConfig =>
        if config_up then Responded 200 (Some "v1") (Parsed (mkConfig [] ∅ ∅ ∅))
        else SendFailed "connection refused"
    | CallWebhook _ _ _ => Err tt
    end;
  env_now := λ n, Z.of_nat n;
  env_snowflake := λ n, Ok (100 + Z.of_nat n)%Z;
|}.

Definition sample_workspace : Workspace :=
  mkWorkspace false false false (mkMetrics false None)
    {| allow_same_keys_overlapping_ctx := false; allow_diff_keys_overlapping_ctx := true;
       allow_same_keys_non_overlapping_ctx := true |}.

Definition new_variant (id : string) (t : VariantType) (fee : bool) : Variant :=
  mkVariant id t None None {[ "fee" := VBool fee ]}.

Definition create_request (group : option Z) : Request :=
  CreateExperiment None (mkCreate "fee test" {[ "clientId" := VString "a" ]}
    [new_variant "control" CONTROL false; new_variant "test" EXPERIMENTAL true]
    None EDefault "a test" "start it" group).

Definition ramp_request (id traffic : Z) : Request :=
  RampExperiment id (mkRamp traffic "ramp it").

(** Experiment 100 is created and started at 30 percent in group 101. *)
Definition sample_run : list (Workspace * string * Request) :=
  [(sample_workspace, "ana@x.io", create_request None);
   (sample_workspace, "bob@x.io", ramp_request 100 30)].

Definition end_run : list (Workspace * string * Request) :=
  [(sample_workspace, "bob@x.io",
    ConcludeExperiment 100 None (mkConclude "100-test" None "it won"))].

(** * A concrete run of the configuration service

    An environment whose schemas only tell booleans from other values, and a
    run from a fresh workspace: two dimensions, a cohort of one of them, two
    default values, contexts that are put and put again, a dimension that
    moves. *)

#[export] Instance sample_cac_env : CacEnv := {|
  cac_now := λ n, Z.of_nat n;
  cac_snowflake := λ n, Ok (1000 + Z.of_nat n)%Z;
  cac_run_node := λ _ _ _ _, Exited true "| true" "";
  cac_check_node := λ _ _, Exited true "" "";
|}.

#[export] Instance sample_json_parse : JsonParse := λ s,
  if bool_decide (s = " true") then Some (VBool true)
  else if bool_decide (s = " false") then Some (VBool false) else None.

#[export] Instance sample_schemas : JsonSchema := {|
  schema_compile := λ _, Ok tt;
  schema_validate := λ schema value,
    match schema_field schema "type", value with
    | Some (VString "boolean"), VBool _ => Ok tt
    | Some (VString "boolean"), _ => Err ["not a boolean"]
    | _, _ => Ok tt
    end;
|}.

#[export] Instance sample_config_text : ConfigText := λ _, "{}".
#[export] Instance sample_regex : RegexEngine := λ _ _, Some true.
#[export] Instance sample_map_order : MapOrder := list_order.
#[export] Instance sample_jsonlogic : JsonLogic := jl_equals.
#[export] Instance sample_debug : DebugText := λ _, "{}".
#[export] Instance sample_variables : JsonLogicVariables := {|
  jsonlogic_parse := λ _, Ok tt;
  jsonlogic_variable_names := λ _, Ok ["city"];
|}.

Definition open_settings : Settings := mkSettings None false false None.
Definition ana : User := mkUser "ana@x.io" "ana".
Definition call (r : CacRequest) : CacCall := mkCacCall open_settings None ana r.

Definition typed (t : string) : Map := {[ "type" := VString t ]}.

Definition put (condition overrides : Map) : CacRequest :=
  PutContext (mkPutRequest condition overrides (Some "a context") "put it").
Definition dimension (name : string) (position : Z) (schema : Map) (type : DimensionType)
    : CacRequest :=
  CreateDimension (mkDimensionCreate name position schema None "a dimension" "add it" None type).
Definition default_value (key : string) (value : Value) (schema : Map) : CacRequest :=
  CreateDefaultConfig (mkDefaultConfigCreate key value schema None "a key" "add it" None).

Definition region_schema : Map :=
  <["type" := str "string"]>
  (<["enum" := VArray [str "south"; str "otherwise"]]>
   {[ "definitions" := VObject {[ "south" := rule_equals "city" (str "pune") ]} ]}).

Definition dimension_calls : list CacCall := call <$>
  [dimension "clientId" 1 (typed "string") Regular;
   dimension "city" 1 (typed "string") Regular;
   dimension "region" 1 region_schema (LocalCohort "city");
   default_value "fee" (VBool false) (typed "boolean");
   default_value "label" (str "none") (typed "string")].

Definition context_calls : list CacCall := call <$>
  [put {[ "city" := str "pune" ]} {[ "fee" := VBool true ]};
   put {[ "clientId" := str "acme" ]} {[ "label" := str "big" ]};
   put {[ "city" := str "pune" ]} {[ "label" := str "south" ]}].

(** [city] goes above [clientId]; the weights are those from before. *)
Definition move_city : CacRequest :=
  UpdateDimension "city" (mkDimensionUpdate (Some 3%Z) None None None None "city first").

Definition cac_run : list CacCall := dimension_calls ++ context_calls ++ [call move_city].
Definition cac_world : CacWorld := cac_serve_all cac_run fresh_workspace.

(** Two plain overrides whose canonical texts are the same. *)
Definition colliding_calls : list CacCall := call <$>
  [put {[ "city" := str "pune" ]} {[ "label" := str "x$note:y" ]};
   put {[ "clientId" := str "acme" ]} (<["label" := str "x"]> {[ "note" := str "y" ]})].
Definition colliding_run : list CacCall :=
  dimension_calls ++ call (default_value "note" (str "none") (typed "string")) :: colliding_calls.

(** Every function refuses, and change reasons are checked. *)
Definition refusing_env : CacEnv := {|
  cac_now := λ n, Z.of_nat n;
  cac_snowflake := λ n, Ok (1000 + Z.of_nat n)%Z;
  cac_run_node := λ _ _ _ _, Exited true "| false" "";
  cac_check_node := λ _ _, Exited true "" "";
|}.
Definition strict_settings : Settings := mkSettings None false true None.

(** ** Resolving in a state *)

Definition resolve_in (w : CacWorld) (q : Map) : option Map :=
  match generate_cac (k_contexts w) (k_default_configs w) (k_dimensions w) with
  | Ok cfg =>
      match eval_config (cohort_fuel (dimensions cfg)) (default_configs cfg) (contexts cfg)
              (overrides cfg) (dimensions cfg) q REPLACE None with
      | Some (Ok r) => Some r
      | _ => None
      end
  | Err _ => None
  end.

Lemma resolve_in_some w q cfg r :
  generate_cac (k_contexts w) (k_default_configs w) (k_dimensions w) = Ok cfg →
  eval_config (cohort_fuel (dimensions cfg)) (default_configs cfg) (contexts cfg)
    (overrides cfg) (dimensions cfg) q REPLACE None = Some (Ok r) →
  resolve_in w q = Some r.
Proof. intros Hcfg Hr. unfold resolve_in. by rewrite Hcfg, Hr. Qed.

(** * Runs of the server

    Concrete parameters, requests and platforms at which the theorems about
    the server are instantiated. *)

(** ** Parameters *)

#[export] Instance sample_app : AppState := {|
  tenant_middleware_exclusion_list := {[ "/health"; "/oidc/login" ]};
  service_prefix := "";
  superposition_token := "secret";
|}.

#[export] Instance sample_user_text : UserText := {|
  user_from_str s :=
    match split_at ";" s with [email; username] => Some (mkUser email username) | _ => None end;
  user_to_str u := user_email u +:+ ";" +:+ user_username u;
|}.

Definition is_alphanumeric (c : ascii) : bool :=
  let n := nat_of_ascii c in
  ((48 <=? n) && (n <=? 57)) || ((65 <=? n) && (n <=? 90)) || ((97 <=? n) && (n <=? 122)).
Fixpoint all_chars (f : ascii → bool) (s : string) : bool :=
  match s with EmptyString => true | String c s => f c && all_chars f s end.

(** The names of workspaces are matched; paths have no packages or assets. *)
Definition platform_regex : RegexEngine := λ re s,
  if bool_decide (re = WORKSPACE_NAME_REGEX) then
    Some (negb (bool_decide (s = "")) && all_chars is_alphanumeric s)
  else Some (negb (bool_decide (re ∈ [".*/pkg/.+"; ".*/assets/.+"]))).

(** A provider for all users, and one for the organisation [orgid7]. *)
Definition user_claims : Claims := mkClaims (Some "ana@x.io") (Some "ana").
#[export] Instance sample_provider : Provider := {|
  decode_global c :=
    if bool_decide (c = "global") then Some (mkGlobalClaims user_claims ["orgid7"] "pass") else None;
  decode_at issuer c :=
    if bool_decide (issuer = "https://id/orgid7" ∧ c = "token7") then Some user_claims else None;
  exchange_at _ _ _ := ExchangeFailed;
  parse_url _ := true;
  issuer_endpoint_format := "https://id/<organisation>";
  token_endpoint_format := "https://id/<organisation>/token";
  base_url := "https://host";
|}.

(** ** Requests *)

Definition headers_for (org workspace : string) : gmap string string :=
  {[ "x-org-id" := org; "x-workspace" := workspace ]}.

Definition user_request (path org workspace : string) (cookies : gmap string string) : HttpRequest :=
  mkHttpRequest path (Some path) "" (headers_for org workspace) cookies.

(** ** A platform with two organisations *)

Definition workspace_row (org workspace : string) : WorkspaceRow :=
  mkWorkspaceRow org "Org" workspace (schema_name org workspace) ENABLED "ana@x.io" None "ana@x.io"
    "ana@x.io" 0 0 None (mkMetrics false None) false false false false.

Definition two_tenants : Platform :=
  mkPlatform ∅
    {[ "orgid7_dev" := workspace_row "orgid7" "dev"; "orgid8_dev" := workspace_row "orgid8" "dev" ]}
    {[ "orgid7_dev" := fresh_schema; "orgid8_dev" := fresh_schema ]} 0 0 0.
