(* ===== verification/PlatformRun.v ===== *)
(** * A run of the whole server

    An organisation and a workspace are created, the workspace is configured,
    an experiment is created and ramped, which puts its variants as contexts
    through the configuration service, and a webhook is stored. *)

From S2P Require Import Prelude Pages Json Types Text Effects Logic LogicProps Config ExpModels Bucketing BucketAlloc Samples CacClient ExpChecks CacStore CacConfig Contexts Dimensions DefaultConfigs Functions CacServing QueryStrings QueryStringProps CacQueries CacReduce CacService Store Groups Experiments Service Tenants Http Webhooks Organisations Internal Platform PlatformProps Tenancy ServerSamples.

#[export] Existing Instance platform_regex.
#[export] Existing Instance disabled_authenticator.
#[export] Existing Instance no_auth.

#[export] Instance run_network : Network := {|
  delivery _ _ _ := Delivered;
  follow_redirect _ := Ok 200%Z;
  url_query := wire;
  default_config_json _ := VNull;
|}.
#[export] Instance run_clock : ExpClock := {|
  exp_now n := Z.of_nat n;
  exp_snowflake n := Ok (100 + Z.of_nat n)%Z;
|}.
#[export] Instance run_platform_env : PlatformEnv := {|
  next_id n := (7 + Z.of_nat n)%Z;
  setup_outcome _ := Ok tt;
|}.
#[export] Instance run_variables : VarRegex := λ s, ([], s).
#[export] Instance run_headers : HeaderSyntax := {| header_name := Some; header_value _ := true |}.
#[export] Instance run_hooks : HookEnv := {| encrypted_keys := ∅; hook_send _ _ _ _ _ := Ok 200%Z |}.
#[export] Instance run_collation : Collation := str_leb.

Lemma all_alphanumeric_lacks s : all_chars is_alphanumeric s = true → lacks "_" s = true.
Proof.
  induction s as [|c s IH]; [done|]. cbn [all_chars lacks]. intros [Hc Hs]%andb_true_iff.
  rewrite IH, andb_true_r, negb_true_iff by done. apply bool_decide_eq_false_2. by intros ->.
Qed.

#[export] Instance run_names : WorkspaceNames.
Proof.
  intros name. unfold regex_is_match, platform_regex. rewrite bool_decide_eq_true_2 by done.
  intros [= [Hn Hs]%andb_true_iff]. apply negb_true_iff, bool_decide_eq_false_1 in Hn.
  split; [done|by apply all_alphanumeric_lacks].
Qed.

Definition run_flags : ExperimentationFlags :=
  {| allow_same_keys_overlapping_ctx := false; allow_diff_keys_overlapping_ctx := true;
     allow_same_keys_non_overlapping_ctx := true |}.

Definition at_workspace (workspace : string) (o : Operation) : Call :=
  mkCall (user_request "/call" "orgid7" workspace ∅) o.

Definition add_workspace (name : string) : Call :=
  at_workspace name (Provision (CreateWorkspace
    (mkCreateWorkspace "ana@x.io" name None None true false false false))).

Definition provision_run : list Call :=
  [at_workspace "dev" (Organise (CreateOrganisation (mkOrgCreate None None None "ana@x.io" "Org" None)));
   add_workspace "dev"; add_workspace "prod"].

Definition hook_request : WebhookRequest :=
  CreateWebhook (mkCreateWebhook "told" "told of starts" true "https://host/hook" HPost None None
    [ExperimentStarted] "tell us").

Definition configure_run : list Call := at_workspace "dev" <$>
  [Configure None (dimension "clientId" 1 (typed "string") Regular);
   Configure None (default_value "fee" (VBool false) (typed "boolean"));
   Hook hook_request;
   Experiment_ (create_request None);
   Experiment_ (ramp_request 100 30)].

Definition server_run : list Call := provision_run ++ configure_run.
Definition run_platform : Platform := serve_calls run_flags server_run empty_platform.
