(* ===== verification/ServiceClaims.v ===== *)
(** * Theorems on the experimentation service *)

From S2P Require Import Prelude Pages Json Types Text Effects ExpModels Bucketing BucketAlloc CacClient ExpChecks CacStore Store Groups Experiments Service Reallocation Spec Refine RefineExperiments RefineGroups ServiceProps ServerSamples.

Definition sample_world : World := serve_all (H:=sample_env true) sample_run empty_world.

(** The rows of the sample run. *)
Definition sample_row : option Experiment := w_experiments sample_world !! 100%Z.

Section claims.
Context `{Env} `{RowOrder} `{SetOrder} `{KeyOrder} `{FloatText} `{Blake3} `{JsonText} `{TimeText}.
Context {Rok : RowOrderOk _} {Sok : SetOrderOk _}.

(** C2. The handlers implement the abstract machine: whatever requests the
    service is sent, in whatever order, by whomever, and however the outside
    answers, its tables are reached from the empty ones by the steps of [Spec];
    the requests that fail contribute no step or complete ones. *)
Theorem service_refines_spec rs :
  rtc step (mkSpec ∅ ∅) (abs (tables (serve_all rs empty_world))).
Proof.
  pose proof (serve_all_sim rs empty_world good_empty) as [Hs _].
  replace (mkSpec ∅ ∅) with (abs (tables empty_world)); [done|].
  unfold abs. simpl. by rewrite fmap_empty.
Qed.

(** C3. Exact traffic. After any requests, an experiment that is running or
    paused belongs to a group that lists it, and in that group each of its
    variants holds exactly as many of the hundred buckets as its traffic
    percentage says. A system-generated group carries the traffic of all the
    variants together. *)
Theorem traffic_exact rs id e :
  w_experiments (serve_all rs empty_world) !! id = Some e → running (e_status e) →
  ∃ gid g, e_experiment_group_id e = Some gid ∧
    w_groups (serve_all rs empty_world) !! gid = Some g ∧
    id ∈ g_member_experiment_ids g ∧ length (g_buckets g) = 100 ∧
    (∀ v, v ∈ e_variants e →
       held (v_id v) (g_buckets g) = Z.to_nat (e_traffic_percentage e)) ∧
    (g_group_type g = SystemGenerated →
       g_traffic_percentage g =
         (Z.of_nat (length (e_variants e)) * e_traffic_percentage e)%Z).
Proof.
  intros He Hrun. pose proof (reachable_good rs) as G. unfold tables in G.
  destruct (good_staffed _ _ _ _ G He Hrun) as [gid Hl].
  destruct (good_link _ _ _ _ _ G He Hl) as (g & Hg & Hm & Hb).
  exists gid, g. split_and!; [done|done|done| | |].
  - destruct G as [I _]. by apply (inv_size _ I gid (abs_group g)), abs_group_lookup.
  - intros v Hv. apply Hb, list_elem_of_fmap. eauto.
  - intros Hty. by rewrite (good_system_traffic _ _ _ _ _ _ G He Hl Hg Hty).
Qed.

(** C10. Both tables tell the same membership. After any requests, the row of an
    experiment names a group exactly when that group exists and lists the
    experiment; so an experiment is a member of at most one group, and no
    deleted group or experiment is referred to. *)
Theorem membership_consistent rs id gid :
  (∃ e, w_experiments (serve_all rs empty_world) !! id = Some e ∧
        e_experiment_group_id e = Some gid) ↔
  (∃ g, w_groups (serve_all rs empty_world) !! gid = Some g ∧
        id ∈ g_member_experiment_ids g).
Proof.
  pose proof (reachable_good rs) as G. unfold tables in G. split.
  - intros (e & He & Hl). destruct (good_link _ _ _ _ _ G He Hl) as (g & Hg & Hm & _). eauto.
  - intros (g & Hg & Hm). by eapply good_member.
Qed.

(** C30. No bucket dangles. After any requests, a bucket that is assigned names
    one variant of one experiment, which exists, belongs to the group and is
    neither concluded nor discarded. *)
Theorem buckets_owned rs gid g i b :
  w_groups (serve_all rs empty_world) !! gid = Some g → g_buckets g !! i = Some (Some b) →
  ∃ id e, w_experiments (serve_all rs empty_world) !! id = Some e ∧
    b_experiment_id b = pretty id ∧ b_variant_id b ∈ variant_ids e ∧
    e_experiment_group_id e = Some gid ∧ e_status e ≠ CONCLUDED ∧ e_status e ≠ DISCARDED.
Proof.
  intros Hg Hb. pose proof (reachable_good rs) as G. unfold tables in G.
  destruct (good_owner _ _ _ _ _ _ G Hg Hb) as (id & e & He & Hl & Hc & Hid & Hv).
  exists id, e. split_and!; try done; intros Hs; apply Hc; [by left|by right].
Qed.

(** C31. The life of an experiment. Further requests never remove an experiment
    nor change who created it, when, its name, type and context, nor the ids of
    its variants; its status follows the transitions of [status_step]; and once
    concluded or discarded its row never changes again. *)
Theorem experiment_lifecycle rs rs' id e :
  w_experiments (serve_all rs empty_world) !! id = Some e →
  ∃ e', w_experiments (serve_all rs' (serve_all rs empty_world)) !! id = Some e' ∧
    same_identity e e' ∧ rtc status_step (e_status e) (e_status e') ∧
    (e_status e = CONCLUDED ∨ e_status e = DISCARDED → e' = e).
Proof.
  intros He. pose proof (reachable_good rs) as G.
  pose proof (serve_all_sim rs' _ G) as [Hs _].
  destruct (steps_evolve _ _ id e (proj1 G) Hs He) as (e' & He' & [Hi Hst Hc]).
  exists e'. by split_and!.
Qed.
End claims.

(** C7. Failed requests have no effect on the tables. Whatever the state, a
    request other than a ramp that is answered with an error leaves both tables
    as they were, also when it failed in the middle of its statements. *)
Theorem failed_request_rolls_back `{Env} `{RowOrder} `{SetOrder} `{KeyOrder} `{FloatText}
    `{Blake3} `{JsonText} `{TimeText} ws user r w err w' :
  (∀ id req, r ≠ RampExperiment id req) →
  serve ws user r w = (Err err, w') →
  w_experiments w' = w_experiments w ∧ w_groups w' = w_groups w.
Proof.
  intros Hr Hs. pose proof (atomic_serve ws user r Hr w) as Ha. rewrite Hs in Ha.
  by injection Ha.
Qed.

(** A ramp may be answered with an error although it took place: the
    configuration is fetched after the transaction committed, and when that
    fails the client is told so, while the experiment is running at its new
    traffic and its group exists. *)
Theorem ramp_commits_before_it_fails :
  let w := serve_all (H:=sample_env true) (take 1 sample_run) empty_world in
  let '(answer, w') :=
    serve (H:=sample_env false) sample_workspace "bob@x.io" (ramp_request 100 30) w in
  answer = Err (UnexpectedError "connection refused") ∧
  e_status <$> w_experiments w !! 100%Z = Some CREATED ∧
  e_status <$> w_experiments w' !! 100%Z = Some INPROGRESS ∧
  e_traffic_percentage <$> w_experiments w' !! 100%Z = Some 30%Z ∧
  g_traffic_percentage <$> w_groups w' !! 101%Z = Some 60%Z.
Proof. vm_compute. repeat split. Qed.

(** ** Witnesses *)

Lemma service_refines_spec_witness : rtc step (mkSpec ∅ ∅) (abs (tables sample_world)).
Proof. exact (service_refines_spec (H:=sample_env true) sample_run). Defined.

Lemma sample_row_some : ∃ e, w_experiments sample_world !! 100%Z = Some e ∧ e_status e = INPROGRESS.
Proof. eexists. split; [vm_compute; reflexivity|vm_compute; reflexivity]. Qed.

Lemma traffic_exact_witness :
  ∃ e gid g, sample_row = Some e ∧ w_groups sample_world !! gid = Some g ∧
    ∀ v, v ∈ e_variants e → held (v_id v) (g_buckets g) = Z.to_nat (e_traffic_percentage e).
Proof.
  destruct sample_row_some as (e & He & Hst).
  destruct (traffic_exact (H:=sample_env true) sample_run 100 e He (or_introl Hst))
    as (gid & g & _ & Hg & _ & _ & Hv & _).
  exists e, gid, g. split; [exact He|]. split; [exact Hg|exact Hv].
Defined.

Lemma membership_consistent_witness :
  ∃ g, w_groups sample_world !! 101%Z = Some g ∧ 100%Z ∈ g_member_experiment_ids g.
Proof.
  apply (membership_consistent (H:=sample_env true) sample_run 100 101).
  eexists. split; [vm_compute; reflexivity|vm_compute; reflexivity].
Defined.

Lemma sample_bucket :
  ∃ g b, w_groups sample_world !! 101%Z = Some g ∧ g_buckets g !! 0 = Some (Some b).
Proof. do 2 eexists. split; [vm_compute; reflexivity|vm_compute; reflexivity]. Qed.

Lemma buckets_owned_witness :
  ∃ id e, w_experiments sample_world !! id = Some e ∧ e_experiment_group_id e = Some 101%Z.
Proof.
  destruct sample_bucket as (g & b & Hg & Hb).
  destruct (buckets_owned (H:=sample_env true) sample_run 101 g 0 b Hg Hb)
    as (id & e & He & _ & _ & Hl & _).
  exists id, e. split; [exact He|exact Hl].
Defined.

Definition ended_world : World := serve_all (H:=sample_env true) end_run sample_world.

Lemma ended_row_some : ∃ e, w_experiments ended_world !! 100%Z = Some e ∧ e_status e = CONCLUDED.
Proof. eexists. split; [vm_compute; reflexivity|vm_compute; reflexivity]. Qed.

Lemma experiment_lifecycle_witness :
  ∃ e', w_experiments ended_world !! 100%Z = Some e' ∧ rtc status_step INPROGRESS (e_status e').
Proof.
  destruct sample_row_some as (e & He & Hst).
  destruct (experiment_lifecycle (H:=sample_env true) sample_run end_run 100 e He)
    as (e' & He' & _ & Hs & _).
  exists e'. split; [exact He'|]. rewrite <-Hst. exact Hs.
Defined.

(** The experiment was inserted before its group was found missing. *)
Lemma failed_request_rolls_back_witness :
  w_experiments (serve (H:=sample_env true) sample_workspace "bob@x.io" (create_request (Some 5%Z))
              empty_world).2 = ∅.
Proof.
  destruct (serve (H:=sample_env true) sample_workspace "bob@x.io" (create_request (Some 5%Z))
    empty_world) as [r w'] eqn:E.
  assert (∃ err, r = Err err) as [err Herr].
  { exists (DbError DbNotFound). change r with (r, w').1. rewrite <-E. vm_compute. reflexivity. }
  rewrite Herr in E.
  exact (proj1 (failed_request_rolls_back (H:=sample_env true) sample_workspace "bob@x.io"
    (create_request (Some 5%Z)) empty_world err w' ltac:(discriminate) E)).
Defined.
