(* ===== verification/ExpClaims.v ===== *)
(** * What a successful creation stores *)

From S2P Require Import Prelude Pages Json Types Text Effects Logic Config ExpModels Bucketing BucketAlloc Samples CacClient ExpChecks CacStore Store Groups Experiments Service Reallocation Spec Refine RefineExperiments ServerSamples.

(** What the renaming and the created contexts leave of a variant. *)
Definition core (v : Variant) : VariantType * Overrides := (v_variant_type v, v_overrides v).

Section create.
Context `{Env} `{RowOrder} `{SetOrder} `{KeyOrder} `{FloatText} `{Blake3} `{JsonText} `{TimeText}.
Context {Rok : RowOrderOk _} {Sok : SetOrderOk _}.

(** The demands of a creation on the request. *)
Record create_checked (req : ExperimentCreateRequest) (keys : list string) : Prop := {
  cc_types : check_variant_types (rc_variants req) = Ok tt;
  cc_nodup : NoDup (v_id <$> rc_variants req);
  cc_keys : ∃ v0, head (rc_variants req) = Some v0 ∧ keys = key_order (dom (v_overrides v0));
  cc_coverage : rc_experiment_type req = EDefault →
    check_variants_override_coverage (v_overrides <$> rc_variants req) keys = true;
}.

Lemma wp_create_checked ws req Φ t :
  (∀ keys, create_checked req keys → Φ keys t) → wp (create_checks ws req) Φ (λ _, True) t.
Proof.
  intros HΦ. unfold create_checks. cbn zeta.
  apply wp_bind, wp_neutral; [apply _|intros _|done].
  apply wp_bind, wp_lift; [|done]. intros [] Hty.
  apply wp_bind, wp_lift; [|done]. intros v0 Hv0. unfold first_variant in Hv0.
  destruct (head (rc_variants req)) as [v|] eqn:Hh; [|done]. injection Hv0 as ->.
  destruct (Nat.eqb_spec (size (list_to_set (v_id <$> rc_variants req) : gset string))
    (length (rc_variants req))) as [Hsize|]; [|by apply wp_bad].
  cbn [negb]. assert (NoDup (v_id <$> rc_variants req)) as Hnd.
  { apply NoDup_size_list_to_set. by rewrite Hsize, length_fmap. }
  unfold extract_override_keys. destruct (rc_experiment_type req) eqn:Ht; apply wp_bind.
  - destruct (check_variants_override_coverage _ _) eqn:Hc; cbn [negb]; [|by apply wp_bad].
    apply wp_neutral; [apply _|intros _|done]. apply wp_ret, HΦ. split; eauto.
  - apply wp_neutral; [apply _|intros _|done]. apply wp_ret, HΦ. split; [eauto..|congruence].
Qed.

Lemma variant_puts_core id c d cr vs puts :
  try_map (variant_put id c d cr) vs = Ok puts → core <$> puts.*1 = core <$> vs.
Proof.
  intros Hp%try_map_ok. induction Hp as [|v [v' a] vs puts Hv _ IH]; [done|].
  rewrite !fmap_cons. f_equal; [|done]. unfold variant_put in Hv.
  by apply result_bind_ok in Hv as (m & _ & (cx & _ & [= <- _])%result_bind_ok).
Qed.

Lemma record_created_core cs vs vs' : record_created cs vs = Ok vs' → core <$> vs' = core <$> vs.
Proof.
  revert vs vs'. induction cs as [|c cs IH]; intros vs vs'; simpl; [by intros [= <-]|].
  destruct vs as [|v vs]; [done|]. intros (rest & Hr & [= <-])%result_bind_ok.
  rewrite !fmap_cons. f_equal. by apply IH.
Qed.

Lemma wp_created_contexts id tags req Φ t :
  (∀ vs v, renamed id (rc_variants req) vs → core <$> vs = core <$> rc_variants req → Φ (vs, v) t) →
  wp (create_contexts id tags req) Φ (λ _, True) t.
Proof.
  intros HΦ. unfold create_contexts.
  apply wp_bind, wp_lift; [|done]. intros puts Hputs. cbn zeta.
  apply wp_bind, wp_neutral; [apply neutral_call|intros response|done].
  apply wp_bind, wp_neutral; [apply _|intros [cs v]|done].
  apply wp_bind, wp_neutral; [apply _|intros created|done].
  apply wp_bind, wp_lift; [|done]. intros vs Hvs. apply wp_ret, HΦ.
  - unfold renamed. rewrite (record_created_ids _ _ _ Hvs). by eapply variant_puts_renamed.
  - rewrite (record_created_core _ _ _ Hvs). by eapply variant_puts_core.
Qed.

Lemma wp_stored e user es gs :
  wp (store_experiment e user) (λ e' t', e' = e ∧ es !! e_id e = None ∧ t'.1 = <[e_id e := e]> es)
    (λ _, True) (es, gs).
Proof.
  unfold store_experiment. apply wp_transaction, wp_bind, wp_insert_experiment; [|done].
  intros Hfresh. destruct (e_experiment_group_id e) as [gid|].
  - apply wp_bind, wp_bind, wp_neutral; [apply _|intros reason|done].
    apply wp_bind, wp_add_members; [|done]. intros g g' _ _ _ _. by do 2 apply wp_ret.
  - by apply wp_bind, wp_ret, wp_ret.
Qed.

(** The row a successful creation inserts. *)
Record created (req : ExperimentCreateRequest) (user : string) (es : gmap Z Experiment)
    (e : Experiment) : Prop := {
  cr_fresh : es !! e_id e = None;
  cr_status : e_status e = CREATED;
  cr_traffic : e_traffic_percentage e = 0%Z;
  cr_created_by : e_created_by e = user;
  cr_name : e_name e = rc_name req;
  cr_type : e_experiment_type e = rc_experiment_type req;
  cr_context : e_context e = rc_context req;
  cr_group : e_experiment_group_id e = rc_experiment_group_id req;
  cr_control : countb (λ v, bool_decide (v_variant_type v = CONTROL)) (e_variants e) = 1;
  cr_variants : (λ v, (v_id v, v_variant_type v, v_overrides v)) <$> e_variants e =
    (λ v, (pretty (e_id e) +:+ "-" +:+ v_id v, v_variant_type v, v_overrides v)) <$> rc_variants req;
  cr_nodup : NoDup (variant_ids e);
  cr_keys : ∃ v, head (rc_variants req) = Some v ∧
    e_override_keys e ≡ₚ elements (dom (v_overrides v));
  cr_coverage : rc_experiment_type req = EDefault →
    ∀ v, v ∈ e_variants e → dom (v_overrides v) = list_to_set (e_override_keys e);
}.

Lemma countb_core (p : VariantType → bool) vs vs' :
  core <$> vs' = core <$> vs →
  countb (λ v, p (v_variant_type v)) vs' = countb (λ v, p (v_variant_type v)) vs.
Proof.
  revert vs'. induction vs as [|v vs IH]; intros [|v' vs'] Hc; [done..|].
  injection Hc as Ht _ Hc. rewrite !countb_cons, Ht. f_equal. by apply IH.
Qed.

Lemma check_variant_types_control vs :
  check_variant_types vs = Ok tt →
  countb (λ v, bool_decide (v_variant_type v = CONTROL)) vs = 1.
Proof.
  unfold check_variant_types. generalize (countb (λ v, bool_decide (v_variant_type v = CONTROL)) vs).
  intros [|[|n]]; done.
Qed.

Lemma renamed_variants id vs vs' :
  renamed id vs vs' → core <$> vs' = core <$> vs →
  (λ v, (v_id v, v_variant_type v, v_overrides v)) <$> vs' =
  (λ v, (pretty id +:+ "-" +:+ v_id v, v_variant_type v, v_overrides v)) <$> vs.
Proof.
  unfold renamed. revert vs'. induction vs as [|v vs IH]; intros [|v' vs']; try done.
  rewrite !fmap_cons. intros [= Hi Hr] [= Ht Ho Hc]. rewrite Hi, Ht, Ho. f_equal. by apply IH.
Qed.

Lemma created_spec ws req user es id time keys vs :
  (∀ s, key_order s ≡ₚ elements s) → es !! id = None → create_checked req keys →
  renamed id (rc_variants req) vs → core <$> vs = core <$> rc_variants req →
  created req user es (new_experiment ws req id time keys vs user).
Proof.
  intros Hko Hfresh C Hr Hc.
  assert (variants_ok (new_experiment ws req id time keys vs user)) as V.
  { apply (renamed_ok _ (rc_variants req)); [exact Hr|apply C|].
    by eapply check_variant_types_nonempty, C. }
  split; simpl; try done.
  - pose proof (countb_core (λ t, bool_decide (t = CONTROL)) _ _ Hc) as Hcount.
    cbn beta in Hcount. rewrite Hcount.
    by apply check_variant_types_control, C.
  - by apply renamed_variants.
  - apply V.
  - destruct (cc_keys _ _ C) as (v & Hv & ->). exists v. split; [done|apply Hko].
  - intros Hty v Hv. apply check_variant_override_coverage_iff.
    + destruct (cc_keys _ _ C) as (v0 & _ & ->). rewrite Hko. apply NoDup_elements.
    + pose proof (cc_coverage _ _ C Hty) as Hcov. unfold check_variants_override_coverage in Hcov.
      rewrite forallb_True in Hcov. apply Hcov.
      assert (core v ∈ core <$> rc_variants req) as Hin by (rewrite <-Hc; apply list_elem_of_fmap; eauto).
      apply list_elem_of_fmap in Hin as (v' & [= _ ->] & Hv'). apply list_elem_of_fmap. eauto.
Qed.

Lemma wp_create ws tags req user es gs :
  (∀ s, key_order s ≡ₚ elements s) →
  wp (create_handler ws tags req user)
    (λ '(_, response, _) t', created req user es (r_experiment response) ∧
       t'.1 = <[e_id (r_experiment response) := r_experiment response]> es)
    (λ _, True) (es, gs).
Proof.
  intros Hko. unfold create_handler. apply wp_bind, wp_create_checked. intros keys C.
  apply wp_bind, wp_neutral; [apply _|intros id|done].
  apply wp_bind, wp_created_contexts. intros vs v Hr Hc.
  apply wp_bind, wp_neutral; [apply _|intros time|done].
  apply wp_bind. eapply wp_mono; [apply wp_stored| |done].
  intros e t (-> & Hfresh & Ht). apply wp_bind, wp_neutral; [apply _|intros st|done].
  apply wp_ret. split; [|done]. by apply created_spec.
Qed.
End create.

(** * Theorems on the admission of experiments *)

(** Two contexts of which one extends the other. *)
Definition related (a b : Condition) : Prop := a ⊆ b ∨ b ⊆ a.

(** What the flags demand of a new experiment next to an active one. *)
Definition admissible (flags : ExperimentationFlags) (context : Condition) (keys : list string)
    (e : Experiment) : Prop :=
  (allow_diff_keys_overlapping_ctx flags = false → related context (e_context e) →
     ∀ k, k ∈ e_override_keys e → k ∈ keys) ∧
  (allow_same_keys_overlapping_ctx flags = false → related context (e_context e) →
     ∀ k, k ∈ e_override_keys e → k ∉ keys) ∧
  (allow_same_keys_non_overlapping_ctx flags = false → ¬ related context (e_context e) →
     ∀ k, k ∈ e_override_keys e → k ∉ keys).

Lemma existsb_none {A} (f : A → bool) l : existsb f l = false ↔ ∀ x, x ∈ l → f x = false.
Proof.
  rewrite <-not_true_iff_false, existsb_True. split.
  - intros Hn x Hx. destruct (f x) eqn:E; [|done]. destruct Hn. eauto.
  - intros Hf (x & Hx & Hfx). by rewrite Hf in Hfx.
Qed.

Lemma compatible_spec flags context keys e :
  compatible flags (bool_decide (context ⊆ e_context e ∨ e_context e ⊆ context))
    (existsb (λ k, bool_decide (k ∈ keys)) (e_override_keys e))
    (forallb (λ k, bool_decide (k ∈ keys)) (e_override_keys e)) = true ↔
  admissible flags context keys e.
Proof.
  unfold compatible, admissible. fold (related context (e_context e)).
  assert (forallb (λ k, bool_decide (k ∈ keys)) (e_override_keys e) = true ↔
    ∀ k, k ∈ e_override_keys e → k ∈ keys) as Hall.
  { rewrite forallb_True. by setoid_rewrite bool_decide_eq_true. }
  assert (existsb (λ k, bool_decide (k ∈ keys)) (e_override_keys e) = false ↔
    ∀ k, k ∈ e_override_keys e → k ∉ keys) as Hnone.
  { rewrite existsb_none. by setoid_rewrite bool_decide_eq_false. }
  rewrite <-Hall, <-Hnone. generalize (forallb (λ k, bool_decide (k ∈ keys)) (e_override_keys e)).
  generalize (existsb (λ k, bool_decide (k ∈ keys)) (e_override_keys e)). intros ex al.
  destruct (allow_diff_keys_overlapping_ctx flags), (allow_same_keys_overlapping_ctx flags),
    (allow_same_keys_non_overlapping_ctx flags); destruct (decide (related context (e_context e)))
    as [Hr|Hr]; rewrite ?(bool_decide_true _ Hr), ?(bool_decide_false _ Hr);
    destruct ex, al; cbn; naive_solver.
Qed.

(** Admission does what its flags say. When the contexts stored for the
    active experiments are well-formed, [is_valid_experiment] accepts a context
    and its keys exactly when every active experiment is admissible: where the
    contexts are related (one extends the other), all of its keys must be among
    the new ones or none, as the flags for overlapping contexts demand; where
    they are not, none, if the flag for the same keys is off. *)
Theorem is_valid_experiment_spec context keys flags actives :
  (∀ e, e ∈ actives → exp_condition_try_from (e_context e) = Ok (e_context e)) →
  ∃ valid reason, is_valid_experiment context keys flags actives = Ok (valid, reason) ∧
    (valid = true ↔ ∀ e, e ∈ actives → admissible flags context keys e).
Proof.
  intros Hok. unfold is_valid_experiment.
  destruct (negb (allow_same_keys_overlapping_ctx flags) ||
    negb (allow_diff_keys_overlapping_ctx flags) ||
    negb (allow_same_keys_non_overlapping_ctx flags)) eqn:E.
  - clear E. induction actives as [|e actives IH]; cbn [check_active].
    { exists true, "". split; [done|]. split; [by intros _ ? ?%elem_of_nil|done]. }
    rewrite Hok by set_solver. cbn [map_err]. rewrite result_bind_Ok, are_overlapping_contexts_spec, result_bind_Ok.
    cbn zeta. destruct (compatible flags _ _ _) eqn:Ec.
    + destruct IH as (v & r & Hv & Hiff); [set_solver|]. exists v, r. split; [done|].
      rewrite Hiff. apply compatible_spec in Ec. set_solver.
    + exists false, invalid_experiment_reason. split; [done|]. split; [done|].
      intros Hall. rewrite (proj2 (compatible_spec flags context keys e)) in Ec; [done|].
      apply Hall. set_solver.
  - exists true, "". split; [done|]. split; [|done]. intros _ e _.
    apply orb_false_iff in E as [E E3]. apply orb_false_iff in E as [E1 E2].
    apply negb_false_iff in E1, E2, E3. unfold admissible. rewrite E1, E2, E3. done.
Qed.

(** Contexts that overlap in requests need not overlap for the code. Two
    contexts over different dimensions are reported as not overlapping, although
    a request that binds both dimensions matches both: with the flag for the
    same keys in overlapping contexts off, an experiment on the same key as an
    active one is admitted, and a request is subject to both. *)
Theorem overlapping_requests_missed :
  let a : Condition := {[ "city" := VString "Pune" ]} in
  let b : Condition := {[ "os" := VString "ios" ]} in
  let request : Map := {[ "city" := VString "Pune"; "os" := VString "ios" ]} in
  are_overlapping_contexts a b = Ok false ∧ apply a request = true ∧ apply b request = true ∧
  ∀ e, e_context e = a → e_override_keys e = ["fee"] →
    is_valid_experiment b ["fee"] (mkFlags false true true) [e] = Ok (true, "").
Proof.
  do 3 (split; [vm_compute; reflexivity|]).
  intros e Ha Hk. unfold is_valid_experiment. simpl. rewrite Ha, Hk. vm_compute. reflexivity.
Qed.

(** The sample experiment paused, another one started on its context and key,
    and the first one resumed. *)
Definition resume_run : list (Workspace * string * Request) :=
  sample_run ++
  [(sample_workspace, "ana@x.io", PauseExperiment 100 "hold on");
   (sample_workspace, "ana@x.io", create_request None);
   (sample_workspace, "bob@x.io", ramp_request 102 30);
   (sample_workspace, "ana@x.io", ResumeExperiment 100 "go on")].

(** Resuming is not checked. With the flag for the same keys in overlapping
    contexts off, two experiments on one context and one key cannot be active
    together when created; but paused experiments do not count as active, and
    [resume] checks nothing, so that after a pause, a creation, a ramp and a
    resume both are running. *)
Theorem resume_breaks_isolation :
  let w := serve_all (H:=sample_env true) resume_run empty_world in
  e_status <$> w_experiments w !! 100%Z = Some INPROGRESS ∧
  e_status <$> w_experiments w !! 102%Z = Some INPROGRESS ∧
  e_context <$> w_experiments w !! 100%Z = e_context <$> w_experiments w !! 102%Z ∧
  e_override_keys <$> w_experiments w !! 100%Z = Some ["fee"] ∧
  e_override_keys <$> w_experiments w !! 102%Z = Some ["fee"] ∧
  (serve (H:=sample_env true) sample_workspace "ana@x.io" (create_request None)
     (serve_all (H:=sample_env true) sample_run empty_world)).1 =
    Err (BadArgument invalid_experiment_reason).
Proof. vm_compute. repeat split. Qed.

(** Against an active experiment on everything and the same key. *)
Lemma is_valid_experiment_spec_witness :
  ∃ valid reason,
    is_valid_experiment {[ "os" := VString "ios" ]} ["fee"] (mkFlags false true true)
      [sample_experiment] = Ok (valid, reason) ∧ valid = false.
Proof.
  destruct (is_valid_experiment_spec {[ "os" := VString "ios" ]} ["fee"] (mkFlags false true true)
    [sample_experiment]) as (valid & reason & Hv & Hiff).
  { intros e He. apply list_elem_of_singleton in He as ->. vm_compute. reflexivity. }
  exists valid, reason. split; [exact Hv|]. destruct valid; [|reflexivity].
  destruct (proj1 Hiff eq_refl sample_experiment (list_elem_of_here _ _)) as (_ & Hs & _).
  destruct (Hs eq_refl (or_intror (map_empty_subseteq _)) "fee" (list_elem_of_here _ _)).
  apply list_elem_of_here.
Defined.

(** C33. What a creation stores. When a creation succeeds, the table of
    experiments gains exactly the row that is answered, under an id that was
    free: in status CREATED, with no traffic, by the creator, with the name,
    type, context and group asked for; its variants are those of the request in
    their order, each with its type and its overrides and with the experiment's
    id in front of its own; the ids are distinct, exactly one variant is the
    control, the keys of the experiment are those that the first variant
    overrides, and, unless the experiment deletes overrides, every variant
    overrides exactly these. *)
Theorem create_experiment_ok `{Env} `{RowOrder} `{SetOrder} `{KeyOrder} `{FloatText} `{Blake3}
    `{JsonText} `{TimeText} {Rok : RowOrderOk _} {Sok : SetOrderOk _}
    ws tags req user w status response v w' :
  (∀ s, key_order s ≡ₚ elements s) →
  create_handler ws tags req user w = (Ok (status, response, v), w') →
  created req user (w_experiments w) (r_experiment response) ∧
  w_experiments w' =
    <[e_id (r_experiment response) := r_experiment response]> (w_experiments w).
Proof.
  intros Hko Hw.
  pose proof (wp_create ws tags req user (w_experiments w) (w_groups w) Hko w eq_refl) as Hwp.
  by rewrite Hw in Hwp.
Qed.

Definition sample_create : ExperimentCreateRequest :=
  mkCreate "fee test" {[ "clientId" := VString "a" ]}
    [new_variant "control" CONTROL false; new_variant "test" EXPERIMENTAL true]
    None EDefault "a test" "start it" None.

Lemma create_experiment_ok_witness :
  ∃ response v w',
    create_handler (H:=sample_env true) sample_workspace None sample_create "ana@x.io" empty_world =
      (Ok (200%Z, response, v), w') ∧
    (λ v, (v_id v, v_variant_type v, v_overrides v)) <$> e_variants (r_experiment response) =
      (λ v, ("100-" +:+ v_id v, v_variant_type v, v_overrides v)) <$> rc_variants sample_create.
Proof.
  do 3 eexists. split; [vm_compute; reflexivity|].
  refine (cr_variants sample_create "ana@x.io" ∅ _ (proj1 (create_experiment_ok (H:=sample_env true)
    sample_workspace None sample_create "ana@x.io" empty_world 200 _ _ _ _ _))).
  - intros s. reflexivity.
  - vm_compute. reflexivity.
Defined.
