(* ===== verification/QueryClaims.v ===== *)
(** * Lemmas on the queries

    Pages of a list, the rows of a query, and the variants that the buckets of
    a reachable state serve. *)

From S2P Require Import Prelude Pages Json Types Text Effects Logic Config ExpModels Bucketing BucketAlloc BucketingProps Samples CacClient ExpChecks CacStore Store Groups Experiments Queries Service Reallocation Spec Refine RefineExperiments ServiceProps ServerSamples.

(** ** Rows *)

#[export] Instance ordered_total sort_on sort_by : Total (ordered sort_on sort_by).
Proof. intros e e'. unfold ordered. destruct sort_by; lia. Qed.
#[export] Instance ordered_trans sort_on sort_by : Transitive (ordered sort_on sort_by).
Proof. intros e e' e''. unfold ordered. destruct sort_by; lia. Qed.

(** The first of a list when at most one entry qualifies. *)
Lemma find_unique {A} (p : A → bool) l x :
  (∀ y z, y ∈ l → z ∈ l → p y = true → p z = true → y = z) →
  List.find p l = Some x ↔ x ∈ l ∧ p x = true.
Proof.
  intros Hu. split.
  - intros [Hin Hp]%find_some. by apply list_elem_of_In in Hin.
  - intros [Hin Hp]. destruct (List.find p l) as [y|] eqn:Hf.
    + apply find_some in Hf as [Hy Hpy]. apply list_elem_of_In in Hy. f_equal. by apply Hu.
    + eapply find_none in Hf; [|by apply list_elem_of_In]. congruence.
Qed.

(** Distinct entries that are mapped to distinct ones. *)
Lemma NoDup_omap_inj {A B} (f : A → option B) l :
  NoDup l → (∀ x y b, x ∈ l → y ∈ l → f x = Some b → f y = Some b → x = y) → NoDup (omap f l).
Proof.
  intros Hl. induction Hl as [|x l Hx Hl IH]; intros Hinj; [constructor|].
  assert (NoDup (omap f l)) as IH' by (apply IH; intros; eapply Hinj; eauto; by right).
  cbn. destruct (f x) as [b|] eqn:Hf; [|exact IH']. constructor; [|exact IH'].
  intros (y & Hy & Hfy)%list_elem_of_omap. apply Hx.
  by rewrite (Hinj x y b (list_elem_of_here _ _) (list_elem_of_further _ _ _ Hy) Hf Hfy).
Qed.

(** ** The variants served *)

Section served.
Context `{Env} `{RowOrder} `{MapOrder} `{JsonLogic} `{TimeText}.
Context {Rok : RowOrderOk _} {Mok : MapOrderOk _}.
Variables (es : gmap Z Experiment) (gs : gmap Z ExperimentGroup).
Hypothesis G : good (es, gs).
Hypothesis ids_i64 : ∀ id, is_Some (es !! id) → i64 id.

(** The request obtains the variant [v] of the experiment [e]: the bucket at its
    index in the group of [e] holds the variant, the contexts of both apply,
    and the experiment runs at enough traffic. *)
Record serves (context : Map) (identifier : string) (e : Experiment) (v : Variant) : Prop := {
  sv_identifier : identifier ≠ "";
  sv_experiment : ∃ id, es !! id = Some e;
  sv_variant : v ∈ e_variants e;
  sv_status : e_status e = INPROGRESS;
  sv_context : apply (e_context e) context = true;
  sv_bucket : ∃ gid g b,
    e_experiment_group_id e = Some gid ∧ gs !! gid = Some g ∧
    hits g context identifier b ∧ b_variant_id b = v_id v ∧
    (toss_of g identifier ≤ e_traffic_percentage e * Z.of_nat (length (e_variants e)))%Z;
}.

(** A variant names its experiment, so the bucket does as well. *)
Lemma bucket_of_variant gid g i b id e v :
  gs !! gid = Some g → g_buckets g !! i = Some (Some b) →
  es !! id = Some e → v ∈ e_variants e → b_variant_id b = v_id v →
  e_experiment_group_id e = Some gid ∧ b_experiment_id b = pretty id.
Proof.
  intros Hg Hb He Hv Hbv.
  destruct (good_owner _ _ _ _ _ _ G Hg Hb) as (id' & e' & He' & Hl & _ & Hid & Hb').
  assert (id' = id) as ->.
  { eapply (row_variants_disjoint _ _ e' e); [by eapply good_row|by eapply good_row|exact Hb'|].
    rewrite Hbv. by apply list_elem_of_fmap_2. }
  by simplify_eq.
Qed.

Lemma same_variant id e v v' :
  es !! id = Some e → v ∈ e_variants e → v' ∈ e_variants e → v_id v = v_id v' → v = v'.
Proof.
  intros He Hv Hv' Hid. pose proof (vo_nodup _ (ro_variants _ _ (good_row _ _ _ _ G He))) as Hnd.
  apply list_elem_of_lookup in Hv as [i Hi], Hv' as [j Hj].
  assert (i = j) as ->; [|congruence].
  eapply NoDup_lookup; [exact Hnd| |]; unfold variant_ids.
  - by rewrite list_lookup_fmap, Hi.
  - rewrite list_lookup_fmap, Hj. simpl. by rewrite Hid.
Qed.

(** The rows selected for the buckets, by their id as text. *)
Definition selected_rows (p : Experiment → bool) : gmap string ExperimentResponse :=
  collect_map ((λ exp, (pretty (e_id exp), ExperimentResponse_from exp)) <$>
    List.filter p (row_order es).*2).

Lemma selected_rows_lookup p k r :
  selected_rows p !! k = Some r ↔
  ∃ id e, es !! id = Some e ∧ p e = true ∧ k = pretty id ∧ r = ExperimentResponse_from e.
Proof.
  unfold selected_rows. set (l := List.filter _ _).
  assert (∀ e, e ∈ l ↔ es !! e_id e = Some e ∧ p e = true) as Hl.
  { intros e. unfold l. rewrite elem_of_filterb, elem_of_rows. split; [|naive_solver].
    intros [[id He] Hp]. by rewrite (ro_id _ _ (good_row _ _ _ _ G He)). }
  split.
  - intros Hk%collect_map_Some. apply list_elem_of_fmap in Hk as (e & [= -> ->] & [He Hp]%Hl).
    by exists (e_id e), e.
  - intros (id & e & He & Hp & -> & ->).
    pose proof (ro_id _ _ (good_row _ _ _ _ G He)) as Hid.
    assert (e ∈ l) as Hin by (apply Hl; by rewrite Hid).
    destruct (collect_map_is_Some ((λ exp, (pretty (e_id exp), ExperimentResponse_from exp)) <$> l)
      (pretty id)) as [_ [r Hr]].
    { rewrite <-list_fmap_compose. apply list_elem_of_fmap. exists e. simpl. by rewrite Hid. }
    rewrite Hr. apply collect_map_Some, list_elem_of_fmap in Hr as (e' & [= Hk ->] & [He' _]%Hl).
    apply (inj pretty) in Hk. subst id. rewrite <-Hk in He'. congruence.
Qed.
(** The buckets the groups offer a request, and the rows asked for them. *)
Definition offered (context : Map) (identifier : string) : list (Z * Bucket) :=
  get_applicable_buckets_from_group (row_order gs).*2 context identifier.

Definition wanted (buckets : list (Z * Bucket)) (e : Experiment) : bool :=
  bool_decide (e_id e ∈ parsed_ids (b_experiment_id ∘ snd <$> buckets)) &&
  bool_decide (e_status e = INPROGRESS).

Lemma elem_of_offered context identifier toss b :
  (toss, b) ∈ offered context identifier ↔
  identifier ≠ "" ∧ ∃ gid g, gs !! gid = Some g ∧ hits g context identifier b ∧
    toss = toss_of g identifier.
Proof.
  unfold offered, get_applicable_buckets_from_group. case_bool_decide as Hid.
  { split; [by intros ?%elem_of_nil|naive_solver]. }
  rewrite list_elem_of_omap. setoid_rewrite elem_of_rows. setoid_rewrite applicable_bucket_Some.
  naive_solver.
Qed.

Lemma wanted_row context identifier toss b id e :
  es !! id = Some e → e_status e = INPROGRESS → b_experiment_id b = pretty id →
  (toss, b) ∈ offered context identifier → wanted (offered context identifier) e = true.
Proof.
  intros He Hst Hb Hin. unfold wanted. rewrite (bool_decide_true (e_status e = _)), andb_true_r by done.
  apply bool_decide_eq_true. unfold parsed_ids. apply list_elem_of_omap.
  exists (pretty id). split.
  - rewrite <-Hb. apply list_elem_of_fmap. by exists (toss, b).
  - rewrite (ro_id _ _ (good_row _ _ _ _ G He)). unfold parse_i64.
    pose proof (ids_i64 id (ex_intro _ _ He)) as Hi. unfold i64 in Hi.
    by rewrite parse_int_pretty by lia.
Qed.

(** The ids selected among the wanted rows are those of the variants served. *)
Lemma selected_serves context identifier id e v :
  es !! id = Some e → v ∈ e_variants e →
  v_id v ∈ get_applicable_variants_from_group_response
    (selected_rows (wanted (offered context identifier))) context (offered context identifier) ↔
  serves context identifier e v.
Proof.
  intros He Hv. unfold get_applicable_variants_from_group_response. rewrite list_elem_of_omap.
  split.
  - intros ([toss b] & Hin & Happ). unfold applicable_variant in Happ.
    apply bind_Some in Happ as (r & Hr & Happ). case_hyp Happ; [|done]. breflect.
    destruct Heqb0 as [Hap Htr]. injection Happ as Hbv.
    apply elem_of_offered in Hin as (Hid & gid & g & Hg & Hb & ->).
    destruct (bucket_of_variant _ _ _ _ _ _ v Hg (hi_bucket _ _ _ _ Hb) He Hv Hbv) as [Hl Hbe].
    apply selected_rows_lookup in Hr as (id' & e' & He' & Hw & Hk & ->).
    rewrite Hbe in Hk. apply (inj pretty) in Hk as <-. simplify_eq.
    unfold wanted in Hw. breflect. destruct Hw as [_ Hst].
    split; try done; [by exists id|by exists gid, g, b].
  - intros [Hid _ _ Hst Hap (gid & g & b & Hl & Hg & Hb & Hbv & Htr)].
    destruct (bucket_of_variant _ _ _ _ _ _ v Hg (hi_bucket _ _ _ _ Hb) He Hv Hbv) as [_ Hbe].
    assert ((toss_of g identifier, b) ∈ offered context identifier) as Hin
      by (apply elem_of_offered; eauto 6).
    exists (toss_of g identifier, b). split; [done|]. unfold applicable_variant.
    rewrite (proj2 (selected_rows_lookup _ (b_experiment_id b) (ExperimentResponse_from e))).
    + simpl. rewrite Hap, bool_decide_true by done. simpl. by rewrite Hbv.
    + exists id, e. split_and!; [done| |done|done]. by eapply wanted_row.
Qed.

Lemma served_once context identifier e v v' :
  serves context identifier e v → serves context identifier e v' → v = v'.
Proof.
  intros [_ [id He] Hv _ _ (gid & g & b & Hl & Hg & Hb & Hbv & _)]
    [_ _ Hv' _ _ (gid' & g' & b' & Hl' & Hg' & Hb' & Hbv' & _)]. simplify_eq.
  pose proof (hi_bucket _ _ _ _ Hb). pose proof (hi_bucket _ _ _ _ Hb'). simplify_eq.
  eapply same_variant; [done..|congruence].
Qed.

(** The last step of the handler. *)
Definition chosen (context : Map) (identifier : string) : list Variant :=
  let exps := selected_rows (wanted (offered context identifier)) in
  let applicable_variants := get_applicable_variants_from_group_response exps context
    (offered context identifier) in
  omap (λ '(_, experiment),
      List.find (λ variant, bool_decide (v_id variant ∈ applicable_variants))
        (e_variants (r_experiment experiment))) (map_order exps).

Lemma elem_of_chosen context identifier v :
  v ∈ chosen context identifier ↔ ∃ e, serves context identifier e v.
Proof.
  unfold chosen. cbn zeta. rewrite list_elem_of_omap.
  assert (∀ id e v, es !! id = Some e →
    List.find (λ variant, bool_decide (v_id variant ∈ get_applicable_variants_from_group_response
      (selected_rows (wanted (offered context identifier))) context
      (offered context identifier))) (e_variants e) = Some v ↔ serves context identifier e v) as Hf.
  { intros id e w He. rewrite find_unique.
    - rewrite bool_decide_eq_true. split.
      + intros [Hw Ha]. by eapply selected_serves.
      + intros Hs. split; [apply Hs|]. by eapply selected_serves; [|apply Hs|].
    - intros y z Hy Hz ?%bool_decide_eq_true ?%bool_decide_eq_true.
      eapply (served_once context identifier e); by eapply selected_serves. }
  split.
  - intros ([k r] & Hk%elem_of_map_order & Hv).
    apply selected_rows_lookup in Hk as (id & e & He & _ & _ & ->).
    exists e. by eapply Hf.
  - intros (e & Hs). destruct (sv_experiment _ _ _ _ Hs) as [id He].
    exists (pretty id, ExperimentResponse_from e). split; [|by eapply Hf].
    apply elem_of_map_order, selected_rows_lookup. exists id, e.
    split_and!; [done| |done|done].
    destruct Hs as [Hid _ Hv Hst _ (gid & g & b & Hl & Hg & Hb & Hbv & _)].
    destruct (bucket_of_variant _ _ _ _ _ _ v Hg (hi_bucket _ _ _ _ Hb) He Hv Hbv) as [_ Hbe].
    eapply wanted_row; [done|done|exact Hbe|]. apply elem_of_offered. eauto 6.
Qed.

Lemma NoDup_chosen context identifier : NoDup (chosen context identifier).
Proof.
  unfold chosen. cbn zeta. apply NoDup_omap_inj.
  - apply (NoDup_fmap_1 fst), NoDup_fst_map_order.
  - intros [k r] [k' r'] v Hk%elem_of_map_order Hk'%elem_of_map_order Hv Hv'.
    apply selected_rows_lookup in Hk as (id & e & He & _ & -> & ->).
    apply selected_rows_lookup in Hk' as (id' & e' & He' & _ & -> & ->).
    apply find_some in Hv as [Hv%list_elem_of_In _], Hv' as [Hv'%list_elem_of_In _].
    assert (id = id') as ->; [|by simplify_eq].
    eapply row_variants_disjoint;
      [by eapply good_row|by eapply good_row|apply list_elem_of_fmap_2; exact Hv|].
    by apply list_elem_of_fmap_2.
Qed.
End served.

(** ** Listings *)

(** The page number [page] of [limit] entries, and the whole list. *)
Definition page_params (limit page : Z) : PaginationParams :=
  mkPaginationParams (Some limit) (Some page) None.

(** What a listing is meant to contain: the filters on the row, and those on its
    context. Asked for global experiments it takes those without a context;
    otherwise, when dimensions are given, the experiments on all of them whose
    context holds of them, as far as they are given, or exactly. *)
Definition context_listed `{JsonLogic} (filters : ExperimentListFilters) (params : Map)
    (context : Condition) : Prop :=
  if default false (lf_global_experiments_only filters) then context = ∅
  else params ≠ ∅ →
    dom params ⊆ dom context ∧
    match default Subset (lf_dimension_match_strategy filters) with
    | Exact => apply context params = true ∧ size context = size params
    | Subset => partial_apply context params = true
    end.

Section listings.
Context `{RowOrder} `{MapOrder} `{JsonLogic} `{TimeText} `{SqlLike}.
Implicit Types (filters : ExperimentListFilters) (params : Map) (es : gmap Z Experiment).

#[export] Instance context_listed_dec filters params context :
  Decision (context_listed filters params context).
Proof.
  unfold context_listed. destruct (default false _); [apply _|].
  destruct (default Subset _); apply _.
Defined.

(** The rows listed. *)
Definition listed filters params es : list Experiment :=
  List.filter (λ e, bool_decide (context_listed filters params (e_context e)))
    (base_query filters es).

Lemma filterb_filterb {A} (f g : A → bool) l :
  List.filter f (List.filter g l) = List.filter (λ x, g x && f x) l.
Proof.
  induction l as [|x l IH]; [done|]. simpl. destruct (g x); simpl; [|done].
  destruct (f x); by rewrite IH.
Qed.

Lemma filterb_ext {A} (f g : A → bool) l :
  (∀ x, f x = g x) → List.filter f l = List.filter g l.
Proof. intros Hfg. induction l as [|x l IH]; [done|]. simpl. by rewrite Hfg, IH. Qed.

Lemma has_dimensions params (context : Condition) :
  forallb (λ dimension, bool_decide (is_Some (context !! dimension))) (map_to_list params).*1 =
  bool_decide (dom params ⊆ dom context).
Proof.
  apply eq_true_iff_eq. rewrite bool_decide_eq_true, forallb_True, elem_of_subseteq.
  setoid_rewrite bool_decide_eq_true. setoid_rewrite elem_of_dom.
  split; intros Hd k; [intros [v Hv]|intros Hk]; apply Hd.
  - apply list_elem_of_fmap. exists (k, v). by rewrite elem_of_map_to_list.
  - apply list_elem_of_fmap in Hk as ([k' v] & -> & Hv%elem_of_map_to_list). by exists v.
Qed.

Lemma in_memory_filter_listed filters params l :
  default false (lf_global_experiments_only filters) = true ∨ params ≠ ∅ →
  in_memory_filter filters params l =
  List.filter (λ e, bool_decide (context_listed filters params (e_context e))) l.
Proof.
  intros Hm. unfold in_memory_filter, filter_exact_match, filter_by_eval, filter_by_dimension.
  destruct (default false (lf_global_experiments_only filters)) eqn:Hg.
  { apply filterb_ext. intros e. apply bool_decide_ext. unfold context_listed. by rewrite Hg. }
  destruct Hm as [?|Hne]; [done|].
  destruct (default Subset _) eqn:Hs; rewrite filterb_filterb; apply filterb_ext; intros e;
    unfold get_condition; simpl; rewrite has_dimensions;
    apply eq_true_iff_eq; unfold context_listed; rewrite !andb_true_iff, !bool_decide_eq_true,
      ?Nat.eqb_eq, Hg, Hs; naive_solver.
Qed.

Lemma listed_without_memory filters params es :
  default false (lf_global_experiments_only filters) = false → params = ∅ →
  listed filters params es = base_query filters es.
Proof.
  intros Hg ->. unfold listed.
  induction (base_query filters es) as [|e l IH]; [done|]. simpl.
  rewrite bool_decide_true; [by rewrite IH|]. unfold context_listed. by rewrite Hg.
Qed.

Lemma list_experiments_all filters params es :
  list_experiments PaginationParams.all_entries filters params es =
  list_all (ExperimentResponse_from <$> listed filters params es).
Proof.
  unfold list_experiments. cbn zeta. simpl.
  destruct (default false (lf_global_experiments_only filters)) eqn:Hg.
  - rewrite orb_true_r. rewrite in_memory_filter_listed by (by left). done.
  - rewrite orb_false_r. case_bool_decide as Hp; simpl.
    + by rewrite listed_without_memory.
    + rewrite in_memory_filter_listed by (by right). done.
Qed.

Lemma list_experiments_page filters params es limit i :
  (0 < limit)%Z →
  let total := Z.of_nat (length (listed filters params es)) in
  let page := list_experiments (page_params limit i) filters params es in
  pr_total_pages page = ceil_div total limit ∧ pr_total_items page = total ∧
  ((1 ≤ i)%Z → pr_data page = take (Z.to_nat limit) (drop (Z.to_nat ((i - 1) * limit))
                      (ExperimentResponse_from <$> listed filters params es))).
Proof.
  intros Hl. unfold list_experiments. cbn zeta. cbn [pg_all pg_count pg_page page_params default].
  destruct (default false (lf_global_experiments_only filters)) eqn:Hg.
  - rewrite orb_true_r, in_memory_filter_listed by (by left). cbn [pr_total_pages pr_total_items pr_data].
    fold (listed filters params es). rewrite length_fmap. split_and!; [done..|].
    intros Hi. apply slice_take_drop; nia.
  - rewrite orb_false_r. case_bool_decide as Hp; cbn [negb].
    + rewrite listed_without_memory by done. cbn [pr_total_pages pr_total_items pr_data].
      assert (length (List.filter (query_builder filters) (row_order es).*2) =
        length (base_query filters es)) as -> by (unfold base_query; by rewrite merge_sort_Permutation).
      split_and!; [done..|]. intros _. by rewrite fmap_take, fmap_drop.
    + rewrite in_memory_filter_listed by (by right). cbn [pr_total_pages pr_total_items pr_data].
      fold (listed filters params es). rewrite length_fmap. split_and!; [done..|].
      intros Hi. apply slice_take_drop; nia.
Qed.

Lemma StronglySorted_filterb {A} (R : relation A) (f : A → bool) l :
  StronglySorted R l → StronglySorted R (List.filter f l).
Proof.
  induction 1 as [|x l Hs IH Hx]; [constructor|]. simpl. destruct (f x); [|done].
  constructor; [done|]. rewrite Forall_forall in *. intros y [Hy _]%elem_of_filterb. auto.
Qed.

Lemma listed_sorted filters params es :
  StronglySorted (ordered (default LastModifiedAt (lf_sort_on filters))
    (default Desc (lf_sort_by filters))) (listed filters params es).
Proof. apply StronglySorted_filterb, StronglySorted_merge_sort; apply _. Qed.

Lemma filterb_filter {A} (f : A → bool) (P : A → Prop) `{!∀ x, Decision (P x)} l :
  (∀ x, f x = true ↔ P x) → List.filter f l = filter P l.
Proof.
  intros Hf. induction l as [|x l IH]; [done|]. rewrite filter_cons. simpl.
  destruct (f x) eqn:E, (decide (P x)) as [HP|HP]; rewrite ?IH; try done.
  - by apply Hf in E.
  - apply Hf in HP. congruence.
Qed.

#[export] Instance filterb_Permutation {A} (f : A → bool) : Proper ((≡ₚ) ==> (≡ₚ)) (List.filter f).
Proof. intros l l' Hl. rewrite !(filterb_filter f (λ x, f x = true)) by done. by rewrite Hl. Qed.

Lemma listed_rows {Rok : RowOrderOk _} filters params es :
  listed filters params es ≡ₚ
  filter (λ e, query_builder filters e = true ∧ context_listed filters params (e_context e))
    (map_to_list es).*2.
Proof.
  unfold listed, base_query. rewrite (merge_sort_Permutation _ _), filterb_filterb.
  rewrite (row_order_perm (R:=_)). erewrite filterb_filter; [done|]. intros e.
  by rewrite andb_true_iff, bool_decide_eq_true.
Qed.
End listings.

(** * Theorems on the queries of the experimentation service *)

Section claims.
Context `{RowOrder} `{MapOrder} `{JsonLogic} `{TimeText} `{SqlLike}.

(** C5. The applicable variants of a request. In every reachable state, when
    the configuration is fetched and its cohorts evaluate, the handler answers
    without touching the tables, and the variants in its answer, each listed
    once, are exactly those served: of the experiments in progress whose
    context applies, whose group's context applies, and whose variant holds
    the bucket at the identifier's index within the traffic. *)
Theorem applicable_variants_exact `{Env} `{SetOrder} `{KeyOrder} `{FloatText} `{Blake3} `{JsonText}
    {Rok : RowOrderOk _} {Mok : MapOrderOk _} {Sok : SetOrderOk _}
    rs fuel method query_data dimension_params req_body context identifier config version w1
    evaluated :
  (∀ id, is_Some (w_experiments (serve_all rs empty_world) !! id) → i64 id) →
  applicable_input method query_data dimension_params req_body = Ok (context, identifier) →
  fetch_cac_config (serve_all rs empty_world) = (Ok (config, version), w1) →
  evaluate_local_cohorts fuel (dimensions config) context = Some evaluated →
  ∃ variants w2,
    get_applicable_variants_handler fuel method query_data dimension_params req_body
      (serve_all rs empty_world) = (Ok variants, w2) ∧
    tables w2 = tables (serve_all rs empty_world) ∧ NoDup variants ∧
    ∀ v, v ∈ variants ↔
      ∃ e, serves (w_experiments (serve_all rs empty_world))
             (w_groups (serve_all rs empty_world)) evaluated identifier e v.
Proof.
  set (w := serve_all rs empty_world). intros Hi Hin Hcfg Hev.
  pose proof (reachable_good rs) as G. fold w in G.
  pose proof (neutral (m:=fetch_cac_config) w) as Ht. rewrite Hcfg in Ht. simpl in Ht.
  exists (chosen (w_experiments w) (w_groups w) evaluated identifier), w1.
  split_and!; [|done|by apply NoDup_chosen|intros v; by apply elem_of_chosen].
  unfold tables in Ht. injection Ht as He Hg. rewrite <-He, <-Hg.
  unfold get_applicable_variants_handler, get_applicable_variants_helper.
  unfold mbind, ST_bind, lift. rewrite Hin, Hcfg. unfold select_groups.
  cbn beta iota. rewrite Hev. reflexivity.
Qed.

(** A listing has what its filters say. The rows of the whole list are
    sorted as asked and are, each once, those of the table that pass the
    filters on the row and on the context. *)
Theorem listing_exact {Rok : RowOrderOk _} filters params es :
  let rows := r_experiment <$>
    pr_data (list_experiments PaginationParams.all_entries filters params es) in
  StronglySorted (ordered (default LastModifiedAt (lf_sort_on filters))
    (default Desc (lf_sort_by filters))) rows ∧
  rows ≡ₚ filter (λ e, query_builder filters e = true ∧
                        context_listed filters params (e_context e)) (map_to_list es).*2.
Proof.
  cbn zeta. rewrite list_experiments_all. cbn [pr_data list_all]. rewrite <-list_fmap_compose.
  rewrite (list_fmap_ext _ id) by done. rewrite list_fmap_id.
  split; [apply listed_sorted|apply listed_rows].
Qed.


(** Pages partition the list. With a positive count, every page reports the
    length of the whole list as the number of items and as many pages as cover
    it, and the pages from the first to the last, one after the other, are the
    whole list. *)
Theorem pages_partition {Rok : RowOrderOk _} filters params es limit :
  (0 < limit)%Z →
  let whole := list_experiments PaginationParams.all_entries filters params es in
  let page i := list_experiments (page_params limit i) filters params es in
  (∀ i, pr_total_items (page i) = Z.of_nat (length (pr_data whole))) ∧
  (∀ i, (pr_total_pages (page i) * limit - limit < pr_total_items (page i)
          ≤ pr_total_pages (page i) * limit)%Z) ∧
  concat ((λ i, pr_data (page (Z.of_nat i + 1)%Z)) <$> seq 0 (Z.to_nat (pr_total_pages (page 1%Z)))) =
    pr_data whole.
Proof.
  intros Hl. cbn zeta. rewrite list_experiments_all. cbn [pr_data list_all]. rewrite length_fmap.
  set (k := length (listed filters params es)).
  pose proof (ceil_div_bounds (Z.of_nat k) limit Hl ltac:(lia)) as (Hc & Hc1 & Hc2).
  pose proof (λ i, list_experiments_page filters params es limit i Hl) as Hp. cbn zeta in Hp.
  fold k in Hp. split_and!.
  - intros i. apply Hp.
  - intros i. destruct (Hp i) as (-> & -> & _). lia.
  - destruct (Hp 1%Z) as (-> & _).
    rewrite (list_fmap_ext _ (λ i, take (Z.to_nat limit) (drop (i * Z.to_nat limit)
      (ExperimentResponse_from <$> listed filters params es)))).
    + rewrite concat_pages. apply take_ge. rewrite length_fmap. fold k. nia.
    + intros j i Hi. destruct (Hp (Z.of_nat i + 1)%Z) as (_ & _ & ->); [|lia].
      do 2 f_equal. nia.
Qed.

End claims.

(** ** Witnesses *)

Definition query_world : World := serve_all (H:=sample_env true) sample_run empty_world.

#[local] Instance query_logic : JsonLogic := jl_equals.
#[local] Instance query_order : MapOrder := list_order.
#[local] Instance query_order_ok : MapOrderOk query_order := list_order_ok.
#[local] Instance sample_sql_like : SqlLike := λ text name,
  bool_decide (String.index 0 text name ≠ None).

Lemma applicable_variants_exact_witness :
  ∃ variants w2,
    get_applicable_variants_handler (H:=sample_env true) 1 GET
      (Some "user-3") (Some {[ "clientId" := VString "a" ]}) None query_world = (Ok variants, w2) ∧
    NoDup variants ∧ v_id <$> variants = ["100-control"].
Proof.
  destruct (applicable_variants_exact (H4:=sample_env true)
    sample_run 1 GET (Some "user-3") (Some {[ "clientId" := VString "a" ]}) None
    {[ "clientId" := VString "a" ]} "user-3" (mkConfig [] ∅ ∅ ∅) (Some "v1")
    (fetch_cac_config (H:=sample_env true) query_world).2 {[ "clientId" := VString "a" ]})
    as (vs & w2 & Hh & _ & Hnd & _).
  - intros id [e He].
    assert (map_Forall (λ id _, (- 2 ^ 63 ≤ id < 2 ^ 63)%Z) (w_experiments query_world)) as Hall
      by by_compute.
    exact (Hall id e He).
  - reflexivity.
  - vm_compute. reflexivity.
  - vm_compute. reflexivity.
  - exists vs, w2. split; [exact Hh|]. split; [exact Hnd|].
    pose proof (f_equal (λ r, match r.1 with Ok l => v_id <$> l | Err _ => [] end) Hh) as Hv.
    vm_compute in Hv. symmetry. exact Hv.
Defined.

Definition all_filters : ExperimentListFilters :=
  mkListFilters (Some [INPROGRESS]) None None None None None None None None None None.

Lemma listing_exact_witness :
  r_experiment <$> pr_data (list_experiments PaginationParams.all_entries all_filters
    {[ "clientId" := VString "a" ]} (w_experiments query_world)) ≡ₚ
  filter (λ e, query_builder all_filters e = true ∧
               context_listed all_filters {[ "clientId" := VString "a" ]} (e_context e))
    (map_to_list (w_experiments query_world)).*2.
Proof.
  exact (proj2 (listing_exact all_filters {[ "clientId" := VString "a" ]}
    (w_experiments query_world))).
Defined.

Lemma pages_partition_witness :
  concat ((λ i, pr_data (list_experiments (page_params 1 (Z.of_nat i + 1)%Z) all_filters
      {[ "clientId" := VString "a" ]} (w_experiments query_world))) <$> seq 0 1) =
  pr_data (list_experiments PaginationParams.all_entries all_filters
    {[ "clientId" := VString "a" ]} (w_experiments query_world)).
Proof.
  exact (proj2 (proj2 (pages_partition all_filters
    {[ "clientId" := VString "a" ]} (w_experiments query_world) 1 ltac:(lia)))).
Defined.
