(* ===== verification/CacServiceClaims.v ===== *)
(** * Theorems on the configuration service *)

From stdpp Require Import relations.
From S2P Require Import Prelude Stack Json Types Text Effects Logic LogicProps Config Resolve Samples CacClient ExpChecks CacStore CacConfig Contexts Dimensions DefaultConfigs Functions CacService DimSpec CacInv CacRefine CacProps CacGenerated CacChanges CacServing CacReduce CacServingProps ServerSamples.

(** ** Numbers that fill a range *)

Lemma fill_range (l : list Z) n : NoDup l → length l = n →
  (∀ p, p ∈ l → (0 ≤ p < Z.of_nat n)%Z) → ∀ p, (0 ≤ p < Z.of_nat n)%Z → p ∈ l.
Proof.
  intros Hnd Hlen Hl p Hp. assert (l ⊆+ (Z.of_nat <$> seq 0 n)) as Hsub.
  { apply NoDup_submseteq; [done|]. intros q Hq%Hl. apply list_elem_of_fmap.
    exists (Z.to_nat q). rewrite elem_of_seq. lia. }
  apply submseteq_length_Permutation in Hsub; [|by rewrite length_fmap, length_seq, Hlen].
  rewrite Hsub. apply list_elem_of_fmap. exists (Z.to_nat p). rewrite elem_of_seq. lia.
Qed.

Lemma positions_fill D p : dims_inv D → (0 ≤ p < Z.of_nat (size D))%Z →
  ∃ k s, D !! k = Some s ∧ s_position s = p.
Proof.
  intros I Hp. set (position := λ '((_, s) : string * Shape), s_position s).
  assert (p ∈ position <$> map_to_list D) as Hin.
  { apply (fill_range _ (size D)); [|by rewrite length_fmap, length_map_to_list| |done].
    - apply (NoDup_fmap_2_strong position); [|apply NoDup_map_to_list].
      intros [k s] [k' s'] Hk%elem_of_map_to_list Hk'%elem_of_map_to_list Heq. simpl in Heq.
      pose proof (dims_inj _ I _ _ _ _ Hk Hk' Heq) as ->. by simplify_eq.
    - intros q ([k s] & -> & Hk%elem_of_map_to_list)%list_elem_of_fmap. by apply (dims_range _ I k). }
  apply list_elem_of_fmap in Hin as ([k s] & -> & Hk%elem_of_map_to_list). eauto.
Qed.

Section claims.
Context `{CacEnv} `{JsonParse} `{MapOrder} `{FloatText} `{Blake3} `{ConfigText} `{JsonText} `{JsonSchema}.
Context `{RegexEngine} `{JsonLogicVariables} `{DebugText} {Ook : MapOrderOk _}.

(** The dimensions of a state, as [DimSpec] sees them. *)
Abbreviation dims_after cs := (k_dimensions (cac_serve_all cs fresh_workspace)).

(** C15. The handlers of dimensions implement the machine of [DimSpec]: whatever
    requests the service is sent, in whatever order, the dimensions are
    reached from those of a fresh workspace by creations, moves and erasures
    that the machine allows. *)
Theorem dimensions_refine_spec cs :
  rtc dim_step (shapes (k_dimensions fresh_workspace)) (shapes (dims_after cs)).
Proof. exact (proj2 (reachable_tables cs)). Qed.

(** C19. Every row is well formed. After any requests, a context is stored under
    the hash of its condition and names the hash of its overrides, both are
    not empty, every key it overrides has a default value and every dimension
    of its condition exists; defaults and dimensions are stored under their
    names. *)
Theorem rows_well_formed cs :
  let w := cac_serve_all cs fresh_workspace in
  (∀ id x, k_contexts w !! id = Some x →
     x_id x = id ∧ id = hash (VObject (x_value x)) ∧
     x_override_id x = hash (VObject (x_override x)) ∧ x_value x ≠ ∅ ∧ x_override x ≠ ∅ ∧
     (∀ k, is_Some (x_override x !! k) → is_Some (k_default_configs w !! k)) ∧
     (∀ d, is_Some (x_value x !! d) → is_Some (k_dimensions w !! d))) ∧
  (∀ k d, k_default_configs w !! k = Some d → dc_key d = k) ∧
  (∀ k d, k_dimensions w !! k = Some d → dm_dimension d = k).
Proof.
  intros w. destruct (cac_reachable_good cs) as (G1 & G2 & G3 & _). split_and!; [|done..].
  intros id x Hx. destruct (G1 id x Hx). by split_and!.
Qed.

(** C13. The positions number the dimensions. After any requests, the positions
    are [0] to [n - 1], each taken by one dimension and [0] by [variantIds]; a
    cohort stands below the dimension it is based on, which exists and is not
    a local cohort. *)
Theorem positions_exact cs :
  let dims := dims_after cs in
  (∀ k d, dims !! k = Some d → (0 ≤ dm_position d < Z.of_nat (size dims))%Z) ∧
  (∀ p, (0 ≤ p < Z.of_nat (size dims))%Z →
     ∃ k, dm_position <$> dims !! k = Some p ∧
       ∀ k', dm_position <$> dims !! k' = Some p → k' = k) ∧
  dm_position <$> dims !! "variantIds" = Some 0%Z ∧
  (∀ k d base, dims !! k = Some d → cohort_base (dm_dimension_type d) = Some base →
     ∃ b, dims !! base = Some b ∧ is_local_cohort (dm_dimension_type b) = false ∧
       (dm_position d < dm_position b)%Z).
Proof.
  intros dims. destruct (cac_reachable_good cs) as (_ & _ & _ & I). fold dims in I.
  assert (∀ k d, dims !! k = Some d → shapes dims !! k = Some (shape_of d)) as Hsh
    by (intros; apply shapes_lookup; eauto).
  split_and!.
  - intros k d Hd. rewrite <- shapes_size. by apply (dims_range _ I k (shape_of d)), Hsh.
  - intros p Hp. rewrite <- shapes_size in Hp.
    destruct (positions_fill _ p I Hp) as (k & s & (d & Hd & ->)%shapes_lookup & Hs).
    exists k. split; [by rewrite Hd; simpl; f_equal|]. intros k' (d' & Hd' & Hp')%fmap_Some.
    apply (dims_inj _ I k' k (shape_of d') (shape_of d)); [by apply Hsh..|]. by rewrite Hs.
  - destruct (dims_first _ I) as (s & (d & Hd & ->)%shapes_lookup & Hs). by rewrite Hd; simpl; f_equal.
  - intros k d base Hd Hb. destruct (dims_base _ I k base) as (sx & sc & Hsx & Hsc & Hl & Hlt).
    { exists (shape_of d). split; [by apply Hsh|done]. }
    apply shapes_lookup in Hsx as (d' & Hd' & ->), Hsc as (b & Hb' & ->). simplify_eq. eauto.
Qed.

(** C14. The dependency graphs are exact. After any requests, the graph stored
    with a dimension has an entry for each dimension derived from it, however
    far, and for itself when it has cohorts; the entry lists the cohorts based
    on that dimension, all of them, none twice and nothing else. *)
Theorem dependency_graphs_exact cs r d :
  dims_after cs !! r = Some d →
  let D := shapes (dims_after cs) in
  (∀ c, is_Some (dm_dependency_graph d !! c) ↔ below D r c ∧ (c = r → ∃ x, based D x r)) ∧
  (∀ c l, dm_dependency_graph d !! c = Some l → NoDup l ∧ ∀ x, x ∈ l ↔ based D x c).
Proof.
  intros Hd D. destruct (cac_reachable_good cs) as (_ & _ & _ & I).
  apply (dims_graph _ I r (shape_of d)), shapes_lookup. eauto.
Qed.

(** C17. A request that fails changes no row: whatever the state, a call that
    is answered with an error leaves every table as it was, also when it failed
    in the middle of its statements; all but the deletion of a function, which
    touches the row before it fails, and an approved reduction, which commits
    context after context. *)
Theorem failed_change_rolls_back c w err w' :
  (∀ name, call_request c ≠ DeleteFunction name) → call_request c ≠ ReduceConfig true →
  cac_serve c w = (Err err, w') →
  k_contexts w' = k_contexts w ∧ k_default_configs w' = k_default_configs w ∧
  k_dimensions w' = k_dimensions w ∧ k_versions w' = k_versions w ∧
  k_functions w' = k_functions w ∧ k_variables w' = k_variables w ∧
  k_type_templates w' = k_type_templates w.
Proof.
  intros Hc Hreduce Hs. pose proof (atomic_cac_serve c Hc Hreduce w) as Ha. rewrite Hs in Ha. by injection Ha.
Qed.

(** C16. Every change is versioned, but for an approved reduction. A call on
    contexts (create, update, move, delete, bulk operations, recomputation of
    the weights), on dimensions or on default configurations that succeeds adds
    exactly one version, under an id that was free, and it holds the
    configuration generated from the tables the call leaves, with the hash of
    its text. Every other call that succeeds, on functions, variables or type
    templates or for a reduction that is not approved, leaves the versions and
    the three tables from which the configuration is generated as they were. An
    approved reduction is excluded: it changes the contexts and stores no
    version. *)
Theorem every_change_versioned c w w' :
  call_request c ≠ ReduceConfig true →
  cac_serve c w = (Ok tt, w') →
  if stores_version (call_request c) then
    ∃ v, k_versions w !! cv_id v = None ∧ k_versions w' = <[cv_id v := v]> (k_versions w) ∧
      generate_cac (k_contexts w') (k_default_configs w') (k_dimensions w') = Ok (cv_config v) ∧
      cv_config_hash v = blake3_hash (config_to_string (cv_config v))
  else
    k_contexts w' = k_contexts w ∧ k_default_configs w' = k_default_configs w ∧
    k_dimensions w' = k_dimensions w ∧ k_versions w' = k_versions w.
Proof.
  intros Hr Hs. destruct (stores_version (call_request c)) eqn:Hc.
  - pose proof (versioned_serve c Hc w) as Hv. by rewrite Hs in Hv.
  - destruct (unversioned_serve c w Hr Hc) as [[= Hx Hd Hm] Hv]. by rewrite Hs in *.
Qed.

(** C11. Every configuration resolves. After any requests the configuration of
    the tables is generated without an error, and in it every request is
    resolved, under both strategies, with the fuel its dimensions call for;
    the result binds the keys that have a default value. *)
Theorem every_configuration_resolves `{JsonLogic} cs q strategy :
  let w := cac_serve_all cs fresh_workspace in
  ∃ cfg r,
    generate_cac (k_contexts w) (k_default_configs w) (k_dimensions w) = Ok cfg ∧
    eval_config (cohort_fuel (dimensions cfg)) (default_configs cfg) (contexts cfg)
      (overrides cfg) (dimensions cfg) q strategy None = Some (Ok r) ∧
    ∀ k, is_Some (r !! k) ↔ is_Some (k_default_configs w !! k).
Proof.
  intros w. destruct (cac_reachable_good cs) as (G & _ & _ & I). fold w in G, I.
  destruct (generated_resolves _ _ _ q strategy G I) as (mq & r & _ & Hr & Hk).
  do 2 eexists. split_and!; [by apply generate_cac_ok|exact Hr|].
  intros k. rewrite Hk. destruct (k_default_configs w !! k); simpl; split; by intros [? ?] || eauto.
Qed.

(** C12. The most specific context wins. After any requests, as long as the ids
    of the overrides tell them apart, a key resolves under [REPLACE] to its
    default value when no context that the request satisfies overrides it, and
    else to the value of the last row that does, by weight and then by time of
    creation. *)
Theorem most_specific_context_wins `{JsonLogic} cs cfg q mq r k d :
  let w := cac_serve_all cs fresh_workspace in
  no_collision (k_contexts w) →
  generate_cac (k_contexts w) (k_default_configs w) (k_dimensions w) = Ok cfg →
  evaluate_local_cohorts (cohort_fuel (dimensions cfg)) (dimensions cfg) q = Some mq →
  eval_config (cohort_fuel (dimensions cfg)) (default_configs cfg) (contexts cfg)
    (overrides cfg) (dimensions cfg) q REPLACE None = Some (Ok r) →
  k_default_configs w !! k = Some d →
  ∃ v, r !! k = Some v ∧
    ((v = dc_value d ∧
      ∀ id x, k_contexts w !! id = Some x → apply (x_value x) mq = true → x_override x !! k = None) ∨
     ∃ id x, k_contexts w !! id = Some x ∧ apply (x_value x) mq = true ∧ x_override x !! k = Some v ∧
       ∀ id' y, k_contexts w !! id' = Some y → apply (x_value y) mq = true →
         is_Some (x_override y !! k) →
         (x_weight y < x_weight x)%N ∨
         x_weight y = x_weight x ∧ (x_created_at y ≤ x_created_at x)%Z).
Proof.
  intros w Hno Hcfg Hmq Hr Hd. destruct (cac_reachable_good cs) as (G & _ & _ & I). fold w in G, I.
  rewrite (generate_cac_ok _ _ _ G) in Hcfg. injection Hcfg as <-.
  destruct (generated_resolves _ _ _ q REPLACE G I) as (mq' & r' & Hmq' & Hr' & Hk).
  change (evaluate_local_cohorts _ _ q) with
    (evaluate_local_cohorts (cohort_fuel (dimensions_info (k_dimensions w)))
      (dimensions_info (k_dimensions w)) q) in Hmq.
  rewrite Hmq' in Hmq. injection Hmq as <-. pose proof (eq_trans (eq_sym Hr') Hr) as [= ->].
  eexists. split; [by rewrite Hk, Hd|].
  destruct (last_row (k_contexts w) (k_default_configs w) (k_dimensions w) mq' k (dc_value d) Hno)
    as [[-> Hnone]|(id & x & Hx & Hv & Hlast)].
  - left. split; [done|]. intros id x Hx Ha. specialize (Hnone id x Hx).
    unfold row_assigns in Hnone. by rewrite Ha in Hnone.
  - right. exists id, x. unfold row_assigns in *. destruct (apply (x_value x) mq'); [|done].
    split_and!; [done..|]. intros id' y Hy Ha Hs. apply (Hlast id' y Hy). by rewrite Ha.
Qed.

(** Weights order contexts like their dimensions. With the dimensions of any
    reachable state, up to as many as an [i32] counts, a condition weighs less
    than another exactly when, of the dimensions that only one of the two has,
    the one with the highest position is in the heavier. *)
Theorem weight_order_lexicographic cs c1 c2 w1 w2 :
  let dims := dims_after cs in
  (Z.of_nat (size dims) < 2 ^ 31)%Z →
  calculate_context_weight (VObject c1) (dimensions_info dims) = Ok w1 →
  calculate_context_weight (VObject c2) (dimensions_info dims) = Ok w2 →
  (w1 < w2)%N ↔
  ∃ d row, dims !! d = Some row ∧ c1 !! d = None ∧ is_Some (c2 !! d) ∧
    ∀ d' row', dims !! d' = Some row' → (dm_position row < dm_position row')%Z →
      is_Some (c1 !! d') ↔ is_Some (c2 !! d').
Proof.
  intros dims Hsize. destruct (cac_reachable_good cs) as (_ & _ & _ & I). fold dims in I.
  apply weight_lt; [done|lia].
Qed.

(** A recomputation makes the weights current. After any requests, a
    successful recomputation leaves every context with the weight its
    condition has under the positions of now, and changes nothing else of the
    rows but who touched them last. *)
Theorem recomputed_weights_current cs settings tags user w' :
  let w := cac_serve_all cs fresh_workspace in
  cac_serve (mkCacCall settings tags user RecomputeWeights) w = (Ok tt, w') →
  k_dimensions w' = k_dimensions w ∧ k_default_configs w' = k_default_configs w ∧
  (∀ id, is_Some (k_contexts w' !! id) ↔ is_Some (k_contexts w !! id)) ∧
  ∀ id x', k_contexts w' !! id = Some x' →
    calculate_context_weight (VObject (x_value x')) (dimensions_info (k_dimensions w')) =
      Ok (x_weight x') ∧
    ∃ x time, k_contexts w !! id = Some x ∧ x' = set_weight x (x_weight x') time (user_email user).
Proof.
  intros w Hs. pose proof (cac_reachable_good cs) as G. fold w in G.
  pose proof (wp_forget _ _ _ _ (wp_weight_recompute tags user _ _ _ G) w eq_refl) as Hwp.
  change (cac_serve _ w) with (forget (weight_recompute_handler tags user) w) in Hs.
  rewrite Hs in Hwp. destruct Hwp as (xs' & [= Hxs Hds Hdims] & Hrows). rewrite Hxs, Hds, Hdims.
  split_and!; [done|done| |].
  - intros id. specialize (Hrows id). rewrite <- !not_eq_None_Some.
    by destruct (xs' !! id), (k_contexts w !! id).
  - intros id x' Hx'. specialize (Hrows id). rewrite Hx' in Hrows.
    destruct (k_contexts w !! id) as [x|]; [|done]. destruct Hrows as (time & Hw & Heq).
    split; [by rewrite Heq|eauto].
Qed.

(** C18. Putting a context merges. After any requests, a successful put leaves
    one row under the hash of the condition, all others as they were. Its
    overrides are those of the request when the condition is new; otherwise
    the stored ones stay, where the request overrides the same key its value
    is merged into the stored one, and the condition stored is kept. *)
Theorem put_context_merges cs settings tags user req w' :
  let w := cac_serve_all cs fresh_workspace in
  let id := hash (VObject (p_context req)) in
  cac_serve (mkCacCall settings tags user (PutContext req)) w = (Ok tt, w') →
  k_dimensions w' = k_dimensions w ∧ k_default_configs w' = k_default_configs w ∧
  ∃ x, k_contexts w' = <[id := x]> (k_contexts w) ∧ x_id x = id ∧
    x_override_id x = hash (VObject (x_override x)) ∧
    x_change_reason x = p_change_reason req ∧
    x_value x = match k_contexts w !! id with Some old => x_value old | None => p_context req end ∧
    ∀ k, x_override x !! k =
      match k_contexts w !! id, p_override req !! k with
      | None, new => new
      | Some old, None => x_override old !! k
      | Some old, Some new => Some (merge (default VNull (x_override old !! k)) new)
      end.
Proof.
  intros w id Hs. pose proof (cac_reachable_good cs) as G. fold w in G.
  change (cac_serve _ w) with ((lift (all_ok (put_checks req)) ≫=
    λ _, forget (ctx_create_handler settings tags req user)) w) in Hs.
  unfold mbind, ST_bind, lift in Hs. destruct (all_ok (put_checks req)) as [[]|] eqn:Hok; [|done].
  destruct (action_checks_ok (Put req) (all_ok_inv _ Hok)) as [Hc Ho].
  pose proof (wp_ctx_create_exact settings tags req user _ _ _ G Hc Ho w eq_refl) as Hwp.
  unfold forget, mbind, ST_bind in Hs.
  destruct (ctx_create_handler settings tags req user w) as [[[x v]|e] w1]; [|done].
  injection Hs as <-. destruct Hwp as ([= Hxs Hds Hdims] & Hid & Hov & Hoid & Hv & Hr).
  rewrite Hds, Hdims. split_and!; [done..|]. exists x. split_and!; [done..|].
  intros k. rewrite Hov. fold id. unfold put_overrides.
  destruct (k_contexts w !! id) as [old|]; [apply merged_overrides_lookup|done].
Qed.

(** The reserved functions are always there. After any requests, the one
    function of the type of context validations and the one of change reasons
    are stored under their names with published code, so looking one up never
    fails; and every function is stored under its name and has published code
    exactly when it has a published version. *)
Theorem reserved_functions_present cs t :
  reserved t = true →
  let w := cac_serve_all cs fresh_workspace in
  (∃ f, k_functions w !! (if bool_decide (t = ContextValidation) then CONTEXT_VALIDATION_FN_NAME
                          else CHANGE_REASON_VALIDATION_FN_NAME) = Some f ∧
     is_Some (fn_published_code f) ∧
     get_first_function_by_type t w = (Ok (function_info f), w)) ∧
  ∀ name f, k_functions w !! name = Some f → fn_function_name f = name ∧
    (is_Some (fn_published_code f) ↔ is_Some (fn_published_runtime_version f)).
Proof.
  intros Ht w. pose proof (functions_serve_all cs _ fresh_functions) as G. fold w in G.
  pose proof G as [Hrows Hc Hr]. split; [|intros name f Hf; by destruct (Hrows _ _ Hf)].
  destruct t; try done; simpl; [destruct Hc as (f & Hf & Hft & Hp)|destruct Hr as (f & Hf & Hft & Hp)];
    exists f; (split; [done|]); (split; [by apply Hp|]);
    by eapply first_function_unique.
Qed.
End claims.

(** The id of a set of overrides does not tell overrides apart: in its text
    a string with [$] and [:] reads like two entries. Two contexts with plain
    string overrides are stored under one id, the configuration generated
    keeps the overrides of one of them, and a request that satisfies only the
    other resolves to values its row does not have. *)
Theorem override_ids_collide :
  let w := cac_serve_all colliding_run fresh_workspace in
  let pune := k_contexts w !! hash (VObject {[ "city" := str "pune" ]}) in
  let acme := k_contexts w !! hash (VObject {[ "clientId" := str "acme" ]}) in
  let resolved := resolve_in w {[ "city" := str "pune" ]} in
  x_override <$> pune = Some {[ "label" := str "x$note:y" ]} ∧
  x_override <$> acme = Some (<["label" := str "x"]> {[ "note" := str "y" ]}) ∧
  x_override_id <$> pune = x_override_id <$> acme ∧
  (resolved ≫= (.!! "label")) = Some (str "x") ∧
  (resolved ≫= (.!! "note")) = Some (str "y").
Proof. split_and!; vm_compute; reflexivity. Qed.

(** An update without a schema is not validated: after the default value of
    [fee] was created with a schema of booleans, it is updated to a string. *)
Theorem default_update_skips_schema :
  let w := cac_serve_all dimension_calls fresh_workspace in
  let fee w := k_default_configs w !! "fee" in
  let '(answer, w') := cac_serve (call (UpdateDefaultConfig "fee"
    (mkDefaultConfigUpdate (Some (str "free")) None None None None "free now"))) w in
  answer = Ok tt ∧ dc_schema <$> fee w' = Some (typed "boolean") ∧
  dc_value <$> fee w = Some (VBool false) ∧ dc_value <$> fee w' = Some (str "free") ∧
  schema_validate (VObject (typed "boolean")) (str "free") = Err ["not a boolean"].
Proof. vm_compute. repeat split. Qed.

(** The version of an update of a dimension carries the reason of the change
    before it. *)
Theorem dimension_update_keeps_old_reason :
  let w := cac_serve_all (dimension_calls ++ context_calls) fresh_workspace in
  let w' := (cac_serve (call (UpdateDimension "clientId"
    (mkDimensionUpdate None None None None (Some "the client") "describe it"))) w).2 in
  dm_change_reason <$> k_dimensions w' !! "clientId" = Some "describe it" ∧
  (cv_description ∘ snd <$> map_to_list (k_versions w' ∖ k_versions w)) = ["add it"].
Proof. split; vm_compute; reflexivity. Qed.

(** Where change reasons are validated and the function refuses this one, the
    update of a context is refused and the same update in bulk is done. *)
Theorem bulk_replace_skips_reason_check :
  let w := cac_serve_all cac_run fresh_workspace in
  let req := mkUpdateRequest (IContext {[ "city" := str "pune" ]}) {[ "fee" := VBool false ]}
    None "because" in
  let answer r := (cac_serve (H:=refusing_env) (mkCacCall strict_settings None ana r) w).1 in
  (∃ err, answer (UpdateContext req) = Err (ValidationError err)) ∧
  answer (BulkOperations [Replace req]) = Ok tt.
Proof. split; [eexists|]; vm_compute; reflexivity. Qed.

(** ** Witnesses *)

Lemma dimensions_refine_spec_witness :
  rtc dim_step (shapes (k_dimensions fresh_workspace)) (shapes (k_dimensions cac_world)).
Proof. exact (dimensions_refine_spec cac_run). Defined.

Lemma sample_city : ∃ d, k_dimensions cac_world !! "city" = Some d.
Proof. eexists. vm_compute. reflexivity. Qed.

Lemma rows_well_formed_witness :
  ∃ d, k_dimensions cac_world !! "city" = Some d ∧ dm_dimension d = "city".
Proof.
  destruct sample_city as [d Hd]. exists d. split; [exact Hd|].
  exact (proj2 (proj2 (rows_well_formed cac_run)) "city" d Hd).
Defined.

Lemma positions_exact_witness :
  ∃ k, dm_position <$> k_dimensions cac_world !! k = Some 3%Z.
Proof.
  destruct (proj1 (proj2 (positions_exact cac_run)) 3%Z) as (k & Hk & _); [|exact (ex_intro _ k Hk)].
  vm_compute. split; [discriminate|reflexivity].
Defined.

Lemma dependency_graphs_exact_witness :
  ∃ d, k_dimensions cac_world !! "city" = Some d ∧
    ∀ c l, dm_dependency_graph d !! c = Some l →
      ∀ x, x ∈ l ↔ based (shapes (k_dimensions cac_world)) x c.
Proof.
  destruct sample_city as [d Hd]. exists d. split; [exact Hd|]. intros c l Hl.
  exact (proj2 (proj2 (dependency_graphs_exact cac_run "city" d Hd) c l Hl)).
Defined.

(** The first operation of the list was done before the second failed. *)
Definition half_done : CacCall := call (BulkOperations
  [Put (mkPutRequest {[ "clientId" := str "bolt" ]} {[ "fee" := VBool true ]} (Some "d") "put it");
   Delete "nothing"]).

Lemma failed_change_rolls_back_witness :
  k_contexts (cac_serve half_done cac_world).2 = k_contexts cac_world.
Proof.
  destruct (cac_serve half_done cac_world) as [r w'] eqn:E.
  assert (∃ err, r = Err err) as [err Herr].
  { exists (DbError DbNotFound). change r with (r, w').1. rewrite <- E. vm_compute. reflexivity. }
  assert (∀ name, call_request half_done ≠ DeleteFunction name) as Hne by (intros name; discriminate).
  rewrite Herr in E. exact (proj1 (failed_change_rolls_back half_done cac_world err w' Hne ltac:(discriminate) E)).
Defined.

Lemma every_change_versioned_witness :
  ∃ v, k_versions cac_world !! cv_id v = None ∧
    k_versions (cac_serve (call RecomputeWeights) cac_world).2 =
      <[cv_id v := v]> (k_versions cac_world).
Proof.
  destruct (cac_serve (call RecomputeWeights) cac_world) as [r w'] eqn:E.
  assert (r = Ok tt) as Hr by (change r with (r, w').1; rewrite <- E; vm_compute; reflexivity).
  rewrite Hr in E.
  assert (call_request (call RecomputeWeights) ≠ ReduceConfig true) as Hne by discriminate.
  destruct (every_change_versioned (call RecomputeWeights) cac_world w' Hne E)
    as (v & Hv & Hvs & _).
  exact (ex_intro _ v (conj Hv Hvs)).
Defined.

Lemma every_configuration_resolves_witness :
  ∃ cfg, generate_cac (k_contexts cac_world) (k_default_configs cac_world)
    (k_dimensions cac_world) = Ok cfg.
Proof.
  destruct (every_configuration_resolves cac_run {[ "city" := str "pune" ]} MERGE)
    as (cfg & r & Hcfg & _).
  exact (ex_intro _ cfg Hcfg).
Defined.

(** Distinct ids do not collide. *)
Lemma no_collision_check (xs : gmap string DbContext) :
  NoDup (x_override_id ∘ snd <$> map_to_list xs) → no_collision xs.
Proof.
  intros Hnd i j x y Hx%elem_of_map_to_list Hy%elem_of_map_to_list Hid.
  apply list_elem_of_lookup in Hx as [n Hx], Hy as [m Hy].
  assert (n = m) as ->; [|congruence].
  eapply (proj1 (NoDup_alt _) Hnd); rewrite list_lookup_fmap; [by rewrite Hx|].
  rewrite Hy. simpl. by rewrite Hid.
Qed.

Lemma cac_world_no_collision : no_collision (k_contexts cac_world).
Proof. apply no_collision_check. by_compute. Qed.

Lemma most_specific_context_wins_witness :
  ∃ r v, resolve_in cac_world {[ "city" := str "pune" ]} = Some r ∧ r !! "fee" = Some v.
Proof.
  destruct (cac_reachable_good cac_run) as (G & _ & _ & I).
  destruct (generated_resolves _ _ _ {[ "city" := str "pune" ]} REPLACE G I)
    as (mq & r & Hmq & Hr & _).
  assert (∃ d, k_default_configs cac_world !! "fee" = Some d) as [d Hd]
    by (eexists; vm_compute; reflexivity).
  destruct (most_specific_context_wins cac_run _ _ mq r "fee" d cac_world_no_collision
    (generate_cac_ok _ _ _ G) Hmq Hr Hd) as (v & Hv & _).
  exact (ex_intro _ r (ex_intro _ v (conj (resolve_in_some _ _ _ _ (generate_cac_ok _ _ _ G) Hr) Hv))).
Defined.

(** [city] is above [clientId]: its bit is the higher one. *)
Lemma weight_order_lexicographic_witness :
  ∃ d, is_Some (({[ "city" := str "pune" ]} : Map) !! d) ∧
    ({[ "clientId" := str "acme" ]} : Map) !! d = None.
Proof.
  destruct (weight_order_lexicographic cac_run {[ "clientId" := str "acme" ]}
    {[ "city" := str "pune" ]} 4 8) as [Hlt _];
    [vm_compute; reflexivity|vm_compute; reflexivity|vm_compute; reflexivity|].
  destruct (Hlt eq_refl) as (d & row & _ & Hnone & Hsome & _). exists d. split; assumption.
Defined.

(** The weights of the run are those from before [city] moved. *)
Lemma recomputed_weights_current_witness :
  let id := hash (VObject {[ "city" := str "pune" ]}) in
  x_weight <$> k_contexts cac_world !! id = Some 4%N ∧
  x_weight <$> k_contexts (cac_serve (call RecomputeWeights) cac_world).2 !! id = Some 8%N ∧
  k_dimensions (cac_serve (call RecomputeWeights) cac_world).2 = k_dimensions cac_world.
Proof.
  split; [vm_compute; reflexivity|]. split; [vm_compute; reflexivity|].
  destruct (cac_serve (call RecomputeWeights) cac_world) as [r w'] eqn:E.
  assert (r = Ok tt) as Hr by (change r with (r, w').1; rewrite <- E; vm_compute; reflexivity).
  rewrite Hr in E. exact (proj1 (recomputed_weights_current cac_run _ _ _ _ E)).
Defined.

Lemma reserved_functions_present_witness :
  ∃ f, k_functions cac_world !! CONTEXT_VALIDATION_FN_NAME = Some f ∧
    is_Some (fn_published_code f).
Proof.
  destruct (reserved_functions_present cac_run ContextValidation eq_refl)
    as ((f & Hf & Hp & _) & _).
  exact (ex_intro _ f (conj Hf Hp)).
Defined.

Lemma put_context_merges_witness :
  ∃ x, k_contexts (cac_serve (call (put {[ "city" := str "pune" ]} {[ "label" := str "west" ]}))
      cac_world).2 =
    <[hash (VObject {[ "city" := str "pune" ]}) := x]> (k_contexts cac_world).
Proof.
  destruct (cac_serve (call (put {[ "city" := str "pune" ]} {[ "label" := str "west" ]})) cac_world)
    as [r w'] eqn:E.
  assert (r = Ok tt) as Hr by (change r with (r, w').1; rewrite <- E; vm_compute; reflexivity).
  rewrite Hr in E. destruct (put_context_merges cac_run _ _ _ _ _ E) as (_ & _ & x & Hx & _).
  exact (ex_intro _ x Hx).
Defined.
