(* ===== verification/CacReduceClaims.v ===== *)
(** * Theorems on the reduction of a configuration *)

From S2P Require Import Prelude Stack Json Types Text Effects Logic LogicProps Config Resolve Samples CacClient ExpChecks CacStore CacConfig Contexts Dimensions DefaultConfigs Functions CacServing CacReduce CacReduceProps CacReduction CacService DimSpec CacInv CacProps CacGenerated ServerSamples.

(** ** The rows of the tables *)

Definition row_of (x : DbContext) : Row := mkRow (x_id x) (x_value x) (x_override x).

(** The overrides of the rows, and what is left of them without some keys. *)
Definition left_over (xs : gmap string DbContext) (o : Overrides) : Prop :=
  ∃ id x, xs !! id = Some x ∧ o ⊆ x_override x.

Section generated.
Context `{FloatText} `{Blake3} `{MapOrder} {Ook : MapOrderOk _}.
Context (xs : gmap string DbContext) (ds : gmap string DefaultConfig) (dims : gmap string Dimension).
Context (G : contexts_good xs ds dims) (I : dims_inv (shapes dims)).
Context (Hsize : (Z.of_nat (size dims) ≤ 2 ^ 32)%Z).
Context (Happart : ∀ o o', left_over xs o → left_over xs o' →
  hash (VObject o) = hash (VObject o') → o = o').
Context (Hcurrent : ∀ id x, xs !! id = Some x →
  calculate_context_weight (VObject (x_value x)) (dimensions_info dims) = Ok (x_weight x)).
Context (Hplain : ∀ id x, xs !! id = Some x → plain (x_value x)).

Lemma left_over_faithful : Faithful (left_over xs).
Proof using Happart.
  split; [exact Happart|]. intros o k (id & x & Hx & Ho). exists id, x. split; [done|].
  etrans; [apply delete_subseteq|done].
Qed.

Lemma generated_represents :
  represents (left_over xs) (contexts (generated_config xs ds dims))
    (overrides (generated_config xs ds dims)) (row_of <$> sorted_contexts xs).
Proof using Ook G Happart.
  assert (no_collision xs) as Hno.
  { intros i j x y Hx Hy Hid. destruct (G _ _ Hx), (G _ _ Hy). apply Happart; [by exists i, x|by exists j, y|].
    congruence. }
  cbn [contexts overrides generated_config].
  assert (∀ x, x ∈ sorted_contexts xs →
    collect_map (override_of <$> sorted_contexts xs) !! x_override_id x = Some (x_override x)) as Hov
    by (intros; by apply generated_overrides).
  assert (∀ l (f : nat → nat), (∀ x, x ∈ l → x ∈ sorted_contexts xs) →
    represents (left_over xs) (imap (λ i, context_of (f i)) l)
      (collect_map (override_of <$> sorted_contexts xs)) (row_of <$> l)) as Hl; [|by apply (Hl _ id)].
  induction l as [|x l IH]; intros f Hl; [constructor|]. cbn. constructor.
  - assert (x ∈ sorted_contexts xs) as Hx by (apply Hl; by left).
    pose proof Hx as [id Hid]%elem_of_sorted_contexts. destruct (G _ _ Hid).
    split_and!; [done|done|done| |by exists id, x]. cbn. rewrite <- ok_override_id. by apply Hov.
  - apply (IH (f ∘ S)). intros; apply Hl; by right.
Qed.

Lemma generated_rows_ok :
  rows_ok (left_over xs) (dimensions_info dims) (row_of <$> sorted_contexts xs).
Proof using All.
  assert (NoDup (x_id <$> sorted_contexts xs)) as Hids.
  { unfold sorted_contexts. rewrite merge_sort_Permutation.
    assert (x_id <$> (map_order xs).*2 = (map_order xs).*1) as ->; [|apply NoDup_fst_map_order].
    assert (∀ p, p ∈ map_order xs → x_id p.2 = p.1) as Hp.
    { intros [id x] Hin%elem_of_map_order. by destruct (G _ _ Hin). }
    induction (map_order xs) as [|p l IH]; [done|]. cbn. rewrite Hp by by left.
    f_equal. apply IH. intros; apply Hp; by right. }
  split.
  - by rewrite <- list_fmap_compose.
  - intros r (x & -> & [id Hx]%elem_of_sorted_contexts)%list_elem_of_fmap.
    destruct (G _ _ Hx). cbn. split_and!; [by exists id, x|done|done|by eapply Hplain|eauto].
  - pose proof (sorted_contexts_sorted xs) as Hs.
    assert (∀ x, x ∈ sorted_contexts xs → ∃ id, xs !! id = Some x) as Hin
      by (intros x; by apply elem_of_sorted_contexts).
    induction (sorted_contexts xs) as [|x l IH]; [constructor|].
    apply StronglySorted_inv in Hs as [Hs Hx]. rewrite fmap_cons in *.
    apply NoDup_cons in Hids as [Hnew Hids]. constructor.
    + apply IH; [done..|]. intros; apply Hin; by right.
    + rewrite Forall_fmap, Forall_forall in *. intros y Hy Hsub. cbn in Hsub.
      destruct (Hin x) as [i Hi]; [by left|]. destruct (Hin y) as [j Hj]; [by right|].
      specialize (Hx y Hy). destruct (decide (x_value y = x_value x)) as [Heq|Hne].
      * apply Hnew. destruct (G _ _ Hi), (G _ _ Hj).
        assert (x_id x = x_id y) as -> by congruence. by apply list_elem_of_fmap_2.
      * pose proof (weight_included dims I Hsize _ _ _ _ Hsub Hne (Hcurrent _ _ Hj) (Hcurrent _ _ Hi)).
        unfold before in Hx. lia.
Qed.
End generated.

Section claims.
Context `{CacEnv} `{JsonParse} `{FloatText} `{Blake3} `{MapOrder} {Ook : MapOrderOk _}.
Context `{ConfigText} `{JsonText} `{JsonSchema} `{RegexEngine} `{JsonLogicVariables} `{DebugText}.

Lemma resolved_rows strategy mq key d (xs : gmap string DbContext) ctxs ovs rows :
  represents (left_over xs) ctxs ovs rows →
  cascade strategy d (assigned mq ovs key ctxs) = resolved strategy mq key d rows.
Proof. intros Hrep. unfold resolved. by rewrite (represents_assigned (left_over xs) mq key _ _ rows). Qed.

(** C26. A reduction keeps what requests resolve to, as long as they are
    nested. After any requests, when there are at most 2^32 dimensions, the
    stored weights are those of the dimensions as they are, the ids of the
    overrides (and of what is left of them without some keys) tell them apart,
    and no condition has a dimension named key_val, req_payload or
    can_be_reduced, the entries that the reduction adds: the configuration is
    reduced, by a request that does not approve, without an error and without a
    change of the tables; and under both merge strategies and with any prefixes
    a request is resolved alike, without an error, in the reduced configuration and in the one generated, if of two
    contexts that hold of the request, its local cohorts evaluated, one always
    includes the condition of the other. *)
Theorem reduction_keeps_nested `{JsonLogic} cs settings user q mq strategy prefixes :
  let w := cac_serve_all cs fresh_workspace in
  (Z.of_nat (size (k_dimensions w)) ≤ 2 ^ 32)%Z →
  (∀ o o', left_over (k_contexts w) o → left_over (k_contexts w) o' →
    hash (VObject o) = hash (VObject o') → o = o') →
  (∀ id x, k_contexts w !! id = Some x → plain (x_value x) ∧
    calculate_context_weight (VObject (x_value x)) (dimensions_info (k_dimensions w)) = Ok (x_weight x)) →
  evaluate_local_cohorts (cohort_fuel (dimensions_info (k_dimensions w)))
    (dimensions_info (k_dimensions w)) q = Some mq →
  (∀ id x id' y, k_contexts w !! id = Some x → k_contexts w !! id' = Some y →
    apply (x_value x) mq = true → apply (x_value y) mq = true →
    x_value x ⊆ x_value y ∨ x_value y ⊆ x_value x) →
  ∃ cfg cfg' r,
    generate_cac (k_contexts w) (k_default_configs w) (k_dimensions w) = Ok cfg ∧
    reduce_handler settings false user w = (Ok cfg', w) ∧
    eval_config (cohort_fuel (dimensions cfg)) (default_configs cfg) (contexts cfg)
      (overrides cfg) (dimensions cfg) q strategy prefixes = Some (Ok r) ∧
    eval_config (cohort_fuel (dimensions cfg')) (default_configs cfg') (contexts cfg')
      (overrides cfg') (dimensions cfg') q strategy prefixes = Some (Ok r).
Proof.
  intros w Hsize Happart Hrows Hmq Hnested.
  destruct (cac_reachable_good cs) as (G & _ & _ & I). fold w in G, I.
  set (xs := k_contexts w) in *. set (ds := k_default_configs w) in *. set (dims := k_dimensions w) in *.
  pose proof (left_over_faithful xs Happart) as Hf.
  pose proof (generated_represents xs ds dims G Happart) as Hrep.
  assert (rows_ok (left_over xs) (dimensions_info dims) (row_of <$> sorted_contexts xs)) as Hok.
  { apply (generated_rows_ok xs ds dims); try done; intros id x Hx; by destruct (Hrows id x Hx). }
  set (cfg := generated_config xs ds dims) in *.
  assert (∀ c1 c2 w1 w2, c1 ⊆ c2 → c1 ≠ c2 →
    weight_of (dimensions_info dims) c1 = Ok w1 → weight_of (dimensions_info dims) c2 = Ok w2 →
    (w1 < w2)%N) as Hstrict by (intros; by eapply weight_included).
  destruct (reduce_keys_rows (left_over xs) (dimensions_info dims) Hstrict settings user
    (default_configs cfg) (sorted_entries (default_configs cfg)).*1 (contexts cfg) (overrides cfg)
    (row_of <$> sorted_contexts xs) w) as (ctxs' & ovs' & rows' & Hred & Hrep' & Hsame).
  - intros key. by rewrite elem_of_sorted_keys.
  - done.
  - done.
  - destruct (eval_config_lookup _ (default_configs cfg) (contexts cfg) (overrides cfg) _ q strategy prefixes mq Hmq)
      as (r & Hr & Hk).
    destruct (eval_config_lookup _ (default_configs cfg) ctxs' ovs' _ q strategy prefixes mq Hmq) as (r' & Hr' & Hk').
    exists cfg, (mkConfig ctxs' ovs' (default_configs cfg) (dimensions_info dims)), r. split_and!.
    + by apply generate_cac_ok.
    + unfold reduce_handler, fetch_dimensions_info_map, dimensions_table, generate, mbind, ST_bind.
      cbn [mret ST_ret]. fold dims xs ds. rewrite (generate_cac_ok xs ds dims G). exact Hred.
    + exact Hr.
    + etransitivity; [exact Hr'|]. do 2 f_equal. apply map_eq. intros k. rewrite Hk, Hk'.
      destruct (asked_for prefixes k); [|done].
      destruct (default_configs cfg !! k) as [d|] eqn:Hd; [|done]. cbn [mbind option_bind]. f_equal.
      rewrite (resolved_rows strategy mq k d xs ctxs' ovs' rows' Hrep').
      rewrite (resolved_rows strategy mq k d xs (contexts cfg) (overrides cfg) _ Hrep).
      apply (Hsame mq); [|done].
      intros y y' (x & -> & [id Hx]%elem_of_sorted_contexts)%list_elem_of_fmap
        (x' & -> & [id' Hx']%elem_of_sorted_contexts)%list_elem_of_fmap. by eapply Hnested.
Qed.
End claims.

(** ** Runs *)

(** Two contexts, one included in the other, with the same value. *)
Definition nested_run : list CacCall := dimension_calls ++ (call <$>
  [put (<["city" := str "pune"]> {[ "clientId" := str "acme" ]}) {[ "label" := str "big" ]};
   put {[ "city" := str "pune" ]} {[ "label" := str "big" ]}]).
Definition nested_world : CacWorld := cac_serve_all nested_run fresh_workspace.
Definition pune_acme : Map := <["city" := str "pune"]> {[ "clientId" := str "acme" ]}.

(** A context between the two, on another dimension. *)
Definition between_run : list CacCall := dimension_calls ++ (call <$>
  [dimension "os" 1 (typed "string") Regular;
   put (<["clientId" := str "acme"]> {[ "os" := str "ios" ]}) {[ "label" := str "big" ]};
   put {[ "os" := str "ios" ]} {[ "label" := str "big" ]};
   put {[ "city" := str "pune" ]} {[ "label" := str "south" ]}]).
Definition between_world : CacWorld := cac_serve_all between_run fresh_workspace.
Definition pune_acme_ios : Map := <["os" := str "ios"]> pune_acme.

(** A context that repeats the default value of one of its two keys. *)
Definition repeating_run : list CacCall := dimension_calls ++ (call <$>
  [put {[ "city" := str "pune" ]} (<["fee" := VBool false]> {[ "label" := str "south" ]})]).
Definition repeating_world : CacWorld := cac_serve_all repeating_run fresh_workspace.

Definition resolve_with (cfg : Config) (q : Map) (k : string) : option Value :=
  match eval_config (cohort_fuel (dimensions cfg)) (default_configs cfg) (contexts cfg)
          (overrides cfg) (dimensions cfg) q REPLACE None with
  | Some (Ok r) => r !! k
  | _ => None
  end.

Definition answer_of (o : Result Config) (q : Map) (k : string) : option Value :=
  match o with Ok cfg => resolve_with cfg q k | Err _ => None end.

(** A reduction can change what requests resolve to. The contexts looked
    at are those included in the one that is reduced, although a context that
    is not one of them but is heavier takes over: here the contexts on [os]
    and [clientId] and on [os] alone have the same value, the first is taken
    out, and a request that also satisfies the context on [city], which is
    between the two, resolves to the value of that one. *)
Theorem reduction_changes_resolution :
  let w := between_world in
  let cfg := generate_cac (k_contexts w) (k_default_configs w) (k_dimensions w) in
  let cfg' := (reduce_handler open_settings false ana w).1 in
  answer_of cfg pune_acme_ios "label" = Some (str "big") ∧
  answer_of cfg' pune_acme_ios "label" = Some (str "south").
Proof. split; vm_compute; reflexivity. Qed.

(** An approved reduction loses contexts. The row of a reduced context is
    deleted before its description is read from it: the request fails, the
    row stays deleted although only one of its two keys was to go, no version
    is stored, and the other key resolves to its default value. *)
Theorem approved_reduction_loses_context :
  let w := repeating_world in
  let '(answer, w') := reduce_handler open_settings true ana w in
  answer = Err (DbError DbNotFound) ∧
  size (k_contexts w) = 1 ∧ k_contexts w' = ∅ ∧ k_versions w' = k_versions w ∧
  (resolve_in w {[ "city" := str "pune" ]} ≫= (.!! "label")) = Some (str "south") ∧
  (resolve_in w' {[ "city" := str "pune" ]} ≫= (.!! "label")) = Some (str "none").
Proof. vm_compute. repeat split. Qed.

(** ** Witnesses *)

Definition sample_row_ok (w : CacWorld) (x : DbContext) : bool :=
  bool_decide (x_value x !! "key_val" = None) && bool_decide (x_value x !! "req_payload" = None) &&
  bool_decide (x_value x !! "can_be_reduced" = None) &&
  bool_decide (x_override x = {[ "label" := str "big" ]}) &&
  match calculate_context_weight (VObject (x_value x)) (dimensions_info (k_dimensions w)) with
  | Ok weight => bool_decide (weight = x_weight x)
  | Err _ => false
  end.

Lemma nested_world_rows : ∀ p, p ∈ map_to_list (k_contexts nested_world) →
  sample_row_ok nested_world p.2 = true.
Proof. apply forallb_True. vm_compute. reflexivity. Qed.

Lemma nested_world_nested : ∀ p p', p ∈ map_to_list (k_contexts nested_world) →
  p' ∈ map_to_list (k_contexts nested_world) →
  x_value p.2 ⊆ x_value p'.2 ∨ x_value p'.2 ⊆ x_value p.2.
Proof.
  assert (forallb (λ p, forallb (λ p', bool_decide (x_value p.2 ⊆ x_value p'.2) ||
    bool_decide (x_value p'.2 ⊆ x_value p.2)) (map_to_list (k_contexts nested_world)))
    (map_to_list (k_contexts nested_world)) = true) as Hall by (vm_compute; reflexivity).
  intros p p' Hp Hp'. rewrite forallb_True in Hall. specialize (Hall p Hp).
  rewrite forallb_True in Hall. specialize (Hall p' Hp').
  apply orb_true_iff in Hall as [?%bool_decide_eq_true|?%bool_decide_eq_true]; auto.
Qed.

Lemma nested_world_overrides o : left_over (k_contexts nested_world) o →
  o = ∅ ∨ o = {[ "label" := str "big" ]}.
Proof.
  intros (id & x & Hx%elem_of_map_to_list & Ho). apply nested_world_rows in Hx. cbn in Hx.
  unfold sample_row_ok in Hx. rewrite !andb_true_iff, !bool_decide_eq_true in Hx.
  destruct Hx as [[_ Hov] _]. rewrite Hov in Ho. destruct (o !! "label") as [v|] eqn:Hv.
  - right. apply map_eq. intros k. destruct (decide (k = "label")) as [->|Hne].
    + rewrite Hv. symmetry. by eapply lookup_weaken.
    + rewrite lookup_singleton_ne by done. apply eq_None_not_Some. intros [u Hu].
      eapply lookup_weaken in Hu; [|done]. by rewrite lookup_singleton_ne in Hu.
  - left. apply map_eq. intros k. rewrite lookup_empty. destruct (decide (k = "label")) as [->|Hne]; [done|].
    apply eq_None_not_Some. intros [u Hu]. eapply lookup_weaken in Hu; [|done].
    by rewrite lookup_singleton_ne in Hu.
Qed.

Lemma reduction_keeps_nested_witness :
  ∃ cfg', reduce_handler open_settings false ana nested_world = (Ok cfg', nested_world).
Proof.
  assert (∃ mq, evaluate_local_cohorts (cohort_fuel (dimensions_info (k_dimensions nested_world)))
    (dimensions_info (k_dimensions nested_world)) pune_acme = Some mq) as [mq Hmq].
  { eexists. vm_compute. reflexivity. }
  destruct (reduction_keeps_nested nested_run open_settings ana pune_acme mq MERGE None)
    as (cfg & cfg' & r & _ & Hred & _).
  - vm_compute. discriminate.
  - intros o o' Ho Ho' He. apply nested_world_overrides in Ho, Ho'.
    destruct Ho as [->| ->], Ho' as [->| ->]; try reflexivity; vm_compute in He; discriminate.
  - intros id x Hx%elem_of_map_to_list. apply nested_world_rows in Hx. cbn [snd] in Hx.
    unfold sample_row_ok in Hx. rewrite !andb_true_iff, !bool_decide_eq_true in Hx.
    destruct Hx as [[[[H1 H2] H3] _] Hw]. split; [split; [exact H1|split; [exact H2|exact H3]]|].
    unfold nested_world in Hw. destruct (calculate_context_weight _ _); [|discriminate].
    apply bool_decide_eq_true in Hw. rewrite Hw. reflexivity.
  - exact Hmq.
  - intros id x id' y Hx%elem_of_map_to_list Hy%elem_of_map_to_list _ _.
    exact (nested_world_nested _ _ Hx Hy).
  - exact (ex_intro _ cfg' Hred).
Defined.
