(* ===== verification/CacServingClaims.v ===== *)
(** * Theorems on serving configurations *)

From S2P Require Import Prelude Pages Stack Json Types Text Effects Logic LogicProps Config Resolve Samples CacClient ExpChecks CacStore CacConfig Contexts Dimensions DefaultConfigs Functions CacServing CacQueries CacService DimSpec CacInv CacProps CacGenerated CacChanges CacServingProps ServerSamples CacReduceClaims.

Section claims.
Context `{CacEnv} `{JsonParse} `{FloatText} `{Blake3} `{MapOrder} {Ook : MapOrderOk _}.
Context `{ConfigText} `{JsonText} `{JsonSchema} `{RegexEngine} `{JsonLogicVariables} `{DebugText}.
Context `{RowOrder} {Rok : RowOrderOk _} `{JsonLogic}.

(** C20. A request is served the current configuration. Under a clock that
    strictly increases, after any requests but approved reductions, whether they
    succeeded or failed, a request to resolve the configuration is resolved, in
    the state it leaves unchanged, as the configuration generated from the
    tables resolves it: when the request is read without an error, pins no
    version, neither by itself nor by the settings of the workspace, has no
    If-Modified-Since, names no context and asks for no reasoning and for no
    cohorts to be resolved remotely. (An approved reduction stores no version,
    so that what it changes is not served.) *)
Theorem current_configuration_served cs settings req filters strategy is_smithy q :
  let w := cac_serve_all cs fresh_workspace in
  Forall versioning cs → (∀ n m, n < m → (cac_now n < cac_now m)%Z) →
  get_config_version (rv_version filters) settings = Ok None →
  sr_if_modified_since req = None →
  rv_context_id filters = None → default false (rv_resolve_remote filters) = false →
  default false (rv_show_reasoning filters) = false →
  setup_query_data req = Ok (is_smithy, q) →
  ∃ cfg r version last_modified, generates w cfg ∧
    eval_config (cohort_fuel (dimensions cfg)) (default_configs cfg) (contexts cfg)
      (overrides cfg) (dimensions cfg) q strategy None = Some (Ok r) ∧
    config_resolve_handler settings req strategy filters w =
      (Ok (Fresh (mkServeResponse last_modified version r)), w).
Proof.
  intros w Hcs Hclock Hversion Hmod Hid Hremote Hreason Hq.
  destruct (cac_reachable_good cs) as (G & _ & _ & I). fold w in G, I.
  set (cfg := generated_config (k_contexts w) (k_default_configs w) (k_dimensions w)).
  assert (generates w cfg) as Hg by by apply generate_cac_ok.
  destruct (generated_resolves _ _ _ q strategy G I) as (mq & r & _ & Hr & _).
  destruct (generate_latest w _ (up_to_date_serve_all Hclock cs _ Hcs up_to_date_fresh) Hg) as [version Hlatest].
  destruct (max_created_at w) as (o & Hmax & _).
  eexists cfg, r, version, _. split_and!; [exact Hg|exact Hr|].
  unfold config_resolve_handler, mbind, ST_bind, lift. rewrite Hmax, (unconditional _ _ Hmod).
  rewrite Hversion. lazy beta match. rewrite Hlatest. lazy beta match. rewrite Hq. lazy beta match.
  by rewrite (resolve_plain cfg q strategy filters w r Hid Hremote Hreason Hr).
Qed.

(** A pinned version stays. After any further requests, one that pins a
    version by its settings, unconditionally and without remote cohorts, is
    answered with the same version and the same body. *)
Theorem pinned_version_stable cs cs' settings id req filters strategy resp :
  let w := cac_serve_all cs fresh_workspace in
  let w' := cac_serve_all cs' w in
  st_config_version settings = Some id → rv_version filters = None →
  sr_if_modified_since req = None → default false (rv_resolve_remote filters) = false →
  (config_resolve_handler settings req strategy filters w).1 = Ok (Fresh resp) →
  ∃ resp', (config_resolve_handler settings req strategy filters w').1 = Ok (Fresh resp') ∧
    rp_config_version resp' = rp_config_version resp ∧ rp_body resp' = rp_body resp.
Proof.
  intros w w' Hid Hversion Hmod Hremote.
  pose proof (versions_grow_all cs' w) as Hgrow. fold w' in Hgrow.
  destruct (max_created_at w) as (o & Hmax & _), (max_created_at w') as (o' & Hmax' & _).
  unfold config_resolve_handler, mbind, ST_bind, lift.
  rewrite Hmax, Hmax', !(unconditional _ _ Hmod), Hversion. unfold get_config_version. rewrite Hid.
  unfold generate_config_from_version, find_version, mbind, ST_bind. cbn. intros Hresp.
  destruct (k_versions w !! id) as [v|] eqn:Hv; [|done].
  rewrite (lookup_weaken _ _ _ _ Hv Hgrow). cbn in Hresp |- *.
  destruct (setup_query_data req) as [[is_smithy q]|e]; [|done].
  destruct (resolve_local (cv_config v) q strategy filters w w' Hremote) as [_ Hsame].
  destruct (resolve (cv_config v) q strategy filters w) as [[r|e] w1]; [|done].
  destruct (resolve (cv_config v) q strategy filters w') as [[r'|e] w1']; cbn in Hsame; simplify_eq.
  cbn. injection Hresp as <-. eexists. done.
Qed.

(** What [304] says. Under a clock that strictly increases, a request that
    sends the time of the last version it knows, in seconds as the header
    carries it, is answered that nothing was modified only when the
    configuration is still the same or a version was stored since within the
    same second. *)
Theorem unmodified_within_second cs cs' settings req filters strategy m :
  let w := cac_serve_all cs fresh_workspace in
  let w' := cac_serve_all cs' w in
  Forall versioning cs → Forall versioning cs' →
  (∀ n m, n < m → (cac_now n < cac_now m)%Z) →
  (get_max_created_at w).1 = Ok m →
  sr_if_modified_since req = Some (nanosecond_erasure m) →
  (config_resolve_handler settings req strategy filters w').1 = Ok Unmodified →
  (∃ cfg, generates w cfg ∧ generates w' cfg) ∨
  ∃ i v, k_versions w !! i = None ∧ k_versions w' !! i = Some v ∧
    nanosecond_erasure (cv_created_at v) = nanosecond_erasure m.
Proof.
  intros w w' Hcs Hcs' Hclock Hm Hreq.
  pose proof (versions_grow_all cs' w) as Hgrow. fold w' in Hgrow.
  pose proof (up_to_date_serve_all Hclock cs _ Hcs up_to_date_fresh) as Hcur. fold w in Hcur.
  pose proof (up_to_date_serve_all Hclock cs' w Hcs' Hcur) as Hcur'. fold w' in Hcur'.
  destruct (max_created_at w) as (o & Hmax & Ho). unfold attempt in Hmax.
  destruct (get_max_created_at w) as [[m0|e] w0]; cbn in Hm; simplify_eq. destruct Ho as (v & Hv & ->).
  destruct (max_created_at w') as (o' & Hmax' & Ho').
  unfold config_resolve_handler, is_not_modified, mbind, ST_bind, lift. rewrite Hmax', Hreq. cbn.
  pose proof Hv as [[i Hi] _]. pose proof (lookup_weaken _ _ _ _ Hi Hgrow) as Hi'.
  destruct o' as [m'|]; [|by rewrite Ho', lookup_empty in Hi'].
  destruct Ho' as (v' & Hv' & ->). cbn.
  case_bool_decide as Hle.
  - intros _. pose proof Hv' as [[j Hj] Hmaxv'].
    destruct (k_versions w !! j) as [u|] eqn:Hu.
    + left. exists (cv_config v'). split; [|by apply (latest_current _ Hcur')].
      pose proof (lookup_weaken _ _ _ _ Hu Hgrow) as Huj. assert (u = v') as -> by congruence.
      apply (latest_current _ Hcur). split; [by exists j|]. intros k x Hx.
      apply (Hmaxv' k). by eapply lookup_weaken.
    + right. exists j, v'. split_and!; [done..|]. apply (Hmaxv' i v), erasure_mono in Hi'.
      rewrite erasure_idem in Hle. lia.
  - intros Hr. exfalso. revert Hr. clear.
    repeat (case_match; try done).
Qed.
(** C25. The evaluation of the remote cohorts ends and is complete. On the
    dimensions of every reachable state, whatever the functions answer, the
    loops end; every regular dimension the request binds is bound, and so is
    every remote cohort of a dimension that is bound; the only errors are those
    of the computation of a remote cohort's value. *)
Theorem remote_cohorts_evaluated cs q :
  let w := cac_serve_all cs fresh_workspace in
  let dims := dimensions_info (k_dimensions w) in
  match (evaluate_remote_cohorts (cohort_fuel dims) dims q w).1 with
  | Ok None => False
  | Ok (Some ctx) =>
      (∀ d info, dims !! d = Some info → is_regular (di_dimension_type info) = true →
         is_Some (q !! d) → is_Some (ctx !! d)) ∧
      ∀ p e, is_Some (ctx !! p) →
        (∃ d, k_dimensions w !! e = Some d ∧ dm_dimension_type d = RemoteCohort p) → is_Some (ctx !! e)
  | Err err => ∃ c b data ctx w', dims !! c = Some data ∧
      (remote_cohort_value c b data ctx w').1 = Err err
  end.
Proof.
  intros w dims. destruct (cac_reachable_good cs) as (_ & _ & _ & I). fold w in I.
  pose proof (evaluate_remote_cohorts_ends _ I q w) as Hends. fold dims in Hends.
  destruct (evaluate_remote_cohorts (cohort_fuel dims) dims q w).1 as [[ctx|]|err]; [|done..].
  destruct Hends as [Hreg Hall]. split; [done|]. intros p e Hp (d & Hd & Ht). apply (Hall p e Hp).
  by apply (remote_on_row _ e d p).
Qed.
End claims.

(** ** What is not served *)

Definition get_request (q : Map) (since : option Z) : ServeRequest :=
  mkServeRequest GET since None q.
Definition plain_filters : ResolveConfigQuery := mkResolveConfigQuery None None None None None.
Definition pune : Map := {[ "city" := str "pune" ]}.

#[local] Existing Instance list_rows.

(** A change is missed: the time sent is that of the version of
    [dimension_calls] and the configuration is changed within the same second,
    so the next request is answered that nothing was modified, although the
    value it resolves to is another. *)
Theorem unmodified_misses_change :
  let w := cac_serve_all dimension_calls fresh_workspace in
  let w' := cac_serve_all context_calls w in
  let answer := (config_resolve_handler open_settings (get_request pune (Some 0%Z)) MERGE plain_filters w').1 in
  nanosecond_erasure <$> (get_max_created_at w).1 = Ok 0%Z ∧
  answer = Ok Unmodified ∧
  (resolve_in w pune ≫= (.!! "fee")) = Some (VBool false) ∧
  (resolve_in w' pune ≫= (.!! "fee")) = Some (VBool true).
Proof. split_and!; vm_compute; reflexivity. Qed.

(** An approved reduction is not served: it stores no version, so requests
    that pin none are answered from the version of before, although the tables
    say otherwise. *)
Theorem approved_reduction_not_served :
  let w := (cac_serve (call (ReduceConfig true)) between_world).2 in
  let answer := (config_resolve_handler open_settings (get_request pune_acme_ios None) REPLACE
    plain_filters w).1 in
  match answer with Ok (Fresh resp) => rp_body resp !! "label" | _ => None end = Some (str "big") ∧
  (resolve_in w pune_acme_ios ≫= (.!! "label")) = Some (str "south").
Proof. split; vm_compute; reflexivity. Qed.

(** The prefixes of a request to resolve are not looked at. *)
Theorem resolve_ignores_prefix `{CacEnv} `{JsonParse} `{MapOrder} `{RowOrder} `{JsonLogic}
    settings req strategy version reasoning remote id prefix w :
  config_resolve_handler settings req strategy
    (mkResolveConfigQuery version reasoning remote id prefix) w =
  config_resolve_handler settings req strategy
    (mkResolveConfigQuery version reasoning remote id None) w.
Proof. reflexivity. Qed.

(** The name the interface documents is read as the other strategy. *)
Theorem replace_header_merges : merge_strategy_of (Some "REPLACE") = MERGE.
Proof. reflexivity. Qed.

(** The listing of the audit log has no use for [all]. *)
Theorem audit_ignores_all `{CacEnv} event_log filters count page all w :
  audit_list_handler event_log filters (mkPaginationParams count page all) w =
  audit_list_handler event_log filters (mkPaginationParams count page None) w.
Proof. reflexivity. Qed.

(** ** The copy in Redis *)

(** The id of the version that a computation leaves, when it succeeds. *)
Definition stored_by `{MapOrder} (id : Z) (w w' : CacWorld) : Prop :=
  ∃ v, cv_id v = id ∧ k_versions w !! id = None ∧ k_versions w' = <[id := v]> (k_versions w) ∧
    generates w' (cv_config v).

Definition VersionedAs `{MapOrder} {A} (m : C A) (f : A → Z) : Prop :=
  ∀ w, match m w with (Ok a, w') => stored_by (f a) w w' | (Err _, _) => True end.

Section redis.
Context `{CacEnv} `{JsonParse} `{FloatText} `{Blake3} `{MapOrder} {Ook : MapOrderOk _}.
Context `{ConfigText} `{JsonText} `{JsonSchema} `{RegexEngine} `{JsonLogicVariables} `{DebugText}.
Context `{Rfc2822Text}.

Lemma versioned_as_bind {A B} (m : C B) (k : B → C A) f :
  CacContained m → (∀ b, VersionedAs (k b) f) → VersionedAs (m ≫= k) f.
Proof.
  intros Hm Hk w. unfold mbind, ST_bind. specialize (Hm w). destruct (m w) as [[b|e] w1]; [|done].
  specialize (Hk b w1). injection Hm as Hm _ _ _. destruct (k b w1) as [[a|e] w2]; [|done].
  unfold stored_by in *. by rewrite <- Hm.
Qed.

Lemma versioned_as_then {A B} (m : C B) (k : B → C A) f g :
  VersionedAs m g → (∀ b, ∃ a, k b = mret a ∧ f a = g b) → VersionedAs (m ≫= k) f.
Proof.
  intros Hm Hk w. unfold mbind, ST_bind. specialize (Hm w). destruct (m w) as [[b|e] w1]; [|done].
  destruct (Hk b) as (a & -> & Ha). cbn. by rewrite Ha.
Qed.

Lemma versioned_as_transaction {A} (m : C A) f : VersionedAs m f → VersionedAs (cac_transaction m) f.
Proof.
  intros Hm w. specialize (Hm w). unfold cac_transaction, transaction_by. by destruct (m w) as [[a|e] w1].
Qed.

Lemma versioned_as_add tags description : VersionedAs (add_config_version tags description) id.
Proof.
  unfold add_config_version. intros w. unfold mbind, ST_bind.
  destruct (cac_new_id w) as [[v|e] w1] eqn:Hid; [|done].
  assert (k_versions w1 = k_versions w) as Hw.
  { unfold cac_new_id in Hid. by simplify_eq/=. }
  unfold generate. destruct (generate_cac _ _ _) as [config|e] eqn:Hg; [|done]. cbn.
  unfold insert_version. cbn. rewrite Hw. destruct (k_versions w !! v) eqn:Hv; [done|]. cbn.
  eexists (mkConfigVersion v config _ _ _ _).
  split_and!; [done|done|cbn; by rewrite ?Hw|exact Hg].
Qed.

Lemma versioned_as_fail {A} e (f : A → Z) : VersionedAs (fail e) f.
Proof. done. Qed.

Ltac solve_versioned_as :=
  repeat match goal with
    | |- VersionedAs (add_config_version _ _) _ => apply versioned_as_add
    | |- VersionedAs (cac_transaction _) _ => apply versioned_as_transaction
    | |- VersionedAs (fail _) _ => apply versioned_as_fail
    | |- VersionedAs (bad _) _ => apply versioned_as_fail
    | |- VersionedAs (_ ≫= _) _ =>
        first [ apply versioned_as_bind; [solve_neutral; fail|intros]
              | eapply (versioned_as_then _ _ _ id); [|intros; eexists; split; reflexivity] ]
    | |- VersionedAs (if ?b then _ else _) _ => destruct b
    | |- _ => progress cbn beta zeta
    end.

(** The version that a request answers with is the one it stored. *)
Lemma stored_version_stored settings tags user r w :
  match stored_version settings tags user r w with
  | (Ok (Some version), w') => stored_by version w w'
  | _ => True
  end.
Proof.
  assert (∀ {A} (m : C A) f, VersionedAs m f →
    match (x ← m; mret (Some (f x))) w with
    | (Ok (Some version), w') => stored_by version w w'
    | _ => True
    end) as Hm.
  { intros A m f Hm. unfold mbind, ST_bind. specialize (Hm w). by destruct (m w) as [[a|e] w1]. }
  assert (match (_ ← cac_route settings tags user r; mret None) w with
    | (Ok (Some version), w') => stored_by version w w'
    | _ => True
    end) as Hnone.
  { unfold mbind, ST_bind. by destruct (cac_route settings tags user r w) as [[a|e] w1]. }
  destruct r; try exact Hnone; clear Hnone; cbn [stored_version].
  - apply (Hm _ _ snd). unfold ctx_create_handler. solve_versioned_as.
  - apply (Hm _ _ snd). unfold ctx_update_handler. solve_versioned_as.
  - apply (Hm _ _ snd). unfold ctx_move_handler. solve_versioned_as.
  - apply (Hm _ _ id). unfold ctx_delete_handler, delete_context. solve_versioned_as.
  - apply (Hm _ _ snd). unfold bulk_operations_handler. solve_versioned_as.
  - apply (Hm _ _ snd). unfold weight_recompute_handler. solve_versioned_as.
  - apply (Hm _ _ snd). unfold dim_create_handler. solve_versioned_as.
  - apply (Hm _ _ snd). unfold dim_update_handler. solve_versioned_as.
  - apply (Hm _ _ id). unfold dim_delete_handler. solve_versioned_as.
  - apply (Hm _ _ snd). unfold default_create_handler. solve_versioned_as.
  - apply (Hm _ _ snd). unfold default_update_handler. solve_versioned_as.
  - apply (Hm _ _ id). unfold default_delete_handler. solve_versioned_as.
Qed.

Context (clock : ∀ n m, n < m → (cac_now n < cac_now m)%Z).

(** The copy is of the latest version; there is none before the first. *)
Definition copy_current (w : CacWorld) (copy : RedisCopy) : Prop :=
  match rd_config copy with
  | None => k_versions w = ∅
  | Some text => ∃ v, latest w v ∧ text = config_to_string (cv_config v) ∧
      rd_config_version copy = Some (cv_id v)
  end.

Lemma copy_current_same w w' copy :
  k_versions w' = k_versions w → copy_current w copy → copy_current w' copy.
Proof. unfold copy_current, latest. by intros ->. Qed.

Lemma stored_latest w w' id : up_to_date w → later true w w' → stored_by id w w' →
  ∃ v, latest w' v ∧ cv_id v = id ∧ generates w' (cv_config v).
Proof using clock.
  intros [_ Hp] [Ht Hl] (v & Hid & Hnew & Hvs & Hg). exists v. split_and!; [|done|done].
  split; [exists id; by rewrite Hvs, lookup_insert_eq|]. intros i u Hu.
  destruct (Hl id v) as [Hv|(n & Hn & Hvn)]; [by rewrite Hvs, lookup_insert_eq|congruence|].
  rewrite Hvs in Hu. apply lookup_insert_Some in Hu as [[_ <-]|[_ Hu]]; [lia|].
  destruct (Hp i u Hu) as (m & Hm & Hum). specialize (clock m n ltac:(lia)). lia.
Qed.

(** A request that names the version it stored is that request. *)
Definition served_version (c : CacCall) : C (option Z) :=
  _ ← lift (all_ok (body_checks (call_request c)));
  stored_version (call_settings c) (call_tags c) (call_user c) (call_request c).

Lemma served_version_serve c w :
  (served_version c w).2 = (cac_serve c w).2 ∧
  ((cac_serve c w).1 = match (served_version c w).1 with Ok _ => Ok tt | Err e => Err e end).
Proof using.
  unfold served_version, cac_serve, mbind, ST_bind, lift. destruct (all_ok _) as [[]|e]; [|done].
  assert (∀ {A B} (m : C A) (f : A → B),
    ((x ← m; mret (f x)) w).2 = (forget m w).2 ∧
    (forget m w).1 = match ((x ← m; mret (f x)) w).1 with Ok _ => Ok tt | Err e => Err e end) as Hm.
  { intros A B m f. unfold forget, mbind, ST_bind. by destruct (m w) as [[a|e] w1]. }
  assert (∀ m : C unit, ((_ ← m; mret (None : option Z)) w).2 = (m w).2 ∧
    (m w).1 = match ((_ ← m; mret (None : option Z)) w).1 with Ok _ => Ok tt | Err e => Err e end) as Hu.
  { intros m. unfold mbind, ST_bind. by destruct (m w) as [[[]|e] w1]. }
  destruct (call_request c); try apply Hm; apply Hu.
Qed.

Lemma unversioned_keeps c w :
  versioning c → (∀ v, (served_version c w).1 ≠ Ok (Some v)) →
  k_versions (cac_serve c w).2 = k_versions w.
Proof using Ook.
  intros Hv Hn. destruct (stores_version (call_request c)) eqn:Hc.
  - assert (CacAtomic (cac_serve c)) as Ha.
    { apply atomic_cac_serve; [|done]. intros name Hd. by rewrite Hd in Hc. }
    specialize (Ha w). destruct (served_version_serve c w) as [_ Hr].
    destruct (cac_serve c w) as [[u|e] w'] eqn:Hs; [|by injection Ha].
    exfalso. cbn in Hr. destruct (served_version c w) as [[[v|]|e] w1] eqn:Hsv; [by eapply Hn| |done].
    unfold served_version, mbind, ST_bind, lift in Hsv. destruct (all_ok _) as [[]|e]; [|done].
    destruct (call_request c); try discriminate Hc; cbn [stored_version] in Hsv;
      unfold mbind, ST_bind in Hsv; repeat case_match; discriminate.
  - pose proof (later_serve c w) as Hl. rewrite Hc in Hl. by destruct Hl as [_ ->].
Qed.

Lemma fast_serve_spec audit_id sets c copy w :
  fast_serve audit_id sets c copy w =
  match served_version c w with
  | (Ok (Some version), w') => put_config_in_redis version audit_id sets copy w'
  | (Ok None, w') => (Ok copy, w')
  | (Err e, w') => (Err e, w')
  end.
Proof using.
  unfold fast_serve, served_version, mbind, ST_bind, lift. destruct (all_ok _) as [[]|e]; [|done].
  by destruct (stored_version _ _ _ _ w) as [[[v|]|e] w1].
Qed.

Lemma served_version_stored c w :
  match served_version c w with
  | (Ok (Some version), w') => stored_by version w w'
  | _ => True
  end.
Proof using.
  unfold served_version, mbind, ST_bind, lift. destruct (all_ok _) as [[]|e]; [|done].
  apply stored_version_stored.
Qed.

Lemma put_current version audit_id copy v w :
  up_to_date w → latest w v → cv_id v = version → generates w (cv_config v) →
  ∃ copy' w', put_config_in_redis version audit_id all_arrive copy w = (Ok copy', w') ∧
    up_to_date w' ∧ copy_current w' copy'.
Proof using.
  intros Hw Hl <- Hg. unfold put_config_in_redis, redis_values, mbind, ST_bind, generate.
  unfold generates in Hg. rewrite Hg. eexists _, _. split; [reflexivity|]. split.
  - by eapply (up_to_date_same w _ false); [apply (later_clock false w)|..].
  - exists v. split_and!; [exact Hl|done..].
Qed.

Lemma fast_serve_current audit_id c s : versioning c →
  up_to_date (fw_world s) → copy_current (fw_world s) (fw_copy s) →
  let s' := fast_serve_one audit_id all_arrive c s in
  up_to_date (fw_world s') ∧ copy_current (fw_world s') (fw_copy s').
Proof using Ook clock.
  destruct s as [w copy]. cbn [fw_world fw_copy]. intros Hv Hw Hc.
  pose proof (up_to_date_serve clock c w Hv Hw) as Hw1.
  pose proof (later_weaken _ _ _ (later_serve c w)) as Hl.
  destruct (served_version_serve c w) as [Hs _]. rewrite <- Hs in Hw1, Hl.
  pose proof (served_version_stored c w) as Hst. pose proof (unversioned_keeps c w Hv) as Hk.
  rewrite <- Hs in Hk. unfold fast_serve_one. cbn [fw_world fw_copy]. rewrite fast_serve_spec.
  destruct (served_version c w) as [[[version|]|e] w1]; cbn [fst snd] in *.
  - destruct (stored_latest w w1 version Hw Hl Hst) as (v & Hlat & Hid & Hg).
    destruct (put_current version audit_id copy v w1 Hw1 Hlat Hid Hg) as (copy' & w' & -> & Hw' & Hc'). done.
  - split; [done|]. eapply copy_current_same; [by apply Hk|done].
  - split; [done|]. eapply copy_current_same; [by apply Hk|done].
Qed.

(** C21. The copy in Redis. Under a clock that strictly increases, when every
    write to the copy arrives and every request runs to its end before the next,
    after any requests but approved reductions, whatever their outcomes, the
    fast handler answers the configuration that the tables generate, with the
    number of the version that holds it; before the first version it sends the
    caller to the slow one. (An approved reduction changes the contexts without
    a version and without a write to the copy.) *)
Theorem redis_copy_current audit_id cs :
  let s := fast_serve_all audit_id all_arrive cs (mkFastWorld fresh_workspace empty_copy) in
  Forall versioning cs →
  match get_fast_handler (fw_copy s) with
  | Ok response => ∃ v, latest (fw_world s) v ∧ generates (fw_world s) (cv_config v) ∧
      fr_body response = config_to_string (cv_config v) ∧
      fr_config_version response = Some (pretty (cv_id v))
  | Err _ => k_versions (fw_world s) = ∅
  end.
Proof using Ook clock.
  intros s Hcs.
  assert (up_to_date (fw_world s) ∧ copy_current (fw_world s) (fw_copy s)) as [Hw Hc].
  { unfold s, fast_serve_all.
    assert (∀ s0, up_to_date (fw_world s0) ∧ copy_current (fw_world s0) (fw_copy s0) →
      let s := foldl (λ s c, fast_serve_one audit_id all_arrive c s) s0 cs in
      up_to_date (fw_world s) ∧ copy_current (fw_world s) (fw_copy s)) as Hall.
    { induction Hcs as [|c cs Hv Hcs IH]; intros s0 Hs0; [done|]. cbn [foldl].
      by apply IH, fast_serve_current; [|apply Hs0..]. }
    apply Hall. split; [apply up_to_date_fresh|done]. }
  unfold get_fast_handler. unfold copy_current in Hc.
  destruct (rd_config (fw_copy s)) as [text|]; [|done].
  destruct Hc as (v & Hl & -> & Hv). exists v. split_and!; [done|by apply Hw|done|].
  cbn [fr_config_version]. by rewrite Hv.
Qed.
End redis.

(** ** Witnesses *)

Lemma sample_clock n m : n < m → (cac_now n < cac_now m)%Z.
Proof. cbn. lia. Qed.

Lemma current_configuration_served_witness :
  ∃ version last_modified r,
    config_resolve_handler open_settings (get_request pune None) MERGE plain_filters cac_world =
      (Ok (Fresh (mkServeResponse last_modified version r)), cac_world).
Proof.
  destruct (current_configuration_served (Rok:=list_rows_ok) cac_run open_settings
    (get_request pune None) plain_filters MERGE false pune)
    as (cfg & r & version & last_modified & _ & _ & Hserved);
    [repeat constructor; discriminate|exact sample_clock|reflexivity..|].
  exact (ex_intro _ version (ex_intro _ last_modified (ex_intro _ r Hserved))).
Defined.

(** The id of the first version, which has no context yet. *)
Definition pinned_settings : Settings := mkSettings None false false (Some 1000%Z).

Lemma pinned_version_stable_witness :
  ∃ resp resp',
    (config_resolve_handler pinned_settings (get_request pune None) MERGE plain_filters
       (cac_serve_all dimension_calls fresh_workspace)).1 = Ok (Fresh resp) ∧
    (config_resolve_handler pinned_settings (get_request pune None) MERGE plain_filters
       (cac_serve_all context_calls (cac_serve_all dimension_calls fresh_workspace))).1 =
      Ok (Fresh resp') ∧ rp_body resp' = rp_body resp.
Proof.
  destruct (config_resolve_handler pinned_settings (get_request pune None) MERGE plain_filters
    (cac_serve_all dimension_calls fresh_workspace)).1 as [[|resp]|e] eqn:E.
  - vm_compute in E. discriminate.
  - destruct (pinned_version_stable dimension_calls context_calls pinned_settings 1000%Z
      (get_request pune None) plain_filters MERGE resp) as (resp' & Hresp' & _ & Hbody);
      [reflexivity|reflexivity|reflexivity|reflexivity|exact E|].
    exact (ex_intro _ resp (ex_intro _ resp' (conj eq_refl (conj Hresp' Hbody)))).
  - vm_compute in E. discriminate.
Defined.

Lemma unmodified_within_second_witness :
  let w := cac_serve_all dimension_calls fresh_workspace in
  let w' := cac_serve_all context_calls w in
  (∃ cfg, generates w cfg ∧ generates w' cfg) ∨
  ∃ i v, k_versions w !! i = None ∧ k_versions w' !! i = Some v ∧
    nanosecond_erasure (cv_created_at v) = 0%Z.
Proof.
  intros w w'.
  assert (nanosecond_erasure <$> (get_max_created_at w).1 = Ok 0%Z) as Hz by (vm_compute; reflexivity).
  destruct (get_max_created_at w).1 as [m|e] eqn:Hm; [|discriminate].
  injection Hz as Hz. rewrite <- Hz.
  apply (unmodified_within_second (Rok:=list_rows_ok) dimension_calls context_calls open_settings
    (get_request pune (Some 0%Z)) plain_filters MERGE m).
  - repeat constructor; discriminate.
  - repeat constructor; discriminate.
  - exact sample_clock.
  - exact Hm.
  - rewrite Hz. reflexivity.
  - vm_compute. reflexivity.
Defined.

(** A remote cohort of the city, whose function answers with a list of one. *)
#[local] Instance gold_parse : JsonParse := λ _, Some (VArray [str "gold"]).
Definition remote_calls : list CacCall := call <$>
  [dimension "city" 1 (typed "string") Regular;
   CreateFunction (mkCreateFunction "tier_of" "code" ValueCompute V1 "the tier" "add it");
   PublishFunction "tier_of" "publish it";
   CreateDimension (mkDimensionCreate "tier" 1 (typed "string") None "a dimension" "add it"
     (Some "tier_of") (RemoteCohort "city"))].
Definition remote_world : CacWorld :=
  cac_serve_all remote_calls fresh_workspace.

Lemma remote_cohorts_evaluated_witness :
  let dims := dimensions_info (k_dimensions remote_world) in
  ∃ ctx, (evaluate_remote_cohorts (cohort_fuel dims) dims pune remote_world).1 = Ok (Some ctx) ∧
    is_Some (ctx !! "tier").
Proof.
  intros dims.
  pose proof (remote_cohorts_evaluated remote_calls pune) as Hall.
  cbv zeta in Hall. change (cac_serve_all remote_calls fresh_workspace) with remote_world in Hall.
  fold dims in Hall.
  assert (is_ok (evaluate_remote_cohorts (cohort_fuel dims) dims pune remote_world).1 = true) as Hok
    by (vm_compute; reflexivity).
  destruct (evaluate_remote_cohorts (cohort_fuel dims) dims pune remote_world).1 as [[ctx|]|e];
    [|destruct Hall|discriminate].
  destruct Hall as [Hreg Hall]. exists ctx. split; [reflexivity|].
  assert ((∃ info, dims !! "city" = Some info ∧ is_regular (di_dimension_type info) = true) ∧
    ∃ d, k_dimensions remote_world !! "tier" = Some d ∧ dm_dimension_type d = RemoteCohort "city")
    as [(info & Hi & Ht) Hd] by (split; vm_compute; eexists; split; reflexivity).
  exact (Hall "city" "tier" (Hreg "city" info Hi Ht (ex_intro _ _ eq_refl)) Hd).
Defined.

(** ** The copy in Redis, on a run *)

#[local] Instance counted_text : ConfigText := λ config, pretty (length (contexts config)).
#[local] Instance sample_rfc2822 : Rfc2822Text := λ t, pretty t.

Definition fast_start : FastWorld := mkFastWorld fresh_workspace empty_copy.
Definition fast_run : FastWorld := fast_serve_all None all_arrive cac_run fast_start.

Lemma redis_copy_current_witness :
  match get_fast_handler (fw_copy fast_run) with
  | Ok response => ∃ v, latest (fw_world fast_run) v ∧ generates (fw_world fast_run) (cv_config v) ∧
      fr_body response = config_to_string (cv_config v) ∧
      fr_config_version response = Some (pretty (cv_id v))
  | Err _ => k_versions (fw_world fast_run) = ∅
  end.
Proof.
  apply (redis_copy_current sample_clock None cac_run). repeat constructor; discriminate.
Defined.

Definition body_and_version (s : FastWorld) : option (string * option string) :=
  match get_fast_handler (fw_copy s) with
  | Ok response => Some (fr_body response, fr_config_version response)
  | Err _ => None
  end.

Example fast_answers :
  body_and_version fast_start = None ∧ body_and_version fast_run = Some ("2", Some "1008").
Proof. split; vm_compute; reflexivity. Qed.

Definition pune_fast : CacCall := call (put {[ "city" := str "pune" ]} {[ "fee" := VBool true ]}).
Definition acme_fast : CacCall := call (put {[ "clientId" := str "acme" ]} {[ "label" := str "big" ]}).
Definition fast_dimensions : FastWorld := fast_serve_all None all_arrive dimension_calls fast_start.

(** What is lost on the way to Redis is not noticed: the version of one
    configuration is served with the body of another. *)
Example redis_mixed :
  body_and_version (fast_serve_one None (mkRedisSets false true true true) pune_fast fast_dimensions) =
    Some ("0", Some "1005") ∧
  body_and_version (fast_serve_one None all_arrive pune_fast fast_dimensions) =
    Some ("1", Some "1005").
Proof. split; vm_compute; reflexivity. Qed.

(** Two requests at once: the first reads what it will write, the second runs
    to its end, and the first writes. *)
Definition raced : option FastWorld :=
  match served_version pune_fast (fw_world fast_dimensions) with
  | (Ok (Some version), w) =>
      match redis_values version None w with
      | (Ok values, w) =>
          let s := fast_serve_one None all_arrive acme_fast (mkFastWorld w (fw_copy fast_dimensions)) in
          Some (mkFastWorld (fw_world s) (write_redis all_arrive values (fw_copy s)))
      | _ => None
      end
  | _ => None
  end.

(** The copy then lacks the second until the next change. *)
Example redis_race :
  (raced ≫= body_and_version) = Some ("1", Some "1005") ∧
  (raced ≫= λ s, match (generate (fw_world s)).1 with
                 | Ok config => Some (length (contexts config))
                 | Err _ => None
                 end) = Some 2.
Proof. split; vm_compute; reflexivity. Qed.
