(* ===== verification/ResolveClaims.v ===== *)
(** * Theorems on condition matching, local cohorts and resolution *)

From S2P Require Import Prelude Stack Json Types Logic LogicProps Config Resolve Samples.

(** ** Condition matching and local cohorts *)

(** [partial_apply] accepts a condition exactly when the request can be
    extended by further dimensions to one in which the condition applies: the
    partial filter keeps every context that can still match. *)
Theorem partial_apply_iff_completable (c q : Map) :
  partial_apply c q = true ↔ ∃ q', q ⊆ q' ∧ apply c q' = true.
Proof.
  split.
  - intros Hp. exists (complete c q). split; [apply map_union_subseteq_l|].
    by apply apply_complete.
  - intros (q' & Hsub & Ha). eapply partial_apply_antimono; [done|].
    by apply apply_partial_apply.
Qed.

(** The cohort evaluation terminates: when the edges of the dependency
    graphs go to smaller positions, [cohort_fuel] turns of every traversal loop
    are enough to obtain a context, whatever the request. *)
Theorem evaluate_local_cohorts_terminates {JL : JsonLogic} {O : MapOrder} {Ook : MapOrderOk O}
    (dims : gmap string DimensionInfo) (q : Map) :
  graphs_decreasing dims →
  ∀ fuel, cohort_fuel dims ≤ fuel → is_Some (evaluate_local_cohorts fuel dims q).
Proof. intros. by apply evaluate_local_cohorts_is_Some. Qed.

Lemma evaluate_local_cohorts_terminates_witness :
  is_Some (evaluate_local_cohorts (O:=list_order) (H:=jl_equals)
             (cohort_fuel sample_dims) sample_dims sample_query).
Proof.
  apply (evaluate_local_cohorts_terminates (JL:=jl_equals) sample_dims sample_query);
    [exact sample_graphs_decreasing|lia].
Defined.

(** The dimensions of the evaluated context: every one is a known
    dimension; a regular dimension keeps exactly the value of the request; any
    other dimension that is not a local cohort has the value of the request;
    every local cohort is bound. *)
Theorem evaluate_local_cohorts_bindings {JL : JsonLogic} {O : MapOrder} {Ook : MapOrderOk O}
    fuel (dims : gmap string DimensionInfo) (q r : Map) :
  dims ≠ ∅ → evaluate_local_cohorts fuel dims q = Some r →
  (∀ d v, r !! d = Some v → is_Some (dims !! d)) ∧
  (∀ d info, dims !! d = Some info → is_regular (di_dimension_type info) = true →
     r !! d = q !! d) ∧
  (∀ d v, r !! d = Some v → is_local dims d = false → q !! d = Some v) ∧
  (∀ d, is_local dims d = true → is_Some (r !! d)).
Proof.
  intros Hne Hev.
  destruct (evaluate_local_cohorts_inv dims q fuel r Hne Hev) as (ctx & [_ Hjust _] & Hr & Hreg).
  split_and!.
  - intros d v. rewrite Hr. destruct (ctx !! d) as [v'|] eqn:Hc.
    + intros _. destruct (Hjust d v' Hc) as (info & Hd & _). by eexists.
    + unfold is_local. destruct (dims !! d); [by eexists|done].
  - intros d info Hd Hi. rewrite Hr.
    assert (is_local dims d = false) as Hl.
    { unfold is_local. rewrite Hd. by destruct (di_dimension_type info). }
    destruct (ctx !! d) as [v|] eqn:Hc.
    + symmetry. by eapply justified_nonlocal; [apply Hjust|].
    + rewrite Hl. destruct (q !! d) eqn:Hq; [|done].
      destruct (Hreg d info Hd Hi) as [v' Hv']; [by eexists|congruence].
  - intros d v Hd Hl. rewrite Hr in Hd. destruct (ctx !! d) as [v'|] eqn:Hc; [|by rewrite Hl in Hd].
    simplify_eq. by eapply justified_nonlocal; [apply Hjust|].
  - intros d Hl. rewrite Hr, Hl. destruct (ctx !! d); by eexists.
Qed.

Lemma evaluate_local_cohorts_bindings_witness :
  sample_evaluated !! "clientId" = sample_query !! "clientId".
Proof.
  apply (evaluate_local_cohorts_bindings (JL:=jl_equals) (O:=list_order)
           (cohort_fuel sample_dims) sample_dims sample_query sample_evaluated
           sample_dims_nonempty sample_evaluates) with (info:=client_info); reflexivity.
Defined.

(** The value of a local cohort: a cohort the request does not bind, based
    on one dimension [p] that is not itself a local cohort, is [p]'s value run
    through the cohort definitions, or [otherwise] when the evaluated context
    does not bind [p]. The order in which the hash maps iterate does not show. *)
Theorem evaluate_local_cohorts_computes {JL : JsonLogic} {O : MapOrder} {Ook : MapOrderOk O}
    fuel (dims : gmap string DimensionInfo) (q r : Map) p d info :
  evaluate_local_cohorts fuel dims q = Some r →
  dims !! d = Some info → is_local_cohort (di_dimension_type info) = true →
  q !! d = None →
  d ∈ own_children dims p → is_local dims p = false →
  (∀ p', d ∈ own_children dims p' → p' = p) →
  r !! d = Some (match r !! p with
                 | Some pv => VString (evaluate_local_cohort_dimension p pv (di_schema info))
                 | None => VString "otherwise"
                 end).
Proof.
  intros Hev Hd Hl Hq Hdp Hp Huniq.
  assert (dims ≠ ∅) as Hne by (intros ->; by rewrite lookup_empty in Hd).
  destruct (evaluate_local_cohorts_inv dims q fuel r Hne Hev) as (ctx & [_ Hjust Hclosed] & Hr & _).
  assert (is_local dims d = true) as Hld by (unfold is_local; by rewrite Hd).
  rewrite (Hr p), (Hr d), Hp, Hld.
  assert (∀ v, ctx !! d = Some v → ∃ pv, ctx !! p = Some pv ∧ v = cohort_of p pv info) as Hcomp.
  { intros v Hv. destruct (Hjust d v Hv) as (info' & Hd' & [|(_ & p' & pv & Hc & [pv' Hpv] & Hcp & ->)]);
      [congruence|]. simplify_eq. apply Huniq in Hc as ->. exists pv.
    apply (computed_nonlocal dims) in Hcp; [|done].
    assert (q !! p = Some pv') by (eapply justified_nonlocal; [by apply Hjust|done]). by simplify_eq. }
  destruct (ctx !! p) as [pv|] eqn:Hcp.
  - destruct (Hclosed p d) as [[[v Hv]|[?|[? _]]]|[? []%elem_of_nil]]; [by eexists|done| |congruence..].
    rewrite Hv. destruct (Hcomp v Hv) as (? & ? & ->). by simplify_eq.
  - destruct (ctx !! d) as [v|] eqn:Hv; [|done]. destruct (Hcomp v eq_refl) as (? & ? & _). done.
Qed.

Lemma evaluate_local_cohorts_computes_witness :
  sample_evaluated !! "tier" = Some (VString "gold").
Proof.
  rewrite (evaluate_local_cohorts_computes (JL:=jl_equals) (O:=list_order)
    (cohort_fuel sample_dims) sample_dims sample_query sample_evaluated
    "clientId" "tier" tier_info sample_evaluates).
  - by vm_compute.
  - reflexivity.
  - reflexivity.
  - reflexivity.
  - by apply sample_own_children.
  - reflexivity.
  - intros p' Hp'. by apply sample_own_children in Hp' as [-> _].
Defined.

(** The cohort chosen for a value is [otherwise] or one of the names of the
    schema's [enum], and then its definition holds of the value and none of the
    definitions of the earlier names does. *)
Theorem evaluate_local_cohort_dimension_first_match {JL : JsonLogic} based_on v schema :
  evaluate_local_cohort_dimension based_on v schema = "otherwise" ∨
  ∃ definitions enum before after,
    (schema !! "definitions") ≫= as_object = Some definitions ∧
    (schema !! "enum") ≫= as_array = Some enum ∧
    cohort_enums enum =
      before ++ evaluate_local_cohort_dimension based_on v schema :: after ∧
    (∃ rule, definitions !! evaluate_local_cohort_dimension based_on v schema = Some rule ∧
       jsonlogic_apply rule (VObject {[ based_on := v ]}) = Ok (VBool true)) ∧
    Forall (λ name, ∃ rule, definitions !! name = Some rule ∧
       jsonlogic_apply rule (VObject {[ based_on := v ]}) ≠ Ok (VBool true)) before.
Proof.
  unfold evaluate_local_cohort_dimension, _evaluate_local_cohort_dimension.
  destruct ((schema !! "definitions") ≫= as_object) as [defs|]; [|by left].
  destruct ((schema !! "enum") ≫= as_array) as [enum|]; [|by left]. cbn [mbind option_bind].
  destruct (first_matching_cohort defs _ (cohort_enums enum)) as [name|] eqn:Hf; [|by left].
  right. exists defs, enum. simpl. revert Hf. generalize (cohort_enums enum) as names.
  induction names as [|n names IH]; simpl; [done|]. intros Hf.
  apply bind_Some in Hf as (rule & Hrule & Hf).
  destruct (jsonlogic_apply rule _) as [[| [|] | | | |]|] eqn:Hj;
    try (destruct (IH Hf) as (before & after & _ & _ & -> & Hn & Hb);
         exists (n :: before), after; split_and!; try done; constructor; [|done];
         exists rule; by rewrite Hj).
  simplify_eq. exists [], names. split_and!; try done. eauto.
Qed.

(** ** The resolution of a configuration *)

(** C4. Resolution is the cascade. When every edge of the dependency graphs leads
    to a dimension of smaller position and the fuel is at least the unfolded
    size of the graphs ([cohort_fuel]), [eval_config] returns, and without an
    error. Its result binds exactly the keys of the default configuration that
    have one of the given prefixes, all of them when no prefix is given. The
    values that the contexts whose condition holds assign to a key are overlaid
    on one another by the merge strategy, in the order of the contexts; the
    value of the key is its default overlaid once with the outcome, and its
    default when no such context assigns it. *)
Theorem eval_config_cascade {JL : JsonLogic} {O : MapOrder} {Ook : MapOrderOk O}
    (dc : Map) (ctxs : list Context) (ovs : gmap string Overrides)
    (dims : gmap string DimensionInfo) (q : Map) (strategy : MergeStrategy)
    (prefixes : option (list string)) :
  graphs_decreasing dims → ∀ fuel, cohort_fuel dims ≤ fuel →
  ∃ mq r, evaluate_local_cohorts fuel dims q = Some mq ∧
    eval_config fuel dc ctxs ovs dims q strategy prefixes = Some (Ok r) ∧
    ∀ k, r !! k =
      if asked_for prefixes k
      then d ← dc !! k; Some (cascade strategy d (assigned mq ovs k ctxs))
      else None.
Proof.
  intros Hdec fuel Hf. destruct (evaluate_local_cohorts_is_Some dims Hdec fuel q Hf) as [mq Hmq].
  destruct (eval_config_lookup fuel dc ctxs ovs dims q strategy prefixes mq Hmq) as (r & Hr & Hk).
  by exists mq, r.
Qed.

Lemma eval_config_cascade_witness :
  (∃ r, eval_config (O:=list_order) (H:=jl_equals) (cohort_fuel sample_dims) sample_defaults
          sample_contexts sample_overrides sample_dims sample_query MERGE None = Some (Ok r) ∧
        r !! "limits" = Some sample_merged_limits) ∧
  ∃ r, eval_config (O:=list_order) (H:=jl_equals) (cohort_fuel sample_dims) sample_defaults
         sample_contexts sample_overrides sample_dims sample_query MERGE (Some ["other"]) = Some (Ok r) ∧
       r !! "limits" = None.
Proof.
  split.
  - destruct (eval_config_cascade (JL:=jl_equals) (O:=list_order) sample_defaults sample_contexts
      sample_overrides sample_dims sample_query MERGE None sample_graphs_decreasing
      (cohort_fuel sample_dims) (Nat.le_refl _)) as (mq & r & Hmq & Hr & Hk).
    exists r. split; [exact Hr|]. rewrite Hk.
    rewrite sample_evaluates in Hmq. injection Hmq as <-. by vm_compute.
  - destruct (eval_config_cascade (JL:=jl_equals) (O:=list_order) sample_defaults sample_contexts
      sample_overrides sample_dims sample_query MERGE (Some ["other"]) sample_graphs_decreasing
      (cohort_fuel sample_dims) (Nat.le_refl _)) as (mq & r & Hmq & Hr & Hk).
    exists r. split; [exact Hr|]. rewrite Hk. by vm_compute.
Defined.

(** Under [REPLACE] the last context wins: the value of a key is the one
    assigned by a context whose condition holds and after which no context with
    a condition that holds assigns the key, and the default when there is none. *)
Theorem eval_config_replace_last_wins {JL : JsonLogic} {O : MapOrder}
    fuel (dc : Map) (ctxs : list Context) (ovs : gmap string Overrides)
    (dims : gmap string DimensionInfo) (q mq r : Map) k v :
  evaluate_local_cohorts fuel dims q = Some mq →
  eval_config fuel dc ctxs ovs dims q REPLACE None = Some (Ok r) →
  r !! k = Some v →
  (dc !! k = Some v ∧ ∀ c, c ∈ ctxs → assigns mq ovs k c = None) ∨
  ∃ before c after ov,
    ctxs = before ++ c :: after ∧ apply (c_condition c) mq = true ∧
    ovs !! c_override_with_keys c = Some ov ∧ ov !! k = Some v ∧
    ∀ c', c' ∈ after → assigns mq ovs k c' = None.
Proof.
  intros Hmq Hr Hk.
  destruct (eval_config_spec fuel dc ctxs ovs dims q REPLACE None mq Hmq) as (r' & Hr' & Hk' & _).
  rewrite Hr in Hr'. simplify_eq. rewrite Hk' in Hk. simpl in Hk.
  destruct (dc !! k) as [d|]; simplify_eq/=. rewrite cascade_replace.
  destruct (last_assigned mq ovs k ctxs) as [[-> Hnone]|(before & c & after & v & -> & Hc & Hl & Hafter)].
  - left. done.
  - right. rewrite Hl. simpl. apply assigns_Some in Hc as (Ha & ov & Hov & Hv).
    exists before, c, after, ov. done.
Qed.

Lemma eval_config_replace_last_wins_witness :
  (sample_defaults !! "limits" = Some sample_gold_limits ∧
   ∀ c, c ∈ sample_contexts → assigns sample_evaluated sample_overrides "limits" c = None) ∨
  ∃ before c after ov,
    sample_contexts = before ++ c :: after ∧ apply (c_condition c) sample_evaluated = true ∧
    sample_overrides !! c_override_with_keys c = Some ov ∧
    ov !! "limits" = Some sample_gold_limits ∧
    ∀ c', c' ∈ after → assigns sample_evaluated sample_overrides "limits" c' = None.
Proof.
  apply (eval_config_replace_last_wins (JL:=jl_equals) (O:=list_order)
    (cohort_fuel sample_dims) sample_defaults sample_contexts sample_overrides sample_dims
    sample_query sample_evaluated sample_replaced);
    [exact sample_evaluates|exact sample_replace_resolves|by vm_compute].
Defined.

(** Filtering by prefixes commutes with resolution: resolving the
    configuration cut to the prefixes gives the keys with one of the prefixes
    of the full resolution, although contexts and overrides were dropped before
    it. *)
Theorem eval_config_prefix {JL : JsonLogic} {O : MapOrder}
    fuel (dc : Map) (ctxs : list Context) (ovs : gmap string Overrides)
    (dims : gmap string DimensionInfo) (q : Map) (strategy : MergeStrategy)
    (prefixes : list string) :
  prefixes ≠ [] →
  eval_config fuel dc ctxs ovs dims q strategy (Some prefixes) =
    res ← eval_config fuel dc ctxs ovs dims q strategy None;
    Some (r ← res; Ok (filter_config_keys_by_prefix r (list_to_set prefixes))).
Proof.
  intros Hne. destruct (evaluate_local_cohorts fuel dims q) as [mq|] eqn:Hmq.
  - destruct (eval_config_spec fuel dc ctxs ovs dims q strategy None mq Hmq) as (r & -> & Hr & _).
    destruct (eval_config_spec fuel dc ctxs ovs dims q strategy (Some prefixes) mq Hmq)
      as (r' & -> & Hr' & _).
    simpl in *. rewrite bool_decide_false in Hr' by done.
    do 2 f_equal. apply map_eq. intros k.
    rewrite filter_config_keys_lookup, Hr', Hr.
    cbn [default_configs Config.filter_by_prefix]. unfold Config.filter_default_by_prefix.
    rewrite filter_config_keys_lookup. cbn [default_configs].
    destruct (has_prefix (list_to_set prefixes) k) eqn:Hk; [|done].
    destruct (dc !! k) as [d|]; [|done]. simpl. do 2 f_equal.
    apply (assigned_filter_by_prefix mq (mkConfig ctxs ovs dc dims) (list_to_set prefixes) k Hk).
  - unfold eval_config, apply_filter_prefixes. rewrite bool_decide_false by done. simpl.
    by rewrite Hmq.
Qed.

Lemma eval_config_prefix_witness :
  eval_config (O:=list_order) (H:=jl_equals) (cohort_fuel sample_dims) sample_defaults
    sample_contexts sample_overrides sample_dims sample_query MERGE (Some ["lim"]) =
  Some (Ok {[ "limits" := sample_merged_limits ]}).
Proof.
  rewrite (eval_config_prefix (JL:=jl_equals) (O:=list_order)) by done. by vm_compute.
Defined.

(** The reasoning explains the resolution: the entry [metadata] lists, in
    the order they were applied, exactly the contexts whose condition holds and
    whose override exists; every other key is as in [eval_config]. *)
Theorem eval_config_with_reasoning_metadata {JL : JsonLogic} {O : MapOrder}
    fuel (dc : Map) (ctxs : list Context) (ovs : gmap string Overrides)
    (dims : gmap string DimensionInfo) (q : Map) (strategy : MergeStrategy)
    (prefixes : option (list string)) :
  let config := apply_filter_prefixes (mkConfig ctxs ovs dc dims) prefixes in
  eval_config_with_reasoning fuel dc ctxs ovs dims q strategy prefixes =
    mq ← evaluate_local_cohorts fuel dims q;
    res ← eval_config fuel dc ctxs ovs dims q strategy prefixes;
    Some (r ← res;
      Ok (<["metadata" := VArray (reasoning_entry <$>
              List.filter (selects mq (overrides config)) (contexts config))]> r)).
Proof.
  intros config. destruct (evaluate_local_cohorts fuel dims q) as [mq|] eqn:Hmq.
  - destruct (eval_config_spec fuel dc ctxs ovs dims q strategy prefixes mq Hmq)
      as (r & -> & _ & ->). done.
  - unfold eval_config_with_reasoning. fold config.
    assert (dimensions config = dims) as ->; [|by rewrite Hmq].
    unfold config, apply_filter_prefixes. destruct prefixes; [by case_bool_decide|done].
Qed.

(** Partial filtering is sound: contexts and overrides dropped by
    [filter_by_dimensions] for a request do not change the resolution of any
    request whose evaluated dimensions extend those of the first. *)
Theorem filter_by_dimensions_sound {JL : JsonLogic} {O : MapOrder}
    fuel (config config' : Config) (q mq q' mq' : Map) (strategy : MergeStrategy) :
  Config.filter_by_dimensions fuel config q = Some config' →
  evaluate_local_cohorts fuel (dimensions config) q = Some mq →
  evaluate_local_cohorts fuel (dimensions config) q' = Some mq' →
  mq ⊆ mq' →
  eval_config fuel (default_configs config') (contexts config') (overrides config')
    (dimensions config') q' strategy None =
  eval_config fuel (default_configs config) (contexts config) (overrides config)
    (dimensions config) q' strategy None.
Proof.
  unfold Config.filter_by_dimensions. intros Hc Hmq Hmq' Hsub. rewrite Hmq in Hc.
  simplify_eq/=.
  match goal with |- eval_config _ ?dc ?cs ?os ?dims _ _ _ = _ =>
    destruct (eval_config_spec fuel dc cs os dims q' strategy None mq' Hmq') as (r1 & -> & H1 & _) end.
  match goal with |- _ = eval_config _ ?dc ?cs ?os ?dims _ _ _ =>
    destruct (eval_config_spec fuel dc cs os dims q' strategy None mq' Hmq') as (r2 & -> & H2 & _) end.
  do 2 f_equal. apply map_eq. intros k. rewrite H1, H2. simpl.
  destruct (default_configs config !! k); [|done]. simpl. do 2 f_equal.
  apply assigned_filter_by_eval; [done|]. intros c Hin.
  rewrite filter_by_dimensions_override_lookup, decide_True; [done|].
  apply list_elem_of_fmap. eauto.
Qed.

Lemma filter_by_dimensions_sound_witness :
  ∃ config', Config.filter_by_dimensions (O:=list_order) (H:=jl_equals) (cohort_fuel sample_dims)
    sample_config sample_query = Some config' ∧ length (contexts config') = 2 ∧
  eval_config (O:=list_order) (H:=jl_equals) (cohort_fuel sample_dims)
    (default_configs config') (contexts config') (overrides config')
    (dimensions config') sample_query MERGE None =
  eval_config (O:=list_order) (H:=jl_equals) (cohort_fuel sample_dims) (default_configs sample_config)
    (contexts sample_config) (overrides sample_config)
    (dimensions sample_config) sample_query MERGE None.
Proof.
  eexists. split; [reflexivity|]. split; [by vm_compute|].
  eapply (filter_by_dimensions_sound (JL:=jl_equals) (O:=list_order) _ sample_config _ sample_query
    sample_evaluated sample_query sample_evaluated);
    [reflexivity|exact sample_evaluates|exact sample_evaluates|done].
Defined.

(** The strategies differ only on objects: when no override holds an
    object, [MERGE] and [REPLACE] resolve every request alike. *)
Theorem eval_config_strategies_agree {JL : JsonLogic} {O : MapOrder}
    fuel (dc : Map) (ctxs : list Context) (ovs : gmap string Overrides)
    (dims : gmap string DimensionInfo) (q : Map) :
  (∀ id ov k v, ovs !! id = Some ov → ov !! k = Some v → is_object v = false) →
  eval_config fuel dc ctxs ovs dims q MERGE None = eval_config fuel dc ctxs ovs dims q REPLACE None.
Proof.
  intros Hflat. destruct (evaluate_local_cohorts fuel dims q) as [mq|] eqn:Hmq.
  - destruct (eval_config_spec fuel dc ctxs ovs dims q MERGE None mq Hmq) as (r & -> & Hr & _).
    destruct (eval_config_spec fuel dc ctxs ovs dims q REPLACE None mq Hmq) as (r' & -> & Hr' & _).
    do 2 f_equal. apply map_eq. intros k. rewrite Hr, Hr'. simpl.
    destruct (dc !! k) as [d|]; [|done]. simpl. f_equal. apply cascade_flat.
    apply Forall_forall. intros v (c & _ & Hc)%list_elem_of_omap.
    apply assigns_Some in Hc as (_ & ov & Hov & Hv). eauto.
  - unfold eval_config. simpl. by rewrite Hmq.
Qed.

Lemma eval_config_strategies_agree_witness :
  eval_config (O:=list_order) (H:=jl_equals) (cohort_fuel sample_dims) sample_defaults
    sample_contexts {[ "o1" := {[ "fee" := VBool true ]} ]} sample_dims sample_query MERGE None =
  eval_config (O:=list_order) (H:=jl_equals) (cohort_fuel sample_dims) sample_defaults
    sample_contexts {[ "o1" := {[ "fee" := VBool true ]} ]} sample_dims sample_query REPLACE None.
Proof.
  apply (eval_config_strategies_agree (JL:=jl_equals) (O:=list_order)).
  intros id ov k v [<- <-]%lookup_singleton_Some [<- <-]%lookup_singleton_Some. reflexivity.
Defined.
