(* ===== verification/BucketingClaims.v ===== *)
(** * Theorems on bucket allocation and variant selection *)

From S2P Require Import Prelude Json Types Text Effects Logic Config ExpModels Bucketing BucketAlloc BucketingProps Samples.

(** Reallocation is exact. When each of an experiment's [n] variants holds
    [c] buckets of the group, moving to a traffic of [t] succeeds exactly when
    the empty buckets cover the growth; it then leaves [t] buckets to every
    variant, the buckets of other experiments where they were, and the array
    as long as it was. *)
Theorem update_bucket_allocation_exact (e : Experiment) (bs : Buckets) (c : nat) (t : Z) :
  NoDup (variant_ids e) → e_variants e ≠ [] → balanced e c bs → (0 ≤ t)%Z →
  let n := length (e_variants e) in
  (is_ok (update_bucket_allocation e bs t) = true ↔
   n * Z.to_nat t ≤ n * c + countb is_unassigned bs) ∧
  ∀ bs', update_bucket_allocation e bs t = Ok bs' →
    length bs' = length bs ∧ balanced e (Z.to_nat t) bs' ∧
    ∀ i b, bs !! i = Some (Some b) → b_variant_id b ∉ variant_ids e → bs' !! i = Some (Some b).
Proof.
  intros Hnd Hne Hbal Ht n.
  destruct (update_bucket_allocation_balanced e bs c t Hnd Hne Hbal Ht) as [Hok Herr].
  destruct (decide (n * Z.to_nat t ≤ n * c + countb is_unassigned bs)) as [Hle|Hgt].
  - destruct (Hok Hle) as (bs' & Hbs' & [Hlen Hkeep] & Hbal').
    rewrite Hbs'. split; [by split|]. intros bs'' [= <-]. auto.
  - destruct Herr as [msg Hmsg]; [unfold n in *; lia|]. rewrite Hmsg.
    split; [split; [done|lia]|done].
Qed.

Lemma update_bucket_allocation_exact_witness :
  is_ok (update_bucket_allocation sample_experiment (sample_buckets 50) 10) = true.
Proof.
  apply (update_bucket_allocation_exact sample_experiment (sample_buckets 50) 50 10);
    [exact sample_variant_ids_NoDup|done|exact sample_balanced|lia|].
  vm_compute. lia.
Defined.

(** A fresh system-generated group treats its variants alike: with buckets
    allocated at traffic [t] and the group's traffic at [n * t], a request
    whose bucket index is [h] obtains the variant number [h / t], and none when
    [n * t ≤ h]. Every variant is thus reached by exactly [t] of the hundred
    indices. *)
Theorem fresh_group_selection (e : Experiment) (g : ExperimentGroup) (r : ExperimentResponse)
    (t : Z) (context : Map) (identifier : string) :
  e_variants e ≠ [] → (0 < t)%Z →
  (t * Z.of_nat (length (e_variants e)) ≤ 100)%Z →
  g_group_type g = SystemGenerated →
  update_bucket_allocation e Buckets.default t = Ok (g_buckets g) →
  g_traffic_percentage g = (Z.of_nat (length (e_variants e)) * t)%Z →
  r_experiment r = experiment_set_variants (r_experiment r) (e_variants e) →
  e_traffic_percentage (r_experiment r) = t →
  apply (g_context g) context = true → apply (e_context (r_experiment r)) context = true →
  identifier ≠ "" →
  get_applicable_variants_from_group_response {[ pretty (e_id e) := r ]} context
    (get_applicable_buckets_from_group [g] context identifier) =
  option_list (v_id <$> e_variants e !! (Z.to_nat (bg_index identifier g) / Z.to_nat t)).
Proof.
  intros Hne Ht Hn Hsys Hbs Htr Hvs Het Hap Hap' Hid.
  pose proof (bg_index_range identifier g) as Hh. set (h := bg_index identifier g) in *.
  rewrite update_bucket_allocation_fresh in Hbs by (try done; lia). injection Hbs as Hbs.
  assert (e_variants (r_experiment r) = e_variants e) as Hvr by (rewrite Hvs; done).
  set (k := Z.to_nat t) in *. set (n := length (e_variants e)) in *.
  rewrite response_selected by done. cbn [omap list_omap].
  destruct (selected_variant {[pretty (e_id e) := r]} context identifier g) as [vid|] eqn:Hsel.
  - apply selected_variant_Some in Hsel
      as (b & exp & [_ _ Hb _] & Hexp & _ & _ & ->). fold h in Hb.
    change (bg_buckets g) with (g_buckets g) in Hb. rewrite <-Hbs in Hb.
    apply lookup_app_Some in Hb as [Hb|[_ Hb]]; [|apply lookup_replicate in Hb as [? _]; done].
    rewrite filled_lookup in Hb by lia.
    apply fmap_Some in Hb as (v & Hv & Hb). unfold fresh_bucket in Hb.
    injection Hb as ->. by rewrite Hv.
  - destruct (e_variants e !! (Z.to_nat h / k)) as [v|] eqn:Hv; [exfalso|done].
    assert (filled e k (e_variants e) !! Z.to_nat h = Some (fresh_bucket e v)) as Hf
      by (rewrite filled_lookup, Hv by lia; done).
    assert (Z.to_nat h < k * n) as Hlt
      by (unfold n; rewrite <-(length_filled e); by eapply lookup_lt_Some).
    apply (eq_None_not_Some (selected_variant {[pretty (e_id e) := r]} context identifier g));
      [done|]. exists (v_id v). apply selected_variant_Some.
    exists (mkBucket (v_id v) (pretty (e_id e))), r. split_and!; try done.
    + split; [done| | |by left].
      * change (bg_traffic_percentage g) with (g_traffic_percentage g). rewrite Htr. lia.
      * change (bg_buckets g) with (g_buckets g). rewrite <-Hbs. by apply lookup_app_l_Some.
    + simpl. by rewrite lookup_singleton_eq.
    + unfold toss_of. change (bg_group_type g) with (g_group_type g). rewrite Hsys, bool_decide_true by done.
      change (h ≤ e_traffic_percentage (r_experiment r) *
                  Z.of_nat (length (e_variants (r_experiment r))))%Z.
      rewrite Hvr, Het. fold n. lia.
Qed.

Lemma fresh_group_selection_witness :
  get_applicable_variants_from_group_response {[ pretty 7%Z := sample_response 30 ]} ∅
    (get_applicable_buckets_from_group
      [sample_group SystemGenerated 60 (sample_buckets 30)] ∅ "user-3") = ["7-test"].
Proof.
  etrans; [apply (fresh_group_selection sample_experiment
    (sample_group SystemGenerated 60 (sample_buckets 30)) (sample_response 30) 30)|by vm_compute];
    first [reflexivity|done|lia|vm_compute; congruence].
Defined.

(** Ramping down starves variants. An experiment of two variants in a
    system-generated group, started at 50% each and ramped down to 10%: the
    reallocation succeeds and leaves 10 buckets to each, but those of the
    second variant start at index 50, beyond the new traffic of the group, so
    that no request at all obtains it any more. *)
Theorem ramp_down_starves :
  ∃ bs, update_bucket_allocation sample_experiment (sample_buckets 50) 10 = Ok bs ∧
    balanced sample_experiment 10 bs ∧
    ∀ identifier,
      "7-test" ∉ get_applicable_variants_from_group_response {[ "7" := sample_response 10 ]} ∅
        (get_applicable_buckets_from_group [sample_group SystemGenerated 20 bs] ∅ identifier).
Proof.
  eexists. split; [by vm_compute|]. split.
  { intros w Hw. unfold variant_ids in Hw. simpl in Hw.
    apply elem_of_cons in Hw as [->|Hw]; [by vm_compute|].
    apply list_elem_of_singleton in Hw as ->. by vm_compute. }
  intros identifier. apply unreachable_variant. by vm_compute.
Qed.

(** Partial groups starve variants. In a user-created group at 40% traffic,
    an experiment of two variants at 50% each fills all hundred buckets,
    variant after variant, but the unscaled index of an admitted request is at
    most 40: no request obtains the second variant. *)
Theorem user_created_group_starves :
  ∃ bs, update_bucket_allocation sample_experiment Buckets.default 50 = Ok bs ∧
    balanced sample_experiment 50 bs ∧
    ∀ identifier,
      "7-test" ∉ get_applicable_variants_from_group_response {[ "7" := sample_response 50 ]} ∅
        (get_applicable_buckets_from_group [sample_group UserCreated 40 bs] ∅ identifier).
Proof.
  exists (sample_buckets 50). split; [by vm_compute|]. split; [exact sample_balanced|].
  intros identifier. apply unreachable_variant. by vm_compute.
Qed.

(** The server and the SDK disagree: for the same targeting key and the
    same group, [experimentation_client] (which the server uses) hashes the
    integer id and [superposition_core] (which the SDKs use) its decimal
    string, and the buckets differ. *)
Theorem bucket_index_differs :
  ∃ identifier (g : ExperimentGroup),
    bg_index identifier g ≠ bg_index identifier (FfiExperimentGroup_from g).
Proof.
  exists "user-1", (sample_group SystemGenerated 60 (sample_buckets 30)). by vm_compute.
Qed.

(** A selected variant is justified: its group's context holds and admits
    the request, the bucket at the request's index in that group names it, and
    the experiment it belongs to is known with a context that holds too. *)
Theorem selected_variant_justified {G E} {BG : BucketGroup G} {BE : BucketExperiment E}
    (satisfied : list E) (groups : list G) (context : Map) (identifier vid : string) :
  vid ∈ variants_of_context satisfied groups context identifier →
  identifier ≠ "" ∧
  ∃ g b exp, g ∈ groups ∧ exp ∈ satisfied ∧
    apply (bg_context g) context = true ∧ apply (be_context exp) context = true ∧
    (bg_index identifier g ≤ bg_traffic_percentage g)%Z ∧
    bg_buckets g !! Z.to_nat (bg_index identifier g) = Some (Some b) ∧
    b_variant_id b = vid ∧ b_experiment_id b = be_id exp.
Proof.
  unfold variants_of_context. intros Hin.
  destruct (decide (identifier = "")) as [->|Hne].
  { unfold get_applicable_buckets_from_group in Hin. rewrite bool_decide_true in Hin by done.
    by apply elem_of_nil in Hin. }
  split; [done|]. rewrite response_selected in Hin by done.
  apply list_elem_of_omap in Hin as (g & Hg & Hsel).
  apply selected_variant_Some in Hsel
    as (b & exp & [Hap Hle Hb _] & Hexp & Hap' & _ & ->).
  apply collect_map_Some, list_elem_of_fmap in Hexp as (exp' & Heq & Hexp). simplify_eq.
  exists g, b, exp'. done.
Qed.

Lemma selected_variant_justified_witness :
  ∃ g b exp, g ∈ [sample_group SystemGenerated 60 (sample_buckets 30)] ∧
    exp ∈ [sample_response 30] ∧ apply (bg_context g) ∅ = true ∧ apply (be_context exp) ∅ = true ∧
    (bg_index "user-3" g ≤ bg_traffic_percentage g)%Z ∧
    bg_buckets g !! Z.to_nat (bg_index "user-3" g) = Some (Some b) ∧
    b_variant_id b = "7-test" ∧ b_experiment_id b = be_id exp.
Proof.
  apply (selected_variant_justified [sample_response 30]
    [sample_group SystemGenerated 60 (sample_buckets 30)] ∅ "user-3" "7-test").
  apply (list_elem_of_here "7-test" []).
Defined.

(** Matching experiments partially or fully makes no difference: with
    distinct experiment ids, the variants selected from the experiments that
    match partially (the SDK) are those selected from the ones that match
    fully (the client), with or without a filter on prefixes. *)
Theorem partial_and_full_matching_select_alike {G E} {BG : BucketGroup G}
    {BE : BucketExperiment E} (experiments : list E) (groups : list G) (context : Map)
    (identifier : string) (prefix : option (list string)) :
  NoDup (be_id <$> experiments) →
  variants_of_context (satisfied_experiments partial_apply experiments context prefix) groups
    context identifier =
  variants_of_context (satisfied_experiments apply experiments context prefix) groups
    context identifier.
Proof.
  intros Hnd. unfold variants_of_context.
  destruct (decide (identifier = "")) as [->|Hne].
  { unfold get_applicable_buckets_from_group. by rewrite !bool_decide_true. }
  rewrite !response_selected by done. apply omap_pointwise. intros g. apply option_eq. intros vid.
  rewrite !selected_variant_Some. setoid_rewrite (collect_satisfied _ _ _ _ _ Hnd).
  split; intros (b & exp & H1 & H6 & H7 & H8 & H9);
    exists b, exp; split_and!; try done;
    destruct H6 as (e & He & Hid & Hm & Hp); exists e; split_and!; try done.
  - by rewrite <-(prefix_step_context _ _ _ Hp).
  - by apply apply_partial_apply.
Qed.

Lemma partial_and_full_matching_select_alike_witness :
  variants_of_context (satisfied_experiments partial_apply [sample_response 30] ∅ None)
    [sample_group SystemGenerated 60 (sample_buckets 30)] ∅ "user-3" =
  variants_of_context (satisfied_experiments apply [sample_response 30] ∅ None)
    [sample_group SystemGenerated 60 (sample_buckets 30)] ∅ "user-3".
Proof.
  apply (partial_and_full_matching_select_alike [sample_response 30]).
  apply NoDup_singleton.
Defined.
