(* ===== verification/TextClaims.v ===== *)
(** * Theorems on text conversions *)

From S2P Require Import Prelude Json Types Text Effects Logic Config CacClient ExpChecks CacStore CacConfig CacServing QueryStrings QueryStringProps Tenants Http Internal.

(** Identifiers survive JSON: [i64_vec_formatter] reads back exactly the
    list of 64-bit integers it wrote, through decimal strings with sign and
    overflow checks. *)
Theorem i64_vec_formatter_round_trip (ids : list Z) :
  Forall i64 ids →
  i64_vec_formatter.deserialize (i64_vec_formatter.serialize ids) = Ok ids.
Proof.
  intros Hids. unfold i64_vec_formatter.deserialize, i64_vec_formatter.serialize. simpl.
  assert (try_map (λ v, ok_or (as_str v) "invalid type: expected a string")
            (VString ∘ pretty <$> ids) = Ok (pretty <$> ids)) as ->.
  { apply try_map_ok. clear. induction ids; constructor; done. }
  simpl. apply try_map_ok. induction Hids as [|z ids Hz _ IH]; constructor; [|exact IH].
  unfold parse_i64. rewrite parse_int_pretty; [done|lia|unfold i64 in Hz; lia].
Qed.

Lemma i64_vec_formatter_round_trip_witness :
  i64_vec_formatter.deserialize
    (i64_vec_formatter.serialize [- 9223372036854775808; 0; 9223372036854775807]%Z) =
  Ok [- 9223372036854775808; 0; 9223372036854775807]%Z.
Proof.
  apply (i64_vec_formatter_round_trip [- 9223372036854775808; 0; 9223372036854775807]%Z).
  repeat constructor; vm_compute; congruence.
Defined.

(** A description built from change reasons: for ASCII reasons, at least
    one of them and none empty, [try_from_change_reasons] succeeds; the result
    is the joined text when it fits the limit and otherwise its first 1021
    characters followed by an ellipsis, 1024 characters in all. *)
Theorem description_from_ascii_reasons (reasons : list string) :
  reasons ≠ [] → Forall ChangeReason.valid reasons →
  all_ascii (Description.join ", " reasons) = true →
  Description.try_from_change_reasons reasons =
    Ok (let d := Description.join ", " reasons in
        if Description.DESCRIPTION_CHAR_LIMIT <? String.length d
        then String.substring 0 1021 d +:+ "..." else d).
Proof.
  intros Hne Hv Ha. unfold Description.try_from_change_reasons.
  destruct reasons as [|r rs]; [done|]. inversion Hv as [|? ? [Hr _] _]; subst.
  pose proof (Description.join_nonempty ", " r rs Hr) as Hj.
  set (d := Description.join ", " (r :: rs)) in *.
  rewrite (proj2 (is_empty_false d) Hj). unfold Description.try_from at 1.
  rewrite (proj2 (is_empty_false d) Hj).
  destruct (Nat.ltb_spec Description.DESCRIPTION_CHAR_LIMIT (String.length d)) as [Hlt|]; [|done].
  change (Description.DESCRIPTION_CHAR_LIMIT - 3) with 1021.
  rewrite take_chars_ascii by done. apply Description.description_try_from_ok. split; [done|]. split.
  - intros He. apply (f_equal String.length) in He. rewrite string_length_app in He. simpl in He. lia.
  - rewrite string_length_app, length_substring_0. unfold Description.DESCRIPTION_CHAR_LIMIT in *.
    simpl String.length at 2. lia.
Qed.

Lemma description_from_ascii_reasons_witness :
  Description.try_from_change_reasons ["initial"; "fix"] = Ok "initial, fix".
Proof.
  apply (description_from_ascii_reasons ["initial"; "fix"]); [done| |reflexivity].
  repeat constructor; vm_compute; first [congruence|lia].
Defined.

(** Five valid reasons of 127 two-byte characters each. *)
Definition two_byte_reason : string :=
  Nat.iter 127 (λ s, String (ascii_of_N 195) (String (ascii_of_N 169) s)) "".

(** The limit counts bytes where the truncation counts characters: there
    are valid change reasons whose joined text is still too long after it was
    cut to 1021 characters, so that [try_from_change_reasons] fails although
    it was given text to shorten. *)
Theorem description_truncation_can_fail :
  ∃ reasons, Forall ChangeReason.valid reasons ∧ reasons ≠ [] ∧
    Description.try_from_change_reasons reasons =
      Err "Description longer than 1024 characters not allowed, current length: 1281".
Proof.
  exists (replicate 5 two_byte_reason). split; [|split; [done|by vm_compute]].
  apply Forall_replicate. split; [done|]. vm_compute. lia.
Qed.

(** * Queries the service writes to itself *)

Section round_trip.
Context `{UrlEncoded} `{RegexCaptures} `{MapOrder} `{JsonParse} `{JsonText} `{Network}.
Context `{!MapOrderOk _} `{!QueryLaws url_query}.
Implicit Types (m : Map) (context_id : option string).

Definition field_pairs context_id : list (string * string) :=
  [("version", "latest"); ("resolve_remote", "true")] ++
  match context_id with Some c => [("context_id", c)] | None => [] end.

Definition dimension_pairs m : list (string * string) :=
  prod_map dimension_key json_to_string <$> sorted_entries m.

(** The texts that arrive as they were written. *)
Definition plain_dimensions m : Prop := ∀ k v, m !! k = Some v →
  plain k = true ∧ plain (json_to_string v) = true ∧ json_from_str (json_to_string v) = Some v.
Definition plain_id context_id : Prop := ∀ c, context_id = Some c → plain c = true ∧ c ≠ "".

Lemma resolve_query_text_pieces m context_id : plain_id context_id →
  ∃ pieces, resolve_query_text m context_id = query_of pieces ∧
    omap id pieces = field_pairs context_id ++ dimension_pairs m.
Proof.
  intros Hc.
  assert (ResolveConfigQuery.to_query_param
    (mkResolveConfigQuery (Some "latest") None (Some true) context_id None) =
    join "&" ((λ p, query_part p.1 p.2) <$> field_pairs context_id)) as E.
  { destruct context_id as [c|]; [|done]. destruct (Hc c eq_refl) as [_ Hne].
    unfold ResolveConfigQuery.to_query_param, derived_query_param, field_pairs. simpl.
    by rewrite bool_decide_eq_false_2 by done. }
  assert (DimensionQuery.to_query_param m =
    join "&" ((λ p, query_part p.1 p.2) <$> dimension_pairs m)) as E'.
  { unfold DimensionQuery.to_query_param, dimension_pairs. f_equal. rewrite <- list_fmap_compose.
    apply list_fmap_ext. by intros _ [] _. }
  assert (((λ p, query_part p.1 p.2) <$> field_pairs context_id) ≠ []) as Hf by done.
  unfold resolve_query_text. rewrite E, E'. destruct (dimension_pairs m) as [|d ds] eqn:Ed.
  - exists ((Some <$> field_pairs context_id) ++ [None]). split.
    + pose proof (query_of_some (field_pairs context_id)) as Eq. unfold query_of in *.
      by rewrite fmap_app, join_app, Eq by done.
    + by rewrite omap_app, omap_id_some.
  - exists (Some <$> (field_pairs context_id ++ d :: ds)). split; [|apply omap_id_some].
    by rewrite query_of_some, fmap_app, join_app by done.
Qed.

Lemma dimensions_text_end `{!JsonTextEnds} m :
  ends_in_space ("&" +:+ DimensionQuery.to_query_param m) = false.
Proof.
  apply ends_in_space_concat; [done|]. apply ends_in_space_join; [done|].
  apply Forall_forall. intros s ([k v] & -> & _)%list_elem_of_fmap. unfold query_part.
  rewrite ends_in_space_app by done. apply (ends_in_space_concat "="); [done|apply json_text_end].
Qed.

Lemma resolve_query_text_end `{!JsonTextEnds} m context_id :
  ends_in_space (resolve_query_text m context_id) = false.
Proof. unfold resolve_query_text. rewrite ends_in_space_app; [apply dimensions_text_end|done]. Qed.

Lemma field_pairs_names context_id k v : (k, v) ∈ field_pairs context_id →
  plain k = true ∧ str_contains k "[" = false ∧ str_contains k "]" = false ∧ k ≠ "".
Proof. unfold field_pairs. destruct context_id; set_unfold; naive_solver. Qed.

Lemma field_pairs_plain context_id : plain_id context_id → Forall plain_pair (field_pairs context_id).
Proof.
  intros Hc. unfold field_pairs. destruct context_id as [c|]; simpl; repeat constructor.
  by destruct (Hc c eq_refl).
Qed.

Lemma elem_of_dimension_pairs m k v : (k, v) ∈ dimension_pairs m ↔
  ∃ key value, m !! key = Some value ∧ k = dimension_key key ∧
    v = json_to_string value.
Proof.
  unfold dimension_pairs. rewrite list_elem_of_fmap. split.
  - intros ([key value] & [= -> ->] & Hin%elem_of_sorted_entries). eauto.
  - intros (key & value & Hin & -> & ->). exists (key, value). split; [done|].
    by apply elem_of_sorted_entries.
Qed.

Lemma dimension_pairs_bracket m k v : (k, v) ∈ dimension_pairs m → str_contains k "[" = true.
Proof. by intros (key & value & _ & -> & _)%elem_of_dimension_pairs. Qed.

Lemma dimension_pairs_plain m : plain_dimensions m → Forall plain_pair (dimension_pairs m).
Proof.
  intros Hm. apply Forall_forall. intros [k v] (key & value & Hin & -> & ->)%elem_of_dimension_pairs.
  destruct (Hm _ _ Hin) as (Hk & Hv & _). split; [|exact Hv]. cbn [fst].
  unfold dimension_key. by rewrite !plain_app, Hk.
Qed.

Lemma query_pairs_nodup m context_id : NoDup (field_pairs context_id ++ dimension_pairs m).*1.
Proof.
  rewrite fmap_app. apply NoDup_app. split_and!.
  - unfold field_pairs. destruct context_id; apply (bool_decide_unpack _); by vm_compute.
  - intros k ([k1 v1] & -> & Hin)%list_elem_of_fmap ([k2 v2] & E & Hd)%list_elem_of_fmap.
    simpl in E. subst k2. apply dimension_pairs_bracket in Hd. apply field_pairs_names in Hin.
    destruct Hin as (_ & Hb & _). simpl in Hd. congruence.
  - unfold dimension_pairs. rewrite <- list_fmap_compose.
    change (fst ∘ prod_map dimension_key json_to_string) with (dimension_key ∘ (fst (A:=string) (B:=Value))).
    rewrite list_fmap_compose. apply NoDup_fmap_2; [apply _|]. apply sorted_entries_nodup.
Qed.

Lemma elem_of_pairs m context_id k v : (k, v) ∈ field_pairs context_id ++ dimension_pairs m →
  (k, v) ∈ field_pairs context_id ∨
  ∃ key value, m !! key = Some value ∧ k = dimension_key key ∧ v = json_to_string value.
Proof. intros [?|?%elem_of_dimension_pairs]%elem_of_app; auto. Qed.

Lemma picked_dimensions m context_id pk v : plain_dimensions m →
  (pk, v) ∈ picked DimensionQuery.regex_pattern (field_pairs context_id ++ dimension_pairs m) ↔
  ∃ value, m !! pk = Some value ∧ v = json_to_string value.
Proof.
  intros Hm. rewrite elem_of_picked by apply query_pairs_nodup. split.
  - intros (k & [Hf|(key & value & Hin & -> & ->)]%elem_of_pairs & E).
    + destruct (field_pairs_names _ _ _ Hf) as (Hp & Hb & _).
      by rewrite (dimension_none (wire:=url_query)) in E by done.
    + destruct (Hm _ _ Hin) as [Hp _]. unfold dimension_key in E.
      rewrite (dimension_name (wire:=url_query)) in E by done. simplify_eq. eauto.
  - intros (value & Hin & ->). exists (dimension_key pk). split.
    + apply elem_of_app. right. apply elem_of_dimension_pairs. eauto.
    + destruct (Hm _ _ Hin) as [Hp _]. by apply (dimension_name (wire:=url_query)).
Qed.

Lemma picked_fields m context_id pk v :
  (pk, v) ∈ picked Query.regex_pattern (field_pairs context_id ++ dimension_pairs m) ↔
  (pk, v) ∈ field_pairs context_id.
Proof.
  rewrite elem_of_picked by apply query_pairs_nodup. split.
  - intros (k & [Hf|(key & value & Hin & -> & ->)]%elem_of_pairs & E).
    + destruct (field_pairs_names _ _ _ Hf) as (Hp & Hb & Hb' & Hn).
      rewrite (plain_name (wire:=url_query)) in E by done. by simplify_eq.
    + by rewrite (plain_none (wire:=url_query)) in E by done.
  - intros Hf. exists pk. split; [by apply elem_of_app; left|].
    destruct (field_pairs_names _ _ _ Hf) as (Hp & Hb & Hb' & Hn).
    by apply (plain_name (wire:=url_query)).
Qed.

(** Reading the fields back. *)
Lemma resolve_query_from_fields pairs context_id : NoDup pairs.*1 →
  (∀ k v, (k, v) ∈ pairs ↔ (k, v) ∈ field_pairs context_id) →
  resolve_query_from pairs = Ok (mkResolveConfigQuery (Some "latest") None (Some true) context_id None).
Proof.
  intros Hl Hp.
  assert ((list_to_map pairs : gmap string string) = list_to_map (field_pairs context_id)) as E.
  { apply map_eq. intros k. apply option_eq. intros v.
    rewrite <- !elem_of_list_to_map; [apply Hp| |done].
    unfold field_pairs. destruct context_id; apply (bool_decide_unpack _); by vm_compute. }
  unfold resolve_query_from. rewrite !field_lookup, !E by done. by destruct context_id.
Qed.
End round_trip.

(** C28. What the service asks itself arrives as it was meant: the query of an
    internal resolution, with its dimensions in both decodings of the server, is
    read back as the same dimensions and the same parameters, when keys and
    values are printable and have no ampersand, equals sign, plus, percent or
    hash and the values are read back from their text. *)
Theorem internal_query_round_trip `{UrlEncoded} `{RegexCaptures} `{MapOrder} `{JsonParse} `{JsonText}
    `{Network} `{!MapOrderOk _} `{!JsonTextEnds} `{!QueryLaws url_query} (m : Map)
    (context_id : option string) :
  plain_dimensions m → plain_id context_id →
  let raw := url_query (resolve_query_text m context_id) in
  dimension_params raw = Ok m ∧
  resolve_query raw = Ok (mkResolveConfigQuery (Some "latest") None (Some true) context_id None).
Proof.
  intros Hm Hc raw. destruct (resolve_query_text_pieces m context_id Hc) as (pieces & Ht & Hp).
  assert (Forall plain_pair (field_pairs context_id ++ dimension_pairs m)) as Hpl
    by (apply Forall_app; split; [by apply field_pairs_plain|by apply dimension_pairs_plain]).
  assert (urlencoded_from_str raw = Ok (field_pairs context_id ++ dimension_pairs m)) as Hr.
  { unfold raw. rewrite Ht, <- Hp. apply urlencoded_wire; [by rewrite Hp|].
    rewrite <- Ht. apply resolve_query_text_end. }
  pose proof (query_pairs_nodup m context_id) as Hn. split.
  - unfold dimension_params. rewrite (extract_query_plain (wire:=url_query) _ _ _ _ Hr Hn).
    + unfold query_map_from. simpl. f_equal. apply map_eq. intros k. rewrite lookup_fmap.
      set (l := picked _ _). destruct (collect_map l !! k) as [v|] eqn:E.
      * apply collect_map_Some, picked_dimensions in E as (value & E & ->); [|done]. simpl.
        destruct (Hm _ _ E) as (_ & _ & ->). done.
      * simpl. symmetry. destruct (m !! k) as [value|] eqn:Em; [|done]. exfalso.
        apply (is_Some_None (A:=string)). rewrite <- E. apply collect_map_is_Some, list_elem_of_fmap.
        exists (k, json_to_string value). split; [done|]. apply picked_dimensions; eauto.
    + apply Forall_forall. intros [pk v] (value & Hin & ->)%picked_dimensions; [|done].
      destruct (Hm _ _ Hin) as (? & ? & _). by split.
  - unfold resolve_query. rewrite (extract_query_plain (wire:=url_query) _ _ _ _ Hr Hn).
    + rewrite (resolve_query_from_fields _ context_id); [done| |intros; apply picked_fields].
      apply picked_nodup; [|done]. intros k v pk [Hf|(key & value & Hin & -> & ->)]%elem_of_pairs E.
      * destruct (field_pairs_names _ _ _ Hf) as (? & ? & ? & ?).
        rewrite (plain_name (wire:=url_query)) in E by done. by simplify_eq.
      * by rewrite (plain_none (wire:=url_query)) in E by done.
    + apply Forall_forall. intros [pk v] Hin%picked_fields.
      by apply (Forall_forall plain_pair (field_pairs context_id));
        [apply field_pairs_plain|].
Qed.

#[local] Instance wire_network : Network := {|
  delivery _ _ _ := Delivered;
  follow_redirect _ := Ok 200%Z;
  url_query := wire;
  default_config_json _ := VNull;
|}.

Definition city_query : Map := {[ "city" := VString "New York" ]}.

Lemma internal_query_round_trip_witness :
  @dimension_params form_decoder key_captures list_order quoted_parse
    (@url_query wire_network (@resolve_query_text quoted_text city_query (Some "c1"))) = Ok city_query ∧
  @resolve_query form_decoder key_captures list_order
    (@url_query wire_network (@resolve_query_text quoted_text city_query (Some "c1"))) =
    Ok (mkResolveConfigQuery (Some "latest") None (Some true) (Some "c1") None).
Proof.
  assert (@plain_dimensions quoted_parse quoted_text city_query) as Hm.
  { intros k v. unfold city_query. intros [<- <-]%lookup_singleton_Some. by vm_compute. }
  assert (plain_id (Some "c1")) as Hc by (intros c [= <-]; by vm_compute).
  exact (@internal_query_round_trip form_decoder key_captures list_order quoted_parse quoted_text
    wire_network list_order_ok quoted_text_ends form_laws city_query (Some "c1") Hm Hc).
Defined.

(** The values are decoded twice: what a client encodes so that it arrives as it
    is, a plus or an ampersand, is decoded once more by the second pass, which
    makes a space of the plus and cuts the value at the ampersand. *)
Example query_values_decoded_twice :
  @dimension_params _ _ list_order _ "dimension%5Bcity%5D=a%2Bb" = Ok {[ "city" := VString "a b" ]} ∧
  @dimension_params _ _ list_order _ "dimension%5Bcity%5D=a%26b" = Ok {[ "city" := VString "a"; "b" := VString "" ]}.
Proof. split; by vm_compute. Qed.

(** A value of an internal resolution is not encoded either. *)
Example plus_lost_in_internal_query :
  @dimension_params _ _ list_order _
    (wire (@resolve_query_text quoted_text {[ "city" := VString "a+b" ]} None)) =
  Ok {[ "city" := VString "a b" ]}.
Proof. by vm_compute. Qed.
