(* ===== verification/PlatformClaims.v ===== *)
(** * Theorems on the server

    First who reaches a workspace: what the middlewares guarantee of a request that reaches the tables of a
    workspace, and where they do not; then
    what holds of the server as a whole, whatever calls it answers. *)

From stdpp Require Import relations.
From S2P Require Import Prelude Pages Stack Json Types Text Effects Logic LogicProps Config ExpModels Bucketing BucketAlloc CacClient ExpChecks CacStore CacConfig Contexts Dimensions DefaultConfigs Functions CacServing QueryStrings QueryStringProps CacQueries CacReduce CacService Store Groups Experiments Queries Service Tenants Http Webhooks Organisations Internal Platform Refine PlatformProps Tenancy ServerSamples PlatformRun.

(** ** The cases of a request *)

Section middlewares.
Context `{AppState} `{UserText} `{RegexEngine}.
Implicit Types (req : HttpRequest) (p : Platform).

Lemma internal_user_some req user : internal_user req = Some user →
  ∃ auth rest, HttpRequestExt.get_header req "authorization" = Some auth ∧
    split_at " " auth = "Internal" :: superposition_token :: rest.
Proof.
  unfold internal_user. intros E. apply bind_Some in E as (auth & Ha & E).
  destruct (split_at " " auth) as [|kind [|token rest]] eqn:Es; try done.
  case_hyp E; [|done]. breflect. destruct_and?. simplify_eq. eauto.
Qed.

(** A request that gets a workspace names it and is not excluded. *)
Lemma org_workspace_some req ext p ext' p' context :
  org_workspace_call true true req ext p = (Ok ext', p') →
  ext_workspace ext = None → ext_workspace ext' = Some context →
  p' = p ∧ ext_user ext' = ext_user ext ∧ ext_internal ext' = ext_internal ext ∧
  (excluded_pattern req ∉ tenant_middleware_exclusion_list) ∧
  HttpRequestExt.get_organisation_id req = Some (wx_organisation_id context) ∧
  HttpRequestExt.get_workspace_id req = Some (wx_workspace_id context) ∧
  wx_schema_name context = (wx_organisation_id context +:+ "_" +:+ wx_workspace_id context)%string ∧
  pf_workspaces p !! wx_schema_name context = Some (wx_settings context).
Proof.
  unfold org_workspace_call. intros E Hn Hs. unfold mbind, ST_bind, lift in E.
  destruct (is_excluded req) as [excluded|] eqn:Ex; [|done].
  destruct excluded; [injection E; intros; congruence|].
  destruct (HttpRequestExt.get_organisation_id req) as [o|]; [|done].
  destruct (HttpRequestExt.get_workspace_id req) as [ws|]; [|done].
  unfold get_workspace in E. destruct (pf_workspaces p !! (o +:+ "_" +:+ ws)) as [row|] eqn:Er; [|done].
  apply (f_equal fst) in E as E1. apply (f_equal snd) in E as E2.
  simpl in E1, E2. injection E1 as <-. simpl in Hs. injection Hs as <-. simpl.
  split_and!; try done. unfold is_excluded in Ex.
  repeat (apply result_bind_ok in Ex as (? & _ & Ex)). injection Ex as Ex.
  intros Hin. by rewrite bool_decide_eq_true_2 in Ex by done.
Qed.
End middlewares.

(** ** Organisations with a provider of their own *)

Section saas.
Context `{AppState} `{UserText} `{RegexEngine} `{Provider}.

Lemma login_type_org req o : excluded_pattern req ∉ tenant_middleware_exclusion_list →
  HttpRequestExt.get_organisation_id req = Some o →
  str_contains (hr_path req) "/organisations" = true ∨ get_login_type req = LoginOrg o.
Proof.
  intros Hx Ho. unfold get_login_type. rewrite bool_decide_eq_false_2 by done.
  destruct (str_contains _ _); [by left|right]. by rewrite Ho.
Qed.

Lemma saas_authenticate_org req o user : HttpRequestExt.get_organisation_id req = Some o →
  saas_authenticate req (LoginOrg o) = Ok user →
  ∃ c claims, hr_cookies req !! ("org_" +:+ o) = Some c ∧ decode_org_token o c = Some claims ∧
    try_user_from claims = Some user.
Proof.
  intros Ho E. simpl in E. destruct (get_global_user _ _) as [u|]; [|done].
  unfold get_org_user in E. rewrite Ho in E. simpl in E. unfold cookie in E. simpl in E.
  destruct (hr_cookies req !! ("org_" +:+ o)) as [c|] eqn:Ec; simpl in E.
  - destruct (decode_org_token o c) as [claims|] eqn:Ed; simpl in E.
    + exists c, claims. split_and!; [done|done|]. unfold user_or_bad_request in E.
      destruct (try_user_from claims); congruence.
    + by destruct (saas_generate_org_user _ _ _).
  - by destruct (saas_generate_org_user _ _ _).
Qed.
End saas.

(** C27. Where every organisation has a provider of its own, a request reaches
    the tables of a workspace as a user only with the token of the service, or
    with a cookie that the provider of exactly that organisation verifies to be
    the user's; except on paths that have [/organisations] in them. *)
Theorem workspace_access_authenticated `{AppState} `{UserText} `{RegexEngine} `{Provider}
    req user internal p ext p' context :
  @authn_call _ _ saas_authenticator req = Ok (user, internal) →
  org_workspace_call true true req (authenticated user internal) p = (Ok ext, p') →
  ext_workspace ext = Some context →
  ext_user ext = user ∧
  HttpRequestExt.get_organisation_id req = Some (wx_organisation_id context) ∧
  (if internal then
     ∃ auth rest, HttpRequestExt.get_header req "authorization" = Some auth ∧
       split_at " " auth = "Internal" :: superposition_token :: rest
   else
     str_contains (hr_path req) "/organisations" = true ∨
     ∃ c claims, hr_cookies req !! ("org_" +:+ wx_organisation_id context) = Some c ∧
       decode_org_token (wx_organisation_id context) c = Some claims ∧
       try_user_from claims = Some user).
Proof.
  intros Ha Hw Hc.
  destruct (org_workspace_some _ _ _ _ _ _ Hw eq_refl Hc) as (_ & Hu & _ & Hx & Ho & _).
  split_and!; [done..|]. unfold authn_call in Ha.
  destruct (internal_user req) as [u|] eqn:Ei.
  - injection Ha as <- <-. by eapply internal_user_some.
  - destruct (login_type_org req _ Hx Ho) as [Hp|Hl].
    { destruct (authenticate _ _); [|done]. injection Ha as <- <-. by left. }
    rewrite Hl in Ha. cbn [authenticate saas_authenticator] in Ha. destruct (saas_authenticate _ _) as [u|] eqn:Es; [|done].
    injection Ha as <- <-. right. by eapply saas_authenticate_org.
Qed.

Definition org_request : HttpRequest :=
  user_request "/function" "orgid7" "dev" {[ "user" := "global"; "org_orgid7" := "token7" ]}.

Lemma workspace_access_authenticated_witness :
  let req := org_request in
  let ana := mkUser "ana@x.io" "ana" in
  let context := mkWorkspaceContext "dev" "orgid7" "orgid7_dev" (workspace_row "orgid7" "dev") in
  let ext := mkExtensions ana false (Some "orgid7") (Some "orgid7_dev") (Some context) in
  ext_user ext = ana ∧
  HttpRequestExt.get_organisation_id req = Some "orgid7" ∧
  (str_contains (hr_path req) "/organisations" = true ∨
   ∃ c claims, hr_cookies req !! "org_orgid7" = Some c ∧
     decode_org_token "orgid7" c = Some claims ∧ try_user_from claims = Some ana).
Proof.
  intros req ana context ext.
  refine (@workspace_access_authenticated _ _ platform_regex _ req ana false two_tenants ext
    two_tenants context _ _ _); vm_compute; reflexivity.
Defined.

(** The path of a function named [organisations] is taken for the listing of
    organisations: a user of one organisation reads the workspace of another. *)
Example organisations_path_reaches_other_tenants :
  let req := user_request "/function/organisations" "orgid8" "dev" {[ "user" := "global" ]} in
  let ana := mkUser "ana@x.io" "ana" in
  @authn_call _ _ saas_authenticator req = Ok (ana, false) ∧
  (@org_workspace_call _ platform_regex true true req (authenticated ana false) two_tenants).1 =
    Ok (mkExtensions ana false (Some "orgid8") (Some "orgid8_dev")
      (Some (mkWorkspaceContext "dev" "orgid8" "orgid8_dev" (workspace_row "orgid8" "dev")))) ∧
  (∀ c, decode_org_token "orgid8" c = None) ∧
  decode_global "global" = Some (mkGlobalClaims user_claims ["orgid7"] "pass").
Proof.
  split_and!; [by vm_compute..| |by vm_compute]. intros c.
  change (decode_org_token "orgid8" c) with
    (if bool_decide ("https://id/orgid8" = "https://id/orgid7" ∧ c = "token7")
     then Some user_claims else None).
  by rewrite bool_decide_eq_false_2 by (intros [? _]; done).
Qed.

(** * The server as a whole

    Whatever calls the server answers from an empty database: organisations and
    workspaces are created, configured and experimented on, handlers ask the
    configuration service, calls are lost. *)

Section claims.
Context `{AppState} `{UserText} `{Authenticator} `{Authorizer} `{RegexEngine}.
Context `{Network} `{UrlEncoded} `{RegexCaptures} `{ExpClock} `{PlatformEnv}.
Context `{CacEnv} `{JsonParse} `{MapOrder} `{RowOrder} `{JsonLogic} `{FloatText} `{Blake3}.
Context `{ConfigText} `{JsonText} `{JsonSchema} `{JsonLogicVariables} `{DebugText}.
Context `{VarRegex} `{HeaderSyntax} `{HookEnv} `{Collation} `{SetOrder} `{KeyOrder} `{TimeText}.
Context {Ook : MapOrderOk _} {Rok : RowOrderOk _} {Sok : SetOrderOk _} {Names : WorkspaceNames}.
Implicit Types (flags : ExperimentationFlags) (cs : list Call).

Abbreviation reached flags cs := (serve_calls flags cs empty_platform).

(** C1. The server refines its services: the tables of every workspace are those
    a fresh workspace comes to by requests of the configuration service, reads,
    requests of the experimentation service, requests on webhooks and
    migrations, one after the other, also where handlers of experiments make
    the former, and the invariants of all of them hold together. *)
Theorem server_refines_services flags cs n s :
  pf_schemas (reached flags cs) !! n = Some s →
  rtc schema_step fresh_schema s ∧ workspace_ok s.
Proof using Names Ook Rok Sok.
  intros Hs. pose proof (reachable_tenants flags cs) as T. split; [|by eapply tenants_schema].
  destruct T as (_ & _ & T). by apply T in Hs as [_ ?].
Qed.

(** C9. Organisations, workspaces and schemas agree: a workspace is kept under
    the schema its organisation and its name spell, its organisation is there,
    its schema is set up, and the version it is pinned to is stored in it. *)
Theorem workspaces_consistent flags cs n row :
  pf_workspaces (reached flags cs) !! n = Some row →
  n = schema_name (wk_organisation_id row) (wk_workspace_name row) ∧
  is_Some (pf_organisations (reached flags cs) !! wk_organisation_id row) ∧
  ∃ s, pf_schemas (reached flags cs) !! n = Some s ∧
    ∀ v, wk_config_version row = Some v → is_Some (k_versions (sc_cac s) !! v).
Proof using Names Ook Rok Sok.
  intros Hrow. destruct (reachable_tenants flags cs) as (_ & T & _).
  destruct (T _ _ Hrow) as [_ Hk _ Ho [s Hs] Hp]. split_and!; [done..|]. exists s. split; [done|].
  intros v Hv. destruct (Hp v Hv) as (s' & Hs' & ?). unfold pf_tables in *. simpl in *. by simplify_eq.
Qed.

(** A request that names a schema names its workspace. *)
Lemma named_workspace flags cs n row req : pf_workspaces (reached flags cs) !! n = Some row →
  named_schema req = n →
  HttpRequestExt.get_organisation_id req = Some (wk_organisation_id row) ∧
  HttpRequestExt.get_workspace_id req = Some (wk_workspace_name row).
Proof using Names Ook Rok Sok.
  intros Hrow Hn. destruct (reachable_tenants flags cs) as (To & T & _).
  destruct (T _ _ Hrow) as [_ Hk [Hne Hl] [o Ho] _ _]. destruct (To _ _ Ho) as (_ & Hone & Hol).
  unfold named_schema in Hn. rewrite Hk in Hn. apply schema_name_unique in Hn as [E1 E2]; [|done..].
  destruct (HttpRequestExt.get_organisation_id req), (HttpRequestExt.get_workspace_id req);
    simpl in *; subst; done.
Qed.

(** C8. Workspaces are apart: a call that configures, experiments or sets up
    webhooks leaves every workspace it does not name exactly as it was, and the
    organisations and the settings of all workspaces. *)
Theorem workspaces_isolated flags cs c n row :
  pf_workspaces (reached flags cs) !! n = Some row → on_workspace (cl_operation c) = true →
  (HttpRequestExt.get_organisation_id (cl_request c),
   HttpRequestExt.get_workspace_id (cl_request c)) ≠
    (Some (wk_organisation_id row), Some (wk_workspace_name row)) →
  let p' := (serve_call flags c (reached flags cs)).2 in
  pf_schemas p' !! n = pf_schemas (reached flags cs) !! n ∧
  pf_workspaces p' = pf_workspaces (reached flags cs) ∧
  pf_organisations p' = pf_organisations (reached flags cs).
Proof using Names Ook Rok Sok.
  intros Hrow Hc Hne p'. pose proof (workspace_call_touches flags c (reached flags cs) Hc) as Ht.
  split_and!; [|apply Ht..]. apply (tc_others _ _ _ _ Ht). intros Hn. apply Hne.
  destruct (named_workspace flags cs n row (cl_request c) Hrow) as [-> ->]; done.
Qed.

(** An event has one webhook: asked for the webhook of an event, a workspace
    answers the one that is stored with the event, whatever the order of rows,
    and an error only when there is none. *)
Theorem webhook_of_event_unique flags cs n s event :
  pf_schemas (reached flags cs) !! n = Some s →
  (∀ h, (get_by_event_handler event s).1 = Ok h ↔
     ∃ name, sc_webhooks s !! name = Some h ∧ event ∈ hk_events h) ∧
  (∀ name name' h h', sc_webhooks s !! name = Some h → sc_webhooks s !! name' = Some h' →
     event ∈ hk_events h → event ∈ hk_events h' → name = name').
Proof using Names Ook Rok Sok.
  intros Hs. pose proof (tenants_schema _ _ _ _ _ (reachable_tenants flags cs) Hs) as [_ _ _ G].
  assert (∀ name name' h h', sc_webhooks s !! name = Some h → sc_webhooks s !! name' = Some h' →
     event ∈ hk_events h → event ∈ hk_events h' → name = name') as Hu
    by (intros; by eapply hk_apart). split; [|done].
  intros h. unfold get_by_event_handler, all_webhooks, mbind, ST_bind, lift. simpl.
  set (f := λ h, bool_decide (event ∈ hk_events h)).
  destruct (List.find f (map_order (sc_webhooks s)).*2) as [h0|] eqn:Hf; simpl.
  - apply List.find_some in Hf as [Hin He]. unfold f in He. breflect.
    apply list_elem_of_In, elem_of_all_webhooks in Hin; [|done]. split.
    + intros [= <-]. by exists (hk_name h0).
    + intros (name & Hh & Hev). pose proof (Hu _ _ _ _ Hin Hh He Hev) as E. subst name. by simplify_eq.
  - split; [done|]. intros (name & Hh & Hev). pose proof (hk_keyed _ G _ _ Hh) as E. subst name.
    apply elem_of_all_webhooks, list_elem_of_In in Hh; [|done].
    pose proof (find_none _ _ Hf _ Hh) as Hno. unfold f in Hno.
    by rewrite bool_decide_eq_true_2 in Hno.
Qed.

(** C29. Creating a workspace succeeds exactly when its organisation is there,
    its name is valid, no workspace has the schema and the statements of the
    template run; then its row and a fresh schema are added, and otherwise no
    table has changed. *)
Theorem workspace_creation_exact flags cs org_id req user :
  let p := reached flags cs in
  let n := schema_name org_id (cw_workspace_name req) in
  match workspace_create_handler org_id req user p with
  | (Ok row, p') =>
      is_Some (pf_organisations p !! org_id) ∧
      validate_workspace_name (cw_workspace_name req) = Ok tt ∧
      pf_workspaces p !! n = None ∧ setup_outcome (pf_runs p) = Ok tt ∧
      wk_organisation_id row = org_id ∧ wk_workspace_name row = cw_workspace_name req ∧
      pf_tables p' = (pf_organisations p, <[n := row]> (pf_workspaces p),
                      <[n := fresh_schema]> (pf_schemas p))
  | (Err _, p') =>
      pf_tables p' = pf_tables p ∧
      (pf_organisations p !! org_id = None ∨
       is_ok (validate_workspace_name (cw_workspace_name req)) = false ∨
       is_Some (pf_workspaces p !! n) ∨ is_ok (setup_outcome (pf_runs p)) = false)
  end.
Proof using Names Ook Rok Sok.
  intros p n. pose proof (reachable_tenants flags cs) as (To & Tw & Ts). fold p in To, Tw, Ts.
  unfold workspace_create_handler, find_organisation, pf_clock, lift, mbind, ST_bind. simpl.
  destruct (pf_organisations p !! org_id) as [o|] eqn:Ho; simpl; [|by auto].
  destruct (To _ _ Ho) as [Hid _].
  destruct (validate_workspace_name _) as [[]|e] eqn:Hv; simpl; [|by auto].
  unfold pf_transaction, transaction_by, insert_workspace, mbind, ST_bind. simpl. rewrite Hid. fold n.
  destruct (pf_workspaces p !! n) as [row|] eqn:Hn; simpl; [by eauto 6|].
  destruct (List.existsb _ _) eqn:Hx; simpl.
  { apply existsb_exists in Hx as (row & Hin & Hb). exfalso.
    apply list_elem_of_In, list_elem_of_fmap in Hin as ([m row'] & -> & Hin%elem_of_map_order).
    unfold of_workspace in Hb. simpl in Hb. breflect. destruct_and?. destruct (Tw _ _ Hin) as [_ Hk _ _ _ _].
    simpl in *. unfold n in Hn. congruence. }
  assert (pf_schemas p !! n = None) as Hs.
  { destruct (pf_schemas p !! n) as [s|] eqn:Hs; [|done]. destruct (Ts _ _ Hs) as [[? ?] _].
    simpl in *. congruence. }
  unfold setup_workspace_schema. simpl. rewrite Hs.
  destruct (setup_outcome (pf_runs p)) as [[]|e] eqn:Hset; simpl; [|by auto 6].
  split_and!; [by eexists|done..].
Qed.
End claims.

(** ** Calls that name no user

    Behind a provider they are sent to its page. *)

(** Without a cookie a request goes to the page of the provider. *)
Definition needs_cookie `{Authenticator} : Prop := ∀ req login_type,
  hr_cookies req = ∅ → login_type ≠ LoginNone → ∃ reply, authenticate req login_type = Err reply.

Lemma simple_needs_cookie `{AppState} `{Provider} : @needs_cookie simple_authenticator.
Proof.
  intros req login_type Hc Hl. simpl. unfold simple_authenticate.
  destruct login_type; [done|..]; unfold get_global_user, global_claims, cookie; rewrite Hc; by eexists.
Qed.
Lemma saas_needs_cookie `{AppState} `{Provider} : @needs_cookie saas_authenticator.
Proof.
  intros req login_type Hc Hl. simpl. unfold saas_authenticate.
  destruct login_type; [done|..]; unfold get_global_user, global_claims, cookie; rewrite Hc; by eexists.
Qed.

Section unnamed.
Context `{AppState} `{UserText} `{Authenticator} `{Authorizer} `{RegexEngine}.
Context `{Network} `{UrlEncoded} `{RegexCaptures} `{ExpClock} `{PlatformEnv}.
Context `{CacEnv} `{JsonParse} `{MapOrder} `{RowOrder} `{JsonLogic} `{FloatText} `{Blake3}.
Context `{ConfigText} `{JsonText} `{JsonSchema} `{JsonLogicVariables} `{DebugText}.
Context `{VarRegex} `{HeaderSyntax} `{HookEnv} `{Collation} `{SetOrder} `{KeyOrder} `{TimeText}.
Context (Hcookie : needs_cookie).

Lemma unnamed_intercepted {T} context credentials path pattern query resource action
    (h : Settings → User → C (T * option string)) p :
  (∀ user, credentials ≠ TokenAndUser user) →
  excluded_pattern (internal_request context credentials path pattern query) ∉
    tenant_middleware_exclusion_list →
  ∀ value status version, (cac_call (internal_request context credentials path pattern query)
    resource action h p).1 ≠ Responded status version (Parsed value).
Proof using Hcookie.
  intros Hcr Hx value status version. set (req := internal_request _ _ _ _ _).
  assert (internal_user req = None) as Hu.
  { assert (HttpRequestExt.get_header req "x-user" = None) as Hn
      by (unfold req; destruct credentials; [reflexivity..|by edestruct Hcr]).
    unfold internal_user. rewrite Hn. destruct (HttpRequestExt.get_header req "authorization") as [auth|]; [|reflexivity].
    cbn. destruct (split_at _ auth) as [|? [|]]; try done. by destruct (_ && _). }
  assert (∃ reply, authn_call req = Err reply) as [reply Ha].
  { unfold authn_call. rewrite Hu. destruct (Hcookie req (get_login_type req)) as [reply ->]; [done| |eauto].
    unfold get_login_type. rewrite bool_decide_eq_false_2 by done. by destruct (str_contains _ _). }
  unfold cac_call, serve_workspace, serve_scope. rewrite Ha. simpl.
  destruct reply; simpl; try done; by destruct (follow_redirect _).
Qed.

(** What [fetch_cac_config] asks. *)
Definition config_request (context : WorkspaceContext) : HttpRequest :=
  internal_request context TokenOnly "/config" "/config" (url_query config_query_text).

Definition Fails {W A} (m : ST W A) : Prop := ∀ w, is_ok (m w).1 = false.

Lemma fails_first {W A B} (m : ST W A) (f : A → ST W B) : Fails m → Fails (a ← m; f a).
Proof. intros Hm w. specialize (Hm w). unfold mbind, ST_bind. by destruct (m w) as [[a|e] w']. Qed.
Lemma fails_then {W A B} (m : ST W A) (f : A → ST W B) : (∀ a, Fails (f a)) → Fails (a ← m; f a).
Proof.
  intros Hf w. unfold mbind, ST_bind. destruct (m w) as [[a|e] w']; [by apply Hf|done].
Qed.

(** Behind a provider a ramp is never answered with success: the configuration
    is asked for without a user, after the ramp is committed. *)
Theorem ramp_unanswered_behind_provider flags exp_id req ext p :
  (∀ context, excluded_pattern (config_request context) ∉ tenant_middleware_exclusion_list) →
  is_ok (experiment_handler flags (RampExperiment exp_id req) ext p).1 = false.
Proof using Hcookie.
  intros Hx. unfold experiment_handler. destruct (ext_workspace ext) as [context|]; [|done].
  revert p. apply (fails_first _ (λ _, mret tt)). intros p. unfold run_linked.
  destruct (pf_schemas p !! wx_schema_name context) as [s|]; [|done].
  set (env := linked_env _ _ _ _).
  assert (Fails (fetch_cac_config (H:=env))) as Hf.
  { intros w. unfold fetch_cac_config, call, mbind, ST_bind, lift. simpl.
    unfold linked_env. simpl. set (trace := since _ _). set (q := replay _ _ _ _).
    pose proof (unnamed_intercepted context TokenOnly "/config" "/config" (url_query config_query_text)
      RConfig "get" (λ settings _,
        dimension_params ← lift (or_bad_argument (dimension_params (url_query config_query_text)));
        query_filters ← lift (or_bad_argument (config_query (url_query config_query_text)));
        settled (config_get_handler settings (get_request dimension_params) query_filters)) q
      ltac:(done) (Hx context)) as Hn.
    change (cac_call _ _ _ _ q) with (exchange_config context q) in Hn.
    destruct (delivery trace CallConfig Main); simpl; [|done..].
    destruct (exchange_config context q).1 as [err|status version [c|m|]]; try done.
    by edestruct Hn. }
  match goal with |- context [@serve env ?a ?b ?c ?d ?e ?f ?g ?ws ?user ?r] =>
    assert (Fails (@serve env a b c d e f g ws user r)) as Hs end.
  { unfold serve, route. apply fails_then. intros _. apply fails_first. unfold ramp_handler.
    do 5 (apply fails_then; intros ?). by apply fails_first. }
  specialize (Hs (sc_exp s)). by destruct (serve _ _ _ _) as [[a|e] w].
Qed.
End unnamed.

(** ** A run *)

Lemma dev_schema : ∃ s, pf_schemas run_platform !! "orgid7_dev" = Some s.
Proof. eexists. vm_compute. reflexivity. Qed.
Lemma dev_row : ∃ row, pf_workspaces run_platform !! "orgid7_dev" = Some row ∧
  wk_organisation_id row = "orgid7" ∧ wk_workspace_name row = "dev".
Proof. eexists. vm_compute. split_and!; reflexivity. Qed.

Lemma server_refines_services_witness :
  ∃ s, pf_schemas run_platform !! "orgid7_dev" = Some s ∧ rtc schema_step fresh_schema s ∧
    workspace_ok s.
Proof.
  destruct dev_schema as [s Hs]. exists s. split; [exact Hs|].
  exact (server_refines_services run_flags server_run "orgid7_dev" s Hs).
Defined.

Lemma workspaces_consistent_witness :
  ∃ row, pf_workspaces run_platform !! "orgid7_dev" = Some row ∧
    is_Some (pf_organisations run_platform !! wk_organisation_id row).
Proof.
  destruct dev_row as (row & Hrow & _ & _). exists row. split; [exact Hrow|].
  exact (proj1 (proj2 (workspaces_consistent run_flags server_run "orgid7_dev" row Hrow))).
Defined.

(** A call on [prod] leaves [dev] alone. *)
Definition prod_call : Call :=
  at_workspace "prod" (Configure None (dimension "city" 1 (typed "string") Regular)).

Lemma workspaces_isolated_witness :
  pf_schemas (serve_call run_flags prod_call run_platform).2 !! "orgid7_dev" =
  pf_schemas run_platform !! "orgid7_dev".
Proof.
  destruct dev_row as (row & Hrow & Ho & Hn).
  refine (proj1 (workspaces_isolated run_flags server_run prod_call "orgid7_dev" row Hrow eq_refl _)).
  rewrite Ho, Hn. vm_compute. discriminate.
Defined.

Lemma webhook_of_event_unique_witness :
  ∃ s h, pf_schemas run_platform !! "orgid7_dev" = Some s ∧
    (get_by_event_handler ExperimentStarted s).1 = Ok h ∧ hk_name h = "told".
Proof.
  destruct dev_schema as [s Hs].
  assert (∃ h, sc_webhooks s !! "told" = Some h ∧ ExperimentStarted ∈ hk_events h ∧ hk_name h = "told")
    as (h & Hh & He & Hn).
  { assert (((λ s, sc_webhooks s !! "told") <$> pf_schemas run_platform !! "orgid7_dev") =
      Some (sc_webhooks s !! "told")) as E by by rewrite Hs.
    revert E. generalize (sc_webhooks s !! "told"). vm_compute. intros o E. injection E as <-.
    eexists. split_and!; [reflexivity|constructor|reflexivity]. }
  exists s, h. split_and!; [exact Hs| |exact Hn].
  exact (proj2 (proj1 (webhook_of_event_unique run_flags server_run "orgid7_dev" s ExperimentStarted Hs) h)
    (ex_intro _ "told" (conj Hh He))).
Defined.

Lemma workspace_creation_exact_witness :
  match workspace_create_handler "orgid7" (mkCreateWorkspace "ana@x.io" "test" None None true false false
          false) ana run_platform with
  | (Ok row, p') => is_Some (pf_organisations run_platform !! "orgid7")
  | (Err _, p') => pf_tables p' = pf_tables run_platform
  end.
Proof.
  pose proof (workspace_creation_exact run_flags server_run "orgid7"
    (mkCreateWorkspace "ana@x.io" "test" None None true false false false) ana) as W.
  change (serve_calls run_flags server_run empty_platform) with run_platform in W. cbv zeta in W.
  destruct (workspace_create_handler _ _ _ run_platform) as [[row|e] p']; exact (proj1 W).
Defined.

(** ** From the creation of an organisation to an answer *)

(** The value that users of the client [a] are answered. *)
Definition asks (identifier : string) : HttpRequest :=
  mkHttpRequest "/resolve" (Some "/resolve") ("dimension[clientId]=a&identifier=" +:+ identifier)
    (headers_for "orgid7" "dev") ∅.
Definition fee_for (identifier : string) : option Value :=
  match (serve_resolve (asks identifier) GET None None None run_platform).1 with
  | Handled (Ok (Fresh r)) => rp_body r !! "fee"
  | _ => None
  end.

(** At 30 percent of two variants, some of the users get the other value. *)
Example experiment_end_to_end :
  fee_for <$> ["u1"; "u2"; "u3"; "u4"; "u5"; "u6"; "u7"; "u8"] =
  Some <$> [VBool false; VBool false; VBool false; VBool false; VBool true; VBool true; VBool true;
            VBool false].
Proof. vm_compute. reflexivity. Qed.

(** Behind a provider the same ramp is committed and answered with an error. *)
Definition dev_extensions : Extensions :=
  mkExtensions ana false (Some "orgid7") (Some "orgid7_dev")
    (Some (mkWorkspaceContext "dev" "orgid7" "orgid7_dev" (workspace_row "orgid7" "dev"))).

Example ramp_committed_unanswered :
  let '(r, p) := experiment_handler (H1:=simple_authenticator) run_flags (ramp_request 100 40)
                   dev_extensions run_platform in
  r = Err (UnexpectedError "Failed to parse cac config.") ∧
  (λ s, e_traffic_percentage <$> w_experiments (sc_exp s) !! 100%Z) <$> pf_schemas p !! "orgid7_dev" =
    Some (Some 40%Z).
Proof. vm_compute. done. Qed.
