(* ===== verification/CacTomlClaims.v ===== *)
(** * Theorems on configurations in TOML files *)

From stdpp Require Import sorting.
From S2P Require Import Prelude Text CacClient CacToml.

(** ** Expressions are read as they are written *)

Fixpoint every (f : ascii → bool) (s : string) : bool :=
  match s with EmptyString => true | String c s => f c && every f s end.

(** What stands in a class, and what ends it. *)
Definition stops (f : ascii → bool) (s : string) : Prop :=
  match s with EmptyString => True | String c _ => f c = false end.

Lemma span_app f s rest : every f s = true → stops f rest → span f (s +:+ rest) = (s, rest).
Proof.
  intros Hs Hr. induction s as [|c s IH].
  - change ("" +:+ rest) with rest. destruct rest as [|c rest]; [done|]. simpl in *. by rewrite Hr.
  - change (String c s +:+ rest) with (String c (s +:+ rest)). simpl in *.
    apply andb_true_iff in Hs as [Hc Hs]. by rewrite Hc, IH.
Qed.

Lemma span1_app f s rest : every f s = true → s ≠ "" → stops f rest →
  span1 f (s +:+ rest) = Some (s, rest).
Proof. intros. unfold span1. rewrite span_app by done. by rewrite bool_decide_eq_false_2. Qed.

Lemma strip_prefix_app p s : strip_prefix p (p +:+ s) = Some s.
Proof.
  induction p as [|c p IH]; [by destruct s|].
  change (String c p +:+ s) with (String c (p +:+ s)). simpl. by rewrite bool_decide_eq_true_2.
Qed.

Lemma skip_solid s : stops whitespace s → skip_whitespace s = s.
Proof. unfold skip_whitespace. destruct s as [|c s]; simpl; [done|]. by intros ->. Qed.
Lemma skip_space s : stops whitespace s → skip_whitespace (" " +:+ s) = s.
Proof.
  intros Hs. unfold skip_whitespace. change (" " +:+ s) with (String " " s). simpl.
  apply skip_solid in Hs. unfold skip_whitespace in Hs. by destruct (span whitespace s).
Qed.

(** *** Well-formed expressions *)

Definition chars (s : string) : Prop := s ≠ "" ∧ every char_rule s = true.
Definition digits (s : string) : Prop := s ≠ "" ∧ every ascii_digit s = true.

Inductive term_ok : Term → Prop :=
  | bool_ok b : term_ok (BoolLiteral (if b : bool then "true" else "false"))
  | string_ok s : chars s → term_ok (StringLiteral ("'" +:+ s +:+ "'"))
  | float_ok whole part : digits whole → digits part → term_ok (FloatLiteral (whole +:+ "." +:+ part))
  | integer_ok s : digits s → term_ok (IntegerLiteral s)
  | dimension_ok s : chars s → term_ok (Dimension_ ("$" +:+ s)).

Definition operators : list string := [">="; "<="; "<"; ">"; "=="; "!="].

Definition comparison_ok (c : Comparison) : Prop :=
  term_ok (cp_left c) ∧ cp_operator c ∈ operators ∧ term_ok (cp_right c).
Definition operands_ok {A} (P : A → Prop) (e : A * list A) : Prop := P e.1 ∧ Forall P e.2.
Definition expression_ok : LogicalOr → Prop := operands_ok (operands_ok comparison_ok).

(** *** Writing them *)

Definition term_text (t : Term) : string :=
  match t with
  | BoolLiteral s | StringLiteral s | FloatLiteral s | IntegerLiteral s | Dimension_ s => s
  end.
Definition comparison_text (c : Comparison) : string :=
  term_text (cp_left c) +:+ " " +:+ cp_operator c +:+ " " +:+ term_text (cp_right c).

(** What follows an operand. *)
Fixpoint rest_text {A} (sep : string) (text : A → string) (l : list A) : string :=
  match l with [] => "" | a :: l => " " +:+ sep +:+ " " +:+ text a +:+ rest_text sep text l end.
Definition operands_text {A} (sep : string) (text : A → string) (e : A * list A) : string :=
  text e.1 +:+ rest_text sep text e.2.

Definition and_text : LogicalAnd → string := operands_text "&&" comparison_text.
Definition expression_text : LogicalOr → string := operands_text "||" and_text.

(** *** Terms *)

(** What may follow a term. *)
Definition ends (s : string) : Prop := stops char_rule s.

Lemma ends_digits s : ends s → stops ascii_digit s.
Proof.
  destruct s as [|c s]; [done|]. unfold ends. simpl. unfold char_rule, ascii_alphanumeric.
  by destruct (ascii_digit c).
Qed.
Lemma ends_dot s : ends s → strip_prefix "." s = None.
Proof.
  destruct s as [|c s]; [done|]. unfold ends. simpl. intros Hc. rewrite bool_decide_eq_false_2; [done|].
  by intros <-.
Qed.

Lemma digits_first s : digits s → ∃ c s', s = String c s' ∧ ascii_digit c = true.
Proof. intros [Hn Hs]. destruct s as [|c s]; [done|]. apply andb_true_iff in Hs as [? _]. eauto. Qed.

(** A text that starts with a digit is neither of the first two kinds. *)
Lemma digit_not_word c s : ascii_digit c = true →
  bool_literal (String c s) = None ∧ string_literal (String c s) = None.
Proof.
  intros Hc. unfold bool_literal, string_literal, or_parse, literal. simpl.
  rewrite !bool_decide_eq_false_2; [done|..]; by intros <-.
Qed.

Lemma term_app t rest : term_ok t → ends rest → term (term_text t +:+ rest) = Some (t, rest).
Proof.
  intros Ht Hr. unfold term, or_parse. destruct Ht as [b|s [Hn Hs]|whole part Hw [Hp Hpart]|s Hd|s [Hn Hs]]; simpl term_text.
  - by destruct b.
  - rewrite !append_assoc. change (bool_literal ("'" +:+ s +:+ "'" +:+ rest)) with (@None (Term * string)).
    unfold string_literal. change (strip_prefix "'" ("'" +:+ s +:+ "'" +:+ rest)) with (Some (s +:+ "'" +:+ rest)).
    simpl. rewrite span1_app by done. simpl. done.
  - destruct (digits_first _ Hw) as (c & s' & E & Hc). rewrite !append_assoc.
    assert (bool_literal (whole +:+ "." +:+ part +:+ rest) = None ∧
      string_literal (whole +:+ "." +:+ part +:+ rest) = None) as [-> ->] by (rewrite E; by apply digit_not_word).
    unfold float. destruct Hw as [Hwn Hw]. rewrite span1_app by done. simpl.
    change ("" +:+ part +:+ rest) with (part +:+ rest).
    by rewrite span1_app by (done || by apply ends_digits).
  - destruct (digits_first _ Hd) as (c & s' & E & Hc).
    assert (bool_literal (s +:+ rest) = None ∧ string_literal (s +:+ rest) = None) as [-> ->]
      by (rewrite E; by apply digit_not_word).
    destruct Hd as [Hn Hs]. unfold float, integer. rewrite span1_app; [|done|done|by apply ends_digits].
    unfold mbind, option_bind. cbn beta iota. by rewrite ends_dot.
  - rewrite append_assoc. change (bool_literal ("$" +:+ s +:+ rest)) with (@None (Term * string)).
    change (string_literal ("$" +:+ s +:+ rest)) with (@None (Term * string)).
    change (float ("$" +:+ s +:+ rest)) with (@None (Term * string)).
    change (integer ("$" +:+ s +:+ rest)) with (@None (Term * string)).
    unfold dimension_rule. change (strip_prefix "$" ("$" +:+ s +:+ rest)) with (Some (s +:+ rest)). simpl.
    by rewrite span1_app.
Qed.

(** No term starts with a space. *)
Lemma term_solid t rest : term_ok t → stops whitespace (term_text t +:+ rest).
Proof.
  assert (∀ c, ascii_digit c = true → whitespace c = false) as Hw.
  { intros c Hc. unfold whitespace. rewrite !bool_decide_eq_false_2; [done|..]; by intros ->. }
  intros [b|s Hs|whole part Hd _|s Hd|s Hs]; simpl term_text; [by destruct b|done|..|done];
    destruct (digits_first _ Hd) as (c & s' & -> & Hc); by apply Hw.
Qed.

(** *** Comparisons *)

Lemma operator_app o rest : o ∈ operators →
  comparison_operator (o +:+ " " +:+ rest) = Some (o, " " +:+ rest).
Proof.
  intros Ho. unfold operators in Ho. set_unfold in Ho.
  destruct Ho as [->|[->|[->|[->|[->|[->|[]]]]]]]; reflexivity.
Qed.

Lemma operator_solid o rest : o ∈ operators → stops whitespace (o +:+ rest).
Proof.
  intros Ho. unfold operators in Ho. set_unfold in Ho.
  by destruct Ho as [->|[->|[->|[->|[->|[->|[]]]]]]].
Qed.

Lemma comparison_app c rest : comparison_ok c → ends rest →
  comparison (comparison_text c +:+ rest) = Some (c, rest).
Proof.
  intros (Hl & Ho & Hr) He. destruct c as [l o r]. unfold comparison, comparison_text. simpl in *.
  rewrite !append_assoc. rewrite term_app by done. simpl.
  rewrite skip_space by by apply operator_solid.
  rewrite operator_app by done. simpl. rewrite skip_space by by apply term_solid.
  by rewrite term_app.
Qed.

Lemma comparison_solid c rest : comparison_ok c → stops whitespace (comparison_text c +:+ rest).
Proof. intros (Hl & _). unfold comparison_text. rewrite append_assoc. by apply term_solid. Qed.

(** *** Operands *)

Section operands.
Context {A : Type} (sep : string) (p : Parser A) (text : A → string) (ok : A → Prop).
Context (follows : string → Prop).
Hypothesis Hparse : ∀ a rest, ok a → follows rest → p (text a +:+ rest) = Some (a, rest).
Hypothesis Hsolid : ∀ a rest, ok a → stops whitespace (text a +:+ rest).
Hypothesis Hsep : ∀ rest, follows (" " +:+ sep +:+ " " +:+ rest).
Hypothesis Hsep_solid : ∀ rest, stops whitespace (sep +:+ rest).

(** What ends the operands: no further one. *)
Definition finished (rest : string) : Prop :=
  follows rest ∧ strip_prefix sep (skip_whitespace rest) = None.

Lemma many_app l rest fuel : Forall ok l → finished rest → length l ≤ fuel →
  many fuel sep p (rest_text sep text l +:+ rest) = (l, rest).
Proof using Hparse Hsolid Hsep Hsep_solid.
  intros Hl [Hf Hs]. revert fuel. induction Hl as [|a l Ha Hl IH]; intros fuel Hle; cbn [rest_text].
  - change ("" +:+ rest) with rest. destruct fuel; [done|]. cbn [many]. by rewrite Hs.
  - destruct fuel as [|fuel]; [simpl in Hle; lia|]. cbn [many]. rewrite !append_assoc.
    rewrite skip_space by done. rewrite strip_prefix_app. cbn [mbind option_bind].
    rewrite skip_space by by apply Hsolid.
    rewrite Hparse; [|done|].
    + rewrite IH; [done|]. simpl in Hle. lia.
    + destruct l as [|b l]; cbn [rest_text]; [exact Hf|]. rewrite !append_assoc. apply Hsep.
Qed.

Lemma rest_text_length l : length l ≤ String.length (rest_text sep text l).
Proof.
  induction l as [|a l IH]; cbn [rest_text]; [simpl; lia|]. rewrite !string_length_app. simpl. lia.
Qed.

Lemma separated_app e rest : operands_ok ok e → finished rest →
  separated sep p (operands_text sep text e +:+ rest) = Some (e, rest).
Proof using Hparse Hsolid Hsep Hsep_solid.
  destruct e as [a l]. intros [Ha Hl] Hf. unfold separated, operands_text. cbn [fst snd] in *.
  rewrite append_assoc. rewrite Hparse; [|done|].
  - cbn [mbind option_bind]. rewrite many_app; [done..|]. rewrite string_length_app.
    pose proof (rest_text_length l). lia.
  - destruct l as [|b l]; cbn [rest_text]; [by destruct Hf|]. rewrite !append_assoc. apply Hsep.
Qed.

Lemma operands_solid e rest : operands_ok ok e → stops whitespace (operands_text sep text e +:+ rest).
Proof using Hsolid. intros [Ha _]. unfold operands_text. rewrite append_assoc. by apply Hsolid. Qed.
End operands.

(** What may follow a conjunction. *)
Definition after_and (rest : string) : Prop := rest = "" ∨ ∃ more, rest = " || " +:+ more.

Lemma and_app e rest : operands_ok comparison_ok e → after_and rest →
  logical_and (and_text e +:+ rest) = Some (e, rest).
Proof.
  intros He Hr. apply (separated_app "&&" comparison comparison_text comparison_ok ends);
    [by intros; apply comparison_app|by intros; apply comparison_solid|done|done|done|].
  destruct Hr as [->|[more ->]]; by split.
Qed.
Lemma and_solid e rest : operands_ok comparison_ok e → stops whitespace (and_text e +:+ rest).
Proof. apply operands_solid. by intros; apply comparison_solid. Qed.

(** C35. Context expressions are read as they are written: the text of every
    well-formed expression, with a space between its words, parses as that
    expression. *)
Theorem expression_round_trip (e : LogicalOr) :
  expression_ok e → parse_expression (expression_text e) = Some e.
Proof.
  intros He. unfold parse_expression.
  assert (logical_or (expression_text e +:+ "") = Some (e, "")) as E.
  { apply (separated_app "||" logical_and and_text (operands_ok comparison_ok) after_and);
      [by intros; apply and_app|by intros; apply and_solid| |done|done|].
    - intros rest. right. exists rest. done.
    - by split; [left|]. }
  rewrite append_empty in E. rewrite skip_solid, E; [done|].
  rewrite <- (append_empty (expression_text e)). apply operands_solid with (ok := operands_ok comparison_ok); [|done].
  by intros; apply and_solid.
Qed.

Definition sample_expression : LogicalOr :=
  ((mkComparison (Dimension_ "$vehicle_type") "==" (StringLiteral "'cab'"),
    [mkComparison (Dimension_ "$distance") ">=" (IntegerLiteral "50")]),
   [(mkComparison (Dimension_ "$city") "!=" (StringLiteral "'BLR'"), [])]).

Lemma expression_round_trip_witness :
  expression_text sample_expression = "$vehicle_type == 'cab' && $distance >= 50 || $city != 'BLR'" ∧
  parse_expression (expression_text sample_expression) = Some sample_expression.
Proof.
  assert (∀ s, chars s → comparison_ok (mkComparison (Dimension_ ("$" +:+ s)) "==" (StringLiteral "'cab'")))
    as Hc.
  { intros s Hs. split_and!; [by constructor|unfold operators; set_solver|]. by apply (string_ok "cab"). }
  split; [reflexivity|]. apply expression_round_trip. split; [split|]; simpl.
  - apply (Hc "vehicle_type"). by split.
  - constructor; [|constructor]. split_and!; [by apply (dimension_ok "distance")|unfold operators; set_solver|].
    by apply integer_ok.
  - constructor; [|constructor]. split; [|constructor]. simpl.
    split_and!; [by apply (dimension_ok "city")|unfold operators; set_solver|by apply (string_ok "BLR")].
Defined.

(** ** Resolution *)

(** *** What the items popped give a key *)

Definition given (key : string) (items : list ContextualOverride) : list TomlValue :=
  omap (λ item, toml_get (co_overrides item) key) items.

Lemma given_cons key item items :
  given key (item :: items) =
  match toml_get (co_overrides item) key with
  | Some v => v :: given key items
  | None => given key items
  end.
Proof. done. Qed.

Lemma last_cons_default {A} (v : A) l : last (v :: l) = Some (default v (last l)).
Proof. destruct l as [|w l]; [done|]. rewrite last_cons_cons. by destruct (last_is_Some (w :: l)) as [_ [x ->]]. Qed.

Lemma merge_items_lookup default_config items merged key :
  foldl (merge_item default_config) merged items !! key =
  match default_config !! key with
  | None => merged !! key
  | Some _ => match last (given key items) with Some v => Some v | None => merged !! key end
  end.
Proof.
  revert merged. induction items as [|item items IH]; intros merged.
  - simpl. by destruct (default_config !! key).
  - cbn [foldl]. rewrite IH, given_cons. unfold merge_item. rewrite lookup_union, map_lookup_imap.
    destruct (default_config !! key) as [d|] eqn:Hd; cbn [mbind option_bind].
    + destruct (toml_get (co_overrides item) key) as [v|].
      * rewrite last_cons_default. destruct (last (given key items)); [done|]. by destruct (merged !! key).
      * destruct (last (given key items)); [done|]. by destruct (merged !! key).
    + by destruct (merged !! key).
Qed.

(** In a sorted list the value of the highest priority comes last. *)
Lemma last_highest key items item v :
  StronglySorted (λ x y, co_priority x ≤ co_priority y)%Z items → item ∈ items →
  toml_get (co_overrides item) key = Some v →
  (∀ other w, other ∈ items → toml_get (co_overrides other) key = Some w →
     w = v ∨ (co_priority other < co_priority item)%Z) →
  last (given key items) = Some v.
Proof.
  intros Hs Hin Hv Hmax. induction items as [|x items IH]; [by apply not_elem_of_nil in Hin|].
  apply StronglySorted_inv in Hs as [Hs Hx]. rewrite given_cons. apply elem_of_cons in Hin as [<-|Hin].
  - rewrite Hv, last_cons_default. destruct (last (given key items)) as [w|] eqn:E; [|done]. simpl.
    apply last_Some_elem_of in E. unfold given in E.
    apply list_elem_of_omap in E as (other & Ho & Hw). rewrite Forall_forall in Hx.
    specialize (Hx other Ho). destruct (Hmax other w); [by right|done|by subst|lia].
  - assert (last (given key items) = Some v) as E.
    { apply IH; [done..|]. intros other w Ho. apply Hmax. by right. }
    destruct (toml_get (co_overrides x) key); [|done]. by rewrite last_cons_default, E.
Qed.

Lemma given_none key items : (∀ item, item ∈ items → toml_get (co_overrides item) key = None) →
  given key items = [].
Proof.
  intros Hn. induction items as [|x items IH]; [done|]. rewrite given_cons, Hn by by left.
  apply IH. intros item Hi. apply Hn. by right.
Qed.

(** *** The contexts that are chosen *)

Section chosen.
Context `{F64} `{BinaryHeap} `{!BinaryHeapOk _}.
Implicit Types (self : ContextAwareConfig) (dims : gmap string TomlValue).

(** The contexts of a file. *)
Definition contexts_of self : list (string * TomlValue) :=
  default [] (toml_get (ca_toml_value self) "context" ≫= as_table).

(** The override [item] of the context [expr] holds on [dims]. *)
Definition holds_in self dims (item : ContextualOverride) : Prop :=
  (co_expression item, co_overrides item) ∈ contexts_of self ∧
  ∃ e, parse_expression (co_expression item) = Some e ∧
    evaluate_context_expression dims e [] = Ok (TBoolean true, co_extracted_dimensions item) ∧
    compute_priority (co_extracted_dimensions item) (ca_dimension_priority self) =
      Ok (co_priority item).

Lemma choose_override_some self dims entry item :
  choose_override self dims entry = Ok (Some item) ↔
  entry = (co_expression item, co_overrides item) ∧
  ∃ e, parse_expression (co_expression item) = Some e ∧
    evaluate_context_expression dims e [] = Ok (TBoolean true, co_extracted_dimensions item) ∧
    compute_priority (co_extracted_dimensions item) (ca_dimension_priority self) =
      Ok (co_priority item).
Proof.
  unfold choose_override. destruct entry as [expr over]. cbn [fst snd]. split.
  - destruct (parse_expression expr) as [e|] eqn:Hp; [|done].
    destruct (evaluate_context_expression dims e []) as [[v ex]|m] eqn:He; [|done]. simpl.
    destruct v as [| | |[]| | |]; try done.
    destruct (compute_priority ex _) as [pr|m] eqn:Hc; [|done]. intros [= <-]. simpl. eauto 6.
  - intros ([= -> ->] & e & Hp & He & Hc). rewrite Hp, He. simpl. rewrite Hc. simpl. by destruct item.
Qed.

Lemma elem_of_chosen_overrides self dims chosen item : chosen_overrides self dims = Ok chosen →
  item ∈ chosen ↔ holds_in self dims item.
Proof.
  unfold chosen_overrides. intros Hc. apply result_bind_ok in Hc as (os & Hos & [= <-]).
  apply try_map_ok in Hos. fold (contexts_of self) in Hos. unfold holds_in.
  rewrite list_elem_of_omap. split.
  - intros (o & Ho & E). simpl in E. subst o. apply list_elem_of_lookup in Ho as [i Ho].
    destruct (Forall2_lookup_r _ _ _ _ _ Hos Ho) as (entry & He & Hch).
    apply choose_override_some in Hch as [-> Hch]. split; [by eapply list_elem_of_lookup_2|done].
  - intros [Hin Hch]. apply list_elem_of_lookup in Hin as [i He].
    destruct (Forall2_lookup_l _ _ _ _ _ Hos He) as (o & Ho & Hr).
    exists (Some item). split; [|done]. assert (o = Some item) as ->.
    { assert (choose_override self dims (co_expression item, co_overrides item) = Ok (Some item)) as E
        by by apply choose_override_some. congruence. }
    by eapply list_elem_of_lookup_2.
Qed.
End chosen.

(** The comparison of [ContextualOverride] is a total order, and the items come
    out of the heap from the lowest priority to the highest. *)
Lemma contextual_override_ord : TotalOrd contextual_override_cmp.
Proof.
  unfold contextual_override_cmp. split.
  - intros x y. apply Z.compare_antisym.
  - intros x y z. rewrite !Z.compare_lt_iff. lia.
Qed.

Lemma drained_ascending `{BinaryHeap} `{!BinaryHeapOk _} l :
  StronglySorted (λ x y, co_priority x ≤ co_priority y)%Z (heap_drain contextual_override_cmp l).
Proof.
  pose proof (heap_greatest_first contextual_override_cmp l contextual_override_ord) as Hs.
  induction Hs as [|x xs _ IH Hx]; constructor; [done|].
  eapply Forall_impl; [exact Hx|]. intros y. unfold contextual_override_cmp. rewrite Z.compare_lt_iff. lia.
Qed.

(** C34. Resolving a file that does not make the tool panic: the keys are those
    of its default section; a key has the value of a context that holds when
    every other context that holds and gives another value has a lower priority,
    by the reversed comparison of the overrides and a heap that gives the
    greatest first, and the default value when no context that holds gives
    one. *)
Theorem toml_resolution_cascades `{F64} `{BinaryHeap} `{!BinaryHeapOk _}
    (self : ContextAwareConfig) (dims r : gmap string TomlValue) :
  get_resolved_config self dims = Ok r →
  dom r = dom (ca_default_config self) ∧
  (∀ key item v, is_Some (ca_default_config self !! key) → holds_in self dims item →
     toml_get (co_overrides item) key = Some v →
     (∀ other w, holds_in self dims other → toml_get (co_overrides other) key = Some w →
        w = v ∨ (co_priority other < co_priority item)%Z) →
     r !! key = Some v) ∧
  (∀ key, (∀ item, holds_in self dims item → toml_get (co_overrides item) key = None) →
     r !! key = ca_default_config self !! key).
Proof.
  unfold get_resolved_config. intros Hr. apply result_bind_ok in Hr as (chosen & Hc & [= <-]).
  pose proof (heap_perm contextual_override_cmp chosen) as Hp. pose proof (drained_ascending chosen) as Hs.
  assert (∀ item, item ∈ heap_drain contextual_override_cmp chosen ↔ holds_in self dims item) as Hin.
  { intros item. rewrite Hp. by apply elem_of_chosen_overrides. }
  split_and!.
  - apply set_eq. intros key. rewrite !elem_of_dom, merge_items_lookup.
    destruct (ca_default_config self !! key); [|done]. by destruct (last _).
  - intros key item v [d Hd] Hi Hv Hmax. rewrite merge_items_lookup, Hd.
    rewrite (last_highest key _ item v); [done|done|by apply Hin|done|].
    intros other w Ho. apply Hmax. by apply Hin.
  - intros key Hn. rewrite merge_items_lookup, given_none.
    + by destruct (ca_default_config self !! key).
    + intros item Hi. by apply Hn, Hin.
Qed.

(** *** Panics *)

Section panics.
Context `{F64} `{BinaryHeap}.
Variables (priorities : gmap string Z) (dims : gmap string TomlValue).

(** A literal that can be read, and is not a truth value. *)
Definition readable (t : Term) : Prop :=
  match t with
  | StringLiteral _ => True
  | IntegerLiteral text => is_ok (parse_i64 text) = true
  | FloatLiteral text => is_Some (f64_parse text)
  | _ => False
  end.

(** A dimension of the file compared with a literal. *)
Definition simple_comparison (c : Comparison) : Prop :=
  (∃ name, cp_left c = Dimension_ ("$" +:+ name) ∧ is_Some (priorities !! name)) ∧
  cp_operator c ∈ operators ∧ readable (cp_right c).

Definition declared (name : string) : Prop := is_Some (priorities !! name).

(** Evaluation ends with a truth value, having seen dimensions of the file. *)
Definition decides {A} (ok : A → Prop) (eval : A → list string → result string (TomlValue * list string))
    : Prop := ∀ a ex, ok a → Forall declared ex →
  ∃ b ex', eval a ex = Ok (TBoolean b, ex') ∧ Forall declared ex'.

Lemma operator_value_ok o lt gt eq le ge : o ∈ operators →
  ∃ b, operator_value o lt gt eq le ge = Ok (TBoolean b).
Proof.
  intros Ho. unfold operators in Ho. set_unfold in Ho.
  destruct Ho as [->|[->|[->|[->|[->|[->|[]]]]]]]; by eexists.
Qed.

Lemma dimension_text name :
  String.substring 1 (String.length ("$" +:+ name) - 1) ("$" +:+ name) = name.
Proof.
  rewrite string_length_app. simpl. rewrite Nat.sub_0_r.
  induction name as [|c name IH]; [done|]. simpl. by f_equal.
Qed.

Lemma comparison_decides : map_Forall (λ _ v, ∃ s, v = TString s) dims →
  decides simple_comparison (evaluate_comparison dims).
Proof.
  intros Hd [l o r] ex ((name & Hl & Hn) & Ho & Hr) Hex. simpl in *. subst l.
  unfold evaluate_comparison. cbn [cp_left cp_right cp_operator evaluate_term].
  rewrite dimension_text. cbn [mbind result_bind].
  assert (Forall declared (ex ++ [name])) as Hex' by by apply Forall_app; repeat constructor.
  destruct (dims !! name) as [v|] eqn:Hv; simpl.
  - apply Hd in Hv as [s ->]. destruct r as [text|text|text|text|text]; try done; simpl in *.
    + edestruct operator_value_ok as [b Hb]; [exact Ho|]. unfold compare_strings. rewrite Hb. simpl. eauto.
    + destruct Hr as [f ->]. simpl. edestruct operator_value_ok as [b Hb]; [exact Ho|].
      unfold compare_floats. rewrite Hb. simpl. eauto.
    + destruct (parse_i64 text); [|done]. simpl. edestruct operator_value_ok as [b Hb]; [exact Ho|].
      unfold compare_integers. rewrite Hb. simpl. eauto.
  - destruct r as [text|text|text|text|text]; try done; simpl in *; [eauto|destruct Hr as [f ->]; simpl; eauto|].
    destruct (parse_i64 text); [|done]. simpl. eauto.
Qed.

Lemma operands_decide {A} (ok : A → Prop) eval op message : decides ok eval →
  decides (operands_ok ok) (evaluate_operands eval op message).
Proof.
  intros He [a l] ex [Ha Hl] Hex. unfold evaluate_operands. cbn [fst snd] in *.
  destruct (He a ex Ha Hex) as (b & ex' & -> & Hex'). cbn [mbind result_bind].
  clear Ha Hex. revert b ex' Hex'. induction Hl as [|a' l Ha Hl IH]; intros b ex' Hex'; [simpl; eauto|].
  cbn [combine_operands]. destruct (He a' ex' Ha Hex') as (b' & ex'' & -> & Hex'').
  cbn [mbind result_bind]. by apply IH.
Qed.

Lemma priority_defined ex : Forall declared ex → is_ok (compute_priority ex priorities) = true.
Proof.
  intros Hex. unfold compute_priority. generalize 0%Z as p.
  induction Hex as [|name ex [q Hq] Hex IH]; intros p; [done|]. simpl. rewrite Hq. simpl. apply IH.
Qed.
End panics.

(** The tool does not panic on a file whose expressions compare dimensions
    of the file with texts and numbers that can be read, whatever texts a
    request gives for dimensions: every request is resolved. *)
Theorem toml_resolution_total `{F64} `{BinaryHeap} (self : ContextAwareConfig)
    (dims : gmap string TomlValue) :
  map_Forall (λ _ v, ∃ s, v = TString s) dims →
  (∀ entry e, entry ∈ contexts_of self → parse_expression entry.1 = Some e →
     operands_ok (operands_ok (simple_comparison (ca_dimension_priority self))) e) →
  ∃ r, get_resolved_config self dims = Ok r.
Proof.
  intros Hd He. assert (∃ chosen, chosen_overrides self dims = Ok chosen) as [chosen Hc].
  { unfold chosen_overrides. fold (contexts_of self).
    induction (contexts_of self) as [|entry l IH]; [by eexists|]. cbn [try_map].
    assert (∃ o, choose_override self dims entry = Ok o) as [o ->].
    { unfold choose_override. destruct (parse_expression entry.1) as [e|] eqn:Hp; [|by eexists].
      destruct (operands_decide _ _ _ orb "OR operation requires boolean values"
        (operands_decide _ _ _ andb "AND operation requires boolean values"
          (comparison_decides (ca_dimension_priority self) dims Hd)) e [])
        as (b & ex & E & Hex); [by apply (He entry); [left|]|done|].
      assert (evaluate_context_expression dims e [] = Ok (TBoolean b, ex)) as -> by exact E.
      simpl. destruct b; [|by eexists].
      pose proof (priority_defined _ _ Hex). destruct (compute_priority _ _); [by eexists|done]. }
    destruct IH as [chosen Hc]; [by intros; eapply He; [right|]|].
    apply result_bind_ok in Hc as (os & Hos & _). simpl. rewrite Hos. simpl. by eexists. }
  unfold get_resolved_config. rewrite Hc. by eexists.
Qed.

(** ** A file *)

#[local] Instance no_floats : F64 :=
  {| f64_parse _ := None; f64_lt _ _ := false; f64_le _ _ := false; f64_eq _ _ := false |}.

#[local] Instance sorting_heap : BinaryHeap := λ A cmp, merge_sort (λ x y, cmp x y ≠ Lt).
#[local] Instance sorting_heap_ok : BinaryHeapOk sorting_heap.
Proof.
  split; intros A cmp l; [apply merge_sort_Permutation|]. intros [Hdual Htrans].
  apply StronglySorted_merge_sort; [exact Htrans|].
  intros x y. rewrite Hdual. destruct (cmp y x); cbn; auto.
Qed.

Definition section_of (entries : list (string * TomlValue)) : TomlValue := TTable entries.
Definition default_entry (v : TomlValue) : TomlValue :=
  TTable [("value", v); ("schema", TTable [("type", TString "integer")])].
Definition dimension_entry : TomlValue := TTable [("schema", TTable [("type", TString "string")])].

Definition toml_file (contexts : list (string * TomlValue)) : TomlValue :=
  TTable [("default-config", TTable [("fare", default_entry (TInteger 20)); ("tip", default_entry (TInteger 0))]);
          ("dimensions", TTable [("city", dimension_entry); ("vehicle", dimension_entry)]);
          ("context", TTable contexts)].

Definition fares : TomlValue := toml_file
  [("$vehicle == 'cab'", TTable [("fare", TInteger 25)]);
   ("$city == 'BLR'", TTable [("fare", TInteger 30); ("tip", TInteger 1)])].

Definition loaded (file : TomlValue) : ContextAwareConfig :=
  default (mkContextAwareConfig ∅ ∅ file) (check file).
Definition request (pairs : list (string * string)) : gmap string TomlValue :=
  TString <$> list_to_map pairs.
Definition both : gmap string TomlValue := request [("city", "BLR"); ("vehicle", "cab")].

(** The dimension declared later weighs more. *)
Example fares_resolved : is_Some (check fares) ∧
  get_resolved_config (loaded fares) both = Ok {[ "fare" := TInteger 25; "tip" := TInteger 1 ]}.
Proof. split; [by eexists|by vm_compute]. Qed.

Lemma fare_contexts_simple entry e : entry ∈ contexts_of (loaded fares) →
  parse_expression entry.1 = Some e →
  operands_ok (operands_ok (simple_comparison (ca_dimension_priority (loaded fares)))) e.
Proof.
  assert (∀ name text, is_Some (ca_dimension_priority (loaded fares) !! name) →
    simple_comparison (ca_dimension_priority (loaded fares))
      (mkComparison (Dimension_ ("$" +:+ name)) "==" (StringLiteral text))) as Hs.
  { intros name text Hn. split_and!; [by exists name|unfold operators; set_solver|done]. }
  unfold contexts_of, loaded. simpl. intros Hin. set_unfold in Hin.
  destruct Hin as [->|[->|[]]]; vm_compute parse_expression; intros [= <-]; (split; [split|constructor]);
    [|constructor| |constructor].
  - apply (Hs "vehicle"). by eexists.
  - apply (Hs "city"). by eexists.
Qed.

Lemma toml_resolution_total_witness :
  ∃ r, get_resolved_config (loaded fares) both = Ok r.
Proof.
  apply (toml_resolution_total (loaded fares) both).
  - intros name v Hv. unfold both, request in Hv. apply lookup_fmap_Some in Hv as (s & <- & _). by exists s.
  - exact fare_contexts_simple.
Defined.

Lemma toml_resolution_cascades_witness :
  ∃ r, get_resolved_config (loaded fares) both = Ok r ∧ dom r = dom (ca_default_config (loaded fares)).
Proof.
  exists {[ "fare" := TInteger 25; "tip" := TInteger 1 ]}.
  assert (get_resolved_config (loaded fares) both =
    Ok {[ "fare" := TInteger 25; "tip" := TInteger 1 ]}) as E by (vm_compute; reflexivity).
  split; [exact E|]. exact (proj1 (toml_resolution_cascades (loaded fares) both _ E)).
Defined.

(** A file is accepted whose expressions use dimensions that it does not
    declare: resolving panics once one holds. *)
Example undeclared_dimension_panics :
  let file := toml_file [("$city == 'BLR' && $rider == 'x'", TTable [("fare", TInteger 30)])] in
  is_Some (check file) ∧
  get_resolved_config (loaded file) (request [("city", "BLR"); ("rider", "x")]) =
    Err "called `Option::unwrap()` on a `None` value".
Proof. split; [by eexists|by vm_compute]. Qed.

(** A dimension that a request leaves out is a truth value: compared with a
    text on its left, it panics; on the left of one it does not hold. *)
Example missing_dimension_panics :
  let file := toml_file [("'BLR' == $city", TTable [("fare", TInteger 30)])] in
  is_Some (check file) ∧
  get_resolved_config (loaded file) (request []) = Err "Comparison between non-numeric values".
Proof. split; [by eexists|by vm_compute]. Qed.

(** A dimension counts as often as it is named: three comparisons with the lighter
    [city] come before the heavier [vehicle]. *)
Definition repeated : TomlValue := toml_file
  [("$vehicle == 'cab'", TTable [("fare", TInteger 25)]);
   ("$city == 'BLR' || $city == 'DEL' || $city == 'BOM'", TTable [("fare", TInteger 30)])].
Example repeated_dimension_outweighs :
  is_Some (check repeated) ∧
  get_resolved_config (loaded repeated) both = Ok {[ "fare" := TInteger 30; "tip" := TInteger 0 ]}.
Proof. split; [by eexists|by vm_compute]. Qed.
