(* ===== verification/Polling.v ===== *)
(** * The polling clients

    [crates/experimentation_client/src/lib.rs]: the client that keeps the
    experiments and the groups it last fetched, its poll and its methods; and
    of [crates/cac_client/src/lib.rs] how a client is made, what it asks the
    server and the factory. Every method holds the locks it needs from its
    first read to its last write, so a method is one step. Times are in
    nanoseconds; a header carries seconds. *)

From S2P Require Import Prelude Pages Stack Json Types Text Effects Logic Config Resolve ExpModels Bucketing CacClient ExpChecks CacStore CacConfig CacServing CacQueries Store Groups Experiments Queries.

(** ** The factory of both crates *)

(** A client is shared by everyone who asks for its tenant, so the clients are
    kept in one map and named by their tenant. *)
Definition Factory (C : Type) : Type := gmap string C.

Section factory.
Context {C : Type}.

(** [new] is not tried when the tenant has a client. *)
Definition create_client (tenant : string) (new : result string C) (factory : Factory C)
    : result string C * Factory C :=
  match factory !! tenant with
  | Some client => (Ok client, factory)
  | None =>
      match new with
      | Ok client => (Ok client, <[tenant := client]> factory)
      | Err e => (Err e, factory)
      end
  end.

Definition get_client (tenant : string) (factory : Factory C) : result string C :=
  match factory !! tenant with
  | Some client => Ok client
  | None => Err "No such tenant found"
  end.
End factory.

(** ** The client of experiments *)

Record ExpClientConfig : Type := mkExpClientConfig {
  ec_tenant : string;
  ec_hostname : string;
  ec_poll_frequency : N;
}.

Record ExpClient : Type := mkExpClient {
  xc_config : ExpClientConfig;
  xc_experiments : gmap string ExperimentResponse;
  xc_groups : gmap string ExperimentGroup;
  xc_last_polled : Z;
}.

(** 2023-01-01T00:00:00Z. *)
Definition initial_last_polled : Z := (1672531200 * 10 ^ 9)%Z.

Definition exp_client_new (config : ExpClientConfig) : ExpClient :=
  mkExpClient config ∅ ∅ initial_last_polled.

(** What the transport hands over: its error, or a status with what the body
    reads as. *)
Inductive PollAnswer (B : Type) : Type :=
  | PollFailed (message : string)
  | PollAnswered (status : Z) (body : result string B).
Arguments PollFailed {B} _.
Arguments PollAnswered {B} _ _.

Definition answer_body `{StatusText} {B} (tenant : string) (answer : PollAnswer B) : result string B :=
  match answer with
  | PollFailed message => Err message
  | PollAnswered status body =>
      if bool_decide (status = 304%Z) then
        Err (tenant +:+ " EXP: skipping update, remote not modified")
      else if bool_decide (status = 200%Z) then body
      else Err (tenant +:+ " CAC: fetch failed, status: " +:+ status_to_string status)
  end.

(** What [get_experiments] asks for. *)
Definition experiments_filter : ExperimentListFilters :=
  mkListFilters (Some ExperimentStatusType.active_list) None None None None None None None None None None.

Definition get_experiments `{StatusText} (tenant : string) (answer : PollAnswer (Paginated ExperimentResponse))
    : result string (gmap string ExperimentResponse) :=
  response ← answer_body tenant answer;
  Ok (collect_map ((λ exp, (r_id exp, exp)) <$> pr_data response)).

Definition get_experiment_groups `{StatusText} (tenant : string) (answer : PollAnswer (Paginated ExperimentGroup))
    : result string (gmap string ExperimentGroup) :=
  response ← answer_body tenant answer;
  Ok (collect_map ((λ g, (pretty (g_id g), g)) <$> pr_data response)).

(** The [If-Modified-Since] of a poll: [to_rfc2822] has no fraction of a
    second. *)
Definition poll_since (client : ExpClient) : Z := nanosecond_erasure (xc_last_polled client).

(** One turn of [run_polling_updates]: the lines logged and the client
    afterwards. [now] is the time after both answers. *)
Definition poll `{StatusText} (now : Z) (experiments : PollAnswer (Paginated ExperimentResponse))
    (groups : PollAnswer (Paginated ExperimentGroup)) (client : ExpClient)
    : list string * ExpClient :=
  let tenant := ec_tenant (xc_config client) in
  match get_experiments tenant experiments, get_experiment_groups tenant groups with
  | Ok experiments, Ok experiment_groups =>
      ([], mkExpClient (xc_config client) experiments experiment_groups now)
  | Err e, Ok _ =>
      (["Failed to fetch experiments from the server with error: " +:+ e], client)
  | Ok _, Err e =>
      (["Failed to fetch experiment groups from the server with error: " +:+ e], client)
  | Err exp_err, Err group_err =>
      (["Failed to fetch experiments: " +:+ exp_err;
        "Failed to fetch experiment groups: " +:+ group_err], client)
  end.

Section methods.
Context {O : MapOrder} {JL : JsonLogic}.

Definition exp_get_applicable_variant (fuel : nat) (client : ExpClient)
    (dimensions_info : gmap string DimensionInfo) (context : Map) (identifier : string)
    (prefix : option (list string)) : option (list string) :=
  client_get_applicable_variant fuel (xc_experiments client) (xc_groups client) dimensions_info
    context identifier prefix.

Definition exp_get_satisfied_experiments (client : ExpClient) (context : Map)
    (prefix : option (list string)) : list ExperimentResponse :=
  client_get_satisfied_experiments (map_order (xc_experiments client)).*2 context prefix.

Definition exp_get_filtered_satisfied_experiments (client : ExpClient) (context : Map)
    (prefix : option (list string)) : list ExperimentResponse :=
  client_get_filtered_satisfied_experiments (map_order (xc_experiments client)).*2 context prefix.

Definition get_running_experiments (client : ExpClient) : list ExperimentResponse :=
  (map_order (xc_experiments client)).*2.
End methods.

(** *** What the server answers a poll *)

(** The status and the body of an answer of the service. The body is read as
    what was sent: both sides derive it from the same type. *)
Definition served_list (answer : Result ListAnswer) : PollAnswer (Paginated ExperimentResponse) :=
  match answer with
  | Ok NotModified => PollAnswered 304 (Err "EOF while parsing a value")
  | Ok (Listed response) => PollAnswered 200 (Ok response)
  | Err e => PollAnswered (AppError.error_response e).1 (Err "missing field `total_pages`")
  end.

Definition served_groups (answer : Result (Paginated ExperimentGroup))
    : PollAnswer (Paginated ExperimentGroup) :=
  match answer with
  | Ok response => PollAnswered 200 (Ok response)
  | Err e => PollAnswered (AppError.error_response e).1 (Err "missing field `total_pages`")
  end.

Definition no_group_filter : ExpGroupFilters := mkGroupFilters None None None None None None.

Section polling.
Context `{StatusText} `{RowOrder} `{MapOrder} `{JsonLogic} `{TimeText} `{SqlLike} `{Collation}.

(** A poll that the server answers in the state [w], where the last event on
    the experiments has the time [max_event_timestamp]. *)
Definition poll_server (now : Z) (max_event_timestamp : option Z) (w : World) (client : ExpClient)
    : list string * ExpClient :=
  poll now
    (served_list (list_handler max_event_timestamp (Some (poll_since client))
      PaginationParams.all_entries experiments_filter ∅ w).1)
    (served_groups (group_list_handler PaginationParams.all_entries no_group_filter w).1) client.
End polling.

(** ** The client of configurations *)

(** [reqwest]'s [is_client_error]. *)
Definition is_client_error (status : Z) : bool := bool_decide (400 ≤ status < 500)%Z.

(** [Client::new]: the time defaults to [UNIX_EPOCH]. *)
Definition cac_client_new (tenant : string) (response : FetchOutcome) : result string Client :=
  match response with
  | SendError message => Err message
  | Fetched status last_modified_at body =>
      if is_client_error status then Err "Invalid tenant"
      else config ← body; Ok (new_client tenant (default 0%Z last_modified_at) config)
  end.

(** The request of the client: no version, no prefix and no dimensions. *)
Definition client_request (if_modified_since : option Z) : ServeRequest :=
  mkServeRequest GET if_modified_since None ∅.
Definition client_query : ConfigQuery := mkConfigQuery None None.

(** The header [last-modified] of an answer as the client reads it, which
    takes RFC 2822, without a fraction of a second, and nothing else. *)
Definition get_last_modified (header : option LastModified) : option Z :=
  match header with
  | Some (Rfc2822 time) => Some (nanosecond_erasure time)
  | _ => None
  end.

Definition served_config (answer : Result (Served Config)) : FetchOutcome :=
  match answer with
  | Ok Unmodified => Fetched 304 None (Err "EOF while parsing a value")
  | Ok (Fresh response) =>
      Fetched 200 (get_last_modified (rp_last_modified response)) (Ok (rp_body response))
  | Err e => Fetched (AppError.error_response e).1 None (Err "missing field `contexts`")
  end.

Section configurations.
Context `{CacEnv} `{JsonParse} `{MapOrder} `{RowOrder} `{JsonLogic}.

(** What the server answers in the state [w]. *)
Definition config_answer (settings : Settings) (since : option Z) (w : CacWorld) : FetchOutcome :=
  served_config (config_get_handler settings (client_request since) client_query w).1.

(** The request of [fetch]. *)
Definition fetch_answer (settings : Settings) (self : Client) (w : CacWorld) : FetchOutcome :=
  config_answer settings (Some (nanosecond_erasure (cl_last_modified self))) w.
End configurations.
