(* ===== verification/PollingClaims.v ===== *)
(** * Theorems on the clients *)

From S2P Require Import Prelude Pages Stack Json Types Text Effects Logic LogicProps Config Resolve ExpModels Bucketing BucketAlloc BucketingProps Samples CacClient ExpChecks CacStore CacConfig Contexts Dimensions DefaultConfigs Functions CacServing CacQueries CacService DimSpec CacInv CacProps CacGenerated CacChanges CacServingProps Store Groups Experiments Queries Service Reallocation Spec Refine RefineExperiments ServiceProps ServerSamples QueryClaims CacReduceClaims Polling.

(** The client resolves like the core library: [eval_cac] of cac_client and
    [eval_config] of superposition_core return the same on every configuration
    and request, and so do their variants with reasoning. *)
Theorem eval_cac_agrees_with_core {JL : JsonLogic} {O : MapOrder} fuel (config : Config) (q : Map)
    (strategy : MergeStrategy) :
  eval_cac fuel config q strategy =
    eval_config fuel (default_configs config) (contexts config) (overrides config)
      (dimensions config) q strategy None ∧
  eval_cac_with_reasoning fuel config q strategy =
    eval_config_with_reasoning fuel (default_configs config) (contexts config) (overrides config)
      (dimensions config) q strategy None.
Proof. apply eval_cac_eval_config. Qed.

(** A configuration with one context, on the string ["1"]. *)
Definition one_config : Config :=
  mkConfig [mkContext "c" {[ "clientId" := str "1" ]} 0 0 "o"] {[ "o" := {[ "fee" := VBool true ]} ]}
    {[ "fee" := VBool false ]} ∅.

Definition one_client : Client := new_client "t" 0 one_config.

#[local] Instance plain_status : StatusText := λ status, pretty status.

(** The client once the request on the string was answered. *)
Definition hit_client : Client :=
  mkClient "t" 0 one_config {[ "clientId:1$?merge?null" := {[ "fee" := VBool true ]} ]}.

(** C32. The cache is sound up to its key: in every state the client can reach
    by resolving, polling and evicting, what [get_resolved_config] returns is
    the resolution under the configuration currently held of some request with
    the same cache key; in particular a stale configuration never answers. *)
Theorem cached_resolution_sound {JL : JsonLogic} {O : MapOrder} {FT : FloatText} {ST : StatusText} fuel
    tenant lm config (self : Client) q keys strategy value self' :
  rtc (client_step fuel) (new_client tenant lm config) self →
  CacClient.get_resolved_config fuel self q keys strategy = Some (Ok value, self') →
  ∃ q' keys' strategy', cache_key q' keys' strategy' = cache_key q keys strategy ∧
    eval_cac fuel (keyed_config (cl_config self) keys') q' strategy' = Some (Ok value).
Proof.
  intros Hreach Hr.
  assert (cache_sound fuel self) as Hs.
  { eapply cache_sound_reachable; [done|]. intros k v. simpl. by rewrite lookup_empty. }
  unfold CacClient.get_resolved_config in Hr.
  destruct (cl_config_cache self !! cache_key q keys strategy) as [v|] eqn:Hk.
  - simplify_eq. by apply Hs.
  - apply bind_Some in Hr as ([v|e] & Hev & Hr); simplify_eq. by exists q, keys, strategy.
Qed.

Lemma cached_resolution_sound_witness :
  ∃ q' keys' strategy',
    cache_key (H:=sample_float_text) q' keys' strategy' =
      cache_key (H:=sample_float_text) {[ "clientId" := str "1" ]} None MERGE ∧
    eval_cac (O:=list_order) (JL:=jl_equals) 0 (keyed_config one_config keys') q' strategy' =
      Some (Ok {[ "fee" := VBool true ]}).
Proof.
  apply (cached_resolution_sound (JL:=jl_equals) (O:=list_order) (FT:=sample_float_text) 0 "t" 0
    one_config one_client {[ "clientId" := str "1" ]} None MERGE {[ "fee" := VBool true ]} hit_client);
    [apply rtc_refl|vm_compute; reflexivity].
Defined.

(** The cache key does not tell a string from the number it spells: after
    a request with the dimension ["1"], the request with the dimension [1] is
    answered from the cache with a resolution that is not its own. *)
Theorem cache_key_collides {FT : FloatText} :
  ∃ self value value',
    CacClient.get_resolved_config (O:=list_order) (JL:=jl_equals) 0 one_client
      {[ "clientId" := str "1" ]} None MERGE = Some (Ok value, self) ∧
    CacClient.get_resolved_config (O:=list_order) (JL:=jl_equals) 0 self
      {[ "clientId" := num 1 ]} None MERGE = Some (Ok value, self) ∧
    eval_cac (O:=list_order) (JL:=jl_equals) 0 one_config
      {[ "clientId" := num 1 ]} MERGE = Some (Ok value') ∧
    value ≠ value'.
Proof.
  exists hit_client, {[ "fee" := VBool true ]}, {[ "fee" := VBool false ]}.
  split; [vm_compute; reflexivity|]. split; [vm_compute; reflexivity|].
  split; [vm_compute; reflexivity|]. intros H%(f_equal (lookup "fee")). discriminate H.
Qed.

(** The canonical text ignores the order of arrays, at any depth, and of
    the entries of objects: conditions that differ in it have the same id. *)
Theorem canonical_text_ignores_order {FT : FloatText} (v w : Value) :
  array_perm v w → json_to_sorted_string v = json_to_sorted_string w.
Proof.
  revert w. induction v as [| | | |l IH|m IH] using Value_ind'; intros w Hw; inversion Hw; subst;
    try done; simpl.
  - f_equal. rewrite <-(sort_strings_perm (map json_to_sorted_string l1) (map json_to_sorted_string l')).
    + f_equal. match goal with H : Forall2 _ l l1 |- _ => rename H into Hl end. clear Hw.
      clear -IH Hl. induction Hl as [|x y l l1 Hxy _ IHl]; [done|].
      apply Forall_cons in IH as [IHx IHr]. simpl. f_equal; [by apply IHx|by apply IHl].
    + by apply Permutation_map.
  - do 2 f_equal. apply map_eq. intros k. rewrite !lookup_fmap.
    match goal with H : ∀ k, option_Forall2 _ (m !! k) _ |- _ => specialize (H k); inversion H as [x y Hxy Hx Hy|Hx Hy] end;
      [|done]. simpl. f_equal. by apply (IH k x).
Qed.

Lemma canonical_text_ignores_order_witness :
  json_to_sorted_string (H:=sample_float_text) (VArray [str "b"; str "a"]) =
  json_to_sorted_string (H:=sample_float_text) (VArray [str "a"; str "b"]).
Proof.
  apply (canonical_text_ignores_order (VArray [str "b"; str "a"]) (VArray [str "a"; str "b"])).
  apply (ap_array _ [str "b"; str "a"]); [repeat constructor|apply perm_swap].
Defined.

(** * Theorems on the polling clients *)

(** ** A client and the server it polls *)

Section polled.
Context `{CacEnv} `{JsonParse} `{FloatText} `{Blake3} `{MapOrder} {Ook : MapOrderOk _}.
Context `{ConfigText} `{JsonText} `{JsonSchema} `{RegexEngine} `{JsonLogicVariables} `{DebugText}.
Context `{RowOrder} {Rok : RowOrderOk _} `{JsonLogic} `{StatusText}.

(** The tables, the client and the answer it has yet to take in; the client
    polls from one loop. *)
Record Polled : Type := mkPolled {
  pl_world : CacWorld;
  pl_client : Client;
  pl_pending : option FetchOutcome;
}.

(** Calls are served, whoever makes them, and the client is used at any time.
    An answer is taken in later, or lost on its way. *)
Inductive polled_step (settings : Settings) : Polled → Polled → Prop :=
  | pl_serve c w cl p :
      versioning c →
      polled_step settings (mkPolled w cl p) (mkPolled (cac_serve c w).2 cl p)
  | pl_fetch w cl :
      polled_step settings (mkPolled w cl None) (mkPolled w cl (Some (fetch_answer settings cl w)))
  | pl_lost w cl answer message :
      polled_step settings (mkPolled w cl (Some answer)) (mkPolled w cl (Some (SendError message)))
  | pl_update w cl answer :
      polled_step settings (mkPolled w cl (Some answer)) (mkPolled w (update_cac cl answer).2 None)
  | pl_use fuel w cl p q keys strategy res cl' :
      CacClient.get_resolved_config fuel cl q keys strategy = Some (res, cl') →
      polled_step settings (mkPolled w cl p) (mkPolled w cl' p).

(** The client is made when some calls have been served. *)
Definition polled_start (settings : Settings) (s : Polled) : Prop :=
  ∃ cs tenant, Forall versioning cs ∧ pl_world s = cac_serve_all cs fresh_workspace ∧
    pl_pending s = None ∧
    cac_client_new tenant (config_answer settings None (pl_world s)) = Ok (pl_client s).

(** The configuration of a version stored, with its second, or nothing known
    of its time. *)
Definition known (w : CacWorld) (config : Config) (time : Z) : Prop :=
  time = 0%Z ∨ ∃ i v, k_versions w !! i = Some v ∧ config = cv_config v ∧
    time = nanosecond_erasure (cv_created_at v).

Record polled_inv (s : Polled) : Prop := {
  pi_world : ∃ cs, Forall versioning cs ∧ pl_world s = cac_serve_all cs fresh_workspace;
  pi_client : known (pl_world s) (cl_config (pl_client s)) (cl_last_modified (pl_client s));
  pi_pending status time config : pl_pending s = Some (Fetched status time (Ok config)) →
    known (pl_world s) config (default (cl_last_modified (pl_client s)) time);
}.

Context (clock : ∀ n m, n < m → (cac_now n < cac_now m)%Z).
Context (settings : Settings) (unpinned : st_config_version settings = None).

(** What an unpinned request for the whole configuration is answered. *)
Lemma config_answer_cases cs since :
  let w := cac_serve_all cs fresh_workspace in
  Forall versioning cs →
  (∃ v t, latest w v ∧ since = Some t ∧
     (nanosecond_erasure (cv_created_at v) ≤ nanosecond_erasure t)%Z ∧
     ∃ body, config_answer settings since w = Fetched 304 None (Err body)) ∨
  (∃ config, generates w config ∧
     (k_versions w = ∅ ∧ config_answer settings since w = Fetched 200 None (Ok config) ∨
      ∃ v, latest w v ∧ config = cv_config v ∧
        config_answer settings since w =
          Fetched 200 (Some (nanosecond_erasure (cv_created_at v))) (Ok config))).
Proof using Ook Rok clock unpinned.
  intros w Hcs. pose proof (up_to_date_serve_all clock cs _ Hcs up_to_date_fresh) as Hu. fold w in Hu.
  destruct (cac_reachable_good cs) as (G & _ & _ & _). fold w in G.
  pose proof (generate_cac_ok _ _ _ G) as Hg.
  set (cfg := generated_config (k_contexts w) (k_default_configs w) (k_dimensions w)) in Hg.
  destruct (generate_latest w cfg Hu Hg) as [version Hlatest].
  destruct (max_created_at w) as (o & Hmax & Ho).
  unfold config_answer, config_get_handler, mbind, ST_bind, lift. rewrite Hmax.
  destruct (is_not_modified o (client_request since)) eqn:Hmod.
  - left. unfold is_not_modified in Hmod. cbn in Hmod.
    destruct o as [m|]; [|done]. destruct since as [t|]; [|done]. cbn in Hmod.
    apply bool_decide_eq_true in Hmod. destruct Ho as (v & Hv & ->). exists v, t. eauto.
  - right. exists cfg. split; [exact Hg|]. unfold get_config_version. cbn [cq_version client_query].
    rewrite unpinned. cbn [lift]. rewrite Hlatest. cbn.
    destruct o as [m|]; [right|by left]. destruct Ho as (v & Hv & ->). exists v.
    split_and!; [done| |done]. pose proof (latest_current _ Hu v Hv) as Hc.
    unfold generates in Hc. rewrite Hg in Hc. by injection Hc.
Qed.

Lemma cac_serve_all_snoc cs c w :
  cac_serve_all (cs ++ [c]) w = (cac_serve c (cac_serve_all cs w)).2.
Proof. revert w. induction cs as [|c' cs IH]; intros w; [done|]. apply IH. Qed.

Lemma known_grows w w' config time :
  k_versions w ⊆ k_versions w' → known w config time → known w' config time.
Proof.
  intros Hgrow [->|(i & v & Hv & -> & ->)]; [by left|right].
  exists i, v. split_and!; [by eapply lookup_weaken|done..].
Qed.

Lemma answer_known cs since time status lm config :
  let w := cac_serve_all cs fresh_workspace in
  Forall versioning cs → (k_versions w = ∅ → time = 0%Z) →
  config_answer settings since w = Fetched status lm (Ok config) → known w config (default time lm).
Proof using Ook Rok clock unpinned.
  intros w Hcs Ht Ha.
  destruct (config_answer_cases cs since Hcs) as [(v & t & _ & _ & _ & body & Hb)|(cfg & _ & Hc)];
    [fold w in Hb; congruence|].
  destruct Hc as [[Hempty Hc]|(v & [[i Hi] _] & -> & Hc)]; fold w in Hc; rewrite Hc in Ha; simplify_eq; cbn.
  - left. by apply Ht.
  - right. by exists i, v.
Qed.

Lemma polled_inv_start s : polled_start settings s → polled_inv s.
Proof using Ook Rok clock unpinned.
  intros (cs & tenant & Hcs & Hw & Hp & Hnew). unfold cac_client_new in Hnew.
  destruct (config_answer settings None (pl_world s)) as [|status lm body] eqn:Ha; [done|].
  destruct (is_client_error status); [done|]. destruct body as [config|e]; [|done].
  injection Hnew as Hcl. rewrite Hw in Ha. split.
  - by exists cs.
  - rewrite <-Hcl, Hw. cbn. by eapply answer_known.
  - intros ? ? ?. by rewrite Hp.
Qed.

Lemma known_client cs config time :
  known (cac_serve_all cs fresh_workspace) config time →
  k_versions (cac_serve_all cs fresh_workspace) = ∅ → time = 0%Z.
Proof. intros [?|(i & v & Hv & _)] He; [done|]. by rewrite He, lookup_empty in Hv. Qed.

Lemma polled_inv_step s s' : polled_step settings s s' → polled_inv s → polled_inv s'.
Proof using Ook Rok clock unpinned.
  intros Hstep [(cs & Hcs & Hw) Hc Hp]. destruct Hstep as
    [c w cl p Hver|w cl|w cl answer message|w cl answer|fuel w cl p q keys strategy res cl' Hr];
    cbn in *.
  - assert (k_versions w ⊆ k_versions (cac_serve c w).2) as Hgrow by apply versions_grow.
    split; cbn.
    + exists (cs ++ [c]). rewrite Forall_app, Forall_singleton. split; [done|].
      by rewrite cac_serve_all_snoc, <-Hw.
    + by eapply known_grows.
    + intros ? ? ? ?. eapply known_grows; [done|]. by eapply Hp.
  - split; cbn; [by exists cs|done|]. intros status time config [= Ha]. subst w.
    eapply answer_known; [done| |exact Ha]. by eapply known_client.
  - split; cbn; [by exists cs|done|]. done.
  - unfold update_cac. destruct answer as [message|status time body]; cbn.
    { split; cbn; [by exists cs|done|done]. }
    case_bool_decide; [split; cbn; [by exists cs|done|done]|].
    case_bool_decide; [|split; cbn; [by exists cs|done|done]].
    destruct body as [config|e]; (split; cbn; [by exists cs| |done]); [|done].
    by eapply Hp.
  - assert (cl_config cl' = cl_config cl ∧ cl_last_modified cl' = cl_last_modified cl) as [Hcfg Hlm].
    { unfold CacClient.get_resolved_config in Hr. case_match; [by simplify_eq|].
      apply bind_Some in Hr as ([v|e] & _ & Hr); by simplify_eq. }
    split; cbn; [by exists cs|by rewrite Hcfg, Hlm|]. rewrite Hlm. exact Hp.
Qed.

Lemma polled_inv_reachable s s' :
  rtc (polled_step settings) s s' → polled_start settings s → polled_inv s'.
Proof using Ook Rok clock unpinned.
  intros Hr Hs%polled_inv_start. induction Hr; eauto using polled_inv_step.
Qed.

(** C22. A client that polls has the current configuration. Under a clock that
    strictly increases and starts a second or more after the epoch, with
    settings of the workspace that pin no version, however calls that are not
    approved reductions, polls whose answers are lost or late and uses of the
    client follow one another from a client made after some such calls, a poll
    that is answered leaves the client with the configuration generated from the
    tables, or with that of an earlier version stored within the same second as
    the newest. *)
Theorem polled_configuration_current s s' :
  (∀ n, 10 ^ 9 ≤ cac_now n)%Z →
  polled_start settings s → rtc (polled_step settings) s s' →
  let w := pl_world s' in
  let config := cl_config (update_cac (pl_client s') (fetch_answer settings (pl_client s') w)).2 in
  generates w config ∨
  ∃ i v newest, k_versions w !! i = Some v ∧ config = cv_config v ∧
    latest w newest ∧ v ≠ newest ∧
    nanosecond_erasure (cv_created_at v) = nanosecond_erasure (cv_created_at newest).
Proof using Ook Rok clock unpinned.
  intros Hepoch Hs Hr w config.
  destruct (polled_inv_reachable s s' Hr Hs) as [(cs & Hcs & Hw) Hc _]. fold w in Hw, Hc.
  pose proof (up_to_date_serve_all clock cs _ Hcs up_to_date_fresh) as Hu. rewrite <-Hw in Hu.
  set (since := Some (nanosecond_erasure (cl_last_modified (pl_client s')))) in config.
  pose proof (config_answer_cases cs since Hcs) as Hcases. cbn zeta in Hcases. rewrite <-Hw in Hcases.
  unfold config, update_cac, fetch. clear config. unfold fetch_answer. fold since.
  destruct Hcases as [(newest & t & Hn & Hs' & Hle & body & ->)|(cfg & Hg & Ha)]; cbn.
  - change (bool_decide (304 = 304)%Z) with true. cbn. unfold since in Hs'. injection Hs' as <-. rewrite erasure_idem in Hle.
    destruct Hc as [Hz|(i & v & Hv & Hcfg & Ht)].
    + exfalso. destruct Hn as [[j Hj] _]. destruct (versions_past _ Hu j newest Hj) as (n & _ & Hnow).
      rewrite Hz, Hnow in Hle. pose proof (erasure_mono _ _ (Hepoch n)) as Hm.
      change (nanosecond_erasure 0) with 0%Z in Hle.
      change (nanosecond_erasure (10 ^ 9)) with (10 ^ 9)%Z in Hm. lia.
    + rewrite Hcfg. rewrite Ht, erasure_idem in Hle.
      assert (nanosecond_erasure (cv_created_at v) = nanosecond_erasure (cv_created_at newest)) as Heq.
      { apply Z.le_antisymm; [|done]. apply erasure_mono. by eapply Hn. }
      destruct (decide (cv_created_at v = cv_created_at newest)) as [Hsame|Hne].
      * left. apply (latest_current _ Hu). split; [by exists i|]. rewrite Hsame. apply Hn.
      * right. exists i, v, newest. split_and!; [done..|congruence|done].
  - left. destruct Ha as [[_ ->]|(v & _ & _ & ->)]; exact Hg.
Qed.
End polled.

(** ** A client of experiments *)

Lemma NoDup_row_texts {V} (m : gmap Z V) (id : V → Z) :
  (∀ k v, m !! k = Some v → id v = k) →
  NoDup ((λ v, pretty (id v) : string) <$> (map_to_list m).*2).
Proof.
  intros Hid. assert ((map_to_list m).*1 = id <$> (map_to_list m).*2) as Hkeys.
  { rewrite <- list_fmap_compose. apply list_fmap_ext. intros i [k v] Hi%list_elem_of_lookup_2.
    apply elem_of_map_to_list in Hi. symmetry. by apply Hid. }
  assert (NoDup (id <$> (map_to_list m).*2)) as Hnd by (rewrite <- Hkeys; apply NoDup_fst_map_to_list).
  change (λ v, pretty (id v)) with (pretty ∘ id). rewrite list_fmap_compose.
  by apply (NoDup_fmap_2 (pretty (A:=Z))).
Qed.

Section experiments.
Context `{StatusText} `{RowOrder} `{MapOrder} `{JsonLogic} `{TimeText} `{SqlLike} `{Collation}.
Context {Rok : RowOrderOk _} {Mok : MapOrderOk _}.
Variables (es : gmap Z Experiment) (gs : gmap Z ExperimentGroup).
Hypothesis G : good (es, gs).

(** The experiments a poll stores. *)
Definition fetched_experiments : gmap string ExperimentResponse :=
  collect_map ((λ exp, (r_id exp, exp)) <$>
    pr_data (list_experiments PaginationParams.all_entries experiments_filter ∅ es)).

Definition fetched_groups (rows : list ExperimentGroup) : gmap string ExperimentGroup :=
  collect_map ((λ g, (pretty (g_id g), g)) <$> rows).

Definition active (e : Experiment) : Prop := e_status e ∈ ExperimentStatusType.active_list.

Lemma fetched_rows :
  pr_data (list_experiments PaginationParams.all_entries experiments_filter ∅ es) ≡ₚ
  ExperimentResponse_from <$> filter active (map_to_list es).*2.
Proof using Rok H2.
  rewrite list_experiments_all. cbn [pr_data list_all]. rewrite listed_rows.
  erewrite (list_filter_iff _ active); [done|]. intros e.
  unfold query_builder, context_listed, active. cbn. rewrite !andb_true_r, bool_decide_eq_true.
  naive_solver.
Qed.

Lemma fetched_lookup k r :
  fetched_experiments !! k = Some r ↔
  ∃ id e, es !! id = Some e ∧ active e ∧ k = pretty id ∧ r = ExperimentResponse_from e.
Proof using All.
  unfold fetched_experiments.
  assert (NoDup (r_id <$> pr_data (list_experiments PaginationParams.all_entries
    experiments_filter ∅ es))) as Hnd.
  { rewrite fetched_rows, <- list_fmap_compose.
    eapply sublist_NoDup; [|apply fmap_sublist, (sublist_filter active)].
    apply (NoDup_row_texts _ e_id). intros id e He. by apply (good_row es gs). }
  rewrite (proj1 (collect_keyed r_id _ Hnd)), fetched_rows, list_elem_of_fmap.
  setoid_rewrite list_elem_of_filter. setoid_rewrite list_elem_of_fmap. split.
  - intros [(e & -> & Ha & [id e'] & -> & He%elem_of_map_to_list) ->]. exists id, e'. cbn in *.
    by rewrite (ro_id _ _ (good_row _ _ _ _ G He)).
  - intros (id & e & He & Ha & -> & ->). split.
    + exists e. split_and!; [done..|]. exists (id, e). by rewrite elem_of_map_to_list.
    + cbn. by rewrite (ro_id _ _ (good_row _ _ _ _ G He)).
Qed.

Lemma fetched_groups_rows rows : rows ≡ₚ (map_to_list gs).*2 →
  (map_order (fetched_groups rows)).*2 ≡ₚ (map_to_list gs).*2.
Proof using All.
  intros Hrows. rewrite (map_order_perm (O:=_)). unfold fetched_groups.
  assert (NoDup ((λ g, pretty (g_id g) : string) <$> rows)) as Hnd.
  { rewrite Hrows. apply (NoDup_row_texts _ g_id), G. }
  rewrite (proj2 (collect_keyed _ _ Hnd)), <- list_fmap_compose. cbn. by rewrite list_fmap_id.
Qed.

(** A bucket of an experiment that was not started is empty. *)
Lemma created_holds_none gid g i b id e :
  gs !! gid = Some g → g_buckets g !! i = Some (Some b) → es !! id = Some e →
  e_experiment_group_id e = Some gid → b_variant_id b ∈ variant_ids e → e_status e ≠ CREATED.
Proof using G.
  intros Hg Hb He Hl Hv Hst. pose proof G as [I _].
  destruct (inv_link _ I id e gid) as (g' & Hg' & _ & Hbal & _); [done..|].
  rewrite abs_lookup, Hg in Hg'. injection Hg' as <-.
  rewrite (ro_created _ _ (good_row _ _ _ _ G He) Hst) in Hbal.
  specialize (Hbal _ Hv). change (held (b_variant_id b) (g_buckets g) = 0) in Hbal.
  rewrite held_0 in Hbal. by eapply Hbal.
Qed.

Lemma elem_of_stored r :
  r ∈ (map_order fetched_experiments).*2 ↔
  ∃ id e, es !! id = Some e ∧ active e ∧ r = ExperimentResponse_from e.
Proof using All.
  rewrite list_elem_of_fmap. split.
  - intros ([k r'] & -> & Hk%elem_of_map_order). apply fetched_lookup in Hk as (id & e & ? & ? & _ & ->).
    by exists id, e.
  - intros (id & e & He & Ha & ->). exists (pretty id, ExperimentResponse_from e). split; [done|].
    apply elem_of_map_order, fetched_lookup. by exists id, e.
Qed.

Lemma NoDup_stored : NoDup (be_id <$> (map_order fetched_experiments).*2).
Proof using All.
  assert (be_id <$> (map_order fetched_experiments).*2 = (map_order fetched_experiments).*1) as ->;
    [|apply NoDup_fst_map_order].
  rewrite <- list_fmap_compose. apply list_fmap_ext. intros i [k r] Hi%list_elem_of_lookup_2.
  apply elem_of_map_order, fetched_lookup in Hi as (id & e & He & _ & -> & ->). cbn.
  by rewrite (ro_id _ _ (good_row _ _ _ _ G He)).
Qed.

(** A bucket is served by an experiment on it whose context applies. *)
Lemma applicable_variant_ext (m m' : gmap string ExperimentResponse) context toss b :
  (∀ r, m !! b_experiment_id b = Some r ∧ apply (be_context r) context = true ↔
        m' !! b_experiment_id b = Some r ∧ apply (be_context r) context = true) →
  applicable_variant m context (toss, b) = applicable_variant m' context (toss, b).
Proof.
  set (holds r := if apply (be_context r) context then Some r else None).
  assert (∀ m, applicable_variant m context (toss, b) =
    ((m !! b_experiment_id b ≫= holds) ≫= λ exp,
      if bool_decide (toss ≤ be_traffic_percentage exp * Z.of_nat (length (be_variants exp)))%Z
      then Some (b_variant_id b) else None)) as Hv.
  { intros m0. unfold applicable_variant, holds. destruct (m0 !! _) as [r|]; [|done]. cbn.
    by destruct (apply _ _). }
  intros Hm. rewrite !Hv. f_equal. apply option_eq. intros r. rewrite !bind_Some.
  unfold holds. specialize (Hm r).
  assert (∀ m : gmap string ExperimentResponse,
    (∃ x, m !! b_experiment_id b = Some x ∧ (if apply (be_context x) context then Some x else None) = Some r) ↔
    m !! b_experiment_id b = Some r ∧ apply (be_context r) context = true) as Hx.
  { intros m0. split; [|intros [? Hr]; exists r; by rewrite Hr].
    intros (x & Hx & Hr). destruct (apply (be_context x) context) eqn:E; [|done]. by simplify_eq. }
  by rewrite !Hx.
Qed.

(** What a bucket offered gives, at the client and at the server. *)
Lemma hit_agrees context identifier hit :
  (∀ id, is_Some (es !! id) → i64 id) →
  hit ∈ offered gs context identifier →
  applicable_variant (collect_map ((λ exp, (be_id exp, exp)) <$>
      client_get_satisfied_experiments (map_order fetched_experiments).*2 context None))
    context hit =
  applicable_variant (selected_rows es (wanted (offered gs context identifier))) context hit.
Proof using All.
  intros Hi64 Hin. destruct hit as [toss b].
  pose proof Hin as (_ & gid & g & Hg & Hhit & _)%elem_of_offered.
  destruct (good_owner _ _ _ _ _ _ G Hg (hi_bucket _ _ _ _ Hhit))
    as (id & e & He & Hl & Hopen & Hid & Hv).
  assert (e_status e ≠ CREATED) as Hstarted
    by (eapply created_holds_none; [exact Hg|exact (hi_bucket _ _ _ _ Hhit)|done..]).
  apply applicable_variant_ext. intros r. rewrite Hid. unfold client_get_satisfied_experiments.
  rewrite collect_satisfied; [|exact NoDup_stored].
  setoid_rewrite (selected_rows_lookup es gs G). split.
  - intros [(r' & Hr' & Hk & Happ & [= <-]) Hc]. split; [|done].
    apply elem_of_stored in Hr' as (id' & e' & He' & Ha & ->).
    cbn in Hk. rewrite (ro_id _ _ (good_row _ _ _ _ G He')) in Hk. apply (inj pretty) in Hk as ->.
    simplify_eq. exists id, e. split_and!; [done| |done..].
    eapply wanted_row; [done..| |exact Hid|exact Hin].
    unfold active in Ha. cbn in Ha. set_solver.
  - intros [(id' & e' & He' & Hw & Hk & ->) Hc]. apply (inj pretty) in Hk as <-. simplify_eq.
    split; [|done]. exists (ExperimentResponse_from e). split_and!; [|cbn|done|done].
    + apply elem_of_stored. exists id, e. split_and!; [done| |done].
      unfold wanted in Hw. breflect. destruct Hw as [_ Hst]. unfold active. rewrite Hst. cbn. set_solver.
    + by rewrite (ro_id _ _ (good_row _ _ _ _ G He)).
Qed.
End experiments.

Section claims.
Context `{Env} `{SetOrder} `{KeyOrder} `{FloatText} `{Blake3} `{JsonText}.
Context `{StatusText} `{RowOrder} `{MapOrder} `{JsonLogic} `{TimeText} `{SqlLike} `{Collation}.
Context {Rok : RowOrderOk _} {Mok : MapOrderOk _} {Sok : SetOrderOk _}.

Lemma group_rows w :
  ∃ rows, group_list_handler PaginationParams.all_entries no_group_filter w = (Ok (list_all rows), w) ∧
    rows ≡ₚ (map_to_list (w_groups w)).*2.
Proof using Rok.
  eexists. split; [done|]. unfold group_order. cbn. unfold order_by.
  rewrite (merge_sort_Permutation _ _), <- (row_order_perm (R:=_)).
  induction (row_order (w_groups w)).*2 as [|g l IH]; [done|]. cbn. by constructor.
Qed.

(** C6. After a poll, the client of experiments decides as the server does. In
    every reachable state, unless something was logged for the experiments
    before the second of the last poll and nothing since, the poll stores the
    experiments and the groups; the variants the client then finds for a
    request are those the server finds, in another order perhaps. *)
Theorem polled_variants_agree rs now last client fuel context config identifier evaluated :
  let w := serve_all rs empty_world in
  let client' := (poll_server now last w client).2 in
  (∀ id, is_Some (w_experiments w !! id) → i64 id) →
  (∀ m, last = Some m → (poll_since client ≤ m)%Z) →
  evaluate_local_cohorts fuel (dimensions config) context = Some evaluated →
  (poll_server now last w client).1 = [] ∧ xc_last_polled client' = now ∧
  ∃ variants applicable exps,
    exp_get_applicable_variant fuel client' (dimensions config) context identifier None =
      Some variants ∧
    get_applicable_variants_helper fuel context config identifier w =
      (Ok (applicable, exps), w) ∧ variants ≡ₚ applicable.
Proof.
  intros w client' Hi64 Hlast Hev. pose proof (reachable_good rs) as G. fold w in G.
  destruct (group_rows w) as (rows & Hrows & Hperm).
  assert (poll_server now last w client = ([],
    mkExpClient (xc_config client) (fetched_experiments (w_experiments w)) (fetched_groups rows) now))
    as Hpoll.
  { unfold poll_server. rewrite Hrows. unfold list_handler. cbn zeta.
    replace (match last with Some m => bool_decide (m < poll_since client)%Z | None => false end)
      with false; [reflexivity|].
    destruct last as [m|]; [|done]. symmetry. apply bool_decide_eq_false. specialize (Hlast m eq_refl). lia. }
  unfold client'. rewrite Hpoll. split_and!; [done..|].
  unfold exp_get_applicable_variant, client_get_applicable_variant, get_applicable_variants_helper.
  unfold mbind, ST_bind, lift, select_groups. cbn. rewrite Hev. cbn. eexists _, _, _.
  split_and!; [done..|]. unfold variants_of_context, get_applicable_variants_from_group_response.
  assert (get_applicable_buckets_from_group (map_order (fetched_groups rows)).*2 evaluated identifier ≡ₚ
    offered (w_groups w) evaluated identifier) as Hb.
  { unfold offered, get_applicable_buckets_from_group. case_bool_decide; [done|].
    by rewrite (fetched_groups_rows (w_experiments w) (w_groups w) G rows Hperm), (row_order_perm (R:=_)). }
  rewrite Hb. clear Hb Hpoll.
  change (get_applicable_buckets_from_group (row_order (w_groups w)).*2 evaluated identifier)
    with (offered (w_groups w) evaluated identifier).
  apply reflexive_eq, list_omap_ext, Forall_Forall2_diag, Forall_forall.
  intros hit Hhit. by apply hit_agrees.
Qed.
(** A change is missed when its event is of a second before the time of the
    poll, which is taken after the answers: whatever the tables then hold, the
    next poll keeps what the client has. The same holds of a change of groups
    alone, which is no event on the experiments. *)
Theorem poll_misses_change now' m w client :
  (m < poll_since client)%Z →
  poll_server now' (Some m) w client =
    (["Failed to fetch experiments from the server with error: " +:+
        ec_tenant (xc_config client) +:+ " EXP: skipping update, remote not modified"], client).
Proof.
  intros Hm. destruct (group_rows w) as (rows & Hrows & _).
  unfold poll_server, list_handler. rewrite Hrows. cbn zeta. by rewrite bool_decide_true.
Qed.
End claims.

(** ** Witnesses and examples *)

Definition polling_client : ExpClient := exp_client_new (mkExpClientConfig "test" "localhost" 1).
Definition polling_world : World := serve_all (H:=sample_env true) sample_run empty_world.

#[local] Instance polling_logic : JsonLogic := jl_equals.
#[local] Instance polling_order : MapOrder := list_order.
#[local] Instance polling_order_ok : MapOrderOk polling_order := list_order_ok.
#[local] Instance polling_sql_like : SqlLike := λ text name,
  bool_decide (String.index 0 text name ≠ None).
#[local] Instance polling_collation : Collation := str_leb.

Definition user_a : Map := {[ "clientId" := VString "a" ]}.

Lemma polled_variants_agree_witness :
  exp_get_applicable_variant 1
    (poll_server (initial_last_polled + 7) (Some initial_last_polled)
       polling_world polling_client).2
    ∅ user_a "user-3" None = Some ["100-control"].
Proof.
  destruct (polled_variants_agree (H:=sample_env true) sample_run (initial_last_polled + 7)
    (Some initial_last_polled) polling_client 1 user_a (mkConfig [] ∅ ∅ ∅) "user-3" user_a)
    as (_ & _ & variants & applicable & exps & Hv & Ha & Hp).
  - intros id [e He].
    assert (map_Forall (λ id _, (- 2 ^ 63 ≤ id < 2 ^ 63)%Z) (w_experiments polling_world)) as Hall
      by by_compute.
    exact (Hall id e He).
  - intros m [= <-]. vm_compute. discriminate.
  - vm_compute. reflexivity.
  - etrans; [exact Hv|]. f_equal. clear Hv.
    pose proof (f_equal (λ r, match r.1 with Ok l => l.1 | Err _ => [] end) Ha) as Hl.
    vm_compute in Hl. subst applicable. by apply Permutation_singleton_r.
Defined.

(** A group of all requests of [a], which is closed to traffic later. *)
Definition open_run : list (Workspace * string * Request) := sample_run ++
  [(sample_workspace, "ana@x.io",
    CreateGroup (mkGroupCreate "all a" "a group" "add it" user_a 100 (Some [])))].
Definition closing_run : list (Workspace * string * Request) := open_run ++
  [(sample_workspace, "ana@x.io", UpdateGroup 102 (mkGroupUpdate "close it" None (Some 0%Z)))].

(** The client is not told: no experiment has changed. *)
Example group_change_not_polled :
  let w := serve_all (H:=sample_env true) open_run empty_world in
  let w' := serve_all (H:=sample_env true) closing_run empty_world in
  let event := Some initial_last_polled in
  let polled := (poll_server (initial_last_polled + 2 * 10 ^ 9) event w polling_client).2 in
  let again := (poll_server (initial_last_polled + 4 * 10 ^ 9) event w' polled).2 in
  g_traffic_percentage <$> (w_groups w' !! 102%Z) = Some 0%Z ∧
  g_traffic_percentage <$> (xc_groups again !! "102") = Some 100%Z.
Proof. split; vm_compute; reflexivity. Qed.

(** A clock of whole seconds. *)
Definition seconds_env : CacEnv := {|
  cac_now := λ n, (10 ^ 9 * Z.of_nat (S n))%Z;
  cac_snowflake := λ n, Ok (1000 + Z.of_nat n)%Z;
  cac_run_node := λ _ _ _ _, Exited true "| true" "";
  cac_check_node := λ _ _, Exited true "" "";
|}.
#[local] Existing Instance seconds_env.

Lemma seconds_clock n m : n < m → (cac_now n < cac_now m)%Z.
Proof. unfold cac_now, seconds_env. lia. Qed.
Lemma seconds_epoch n : (10 ^ 9 ≤ cac_now n)%Z.
Proof. unfold cac_now, seconds_env. lia. Qed.

Definition polled_world : CacWorld := cac_serve_all dimension_calls fresh_workspace.
Definition made_client : Client :=
  match cac_client_new "test" (config_answer open_settings None polled_world) with
  | Ok client => client
  | Err _ => new_client "none" 0 (mkConfig [] ∅ ∅ ∅)
  end.

Definition pune_call : CacCall := call (put {[ "city" := str "pune" ]} {[ "fee" := VBool true ]}).

(** A call is served and the answer of a poll is lost. *)
Lemma lost_poll c w cl : versioning c →
  rtc (polled_step open_settings) (mkPolled w cl None) (mkPolled (cac_serve c w).2 cl None).
Proof.
  intros Hc. eapply rtc_l; [by apply pl_serve|]. eapply rtc_l; [apply pl_fetch|].
  eapply rtc_l; [apply (pl_lost _ _ _ _ "connection reset")|]. apply rtc_once.
  exact (pl_update _ _ cl (SendError "connection reset")).
Qed.

Definition lost_state : Polled :=
  mkPolled (cac_serve pune_call polled_world).2 made_client None.

(** The client is made, a context is put, and the answer of a poll is lost. *)
Lemma polled_configuration_current_witness :
  let w := pl_world lost_state in
  let config := cl_config (update_cac (pl_client lost_state)
    (fetch_answer open_settings (pl_client lost_state) w)).2 in
  generates w config ∨
  ∃ i v newest, k_versions w !! i = Some v ∧ config = cv_config v ∧
    latest w newest ∧ v ≠ newest ∧
    nanosecond_erasure (cv_created_at v) = nanosecond_erasure (cv_created_at newest).
Proof.
  apply (polled_configuration_current (Rok:=list_rows_ok) seconds_clock open_settings eq_refl
    (mkPolled polled_world made_client None) lost_state).
  - exact seconds_epoch.
  - exists dimension_calls, "test". split_and!; [repeat constructor; discriminate|done..|].
    vm_compute. reflexivity.
  - apply lost_poll. discriminate.
Defined.

(** A version pinned later is served to those who ask, not to those who poll. *)
Example pin_not_polled :
  let w := cac_serve_all context_calls polled_world in
  let client := (update_cac made_client (fetch_answer open_settings made_client w)).2 in
  let pinned := mkSettings None false false (Some 1000%Z) in
  let polled := (update_cac client (fetch_answer pinned client w)).2 in
  (length ∘ contexts <$> (cac_client_new "test" (config_answer pinned None w) ≫= λ c, Ok (cl_config c))) = Ok 0 ∧
  length (contexts (cl_config polled)) = 2.
Proof. split; vm_compute; reflexivity. Qed.
