(* ===== verification/Ffi.v ===== *)
(** * The foreign function interfaces

    [interface.rs] of [crates/cac_client] and of [crates/experimentation_client],
    whose functions answer null and keep the message of their last error, and
    [ffi.rs] and [ffi_legacy.rs] of [crates/superposition_core]. A pointer to
    text is null or its bytes; a pointer to a client is null or names the client
    of a tenant. What uses a null pointer unchecked is undefined. *)

From S2P Require Import Prelude Pages Stack Json Types Text Effects Logic Config Resolve ExpModels Bucketing CacClient ExpChecks CacStore CacConfig Dimensions CacServing CacQueries Store Groups Experiments Queries Polling.

(** ** Text at the border *)

(** [core::str::from_utf8]. A refusal tells how much was valid, and the length
    of what was not, unless the end came too early. *)
Record Utf8Error : Type := mkUtf8Error {
  valid_up_to : nat;
  error_len : option nat;
}.

Definition continuation (b : Z) : bool := bool_decide (0x80 ≤ b ≤ 0xBF)%Z.

(** The bytes that a sequence has after its first, and whether the second one
    suits the first. *)
Definition utf8_following (first : Z) : option nat :=
  if bool_decide (0xC2 ≤ first ≤ 0xDF)%Z then Some 1
  else if bool_decide (0xE0 ≤ first ≤ 0xEF)%Z then Some 2
  else if bool_decide (0xF0 ≤ first ≤ 0xF4)%Z then Some 3
  else None.

Definition utf8_second (first second : Z) : bool :=
  if bool_decide (first = 0xE0)%Z then bool_decide (0xA0 ≤ second ≤ 0xBF)%Z
  else if bool_decide (first = 0xED)%Z then bool_decide (0x80 ≤ second ≤ 0x9F)%Z
  else if bool_decide (first = 0xF0)%Z then bool_decide (0x90 ≤ second ≤ 0xBF)%Z
  else if bool_decide (first = 0xF4)%Z then bool_decide (0x80 ≤ second ≤ 0x8F)%Z
  else continuation second.

(** The bytes from the third on: [seen] bytes of the sequence were right. *)
Fixpoint utf8_rest (seen following : nat) (bs : list Z) : option (option nat) :=
  match following with
  | 0 => None
  | S following =>
      match bs with
      | [] => Some None
      | b :: bs => if continuation b then utf8_rest (S seen) following bs else Some (Some seen)
      end
  end.

Definition utf8_sequence (first : Z) (following : nat) (bs : list Z) : option (option nat) :=
  match bs with
  | [] => Some None
  | second :: bs =>
      if utf8_second first second then utf8_rest 2 (following - 1) bs else Some (Some 1)
  end.

(** The fuel is the number of bytes. *)
Fixpoint utf8_validate (fuel index : nat) (bs : list Z) : option Utf8Error :=
  match fuel, bs with
  | S fuel, first :: bs =>
      if bool_decide (first < 0x80)%Z then utf8_validate fuel (S index) bs
      else
        match utf8_following first with
        | None => Some (mkUtf8Error index (Some 1))
        | Some following =>
            match utf8_sequence first following bs with
            | Some len => Some (mkUtf8Error index len)
            | None => utf8_validate fuel (index + S following) (drop following bs)
            end
        end
  | _, _ => None
  end.

Definition from_utf8 (s : string) : option Utf8Error :=
  utf8_validate (String.length s) 0 (str_bytes s).

(** [Display for Utf8Error]. *)
Definition utf8_message (e : Utf8Error) : string :=
  match error_len e with
  | Some len => "invalid utf-8 sequence of " +:+ pretty len +:+ " bytes from index " +:+
      pretty (valid_up_to e)
  | None => "incomplete utf-8 byte sequence from index " +:+ pretty (valid_up_to e)
  end.

(** The byte that ends a text in C. *)
Definition nul : ascii := ascii_of_nat 0.

Fixpoint has_nul (s : string) : bool :=
  match s with
  | EmptyString => false
  | String c s => bool_decide (c = nul) || has_nul s
  end.

(** [CString::new(s).unwrap_or_default()]. *)
Definition rstring_to_cstring (s : string) : string := if has_nul s then "" else s.

(** [CStr::to_str]. *)
Definition to_str (s : string) : result string string :=
  match from_utf8 s with
  | Some e => Err (utf8_message e)
  | None => Ok s
  end.

(** The message of [serde_json] for a text it refuses, or refuses at a type. *)
Class JsonRefusal := json_refusal : string → string.

Definition parse_map `{JsonParse} `{JsonRefusal} (s : string) : result string Map :=
  match json_from_str s with
  | Some (VObject m) => Ok m
  | _ => Err (json_refusal s)
  end.

(** ** The last error *)

(** What a thread sees: its last error and the clients of the process, with
    the tenants whose polling was started. *)
Record FfiState (C : Type) : Type := mkFfiState {
  ff_last_error : option string;
  ff_clients : Factory C;
  ff_polling : list string;
}.
Arguments mkFfiState {C} _ _ _.
Arguments ff_last_error {C} _.
Arguments ff_clients {C} _.
Arguments ff_polling {C} _.

(** [None] is undefined behaviour. *)
Definition Ffi (C A : Type) : Type := FfiState C → option (A * FfiState C).

#[export] Instance Ffi_ret {C} : MRet (Ffi C) := λ A a s, Some (a, s).
#[export] Instance Ffi_bind {C} : MBind (Ffi C) := λ A B f m s,
  match m s with
  | Some (a, s) => f a s
  | None => None
  end.

Section errors.
Context {C : Type}.

Definition undefined {A} : Ffi C A := λ _, None.

Definition update_last_error (err : string) : Ffi C unit := λ s,
  Some (tt, mkFfiState (Some err) (ff_clients s) (ff_polling s)).

Definition take_last_error : Ffi C (option string) := λ s,
  Some (ff_last_error s, mkFfiState None (ff_clients s) (ff_polling s)).

(** [cac_last_error_length] and [expt_last_error_length]: a [c_int]. *)
Definition last_error_length : Ffi C Z := λ s,
  Some (match ff_last_error s with
        | Some err => (Z.of_nat (String.length err) + 1)%Z
        | None => 0%Z
        end, s).

Definition cac_last_error_message : Ffi C (option string) :=
  last_error ← take_last_error;
  match last_error with
  | Some err => mret (Some (rstring_to_cstring err))
  | None => _ ← update_last_error "No error found"; mret None
  end.

Definition expt_last_error_message : Ffi C (option string) :=
  last_error ← take_last_error;
  mret (rstring_to_cstring <$> last_error).

(** [unwrap_safe!]: the error is kept and the function returns. *)
Definition unwrap_safe {A B} (failed : B) (r : result string A) (f : A → Ffi C B) : Ffi C B :=
  match r with
  | Ok a => f a
  | Err e => _ ← update_last_error e; mret failed
  end.

(** [null_check!]. *)
Definition null_check {A B} (pointer : option A) (err : string) (failed : B) (f : A → Ffi C B)
    : Ffi C B :=
  match pointer with
  | Some a => f a
  | None => _ ← update_last_error err; mret failed
  end.

(** A client behind a pointer that is taken for valid. *)
Definition deref {A} (client : option string) (f : C → Ffi C A) : Ffi C A := λ s,
  match client ≫= λ tenant, ff_clients s !! tenant with
  | Some c => f c s
  | None => None
  end.

Definition put_client (tenant : string) (client : C) : Ffi C unit := λ s,
  Some (tt, mkFfiState (ff_last_error s) (<[tenant := client]> (ff_clients s)) (ff_polling s)).

(** [CLIENT_FACTORY]. *)
Definition factory_create (tenant : string) (new : result string C) : Ffi C (result string C) :=
  λ s, let '(r, clients) := create_client tenant new (ff_clients s) in
       Some (r, mkFfiState (ff_last_error s) clients (ff_polling s)).

Definition factory_get (tenant : string) : Ffi C (result string C) := λ s,
  Some (get_client tenant (ff_clients s), s).

Definition start_polling (tenant : string) : Ffi C unit := λ s,
  Some (tt, mkFfiState (ff_last_error s) (ff_clients s) (tenant :: ff_polling s)).
End errors.

(** ** The client of configurations *)

Definition null_pointer : string := "Invalid C string passed: string was a NULL pointer".

Definition invalid_client : string :=
  "an invalid null pointer client is being used, please call get_client()".

Section cac.
Context {O : MapOrder} `{JsonLogic} `{FloatText} `{JsonParse} `{JsonRefusal} `{JsonText} `{TimeText}.
Context `{ConfigText}.

Definition cac_cstring_to_rstring {B} (failed : B) (s : option string) (f : string → Ffi Client B)
    : Ffi Client B :=
  match s with
  | None =>
      _ ← update_last_error null_pointer;
      unwrap_safe failed (Err null_pointer) f
  | Some s => unwrap_safe failed (to_str s) f
  end.

(** The answer of the server is that to the first request of a client; the
    frequency and the sizes of the cache do not matter here. *)
Definition cac_new_client (tenant hostname : option string)
    (answer : string → string → FetchOutcome) : Ffi Client Z :=
  cac_cstring_to_rstring 1%Z tenant (λ tenant,
  cac_cstring_to_rstring 1%Z hostname (λ hostname,
  r ← factory_create tenant (cac_client_new tenant (answer hostname tenant));
  unwrap_safe 1%Z r (λ _, mret 0%Z))).

Definition cac_get_client (tenant : option string) : Ffi Client (option string) :=
  cac_cstring_to_rstring None tenant (λ ten,
  r ← factory_get ten;
  unwrap_safe None r (λ _, mret (Some ten))).

Definition cac_start_polling_update (tenant : option string) : Ffi Client unit :=
  null_check tenant "NULL pointer provided for tenant" tt (λ _,
  client ← cac_get_client tenant;
  null_check client "CAC client for tenant not found" tt (λ client,
  start_polling client)).

Definition cac_get_last_modified (client : option string) : Ffi Client (option string) :=
  null_check client invalid_client None (λ _,
  deref client (λ client, mret (Some (rstring_to_cstring (time_to_string (cl_last_modified client)))))).

(** A list of prefixes or keys, which is not read when its pointer is null. *)
Definition cac_list {B} (failed : B) (sep : ascii) (s : option string)
    (f : option (list string) → Ffi Client B) : Ffi Client B :=
  match s with
  | None => f None
  | Some _ => cac_cstring_to_rstring failed s (λ s, f (Some (split_at sep s)))
  end.

Definition cac_filters {B} (failed : B) (s : option string) (f : option Map → Ffi Client B)
    : Ffi Client B :=
  match s with
  | None => f None
  | Some _ =>
      cac_cstring_to_rstring failed s (λ s,
      unwrap_safe failed (parse_map s) (λ filters,
      f (if bool_decide (filters = ∅) then None else Some filters)))
  end.

(** A loop over cohorts that would not end is undefined here. *)
Definition ending {A B} (o : option A) (f : A → Ffi Client B) : Ffi Client B :=
  match o with Some a => f a | None => undefined end.

Definition cac_get_config (fuel : nat) (client filter_query filter_prefix : option string)
    : Ffi Client (option string) :=
  null_check client invalid_client None (λ _,
  cac_filters None filter_query (λ filters,
  cac_list None "," filter_prefix (λ prefix_list,
  deref client (λ client,
  ending (get_full_config_state_with_filter fuel client filters prefix_list) (λ config,
  mret (Some (rstring_to_cstring (config_to_string config)))))))).

Definition cac_get_resolved_config (fuel : nat)
    (client query filter_keys merge_strategy : option string) : Ffi Client (option string) :=
  null_check client invalid_client None (λ tenant,
  cac_list None "|" filter_keys (λ keys,
  cac_cstring_to_rstring None query (λ query,
  cac_cstring_to_rstring None merge_strategy (λ merge_strategem,
  unwrap_safe None (parse_map query) (λ context,
  deref client (λ c,
  ending (CacClient.get_resolved_config fuel c context keys
            (MergeStrategy.from_string merge_strategem)) (λ '(r, c),
  _ ← put_client tenant c;
  unwrap_safe None r (λ ov, mret (Some (rstring_to_cstring (json_to_string (VObject ov)))))))))))).

Definition cac_get_default_config (client filter_keys : option string)
    : Ffi Client (option string) :=
  cac_list None "|" filter_keys (λ keys,
  deref client (λ client,
  mret (Some (rstring_to_cstring (json_to_string (VObject (get_default_config client keys))))))).
End cac.

(** ** The client of experiments *)

(** The JSON of the experiments of an answer, and the readers of the types
    that derive one, which the build generates. *)
Class ExpJson := {
  responses_to_json : list ExperimentResponse → string;
  dimensions_from_str : string → result string (gmap string DimensionInfo);
}.

Section experiments.
Context {O : MapOrder} `{JsonLogic} `{JsonParse} `{JsonRefusal} `{JsonText} `{ExpJson}.

(** Null is not checked. *)
Definition expt_cstring_to_rstring {B} (failed : B) (s : option string)
    (f : string → Ffi ExpClient B) : Ffi ExpClient B :=
  match s with
  | None => undefined
  | Some s => unwrap_safe failed (to_str s) f
  end.

(** The status of the block is dropped: the answer is [0]. *)
Definition expt_new_client (tenant : option string) (update_frequency : N) (hostname : option string)
    : Ffi ExpClient Z :=
  expt_cstring_to_rstring 1%Z tenant (λ tenant,
  expt_cstring_to_rstring 1%Z hostname (λ hostname,
  r ← factory_create tenant
    (Ok (exp_client_new (mkExpClientConfig tenant hostname update_frequency)));
  _ ← match r with Ok _ => mret tt | Err err => update_last_error err end;
  mret 0%Z)).

Definition expt_get_client (tenant : option string) : Ffi ExpClient (option string) :=
  expt_cstring_to_rstring None tenant (λ ten,
  client ← factory_get ten;
  match client with
  | Ok _ => mret (Some ten)
  | Err err => _ ← update_last_error err; mret None
  end).

(** The client is not checked for null. The function does not return: the
    polling runs in it. *)
Definition expt_start_polling_update (tenant : option string) : Ffi ExpClient unit :=
  null_check tenant "Tenant cannot be a null string" tt (λ _,
  client ← expt_get_client tenant;
  match client with
  | Some client => start_polling client
  | None => undefined
  end).

Definition expt_prefixes {B} (failed : B) (filter_prefix : option string)
    (f : option (list string) → Ffi ExpClient B) : Ffi ExpClient B :=
  match filter_prefix with
  | None => f None
  | Some _ => expt_cstring_to_rstring failed filter_prefix (λ s, f (Some (split_at "," s)))
  end.

Definition expt_get_applicable_variant (fuel : nat)
    (client c_dimensions c_context identifier filter_prefix : option string)
    : Ffi ExpClient (option string) :=
  expt_cstring_to_rstring None c_dimensions (λ dimensions,
  expt_cstring_to_rstring None c_context (λ context,
  expt_cstring_to_rstring None identifier (λ identifier,
  unwrap_safe None (dimensions_from_str dimensions) (λ dimensions,
  unwrap_safe None (parse_map context) (λ context,
  expt_prefixes None filter_prefix (λ prefix_list,
  deref client (λ client,
  match exp_get_applicable_variant fuel client dimensions context identifier prefix_list with
  | Some result => mret (Some (rstring_to_cstring (json_to_string (strings result))))
  | None => undefined
  end))))))).

Definition expt_get_satisfied_experiments (client c_context filter_prefix : option string)
    : Ffi ExpClient (option string) :=
  expt_cstring_to_rstring None c_context (λ context,
  unwrap_safe None (parse_map context) (λ context,
  expt_prefixes None filter_prefix (λ prefix_list,
  deref client (λ client,
  mret (Some (rstring_to_cstring (responses_to_json
    (exp_get_satisfied_experiments client context prefix_list)))))))).

Definition expt_get_filtered_satisfied_experiments (client c_context filter_prefix : option string)
    : Ffi ExpClient (option string) :=
  expt_cstring_to_rstring None c_context (λ context,
  unwrap_safe None (parse_map context) (λ context,
  expt_prefixes None filter_prefix (λ prefix_list,
  deref client (λ client,
  mret (Some (rstring_to_cstring (responses_to_json
    (exp_get_filtered_satisfied_experiments client context prefix_list)))))))).

Definition expt_get_running_experiments (client : option string) : Ffi ExpClient (option string) :=
  deref client (λ client,
  mret (Some (rstring_to_cstring (responses_to_json (get_running_experiments client))))).
End experiments.

(** ** The core library *)

Record ExperimentationArgs : Type := mkExperimentationArgs {
  ea_experiments : list FfiExperiment;
  ea_experiment_groups : list FfiExperimentGroup;
  ea_targeting_key : string;
}.

(** The dimensions with the variants of the experiments, when there are any
    to take part in. *)
Definition with_variants {O : MapOrder} `{JsonLogic} (fuel : nat)
    (dimensions : gmap string DimensionInfo) (experimentation : option ExperimentationArgs)
    (query_data : Map) (filter_prefixes : option (list string)) : option Map :=
  match experimentation with
  | None => Some query_data
  | Some e_args =>
      variants ← get_applicable_variants fuel dimensions (ea_experiments e_args)
        (ea_experiment_groups e_args) query_data (ea_targeting_key e_args) filter_prefixes;
      Some (<["variantIds" := strings variants]> query_data)
  end.

Section uniffi.
Context {O : MapOrder} `{JsonLogic} `{JsonParse} `{JsonRefusal} `{JsonText}.

Definition json_to_map (j : Map) : gmap string string := json_to_string <$> j.

(** The values are read in the order of the map, up to the first that is
    refused. *)
Definition json_from_map (m : gmap string string) : result string Map :=
  try_collect (λ _ v, match json_from_str v with
                      | Some v => Ok v
                      | None => Err (json_refusal v)
                      end) m.

Definition EvalFn : Type :=
  Map → list Context → gmap string Overrides → gmap string DimensionInfo → Map →
  MergeStrategy → option (list string) → option (result string Map).

(** [OperationError::Unexpected] is its message. *)
Definition ffi_eval_logic (fuel : nat) (default_config : gmap string string)
    (contexts : list Context) (overrides : gmap string Overrides)
    (dimensions : gmap string DimensionInfo) (query_data : gmap string string)
    (merge_strategy : MergeStrategy) (filter_prefixes : option (list string))
    (experimentation : option ExperimentationArgs) (eval_fn : EvalFn)
    : option (result string (gmap string string)) :=
  match json_from_map default_config with
  | Err e => Some (Err e)
  | Ok d =>
      match json_from_map query_data with
      | Err e => Some (Err e)
      | Ok q =>
          q ← with_variants fuel dimensions experimentation q filter_prefixes;
          r ← eval_fn d contexts overrides dimensions q merge_strategy filter_prefixes;
          Some (r ← r; Ok (json_to_map r))
      end
  end.

Definition ffi_eval_config (fuel : nat) (default_config : gmap string string)
    (contexts : list Context) (overrides : gmap string Overrides)
    (dimensions : gmap string DimensionInfo) (query_data : gmap string string)
    (merge_strategy : MergeStrategy) (filter_prefixes : option (list string))
    (experimentation : option ExperimentationArgs) : option (result string (gmap string string)) :=
  ffi_eval_logic fuel default_config contexts overrides dimensions query_data merge_strategy
    filter_prefixes experimentation (eval_config fuel).

Definition ffi_eval_config_with_reasoning (fuel : nat) (default_config : gmap string string)
    (contexts : list Context) (overrides : gmap string Overrides)
    (dimensions : gmap string DimensionInfo) (query_data : gmap string string)
    (merge_strategy : MergeStrategy) (filter_prefixes : option (list string))
    (experimentation : option ExperimentationArgs) : option (result string (gmap string string)) :=
  ffi_eval_logic fuel default_config contexts overrides dimensions query_data merge_strategy
    filter_prefixes experimentation (eval_config_with_reasoning fuel).

Definition ffi_get_applicable_variants (fuel : nat) (eargs : ExperimentationArgs)
    (dimensions_info : gmap string DimensionInfo) (query_data : gmap string string)
    (prefix : option (list string)) : option (result string (list string)) :=
  match json_from_map query_data with
  | Err e => Some (Err e)
  | Ok query_data =>
      variants ← get_applicable_variants fuel dimensions_info (ea_experiments eargs)
        (ea_experiment_groups eargs) query_data (ea_targeting_key eargs) prefix;
      Some (Ok variants)
  end.
End uniffi.

(** The readers of the types of [ffi_legacy.rs], which the build generates. *)
Class CoreJson := {
  contexts_from_str : string → result string (list Context);
  overrides_from_str : string → result string (gmap string Overrides);
  infos_from_str : string → result string (gmap string DimensionInfo);
  strings_from_str : string → result string (list string);
  args_from_str : string → result string ExperimentationArgs;
  experiments_from_str : string → result string (list FfiExperiment);
  groups_from_str : string → result string (list FfiExperimentGroup);
}.

(** A function answers a text, or null with a message in the buffer of the
    caller; [CString::new(_).unwrap()] panics on a text with a [nul]. *)
Inductive CoreOutcome : Type :=
  | CoreAnswer (text : string)
  | CoreError (message : string)
  | CorePanic.

Definition string_to_c_str (s : string) : CoreOutcome :=
  if has_nul s then CorePanic else CoreAnswer s.

(** [copy_string(ebuf, _)] and the null that is returned. *)
Definition copy_string (message : string) : CoreOutcome :=
  if has_nul message then CorePanic else CoreError message.

Definition c_str_to_string (s : option string) : result string string :=
  match s with
  | None => Err "Null pointer encountered while converting"
  | Some s => map_err (λ e, "Invalid UTF-8: " +:+ e) (to_str s)
  end.

Definition parse_json {T} (from_str : string → result string T) (s : option string)
    : result string T :=
  json_str ← c_str_to_string s;
  map_err (λ e, "Invalid JSON: " +:+ e) (from_str json_str).

(** [match _ { Ok(x) => x, Err(e) => copy_string(..) }]. *)
Definition parsed {T} (what : string) (r : result string T) (f : T → CoreOutcome) : CoreOutcome :=
  match r with
  | Ok x => f x
  | Err e => copy_string ("Failed to " +:+ what +:+ ": " +:+ e)
  end.

Definition parsed_unless_null {T} (what : string) (from_str : string → result string T)
    (s : option string) (f : option T → CoreOutcome) : CoreOutcome :=
  match s with
  | None => f None
  | Some _ => parsed what (parse_json from_str s) (λ x, f (Some x))
  end.

(** [to_lowercase] and the two names; a letter that is not ASCII has no lower
    case in them. *)
Definition ascii_lower (c : ascii) : ascii :=
  if bool_decide (65 ≤ N_of_ascii c ≤ 90)%N then ascii_of_N (N_of_ascii c + 32) else c.

Fixpoint to_lowercase (s : string) : string :=
  match s with
  | EmptyString => EmptyString
  | String c s => String (ascii_lower c) (to_lowercase s)
  end.

Definition core_merge_strategy (strategy : string) : MergeStrategy :=
  if bool_decide (to_lowercase strategy = "merge") then MERGE
  else if bool_decide (to_lowercase strategy = "replace") then REPLACE
  else MERGE.

Section legacy.
Context {O : MapOrder} `{JsonLogic} `{JsonParse} `{JsonRefusal} `{JsonText} `{CoreJson}.

(** What both resolutions share. Fuel that does not suffice counts as a panic. *)
Definition core_resolve (null_message : string) (eval_fn : EvalFn) (fuel : nat)
    (default_config_json contexts_json overrides_json dimensions query_data_json
     merge_strategy_str filter_prefixes_json experimentation_json : option string) : CoreOutcome :=
  if bool_decide (None ∈ [default_config_json; contexts_json; overrides_json; dimensions;
                          query_data_json; merge_strategy_str]) then copy_string null_message
  else
    parsed "parse default_config" (parse_json parse_map default_config_json) (λ default_config,
    parsed "parse contexts" (parse_json contexts_from_str contexts_json) (λ contexts,
    parsed "parse overrides" (parse_json overrides_from_str overrides_json) (λ overrides,
    parsed "parse query_data" (parse_json parse_map query_data_json) (λ query_data,
    parsed "parse merge_strategy" (c_str_to_string merge_strategy_str) (λ strategy,
    let merge_strategy := core_merge_strategy strategy in
    parsed_unless_null "parse filter_prefixes" strings_from_str filter_prefixes_json
      (λ filter_prefixes,
    parsed_unless_null "parse experimentation" args_from_str experimentation_json
      (λ experimentation,
    parsed "parse dimensions" (parse_json infos_from_str dimensions) (λ dimensions,
    match
      query_data ← with_variants fuel dimensions experimentation query_data filter_prefixes;
      eval_fn default_config contexts overrides dimensions query_data merge_strategy filter_prefixes
    with
    | Some (Ok result) => string_to_c_str (json_to_string (VObject result))
    | Some (Err e) => copy_string e
    | None => CorePanic
    end)))))))).

Definition core_get_resolved_config (fuel : nat)
    (default_config_json contexts_json overrides_json dimensions query_data_json
     merge_strategy_str filter_prefixes_json experimentation_json : option string) : CoreOutcome :=
  core_resolve "Null pointer provided in required value" (eval_config fuel) fuel
    default_config_json contexts_json overrides_json dimensions query_data_json
    merge_strategy_str filter_prefixes_json experimentation_json.

Definition core_get_resolved_config_with_reasoning (fuel : nat)
    (default_config_json contexts_json overrides_json dimensions query_data_json
     merge_strategy_str filter_prefixes_json experimentation_json : option string) : CoreOutcome :=
  core_resolve "Null pointer provided" (eval_config_with_reasoning fuel) fuel
    default_config_json contexts_json overrides_json dimensions query_data_json
    merge_strategy_str filter_prefixes_json experimentation_json.

Definition core_get_applicable_variants (fuel : nat)
    (experiments_json experiment_groups_json dimensions query_data_json identifier
     filter_prefixes_json : option string) : CoreOutcome :=
  if bool_decide (None ∈ [experiments_json; query_data_json; dimensions]) then
    copy_string "Null pointer provided"
  else
    parsed "parse experiments" (parse_json experiments_from_str experiments_json) (λ experiments,
    parsed "parse experiment_groups" (parse_json groups_from_str experiment_groups_json)
      (λ experiment_groups,
    parsed "parse query_data" (parse_json parse_map query_data_json) (λ query_data,
    parsed "parse dimensions" (parse_json infos_from_str dimensions) (λ dimensions,
    parsed_unless_null "parse filter_prefixes" strings_from_str filter_prefixes_json
      (λ filter_prefixes,
    parsed "parse identifier" (c_str_to_string identifier) (λ identifier,
    match get_applicable_variants fuel dimensions experiments experiment_groups query_data
            identifier filter_prefixes with
    | Some result => string_to_c_str (json_to_string (strings result))
    | None => CorePanic
    end)))))).
End legacy.
