(* ===== verification/FfiClaims.v ===== *)
(** * Theorems on the foreign function interfaces *)

From S2P Require Import Prelude Pages Stack Json Types Text Effects Logic LogicProps Config Resolve ExpModels Bucketing Samples CacClient ExpChecks CacStore CacConfig Dimensions CacServing CacQueries Store Groups Experiments Queries Polling Ffi.

(** ** Errors are kept *)

(** A call that fails leaves a message; one that does not leaves the last
    message alone. *)
Class Reports {C A} (failed : A → bool) (m : Ffi C A) : Prop :=
  reports_errors : ∀ s a s', m s = Some (a, s') →
    if failed a then is_Some (ff_last_error s') else ff_last_error s' = ff_last_error s.

(** A step in the middle of a call keeps the message. *)
Class Quiet {C A} (m : Ffi C A) : Prop :=
  quiet : ∀ s a s', m s = Some (a, s') → ff_last_error s' = ff_last_error s.

Section reports.
Context {C : Type}.

Lemma reports_ret {A} (failed : A → bool) a : failed a = false → Reports (C:=C) failed (mret a).
Proof. intros Hf s a' s' Hm. unfold mret, Ffi_ret in Hm. injection Hm as <- <-. by rewrite Hf. Qed.

Lemma reports_undefined {A} (failed : A → bool) : Reports (C:=C) failed undefined.
Proof. by intros s a s'. Qed.

Lemma reports_error {A} (failed : A → bool) a err :
  failed a = true → Reports (C:=C) failed (_ ← update_last_error err; mret a).
Proof.
  intros Hf s a' s' Hm. unfold mbind, Ffi_bind, mret, Ffi_ret, update_last_error in Hm.
  injection Hm as <- <-. rewrite Hf. cbn. eauto.
Qed.

Lemma reports_bind {A B} (failed : B → bool) (m : Ffi C A) (f : A → Ffi C B) :
  Quiet m → (∀ a, Reports failed (f a)) → Reports failed (a ← m; f a).
Proof.
  intros Hm Hf s b s2 Hb. unfold mbind, Ffi_bind in Hb. destruct (m s) as [[a s1]|] eqn:E; [|done].
  rewrite <- (Hm _ _ _ E). by apply (Hf a).
Qed.

Lemma reports_unwrap {A B} (failed : B → bool) b (r : result string A) (f : A → Ffi C B) :
  failed b = true → (∀ a, Reports failed (f a)) → Reports failed (unwrap_safe b r f).
Proof. intros Hb Hf. destruct r; [apply Hf|by apply reports_error]. Qed.

Lemma reports_null_check {A B} (failed : B → bool) b (p : option A) err (f : A → Ffi C B) :
  failed b = true → (∀ a, Reports failed (f a)) → Reports failed (null_check p err b f).
Proof. intros Hb Hf. destruct p; [apply Hf|by apply reports_error]. Qed.

Lemma reports_deref {B} (failed : B → bool) p (f : C → Ffi C B) :
  (∀ c, Reports failed (f c)) → Reports failed (deref p f).
Proof. intros Hf s b s' Hb. unfold deref in Hb. destruct (_ ≫= _) as [c|]; [|done]. by apply (Hf c). Qed.

#[export] Instance quiet_create tenant new : Quiet (C:=C) (factory_create tenant new).
Proof.
  intros s a s' Hm. unfold factory_create in Hm. destruct (create_client _ _ _). by injection Hm as <- <-.
Qed.
#[export] Instance quiet_get tenant : Quiet (C:=C) (factory_get tenant).
Proof. intros s a s' Hm. by injection Hm as <- <-. Qed.
#[export] Instance quiet_put tenant c : Quiet (C:=C) (put_client tenant c).
Proof. intros s a s' Hm. by injection Hm as <- <-. Qed.
End reports.

(** A pointer to text is null, or a status is not [0]. *)
Definition is_null (answer : option string) : bool := bool_decide (answer = None).
Definition is_failure (status : Z) : bool := bool_decide (status ≠ 0)%Z.

Section calls.
Context {O : MapOrder} `{JsonLogic} `{FloatText} `{JsonParse} `{JsonRefusal} `{JsonText} `{TimeText}.
Context `{ConfigText} `{ExpJson}.

Lemma reports_cac_text {B} (failed : B → bool) b s (f : string → Ffi Client B) :
  failed b = true → (∀ t, Reports failed (f t)) → Reports failed (cac_cstring_to_rstring b s f).
Proof.
  intros Hb Hf. destruct s as [s|]; [by apply reports_unwrap|].
  intros st a st' Hm. cbn in Hm. unfold mbind, Ffi_bind, update_last_error, mret, Ffi_ret in Hm.
  injection Hm as <- <-. rewrite Hb. cbn. eauto.
Qed.

Lemma reports_cac_list {B} (failed : B → bool) b sep s (f : option (list string) → Ffi Client B) :
  failed b = true → (∀ t, Reports failed (f t)) → Reports failed (cac_list b sep s f).
Proof. intros Hb Hf. destruct s; [|apply Hf]. apply reports_cac_text; [done|]. intros t. apply Hf. Qed.

Lemma reports_cac_filters {B} (failed : B → bool) b s (f : option Map → Ffi Client B) :
  failed b = true → (∀ t, Reports failed (f t)) → Reports failed (cac_filters b s f).
Proof.
  intros Hb Hf. destruct s; [|apply Hf]. apply reports_cac_text; [done|]. intros t.
  apply reports_unwrap; [done|]. intros m. apply Hf.
Qed.

Lemma reports_ending {A B} (failed : B → bool) (o : option A) (f : A → Ffi Client B) :
  (∀ a, Reports failed (f a)) → Reports failed (ending o f).
Proof. intros Hf. destruct o; [apply Hf|apply reports_undefined]. Qed.

Lemma reports_expt_text {B} (failed : B → bool) b s (f : string → Ffi ExpClient B) :
  failed b = true → (∀ t, Reports failed (f t)) → Reports failed (expt_cstring_to_rstring b s f).
Proof. intros Hb Hf. destruct s; [by apply reports_unwrap|apply reports_undefined]. Qed.

Lemma reports_expt_prefixes {B} (failed : B → bool) b s (f : option (list string) → Ffi ExpClient B) :
  failed b = true → (∀ t, Reports failed (f t)) → Reports failed (expt_prefixes b s f).
Proof. intros Hb Hf. destruct s; [|apply Hf]. apply reports_expt_text; [done|]. intros t. apply Hf. Qed.

(** A new client of experiments is never refused. *)
Lemma reports_expt_create tenant client :
  Reports is_failure (
    r ← factory_create (C:=ExpClient) tenant (Ok client);
    _ ← match r with Ok _ => mret tt | Err err => update_last_error err end;
    mret 0%Z).
Proof.
  intros s a s' Hm. unfold mbind, Ffi_bind, factory_create, create_client in Hm.
  destruct (ff_clients s !! tenant); by injection Hm as <- <-.
Qed.

(** The calls that answer by a pointer to text or to a client. *)
Inductive PointerCall : Type → Type :=
  | CacGetClient (tenant : option string) :
      PointerCall Client
  | CacGetLastModified (client : option string) :
      PointerCall Client
  | CacGetConfig (fuel : nat) (client filter_query filter_prefix : option string) :
      PointerCall Client
  | CacGetResolvedConfig (fuel : nat) (client query filter_keys merge_strategy : option string) :
      PointerCall Client
  | CacGetDefaultConfig (client filter_keys : option string) :
      PointerCall Client
  | ExptGetClient (tenant : option string) :
      PointerCall ExpClient
  | ExptGetApplicableVariant (fuel : nat) (client c_dimensions c_context identifier filter_prefix : option string) :
      PointerCall ExpClient
  | ExptGetSatisfiedExperiments (client c_context filter_prefix : option string) :
      PointerCall ExpClient
  | ExptGetFilteredSatisfiedExperiments (client c_context filter_prefix : option string) :
      PointerCall ExpClient
  | ExptGetRunningExperiments (client : option string) :
      PointerCall ExpClient.

Definition pointer_call {C} (c : PointerCall C) : Ffi C (option string) :=
  match c with
  | CacGetClient tenant => cac_get_client tenant
  | CacGetLastModified client => cac_get_last_modified client
  | CacGetConfig fuel client query prefix => cac_get_config fuel client query prefix
  | CacGetResolvedConfig fuel client query keys strategy =>
      cac_get_resolved_config fuel client query keys strategy
  | CacGetDefaultConfig client keys => cac_get_default_config client keys
  | ExptGetClient tenant => expt_get_client tenant
  | ExptGetApplicableVariant fuel client dims context identifier prefix =>
      expt_get_applicable_variant fuel client dims context identifier prefix
  | ExptGetSatisfiedExperiments client context prefix =>
      expt_get_satisfied_experiments client context prefix
  | ExptGetFilteredSatisfiedExperiments client context prefix =>
      expt_get_filtered_satisfied_experiments client context prefix
  | ExptGetRunningExperiments client => expt_get_running_experiments client
  end.

Ltac reports_step :=
  match goal with
  | |- Reports _ (cac_cstring_to_rstring _ _ _) => apply reports_cac_text; [done|intros ?]
  | |- Reports _ (cac_list _ _ _ _) => apply reports_cac_list; [done|intros ?]
  | |- Reports _ (cac_filters _ _ _) => apply reports_cac_filters; [done|intros ?]
  | |- Reports _ (expt_cstring_to_rstring _ _ _) => apply reports_expt_text; [done|intros ?]
  | |- Reports _ (expt_prefixes _ _ _) => apply reports_expt_prefixes; [done|intros ?]
  | |- Reports _ (unwrap_safe _ _ _) => apply reports_unwrap; [done|intros ?]
  | |- Reports _ (null_check _ _ _ _) => apply reports_null_check; [done|intros ?]
  | |- Reports _ (deref _ _) => apply reports_deref; intros ?
  | |- Reports _ (ending _ _) => apply reports_ending; intros ?
  | |- Reports _ undefined => apply reports_undefined
  | |- Reports _ (mret _) => by apply reports_ret
  | |- Reports _ (_ ← update_last_error _; mret _) => by apply reports_error
  | |- Reports _ (mbind _ _) => apply reports_bind; [apply _|intros ?]
  | |- Reports _ (match ?x with _ => _ end) => destruct x
  end.

(** C37. Errors can be told and asked for. Whatever its pointers are, a call
    whose behaviour is defined and that answers null, or a status other than
    [0], leaves a message that [last_error_message] answers; one that answers
    otherwise leaves the last message as it was. *)
Theorem failures_reported :
  (∀ C (c : PointerCall C), Reports is_null (pointer_call c)) ∧
  (∀ tenant hostname answer, Reports is_failure (cac_new_client tenant hostname answer)) ∧
  (∀ tenant frequency hostname, Reports is_failure (expt_new_client tenant frequency hostname)) ∧
  ∀ C (s : FfiState C) message, ff_last_error s = Some message →
    last_error_length s = Some (Z.of_nat (String.length message) + 1, s)%Z ∧
    fst <$> cac_last_error_message s = Some (Some (rstring_to_cstring message)) ∧
    fst <$> expt_last_error_message s = Some (Some (rstring_to_cstring message)).
Proof.
  split_and!.
  - intros C [] ; cbn [pointer_call]; unfold cac_get_client, cac_get_last_modified, cac_get_config,
      cac_get_resolved_config, cac_get_default_config, expt_get_client, expt_get_applicable_variant,
      expt_get_satisfied_experiments, expt_get_filtered_satisfied_experiments,
      expt_get_running_experiments; repeat reports_step.
  - intros tenant hostname answer. unfold cac_new_client. repeat reports_step.
  - intros tenant frequency hostname. unfold expt_new_client. do 2 reports_step. apply reports_expt_create.
  - intros C s message Hs. unfold last_error_length, cac_last_error_message, expt_last_error_message.
    unfold mbind, Ffi_bind, take_last_error. by rewrite Hs.
Qed.
End calls.

(** ** The two interfaces of the core library *)

Section core.
Context {O : MapOrder} {Ook : MapOrderOk O} `{JsonLogic} `{JsonParse} `{JsonRefusal} `{JsonText}.
Context `{CoreJson}.

(** The values are read as they were written. *)
Definition reads_back (m : Map) : Prop :=
  ∀ k v, m !! k = Some v → json_from_str (json_to_string v) = Some v.

(** A pointer to a text that reads as a value. *)
Definition holds {T} (from_str : string → result string T) (s : option string) (x : T) : Prop :=
  ∃ t, s = Some t ∧ from_utf8 t = None ∧ from_str t = Ok x.

Definition holds_unless_null {T} (from_str : string → result string T) (s : option string)
    (x : option T) : Prop :=
  match x with
  | None => s = None
  | Some x => holds from_str s x
  end.

Lemma json_from_to_map m : reads_back m → json_from_map (json_to_map m) = Ok m.
Proof using Ook.
  intros Hm. unfold json_from_map, json_to_map. apply (try_collect_image _ json_to_string).
  intros k v Hk. cbv beta. by rewrite (Hm k v Hk).
Qed.

Lemma holds_parsed {T} what (from_str : string → result string T) s x f :
  holds from_str s x → parsed what (parse_json from_str s) f = f x.
Proof.
  intros (t & -> & Hu & Ht). unfold parsed, parse_json, c_str_to_string, to_str. rewrite Hu. cbn.
  by rewrite Ht.
Qed.

Lemma holds_parsed_unless_null {T} what (from_str : string → result string T) s x f :
  holds_unless_null from_str s x → parsed_unless_null what from_str s f = f x.
Proof.
  unfold parsed_unless_null. destruct x as [x|]; cbn; [|by intros ->].
  intros Hh. pose proof Hh as (t & -> & _). by apply (holds_parsed what from_str (Some t) x (f ∘ Some)).
Qed.

Lemma holds_not_null {T} (from_str : string → result string T) s x : holds from_str s x → s ≠ None.
Proof. by intros (t & -> & _). Qed.

(** C36. Both interfaces of the core library answer the resolution. When the
    pointers hold texts of what the other interface is handed, and the graphs
    of the dimensions are those of a configuration, both answer, without an
    error, the configuration resolved for the request with the variants of the
    experiments it takes part in, as one text or with a text for each key. *)
Theorem core_interfaces_agree fuel (d q : Map) contexts overrides dims strategy prefixes args
    d_json contexts_json overrides_json dims_json q_json prefixes_json args_json :
  reads_back d → reads_back q → (∀ v, has_nul (json_to_string v) = false) →
  holds parse_map d_json d → holds contexts_from_str contexts_json contexts →
  holds overrides_from_str overrides_json overrides → holds infos_from_str dims_json dims →
  holds parse_map q_json q → from_utf8 strategy = None →
  holds_unless_null strings_from_str prefixes_json prefixes →
  holds_unless_null args_from_str args_json args →
  graphs_decreasing dims → cohort_fuel dims ≤ fuel →
  let merge_strategy := core_merge_strategy strategy in
  ∃ q' r, with_variants fuel dims args q prefixes = Some q' ∧
    eval_config fuel d contexts overrides dims q' merge_strategy prefixes = Some (Ok r) ∧
    ffi_eval_config fuel (json_to_map d) contexts overrides dims (json_to_map q) merge_strategy
      prefixes args = Some (Ok (json_to_map r)) ∧
    core_get_resolved_config fuel d_json contexts_json overrides_json dims_json q_json
      (Some strategy) prefixes_json args_json = CoreAnswer (json_to_string (VObject r)).
Proof using Ook.
  intros Hd Hq Hnul Hdj Hc Ho Hdim Hqj Hst Hp Ha Hg Hf merge_strategy.
  assert (∃ q', with_variants fuel dims args q prefixes = Some q') as [q' Hq'].
  { unfold with_variants. destruct args as [e_args|]; [|by exists q].
    unfold get_applicable_variants.
    destruct (evaluate_local_cohorts_is_Some dims Hg fuel q Hf) as [mq ->]. cbn. eauto. }
  destruct (evaluate_local_cohorts_is_Some dims Hg fuel q' Hf) as [mq Hmq].
  destruct (eval_config_spec fuel d contexts overrides dims q' merge_strategy prefixes mq Hmq)
    as (r & Hr & _).
  exists q', r. split_and!; [done|done| |].
  - unfold ffi_eval_config, ffi_eval_logic. rewrite !json_from_to_map by done. rewrite Hq'. cbn.
    by rewrite Hr.
  - unfold core_get_resolved_config, core_resolve. rewrite bool_decide_false.
    2:{ apply holds_not_null in Hdj, Hc, Ho, Hdim, Hqj. set_solver. }
    rewrite (holds_parsed _ _ _ _ _ Hdj), (holds_parsed _ _ _ _ _ Hc), (holds_parsed _ _ _ _ _ Ho),
      (holds_parsed _ _ _ _ _ Hqj).
    unfold c_str_to_string, to_str. rewrite Hst. cbn [map_err parsed].
    rewrite (holds_parsed_unless_null _ _ _ _ _ Hp), (holds_parsed_unless_null _ _ _ _ _ Ha),
      (holds_parsed _ _ _ _ _ Hdim). fold merge_strategy. rewrite Hq'. cbn. rewrite Hr.
    unfold string_to_c_str. by rewrite Hnul.
Qed.
End core.

(** ** Witnesses and examples *)

#[local] Instance ffi_order : MapOrder := list_order.
#[local] Instance ffi_order_ok : MapOrderOk ffi_order := list_order_ok.
#[local] Instance ffi_logic : JsonLogic := jl_equals.
#[local] Instance ffi_refusal : JsonRefusal := λ _, "expected value at line 1 column 1".

Definition ffi_defaults : Map := {[ "fee" := VBool false ]}.
Definition ffi_query : Map := {[ "city" := str "pune" ]}.
Definition ffi_contexts : list Context :=
  [mkContext "c1" {[ "city" := str "pune" ]} 0 1 "o1"].
Definition ffi_overrides : gmap string Overrides := {[ "o1" := {[ "fee" := VBool true ]} ]}.

(** Enough JSON for the sample. *)
#[local] Instance ffi_text : JsonText := λ v,
  match v with
  | VBool true => "true"
  | VBool false => "false"
  | VString _ => "'pune'"
  | VObject _ => "{...}"
  | _ => "null"
  end.
#[local] Instance ffi_parse : JsonParse := λ s,
  if bool_decide (s = "true") then Some (VBool true)
  else if bool_decide (s = "false") then Some (VBool false)
  else if bool_decide (s = "'pune'") then Some (str "pune")
  else if bool_decide (s = "{fee}") then Some (VObject ffi_defaults)
  else if bool_decide (s = "{city}") then Some (VObject ffi_query)
  else None.
#[local] Instance ffi_core_json : CoreJson := {|
  contexts_from_str := λ _, Ok ffi_contexts;
  overrides_from_str := λ _, Ok ffi_overrides;
  infos_from_str := λ _, Ok ∅;
  strings_from_str := λ _, Ok [];
  args_from_str := λ _, Err "missing field";
  experiments_from_str := λ _, Ok [];
  groups_from_str := λ _, Ok [];
|}.

Lemma core_interfaces_agree_witness :
  ffi_eval_config 1 (json_to_map ffi_defaults) ffi_contexts ffi_overrides ∅
    (json_to_map ffi_query) REPLACE None None = Some (Ok {[ "fee" := "true" ]}) ∧
  core_get_resolved_config 1 (Some "{fee}") (Some "[]") (Some "{}") (Some "{}") (Some "{city}")
    (Some "Replace") None None = CoreAnswer "{...}".
Proof.
  destruct (core_interfaces_agree 1 ffi_defaults ffi_query ffi_contexts ffi_overrides ∅ "Replace"
    None None (Some "{fee}") (Some "[]") (Some "{}") (Some "{}") (Some "{city}") None None)
    as (q' & r & Hq & He & Hf & Hc).
  - intros k v. unfold ffi_defaults. rewrite lookup_singleton_Some. intros [_ <-]. reflexivity.
  - intros k v. unfold ffi_query. rewrite lookup_singleton_Some. intros [_ <-]. reflexivity.
  - intros v. by destruct v as [|[]| | | |].
  - exists "{fee}". split_and!; vm_compute; reflexivity.
  - exists "[]". split_and!; vm_compute; reflexivity.
  - exists "{}". split_and!; vm_compute; reflexivity.
  - exists "{}". split_and!; vm_compute; reflexivity.
  - exists "{city}". split_and!; vm_compute; reflexivity.
  - vm_compute. reflexivity.
  - reflexivity.
  - reflexivity.
  - intros d info. by rewrite lookup_empty.
  - vm_compute. lia.
  - split; [etrans; [exact Hf|]|exact Hc].
    injection Hq as <-. pose proof He as Hr. vm_compute in Hr. injection Hr as <-.
    vm_compute. reflexivity.
Defined.

Definition no_clients {C} : FfiState C := mkFfiState None ∅ [].

#[local] Instance ffi_time : TimeText := {| time_to_string := λ t, pretty t; timestamp_millis := λ t, t |}.
#[local] Instance ffi_float : FloatText := λ bits, pretty bits.
#[local] Instance ffi_config_text : ConfigText := λ _, "{}".
#[local] Instance ffi_exp_json : ExpJson :=
  {| responses_to_json := λ _, "[]"; dimensions_from_str := λ _, Ok ∅ |}.

(** A tenant without a client: null, and the message can be asked for. *)
Lemma failures_reported_witness :
  ∃ s message, cac_get_client (Some "nobody") no_clients = Some (None, s) ∧
    ff_last_error s = Some message ∧
    fst <$> cac_last_error_message s = Some (Some (rstring_to_cstring message)).
Proof.
  destruct failures_reported as (Hp & _ & _ & Hm).
  destruct (cac_get_client (Some "nobody") no_clients) as [[a s]|] eqn:E; [|by vm_compute in E].
  pose proof (Hp _ (CacGetClient (Some "nobody")) _ _ _ E) as Hl.
  assert (a = None) as -> by (vm_compute in E; by injection E as <- <-).
  destruct Hl as [message Hl]. exists s, message. split_and!; [done|exact Hl|].
  by apply (Hm _ s message Hl).
Defined.

(** To start the polling of a tenant that has no client is undefined in the
    client of experiments; that of configurations checks. *)
Example unknown_tenant_polled :
  expt_start_polling_update (Some "nobody") no_clients = None ∧
  is_Some (cac_start_polling_update (Some "nobody") no_clients).
Proof. split; vm_compute; eauto. Qed.

(** The default configuration of a null client is undefined as well. *)
Example null_client_read :
  cac_get_default_config None None no_clients = None ∧
  fst <$> cac_get_config 1 None None None no_clients = Some None.
Proof. split; vm_compute; reflexivity. Qed.

(** To ask for the last error when there is none makes one. *)
Example asking_makes_an_error :
  last_error_length (C:=Client) no_clients = Some (0%Z, no_clients) ∧
  (snd <$> cac_last_error_message (C:=Client) no_clients) ≫= last_error_length =
    Some (15%Z, mkFfiState (Some "No error found") ∅ []).
Proof. split; vm_compute; reflexivity. Qed.

(** Text of two bytes, a first byte of none, one that ends too early. *)
Example utf8_samples :
  from_utf8 "é" = None ∧
  from_utf8 (String "a" (String (ascii_of_nat 255) "")) = Some (mkUtf8Error 1 (Some 1)) ∧
  from_utf8 (String (ascii_of_nat 226) (String (ascii_of_nat 130) "")) = Some (mkUtf8Error 0 None) ∧
  from_utf8 (String (ascii_of_nat 237) (String (ascii_of_nat 160) (String (ascii_of_nat 128) ""))) =
    Some (mkUtf8Error 0 (Some 1)).
Proof. split_and!; vm_compute; reflexivity. Qed.
