(* ===== verification/Provider.v ===== *)
(** * The OpenFeature provider

    [crates/superposition_provider]: the conversion of the answers of the SDK
    ([utils.rs]), the two configurations that are fetched and kept
    ([client.rs]), and the provider that resolves flags from them
    ([provider.rs]). Of the SDK, which is generated, the records are those of
    its types; times are in nanoseconds. *)

From S2P Require Import Prelude Pages Stack Json Types Text Effects Logic Config Resolve ExpModels Bucketing CacClient.

(** ** Errors and options *)

Inductive SuperpositionError : Type :=
  | ConfigError (message : string)
  | NetworkError (message : string)
  | SerializationError (message : string)
  | ProviderError (message : string).

Abbreviation SResult := (result SuperpositionError).

(** [Display], which [thiserror] derives. *)
Definition superposition_error_text (e : SuperpositionError) : string :=
  match e with
  | ConfigError m => "Configuration error: " +:+ m
  | NetworkError m => "Network error: " +:+ m
  | SerializationError m => "Serialization error: " +:+ m
  | ProviderError m => "Provider error: " +:+ m
  end.

Inductive RefreshStrategy : Type :=
  | PollingStrategy (interval : N) (timeout : option N)
  | OnDemandStrategy (ttl : N) (timeout : option N) (use_stale_on_error : option bool).

(** [RefreshStrategy::default()]. *)
Definition default_strategy : RefreshStrategy := OnDemandStrategy 300 (Some 30%N) (Some true).

(** ** Documents of the SDK *)

(** [aws_smithy_types::Number]; a float is its 64 bits. *)
Inductive SdkNumber : Type :=
  | SdkPosInt (n : N)
  | SdkNegInt (z : Z)
  | SdkFloat (bits : N).

Inductive Document : Type :=
  | DObject (m : gmap string Document)
  | DArray (l : list Document)
  | DNumber (n : SdkNumber)
  | DString (s : string)
  | DBool (b : bool)
  | DNull.

(** [Number::from_f64]: none for what is not finite. Both zeros are the pattern
    that stands for zero in [Number], whose patterns are equal when the floats
    compare equal. *)
Definition number_from_f64 (bits : N) : option Number :=
  if bool_decide (N.land (N.shiftr bits 52) 2047 = 2047)%N then None
  else Some (Float (if bool_decide (bits = 2 ^ 63)%N then 0%N else bits)).

(** [Number::from(i64)]. *)
Definition number_from_i64 (z : Z) : Number :=
  if bool_decide (z < 0)%Z then NegInt z else PosInt (Z.to_N z).

Definition number_of_sdk (n : SdkNumber) : SResult Number :=
  match n with
  | SdkPosInt n => Ok (PosInt n)
  | SdkNegInt z => Ok (number_from_i64 z)
  | SdkFloat bits => ok_or (number_from_f64 bits) (SerializationError "Invalid float value")
  end.

(** There is one error, so the order of the entries does not matter. *)
Fixpoint document_to_value (doc : Document) : SResult Value :=
  match doc with
  | DObject obj =>
      map ← map_fold (λ key value (map : SResult Map),
          map ← map;
          converted_value ← document_to_value value;
          Ok (<[key := converted_value]> map)) (Ok ∅) obj;
      Ok (VObject map)
  | DArray arr =>
      vec ← foldr (λ item (vec : SResult (list Value)),
          converted_item ← document_to_value item;
          vec ← vec;
          Ok (converted_item :: vec)) (Ok []) arr;
      Ok (VArray vec)
  | DNumber num => n ← number_of_sdk num; Ok (VNumber n)
  | DString s => Ok (VString s)
  | DBool b => Ok (VBool b)
  | DNull => Ok VNull
  end.

(** ** Answers of the SDK *)

Record SdkContextPartial : Type := mkSdkContext {
  sc_id : string;
  sc_condition : gmap string Document;
  sc_priority : Z;
  sc_weight : Z;
  sc_override_with_keys : list string;
}.

Inductive SdkDimensionType : Type :=
  | SdkLocalCohort (based_on : string)
  | SdkRegular
  | SdkRemoteCohort (based_on : string)
  | SdkUnknown.

Record SdkDimensionInfo : Type := mkSdkDimension {
  sd_schema : gmap string Document;
  sd_position : Z;
  sd_dimension_type : SdkDimensionType;
  sd_dependency_graph : gmap string (list string);
  sd_value_compute_function_name : option string;
}.

Record GetConfigOutput : Type := mkGetConfigOutput {
  go_contexts : list SdkContextPartial;
  go_overrides : gmap string (gmap string Document);
  go_default_configs : gmap string Document;
  go_dimensions : gmap string SdkDimensionInfo;
}.

(** An enum of the SDK has a value for what it does not know. *)
Inductive SdkEnum (A : Type) : Type := SdkKnown (a : A) | SdkUnknownValue.
Arguments SdkKnown {A} _.
Arguments SdkUnknownValue {A}.

Record SdkVariant : Type := mkSdkVariant {
  sv_id : string;
  sv_variant_type : SdkEnum VariantType;
  sv_context_id : option string;
  sv_override_id : option string;
  sv_overrides : gmap string Document;
}.

(** The fields of an experiment and of a group that are read. *)
Record SdkExperiment : Type := mkSdkExperiment {
  se_id : string;
  se_status : SdkEnum ExperimentStatusType;
  se_traffic_percentage : Z;
  se_context : gmap string Document;
  se_variants : list SdkVariant;
}.

Record SdkExperimentGroup : Type := mkSdkGroup {
  sg_id : string;
  sg_context : gmap string Document;
  sg_traffic_percentage : Z;
  sg_member_experiment_ids : list string;
  sg_buckets : list (option Bucket);
  sg_group_type : SdkEnum GroupType;
}.

Section conversions.
Context {O : MapOrder}.

Definition convert_condition_document (context : gmap string Document) : SResult Map :=
  try_collect (λ _, document_to_value) context.

Definition hashmap_to_map (hashmap : gmap string Document) : SResult Map :=
  try_collect (λ _, document_to_value) hashmap.

Definition serialization {A} (prefix : string) (r : result string A) : SResult A :=
  map_err (λ e, SerializationError (prefix +:+ e)) r.

Definition convert_context (context_partial : SdkContextPartial) : SResult Context :=
  condition_map ← convert_condition_document (sc_condition context_partial);
  condition ← serialization "Invalid condition: " (cac_condition_try_from condition_map);
  override_with_keys ← serialization "Invalid override_with_keys: "
    (OverrideWithKeys.try_from (sc_override_with_keys context_partial));
  Ok (mkContext (sc_id context_partial) condition (sc_priority context_partial)
        (sc_weight context_partial) override_with_keys).

Definition try_dimension_type (dim_type : SdkDimensionType) : SResult DimensionType :=
  match dim_type with
  | SdkRemoteCohort cohort_based_on => Ok (RemoteCohort cohort_based_on)
  | SdkLocalCohort cohort_based_on => Ok (LocalCohort cohort_based_on)
  | SdkRegular => Ok Regular
  | SdkUnknown => Err (SerializationError "Unknown dimension type")
  end.

Definition convert_dimension (dimension_info : SdkDimensionInfo) : SResult DimensionInfo :=
  schema ← try_collect (λ _, document_to_value) (sd_schema dimension_info);
  dimension_type ← try_dimension_type (sd_dimension_type dimension_info);
  Ok (mkDimensionInfo schema (sd_position dimension_info) dimension_type
        (sd_dependency_graph dimension_info) (sd_value_compute_function_name dimension_info)).

Definition convert_override (inner_map : gmap string Document) : SResult Overrides :=
  override_values ← convert_condition_document inner_map;
  serialization "" (cac_overrides_try_from override_values).

Definition convert_get_config_response (response : GetConfigOutput) : SResult Config :=
  default_configs ← convert_condition_document (go_default_configs response);
  overrides ← try_collect (λ _, convert_override) (go_overrides response);
  contexts ← try_map convert_context (go_contexts response);
  dimensions ← try_collect (λ _, convert_dimension) (go_dimensions response);
  Ok (mkConfig contexts overrides default_configs dimensions).

Definition known {A} (what : string) (e : SdkEnum A) : SResult A :=
  match e with
  | SdkKnown a => Ok a
  | SdkUnknownValue => Err (SerializationError ("Unknown " +:+ what))
  end.

Definition convert_variant (variant : SdkVariant) : SResult Variant :=
  variant_type ← known "variant type" (sv_variant_type variant);
  overrides_map ← hashmap_to_map (sv_overrides variant);
  override_ ← serialization "" (exp_overrides_try_from overrides_map);
  Ok (mkVariant (sv_id variant) variant_type (sv_context_id variant) (sv_override_id variant)
        override_).

Definition convert_experiment (exp : SdkExperiment) : SResult FfiExperiment :=
  condition_map ← convert_condition_document (se_context exp);
  variants ← try_map convert_variant (se_variants exp);
  context ← serialization "Invalid condition: " (exp_condition_try_from condition_map);
  status ← known "experiment status" (se_status exp);
  Ok (mkFfiExperiment (se_id exp) (wrap8 (se_traffic_percentage exp)) variants context status).

Definition convert_experiments_response (data : list SdkExperiment) : SResult (list FfiExperiment) :=
  try_map convert_experiment data.

Definition convert_experiment_group (exp_group : SdkExperimentGroup) : SResult FfiExperimentGroup :=
  condition_map ← convert_condition_document (sg_context exp_group);
  context ← serialization "Invalid condition: " (exp_condition_try_from condition_map);
  group_type ← known "group type" (sg_group_type exp_group);
  buckets ← serialization "" (Buckets.try_from (sg_buckets exp_group));
  Ok (mkFfiExperimentGroup (sg_id exp_group) context (wrap8 (sg_traffic_percentage exp_group))
        (sg_member_experiment_ids exp_group) group_type buckets).

Definition convert_experiment_groups_response (data : list SdkExperimentGroup)
    : SResult (list FfiExperimentGroup) :=
  try_map convert_experiment_group data.
End conversions.

(** ** The fallback configuration *)

(** [Value::as_i64]. *)
Definition as_i64 (v : Value) : option Z :=
  match v with
  | VNumber (PosInt n) => if bool_decide (Z.of_N n < 2 ^ 63)%Z then Some (Z.of_N n) else None
  | VNumber (NegInt z) => Some z
  | _ => None
  end.

(** [as i32]. *)
Definition as_i32 (z : Z) : Z := ((z + 2 ^ 31) `mod` 2 ^ 32 - 2 ^ 31)%Z.

(** [serde_json::from_value::<DimensionInfo>], which the build derives. *)
Class DimensionInfoJson := dimension_info_from_value : Value → result string DimensionInfo.

Section fallback.
Context {O : MapOrder} `{DimensionInfoJson}.

Definition field {A} (obj : Map) (key : string) (read : Value → option A) (missing : string)
    : SResult A :=
  ok_or (obj !! key ≫= read) (ConfigError missing).

Definition missing_in_context (key : string) : string :=
  "Missing or invalid '" +:+ key +:+ "' field in context".
Definition missing_field (key : string) : string := "Missing or invalid '" +:+ key +:+ "' field".

(** Entries of [override_with_keys] that are not texts are left out. *)
Definition value_to_context (context_val : Value) : SResult Context :=
  context_obj ← ok_or (as_object context_val) (ConfigError "Context must be an object");
  id ← field context_obj "id" as_str (missing_in_context "id");
  priority ← field context_obj "priority" as_i64 (missing_in_context "priority");
  weight ← field context_obj "weight" as_i64 (missing_in_context "weight");
  keys ← field context_obj "override_with_keys" as_array (missing_in_context "override_with_keys");
  override_with_keys ← map_err (λ e, ConfigError ("Invalid override_with_keys: " +:+ e))
    (OverrideWithKeys.try_from (omap as_str keys));
  condition_map ← field context_obj "condition" as_object (missing_in_context "condition");
  condition ← serialization "Invalid condition: " (cac_condition_try_from condition_map);
  Ok (mkContext id condition (as_i32 priority) (as_i32 weight) override_with_keys).

Definition value_to_override (key : string) (value : Value) : SResult Overrides :=
  override_map ← ok_or (as_object value) (ConfigError ("Override '" +:+ key +:+ "' must be an object"));
  serialization ("Invalid override '" +:+ key +:+ "': ") (cac_overrides_try_from override_map).

Definition value_to_dimension (key : string) (value : Value) : SResult DimensionInfo :=
  serialization ("Invalid dimension info for '" +:+ key +:+ "': ") (dimension_info_from_value value).

Definition convert_value_to_config (map : Map) : SResult Config :=
  contexts ← field map "contexts" as_array (missing_field "contexts");
  contexts ← try_map value_to_context contexts;
  overrides_obj ← field map "overrides" as_object (missing_field "overrides");
  overrides ← try_collect value_to_override overrides_obj;
  default_configs ← field map "default_configs" as_object (missing_field "default_configs");
  dimensions ← match map !! "dimensions" ≫= as_object with
               | Some dim => try_collect value_to_dimension dim
               | None => Ok ∅
               end;
  Ok (mkConfig contexts overrides default_configs dimensions).
End fallback.

(** [config_to_legacy_format]: the dimensions are left out. *)
Definition legacy_context (context : Context) : Value :=
  VObject (<["id" := VString (c_id context)]>
    (<["priority" := VNumber (number_from_i64 (c_priority context))]>
    (<["weight" := VNumber (number_from_i64 (c_weight context))]>
    (<["override_with_keys" :=
         VArray (VString <$> OverrideWithKeys.to_vec (c_override_with_keys context))]>
     {[ "condition" := VObject (c_condition context) ]})))).

Definition config_to_legacy_format (config : Config) : Map :=
  <["default_configs" := VObject (default_configs config)]>
  (<["overrides" := VObject (VObject <$> overrides config)]>
   {[ "contexts" := VArray (legacy_context <$> contexts config) ]}).

(** ** Values of OpenFeature *)

(** A float is its 64 bits; [Struct] holds any type, of which a map of JSON is
    recognised. *)
Inductive EvaluationContextFieldValue : Type :=
  | FieldBool (b : bool)
  | FieldInt (i : Z)
  | FieldFloat (bits : N)
  | FieldString (s : string)
  | FieldDateTime (time : Z)
  | FieldStruct (map : option Map).

Record EvaluationContext : Type := mkEvaluationContext {
  ev_targeting_key : option string;
  ev_custom_fields : gmap string EvaluationContextFieldValue;
}.

Inductive OfValue : Type :=
  | OfBool (b : bool)
  | OfInt (i : Z)
  | OfFloat (bits : N)
  | OfString (s : string)
  | OfArray (l : list OfValue)
  | OfStruct (fields : gmap string OfValue).

(** How [time] prints an [OffsetDateTime], and [Debug] of a value. *)
Class ProviderText := {
  date_to_string : Z → string;
  debug_value : Value → string;
}.

(** [as f64] of an integer: the 64 bits of the nearest float, the even one of
    two. A significand that is rounded up to [2 ^ 53] carries into the
    exponent. *)
Definition f64_of_nat (n : N) : N :=
  if bool_decide (n = 0)%N then 0%N
  else
    let e := N.log2 n in
    let significand :=
      if bool_decide (e ≤ 52)%N then N.shiftl n (52 - e)
      else
        let q := N.shiftr n (e - 52) in
        let r := (n - N.shiftl q (e - 52))%N in
        let half := (2 ^ (e - 53))%N in
        if bool_decide (half < r)%N || (bool_decide (r = half) && N.odd q) then (q + 1)%N else q in
    (N.shiftl (e + 1023) 52 + (significand - 2 ^ 52))%N.

Definition f64_of_int (z : Z) : N :=
  if bool_decide (z < 0)%Z then (2 ^ 63 + f64_of_nat (Z.to_N (- z)))%N
  else f64_of_nat (Z.to_N z).

Definition no_null : SuperpositionError := ConfigError "Cannot convert null to OpenFeature value".

Section values.
Context {O : MapOrder} `{ProviderText}.

Definition convert_evaluation_context_value_to_serde_value (value : EvaluationContextFieldValue)
    : Value :=
  match value with
  | FieldBool b => VBool b
  | FieldInt i => VNumber (number_from_i64 i)
  | FieldFloat f => match number_from_f64 f with Some n => VNumber n | None => VNull end
  | FieldString s => VString s
  | FieldDateTime dt => VString (date_to_string dt)
  | FieldStruct s => VObject (default ∅ s)
  end.

Definition context_to_dimension_data (context : EvaluationContext) : Map :=
  (convert_evaluation_context_value_to_serde_value <$> ev_custom_fields context) ∪
  match ev_targeting_key context with
  | Some targeting_key => {[ "targeting_key" := VString targeting_key ]}
  | None => ∅
  end.

(** [Value::as_f64]. *)
Definition as_f64 (v : Value) : option N :=
  match v with
  | VNumber (PosInt n) => Some (f64_of_int (Z.of_N n))
  | VNumber (NegInt z) => Some (f64_of_int z)
  | VNumber (Float bits) => Some bits
  | _ => None
  end.

(** The only error is that of a null. *)
Fixpoint serde_value_to_openfeature_value (value : Value) : SResult OfValue :=
  match value with
  | VBool b => Ok (OfBool b)
  | VString s => Ok (OfString s)
  | VNumber n =>
      match as_i64 value with
      | Some i => Ok (OfInt i)
      | None => f ← ok_or (as_f64 value) no_null; Ok (OfFloat f)
      end
  | VArray arr =>
      list ← foldr (λ item (list : SResult (list OfValue)),
          item ← serde_value_to_openfeature_value item;
          list ← list;
          Ok (item :: list)) (Ok []) arr;
      Ok (OfArray list)
  | VObject map =>
      fields ← map_fold (λ k v (fields : SResult (gmap string OfValue)),
          fields ← fields;
          open_feature_value ← serde_value_to_openfeature_value v;
          Ok (<[k := open_feature_value]> fields)) (Ok ∅) map;
      Ok (OfStruct fields)
  | VNull => Err no_null
  end.

(** [parse::<bool>]. *)
Definition parse_bool (s : string) : option bool :=
  if bool_decide (s = "true") then Some true
  else if bool_decide (s = "false") then Some false else None.

Definition serde_value_to_bool (value : Value) : SResult bool :=
  match value with
  | VBool b => Ok b
  | VString s =>
      ok_or (parse_bool s) (ConfigError ("Cannot convert string '" +:+ s +:+ "' to boolean"))
  | _ => Err (ConfigError ("Cannot convert " +:+ debug_value value +:+ " to boolean"))
  end.

Definition serde_value_to_string `{FloatText} (value : Value) : SResult string :=
  match value with
  | VString s => Ok s
  | VNumber n => Ok (number_to_string n)
  | VBool b => Ok (if b then "true" else "false")
  | _ => Err (ConfigError ("Cannot convert " +:+ debug_value value +:+ " to string"))
  end.

Definition serde_value_to_int `{FloatText} (value : Value) : SResult Z :=
  match value with
  | VNumber n =>
      ok_or (as_i64 value) (ConfigError ("Cannot convert number " +:+ number_to_string n +:+ " to i64"))
  | VString s =>
      map_err (λ _, ConfigError ("Cannot convert string '" +:+ s +:+ "' to i64")) (parse_i64 s)
  | _ => Err (ConfigError ("Cannot convert " +:+ debug_value value +:+ " to i64"))
  end.

Definition serde_value_to_struct_value (value : Value) : SResult (gmap string OfValue) :=
  match value with
  | VObject map => try_collect (λ _, serde_value_to_openfeature_value) map
  | VArray list =>
      items ← try_map serde_value_to_openfeature_value list;
      Ok (collect_map (imap (λ index item, (pretty index, item)) items))
  | _ => Err (ConfigError ("Cannot convert " +:+ debug_value value +:+
                " to StructValue - flag must be an object/array"))
  end.
End values.

(** ** The evaluation of [utils.rs]

    An older evaluation, which the provider does not use. *)

(** [sort_by_key(|c| Reverse(c.priority))]. *)
Definition higher_priority (x y : Context) : Prop := (c_priority y ≤ c_priority x)%Z.

#[export] Instance higher_priority_dec : RelDecision higher_priority.
Proof. intros x y. unfold higher_priority. apply _. Defined.

Definition legacy_evaluate_config `{JsonLogic} {O : MapOrder} (fuel : nat) (config : Config)
    (dimension_data : Map) (prefix_filter : option (list string)) : option Map :=
  filtered_config ← Config.filter_by_dimensions fuel config dimension_data;
  let final_config :=
    match prefix_filter with
    | Some prefixes => Config.filter_by_prefix filtered_config (list_to_set prefixes)
    | None => filtered_config
    end in
  let sorted_contexts := merge_sort higher_priority (contexts final_config) in
  Some (foldl (λ result context,
          match overrides final_config !! OverrideWithKeys.get_key (c_override_with_keys context) with
          | Some override_map => override_map ∪ result
          | None => result
          end) (default_configs final_config) sorted_contexts).

(** ** The configuration that is kept *)

Record CacConfig : Type := mkCacConfig {
  pc_fallback_config : option Map;
  pc_refresh_strategy : RefreshStrategy;
  pc_cached_config : option Config;
  pc_last_updated : option Z;
  pc_polling : bool;
}.

Definition cac_config_new (fallback_config : option Map) (refresh_strategy : RefreshStrategy)
    : CacConfig :=
  mkCacConfig fallback_config refresh_strategy None None false.

Definition set_cached (self : CacConfig) (config : Config) (last_updated : option Z) : CacConfig :=
  mkCacConfig (pc_fallback_config self) (pc_refresh_strategy self) (Some config) last_updated
    (pc_polling self).

Definition start_refresh (self : CacConfig) : CacConfig :=
  match pc_refresh_strategy self with
  | PollingStrategy _ _ =>
      mkCacConfig (pc_fallback_config self) (pc_refresh_strategy self) (pc_cached_config self)
        (pc_last_updated self) true
  | OnDemandStrategy _ _ _ => self
  end.

(** What becomes of a call that may wait for a lock it holds itself. *)
Inductive OnDemand (A S : Type) : Type :=
  | Answers (answer : SResult A) (state : S)
  | Blocked.
Arguments Answers {A S} _ _.
Arguments Blocked {A S}.

(** [as i64] of a [u64]. *)
Definition as_i64_cast (z : Z) : Z := ((z + 2 ^ 63) `mod` 2 ^ 64 - 2 ^ 63)%Z.

(** [(now - last).num_seconds() > ttl as i64]. *)
Definition should_refresh (now : Z) (ttl : N) (last_updated : option Z) : bool :=
  match last_updated with
  | Some last => bool_decide (as_i64_cast (Z.of_N ttl) < (now - last) `quot` 10 ^ 9)%Z
  | None => true
  end.

Definition no_cached_config : SuperpositionError := ConfigError "No cached config available".

Section cac.
Context {O : MapOrder} `{DimensionInfoJson} `{JsonLogic}.

(** [get_config_static]: what the SDK answers, or how its error prints. *)
Definition get_config (response : result string GetConfigOutput) : SResult Config :=
  response ← map_err (λ e, NetworkError ("Failed to get config: " +:+ e)) response;
  convert_get_config_response response.

Definition cac_create_config (now : Z) (response : result string GetConfigOutput) (self : CacConfig)
    : SResult unit * CacConfig :=
  match get_config response with
  | Ok config => (Ok tt, start_refresh (set_cached self config (Some now)))
  | Err e =>
      match pc_cached_config self with
      | None =>
          match pc_fallback_config self with
          | Some fallback =>
              match convert_value_to_config fallback with
              | Ok config => (Ok tt, start_refresh (set_cached self config (pc_last_updated self)))
              | Err e => (Err e, self)
              end
          | None => (Ok tt, start_refresh self)
          end
      | Some _ => (Err e, self)
      end
  end.

(** One turn of [start_polling]. *)
Definition cac_poll (now : Z) (response : result string GetConfigOutput) (self : CacConfig)
    : CacConfig :=
  match get_config response with
  | Ok config => set_cached self config (Some now)
  | Err _ => self
  end.

(** The guard that reads [last_updated] lives to the end of the function, so
    the write that follows a successful fetch waits for it. *)
Definition cac_on_demand_config (now : Z) (ttl : N) (use_stale : bool)
    (response : result string GetConfigOutput) (self : CacConfig) : OnDemand Config CacConfig :=
  let cached := ok_or (pc_cached_config self) no_cached_config in
  if should_refresh now ttl (pc_last_updated self) then
    match get_config response with
    | Ok _ => Blocked
    | Err e => if use_stale then Answers cached self else Answers (Err e) self
    end
  else Answers cached self.

Definition evaluate_config (fuel : nat) (self : CacConfig) (query_data : Map)
    (prefix_filter : option (list string)) : option (SResult Map) :=
  match pc_cached_config self with
  | Some cached_config =>
      r ← eval_config fuel (default_configs cached_config) (contexts cached_config)
        (overrides cached_config) (dimensions cached_config) query_data MERGE prefix_filter;
      Some (map_err (λ e, ConfigError ("Failed to evaluate config: " +:+ e)) r)
  | None => Some (Err no_cached_config)
  end.

Definition get_cached_config (self : CacConfig) : option Config := pc_cached_config self.

Definition cac_close (self : CacConfig) : CacConfig :=
  mkCacConfig (pc_fallback_config self) (pc_refresh_strategy self) None (pc_last_updated self) false.
End cac.

(** ** The experiments that are kept *)

Record ExperimentationConfig : Type := mkExperimentationConfig {
  px_refresh_strategy : RefreshStrategy;
  px_cached_experiments : option (list FfiExperiment);
  px_cached_experiment_groups : option (list FfiExperimentGroup);
  px_last_updated : option Z;
  px_polling : bool;
}.

Definition experimentation_config_new (refresh_strategy : RefreshStrategy) : ExperimentationConfig :=
  mkExperimentationConfig refresh_strategy None None None false.

Definition set_experiments (self : ExperimentationConfig) (experiments : list FfiExperiment)
    (groups : list FfiExperimentGroup) (now : Z) : ExperimentationConfig :=
  mkExperimentationConfig (px_refresh_strategy self) (Some experiments) (Some groups) (Some now)
    (px_polling self).

Definition exp_start_refresh (self : ExperimentationConfig) : ExperimentationConfig :=
  match px_refresh_strategy self with
  | PollingStrategy _ _ =>
      mkExperimentationConfig (px_refresh_strategy self) (px_cached_experiments self)
        (px_cached_experiment_groups self) (px_last_updated self) true
  | OnDemandStrategy _ _ _ => self
  end.

Section experiments.
Context {O : MapOrder} `{JsonLogic}.

Definition fetch_experiments (response : result string (list SdkExperiment))
    : SResult (list FfiExperiment) :=
  response ← map_err (λ e, NetworkError ("Failed to list experiments: " +:+ e)) response;
  convert_experiments_response response.

Definition fetch_groups (response : result string (list SdkExperimentGroup))
    : SResult (list FfiExperimentGroup) :=
  response ← map_err (λ e, NetworkError ("Failed to list experiment groups: " +:+ e)) response;
  convert_experiment_groups_response response.

(** Both requests are made; the error is the first. *)
Definition fetch_both (experiments : result string (list SdkExperiment))
    (groups : result string (list SdkExperimentGroup))
    : SResult (list FfiExperiment * list FfiExperimentGroup) :=
  experiments ← fetch_experiments experiments;
  groups ← fetch_groups groups;
  Ok (experiments, groups).

Definition exp_create_config (now : Z) (experiments : result string (list SdkExperiment))
    (groups : result string (list SdkExperimentGroup)) (self : ExperimentationConfig)
    : SResult unit * ExperimentationConfig :=
  match fetch_both experiments groups with
  | Ok (experiments, groups) => (Ok tt, exp_start_refresh (set_experiments self experiments groups now))
  | Err e => (Err e, self)
  end.

Definition exp_poll (now : Z) (experiments : result string (list SdkExperiment))
    (groups : result string (list SdkExperimentGroup)) (self : ExperimentationConfig)
    : ExperimentationConfig :=
  match fetch_both experiments groups with
  | Ok (experiments, groups) => set_experiments self experiments groups now
  | Err _ => self
  end.

Definition exp_on_demand_config (now : Z) (ttl : N) (use_stale : bool)
    (experiments : result string (list SdkExperiment))
    (groups : result string (list SdkExperimentGroup)) (self : ExperimentationConfig)
    : OnDemand (list FfiExperiment) ExperimentationConfig :=
  let cached := Ok (default [] (px_cached_experiments self)) in
  if should_refresh now ttl (px_last_updated self) then
    match fetch_both experiments groups with
    | Ok _ => Blocked
    | Err e => if use_stale then Answers cached self else Answers (Err e) self
    end
  else Answers cached self.

Definition provider_applicable_variants (fuel : nat) (self : ExperimentationConfig)
    (dimensions_info : gmap string DimensionInfo) (contexts : Map) (identifier : option string)
    : option (SResult (list string)) :=
  match px_cached_experiments self, px_cached_experiment_groups self with
  | Some experiments, Some experiment_groups =>
      variants ← get_applicable_variants fuel dimensions_info experiments experiment_groups contexts
        (default "" identifier) None;
      Some (Ok variants)
  | _, _ => Some (Err (ConfigError "No cached experiments or experiment groups available"))
  end.

Definition get_cached_experiments (self : ExperimentationConfig) : option (list FfiExperiment) :=
  px_cached_experiments self.
Definition get_cached_experiment_groups (self : ExperimentationConfig)
    : option (list FfiExperimentGroup) :=
  px_cached_experiment_groups self.

(** The groups stay. *)
Definition exp_close (self : ExperimentationConfig) : ExperimentationConfig :=
  mkExperimentationConfig (px_refresh_strategy self) None (px_cached_experiment_groups self)
    (px_last_updated self) false.
End experiments.

(** ** The provider *)

Inductive ProviderStatus : Type := Ready | Error | NotReady | STALE.

Record SuperpositionProvider : Type := mkProvider {
  sp_status : ProviderStatus;
  sp_cac_config : option CacConfig;
  sp_exp_config : option ExperimentationConfig;
}.

Definition provider_new (fallback_config : option Map) (refresh_strategy : RefreshStrategy)
    (experimentation : option RefreshStrategy) : SuperpositionProvider :=
  mkProvider NotReady (Some (cac_config_new fallback_config refresh_strategy))
    (experimentation_config_new <$> experimentation).

(** What the service answers the three requests of an initialisation. *)
Record SdkAnswers : Type := mkSdkAnswers {
  an_config : result string GetConfigOutput;
  an_experiments : result string (list SdkExperiment);
  an_groups : result string (list SdkExperimentGroup);
}.

Inductive EvaluationErrorCode : Type := FlagNotFound | ParseError.

Record EvaluationError : Type := mkEvaluationError {
  ee_code : EvaluationErrorCode;
  ee_message : string;
}.

Definition flag_not_found : EvaluationError :=
  mkEvaluationError FlagNotFound "Flag not found in configuration".

Section provider.
Context {O : MapOrder} `{DimensionInfoJson} `{JsonLogic} `{ProviderText}.

Definition provider_init (now : Z) (answers : SdkAnswers) (self : SuperpositionProvider)
    : SResult unit * SuperpositionProvider :=
  let '(r, cac_config) :=
    match sp_cac_config self with
    | Some cac_config =>
        let '(r, cac_config) := cac_create_config now (an_config answers) cac_config in
        (map_err (λ e, ConfigError ("Failed to initialize CAC configuration: " +:+
           superposition_error_text e)) r, Some cac_config)
    | None => (Ok tt, None)
    end in
  match r with
  | Err e => (Err e, mkProvider (sp_status self) cac_config (sp_exp_config self))
  | Ok _ =>
      let '(r, exp_config) :=
        match sp_exp_config self with
        | Some exp_config =>
            let '(r, exp_config) :=
              exp_create_config now (an_experiments answers) (an_groups answers) exp_config in
            (map_err (λ e, ConfigError ("Failed to initialize experimentation configuration: " +:+
               superposition_error_text e)) r, Some exp_config)
        | None => (Ok tt, None)
        end in
      (r, mkProvider (sp_status self) cac_config exp_config)
  end.

Definition set_status (self : SuperpositionProvider) (status : ProviderStatus)
    : SuperpositionProvider :=
  mkProvider status (sp_cac_config self) (sp_exp_config self).

Definition initialize (now : Z) (answers : SdkAnswers) (self : SuperpositionProvider)
    : SuperpositionProvider :=
  match provider_init now answers (set_status self NotReady) with
  | (Ok _, self) => set_status self Ready
  | (Err _, self) => set_status self Error
  end.

Definition get_context_from_evaluation_context (evaluation_context : EvaluationContext)
    : Map * option string :=
  (convert_evaluation_context_value_to_serde_value <$> ev_custom_fields evaluation_context,
   ev_targeting_key evaluation_context).

Definition get_dimensions_info (self : SuperpositionProvider) : gmap string DimensionInfo :=
  match sp_cac_config self ≫= get_cached_config with
  | Some config => dimensions config
  | None => ∅
  end.

Definition provider_eval_config (fuel : nat) (self : SuperpositionProvider)
    (evaluation_context : EvaluationContext) : option (SResult Map) :=
  let '(context, targeting_key) := get_context_from_evaluation_context evaluation_context in
  variant_ids ← match sp_exp_config self with
                | Some exp_config =>
                    provider_applicable_variants fuel exp_config (get_dimensions_info self) context
                      targeting_key
                | None => Some (Ok [])
                end;
  match variant_ids with
  | Err e => Some (Err e)
  | Ok variant_ids =>
      let context := <["variantIds" := VArray (VString <$> variant_ids)]> context in
      match sp_cac_config self with
      | Some cac_config => evaluate_config fuel cac_config context None
      | None => Some (Err (ConfigError "CAC config not initialized"))
      end
  end.

Definition resolve_full_config (fuel : nat) (self : SuperpositionProvider)
    (evaluation_context : EvaluationContext) : option (SResult Map) :=
  provider_eval_config fuel self evaluation_context.

(** A flag is not found as well when it has another type. *)
Definition resolve_flag {A} (read : Value → option A) (fuel : nat) (self : SuperpositionProvider)
    (flag_key : string) (evaluation_context : EvaluationContext) : option (result EvaluationError A) :=
  config ← provider_eval_config fuel self evaluation_context;
  Some (match config with
        | Ok config => ok_or (config !! flag_key ≫= read) flag_not_found
        | Err _ => Err flag_not_found
        end).

Definition resolve_bool_value (fuel : nat) (self : SuperpositionProvider) (flag_key : string)
    (evaluation_context : EvaluationContext) : option (result EvaluationError bool) :=
  resolve_flag as_bool fuel self flag_key evaluation_context.
Definition resolve_string_value (fuel : nat) (self : SuperpositionProvider) (flag_key : string)
    (evaluation_context : EvaluationContext) : option (result EvaluationError string) :=
  resolve_flag as_str fuel self flag_key evaluation_context.
Definition resolve_int_value (fuel : nat) (self : SuperpositionProvider) (flag_key : string)
    (evaluation_context : EvaluationContext) : option (result EvaluationError Z) :=
  resolve_flag as_i64 fuel self flag_key evaluation_context.
Definition resolve_float_value (fuel : nat) (self : SuperpositionProvider) (flag_key : string)
    (evaluation_context : EvaluationContext) : option (result EvaluationError N) :=
  resolve_flag as_f64 fuel self flag_key evaluation_context.

Definition resolve_struct_value (fuel : nat) (self : SuperpositionProvider) (flag_key : string)
    (evaluation_context : EvaluationContext) : option (result EvaluationError (gmap string OfValue)) :=
  config ← provider_eval_config fuel self evaluation_context;
  Some (match config with
        | Ok config =>
            match config !! flag_key with
            | Some value =>
                map_err (λ e, mkEvaluationError ParseError
                    ("Failed to parse struct value: " +:+ superposition_error_text e))
                  (serde_value_to_struct_value value)
            | None => Err flag_not_found
            end
        | Err _ => Err flag_not_found
        end).
End provider.
