(* ===== verification/ProviderClaims.v ===== *)
(** * Theorems on the OpenFeature provider *)

From S2P Require Import Prelude Pages Stack Json Types Text Effects Logic LogicProps Config Resolve ExpModels Bucketing BucketAlloc BucketingProps Samples CacClient ExpChecks CacStore CacConfig Contexts Dimensions DefaultConfigs Functions CacServing CacQueries CacService DimSpec CacInv CacProps CacGenerated CacChanges CacServingProps Store Groups Experiments Queries Service Reallocation Spec Refine RefineExperiments ServiceProps ServerSamples QueryClaims CacReduceClaims Polling PollingClaims Provider.

(** ** Values and documents *)

(** Numbers as [serde_json] makes them. *)
Definition number_ok (n : Number) : Prop :=
  match n with
  | PosInt _ => True
  | NegInt z => (z < 0)%Z
  | Float bits => number_from_f64 bits = Some (Float bits)
  end.

Inductive value_ok : Value → Prop :=
  | ok_null : value_ok VNull
  | ok_bool b : value_ok (VBool b)
  | ok_number n : number_ok n → value_ok (VNumber n)
  | ok_string s : value_ok (VString s)
  | ok_array l : Forall value_ok l → value_ok (VArray l)
  | ok_object (m : Map) : map_Forall (λ _, value_ok) m → value_ok (VObject m).

Definition number_to_sdk (n : Number) : SdkNumber :=
  match n with
  | PosInt n => SdkPosInt n
  | NegInt z => SdkNegInt z
  | Float bits => SdkFloat bits
  end.

(** The document that the SDK makes of a value. *)
Fixpoint value_to_document (v : Value) : Document :=
  match v with
  | VNull => DNull
  | VBool b => DBool b
  | VNumber n => DNumber (number_to_sdk n)
  | VString s => DString s
  | VArray l => DArray (map value_to_document l)
  | VObject m => DObject (value_to_document <$> m)
  end.

Lemma number_round_trip n : number_ok n → number_of_sdk (number_to_sdk n) = Ok n.
Proof.
  destruct n as [n|z|bits]; cbn; intros Hn; [done| |by rewrite Hn].
  unfold number_from_i64. by rewrite bool_decide_true.
Qed.

Lemma document_round_trip v : value_ok v → document_to_value (value_to_document v) = Ok v.
Proof.
  induction v as [| | | |l IH|m IH] using Value_ind'; intros Hv; try done.
  - inversion_clear Hv as [| |? Hn| | |]. cbn. by rewrite number_round_trip.
  - inversion_clear Hv as [| | | |? Hl|].
    assert (foldr (λ item (vec : SResult (list Value)),
        converted_item ← document_to_value item; vec ← vec; Ok (converted_item :: vec)) (Ok [])
      (map value_to_document l) = Ok l) as Hf.
    { induction IH as [|v l Hv _ IH]; [done|]. inversion_clear Hl. cbn. rewrite Hv by done. cbn.
      by rewrite IH. }
    cbn. by rewrite Hf.
  - inversion_clear Hv as [| | | | |? Hm]. cbn. rewrite map_fold_fmap.
    assert (map_fold (λ key value (map : SResult Map),
        map ← map; converted_value ← document_to_value (value_to_document value);
        Ok (<[key := converted_value]> map)) (Ok ∅) m = Ok m) as Hf; [|by unfold compose; rewrite Hf].
    revert IH Hm. apply (map_fold_weak_ind (λ (r : SResult Map) (m : Map),
      map_Forall (λ _ v, value_ok v → document_to_value (value_to_document v) = Ok v) m →
      map_Forall (λ _, value_ok) m → r = Ok m)); [done|].
    intros k v m' r Hk IH IH' Hok. apply map_Forall_insert in IH' as [Hv Hm']; [|done].
    apply map_Forall_insert in Hok as [Hv' Hok']; [|done].
    rewrite IH by done. cbn. by rewrite Hv.
Qed.

(** ** The answers of the service, as the SDK reads them *)

Definition map_output (m : Map) : gmap string Document := value_to_document <$> m.

Definition context_output (c : Context) : SdkContextPartial :=
  mkSdkContext (c_id c) (map_output (c_condition c)) (c_priority c) (c_weight c)
    (OverrideWithKeys.to_vec (c_override_with_keys c)).

Definition dimension_type_output (t : DimensionType) : SdkDimensionType :=
  match t with
  | Regular => SdkRegular
  | LocalCohort d => SdkLocalCohort d
  | RemoteCohort d => SdkRemoteCohort d
  end.

Definition dimension_output (info : DimensionInfo) : SdkDimensionInfo :=
  mkSdkDimension (map_output (di_schema info)) (di_position info)
    (dimension_type_output (di_dimension_type info)) (di_dependency_graph info)
    (di_value_compute_function_name info).

Definition config_output (config : Config) : GetConfigOutput :=
  mkGetConfigOutput (context_output <$> contexts config) (map_output <$> overrides config)
    (map_output (default_configs config)) (dimension_output <$> dimensions config).

Definition map_ok (m : Map) : Prop := map_Forall (λ _, value_ok) m.

(** The values of a configuration are JSON. *)
Record values_ok (config : Config) : Prop := {
  vo_defaults : map_ok (default_configs config);
  vo_overrides : map_Forall (λ _, map_ok) (overrides config);
  vo_conditions c : c ∈ contexts config → map_ok (c_condition c);
  vo_schemas : map_Forall (λ _ info, map_ok (di_schema info)) (dimensions config);
}.

(** The same, decided. *)
Definition number_okb (n : Number) : bool :=
  match n with
  | PosInt _ => true
  | NegInt z => bool_decide (z < 0)%Z
  | Float bits => bool_decide (number_from_f64 bits = Some (Float bits))
  end.

Fixpoint value_okb (v : Value) : bool :=
  match v with
  | VNumber n => number_okb n
  | VArray l => forallb value_okb l
  | VObject m => map_fold (λ _ v b, value_okb v && b) true m
  | _ => true
  end.

Definition map_okb : Map → bool := map_fold (λ _ v b, value_okb v && b) true.

Definition values_okb (config : Config) : bool :=
  map_okb (default_configs config) &&
  forallb (λ o, map_okb o.2) (map_to_list (overrides config)) &&
  forallb (λ c, map_okb (c_condition c)) (contexts config) &&
  forallb (λ d, map_okb (di_schema d.2)) (map_to_list (dimensions config)).

Lemma map_fold_forall {A} (f : A → bool) (P : A → Prop) (m : gmap string A) :
  map_Forall (λ _ a, f a = true → P a) m →
  map_fold (λ _ a b, f a && b) true m = true → map_Forall (λ _, P) m.
Proof.
  apply (map_fold_weak_ind (λ b m, map_Forall (λ _ a, f a = true → P a) m → b = true →
    map_Forall (λ _, P) m)); [intros _ _; apply map_Forall_empty|].
  intros k a m' b Hk IH [Ha Hm]%map_Forall_insert [Hf Hb]%andb_true_iff; [|done].
  apply map_Forall_insert; [done|]. eauto.
Qed.

Lemma value_okb_ok v : value_okb v = true → value_ok v.
Proof.
  induction v as [| |n| |l IH|m IH] using Value_ind'; cbn; intros Hv; try by constructor.
  - constructor. destruct n; cbn in *; [done|by apply bool_decide_eq_true in Hv..].
  - constructor. induction IH as [|v l Hok _ IH]; [done|]. cbn in Hv.
    apply andb_true_iff in Hv as [Hv Hl]. constructor; auto.
  - constructor. by eapply map_fold_forall.
Qed.

Lemma map_okb_ok m : map_okb m = true → map_ok m.
Proof. apply map_fold_forall. intros k v _. apply value_okb_ok. Qed.

Lemma values_okb_ok config : values_okb config = true → values_ok config.
Proof.
  unfold values_okb. rewrite !andb_true_iff, !forallb_forall. intros [[[Hd Ho] Hc] Hs].
  split; [by apply map_okb_ok|..].
  - intros k o Hk. apply map_okb_ok, (Ho (k, o)), list_elem_of_In. by apply elem_of_map_to_list.
  - intros c Hin. by apply map_okb_ok, Hc, list_elem_of_In.
  - intros k d Hk. apply map_okb_ok, (Hs (k, d)), list_elem_of_In. by apply elem_of_map_to_list.
Qed.

Record nothing_empty (config : Config) : Prop := {
  ne_overrides : map_Forall (λ _ o, o ≠ ∅) (overrides config);
  ne_conditions c : c ∈ contexts config → c_condition c ≠ ∅;
}.

Section conversion.
Context {O : MapOrder} {Ook : MapOrderOk O}.

Lemma map_round_trip m : map_ok m → convert_condition_document (map_output m) = Ok m.
Proof using Ook.
  intros Hm. apply try_collect_image. intros k v Hk. by apply document_round_trip, (Hm k).
Qed.

(** The configuration of the service is read as it was sent: what the
    conversion makes of the SDK's documents of a configuration, none of whose
    conditions and overrides are empty, is that configuration. *)
Lemma config_converted config :
  values_ok config → nothing_empty config →
  convert_get_config_response (config_output config) = Ok config.
Proof using Ook.
  intros [Hd Ho Hc Hs] [He1 He2]. unfold convert_get_config_response, config_output.
  cbn [go_contexts go_overrides go_default_configs go_dimensions].
  rewrite map_round_trip by done. cbn.
  rewrite (try_collect_image (λ _, convert_override) map_output).
  2:{ intros k o Hk. unfold convert_override. rewrite map_round_trip by by apply (Ho k). cbn.
      unfold cac_overrides_try_from, Overrides.validate_data.
      by rewrite bool_decide_false by by apply (He1 k). }
  cbn.
  assert (try_map convert_context (context_output <$> contexts config) = Ok (contexts config)) as ->.
  { apply try_map_ok, Forall2_fmap_l, Forall_Forall2_diag, Forall_forall. intros [id cond p w k] Hin.
    unfold convert_context, context_output. cbn.
    rewrite map_round_trip by by apply (Hc _ Hin). cbn.
    unfold cac_condition_try_from, Condition.validate_data_for_cac.
    rewrite bool_decide_false by by apply (He2 _ Hin). done. }
  cbn. rewrite (try_collect_image (λ _, convert_dimension) dimension_output).
  2:{ intros k [schema p t graph fn] Hk. unfold convert_dimension, dimension_output. cbn.
      pose proof (map_round_trip schema (Hs k _ Hk)) as Hm. unfold convert_condition_document, map_output in Hm.
      rewrite Hm. by destruct t. }
  cbn. by destruct config.
Qed.
End conversion.

(** ** The fallback *)

Definition fits_i32 (z : Z) : Prop := (- 2 ^ 31 ≤ z < 2 ^ 31)%Z.

Lemma as_i32_fits z : fits_i32 z → as_i32 z = z.
Proof. unfold fits_i32, as_i32. intros Hz. rewrite Z.mod_small; lia. Qed.

Lemma as_i64_number z : fits_i32 z → as_i64 (VNumber (number_from_i64 z)) = Some z.
Proof.
  unfold fits_i32, number_from_i64, as_i64. intros Hz. case_bool_decide; [done|].
  rewrite Z2N.id by lia. by rewrite bool_decide_true by lia.
Qed.

Definition context_fits (c : Context) : Prop :=
  c_condition c ≠ ∅ ∧ fits_i32 (c_priority c) ∧ fits_i32 (c_weight c).

Lemma legacy_context_read c : context_fits c → value_to_context (legacy_context c) = Ok c.
Proof.
  destruct c as [id cond p w k]. intros (Hc & Hp & Hw). cbn in Hc, Hp, Hw.
  unfold value_to_context, legacy_context, field. cbn [as_object ok_or mbind result_bind].
  repeat (simplify_map_eq; cbn [as_object as_array as_str ok_or mbind result_bind option_bind
    c_id c_condition c_priority c_weight c_override_with_keys OverrideWithKeys.to_vec
    fmap list_fmap omap list_omap OverrideWithKeys.try_from map_err]).
  pose proof (as_i64_number p Hp) as Ep. pose proof (as_i64_number w Hw) as Ew. cbn [as_i64] in Ep, Ew.
  rewrite Ep, Ew. cbn [ok_or mbind result_bind].
  unfold cac_condition_try_from, Condition.validate_data_for_cac. rewrite bool_decide_false by done.
  cbn. by rewrite !as_i32_fits.
Qed.

Definition without_dimensions (config : Config) : Config :=
  mkConfig (contexts config) (overrides config) (default_configs config) ∅.

(** A configuration in the older format is read back, but for its dimensions. *)
Lemma legacy_format_read {O : MapOrder} {Ook : MapOrderOk O} `{DimensionInfoJson} config :
  Forall context_fits (contexts config) → map_Forall (λ _ o, o ≠ ∅) (overrides config) →
  convert_value_to_config (config_to_legacy_format config) = Ok (without_dimensions config).
Proof.
  intros Hc Ho. unfold convert_value_to_config, config_to_legacy_format, field, as_array, as_object.
  simplify_map_eq.
  assert (try_map value_to_context (legacy_context <$> contexts config) = Ok (contexts config)) as ->.
  { apply try_map_ok, Forall2_fmap_l, Forall_Forall2_diag. by eapply Forall_impl, legacy_context_read. }
  cbn [mbind result_bind]. rewrite (try_collect_image value_to_override VObject).
  2:{ intros k o Hk. unfold value_to_override. cbn. unfold cac_overrides_try_from, Overrides.validate_data.
      by rewrite bool_decide_false by by apply (Ho k). }
  done.
Qed.

(** ** A provider and the service *)

(** The request of the SDK for the configuration, and what becomes of its
    answer. *)
Definition sdk_request : ServeRequest := mkServeRequest POST None None ∅.

Definition sdk_config (answer : Result (Served Config)) : result string GetConfigOutput :=
  match answer with
  | Ok (Fresh response) => Ok (config_output (rp_body response))
  | Ok Unmodified => Err "unhandled error"
  | Err e => Err (AppError.error_response e).2
  end.

Section provider.
Context `{CacEnv} `{JsonParse} `{FloatText} `{Blake3} `{MapOrder} {Ook : MapOrderOk _}.
Context `{ConfigText} `{JsonText} `{JsonSchema} `{RegexEngine} `{JsonLogicVariables} `{DebugText}.
Context `{RowOrder} {Rok : RowOrderOk _} `{JsonLogic} `{DimensionInfoJson} `{ProviderText}.
Context (clock : ∀ n m, n < m → (cac_now n < cac_now m)%Z).
Context (settings : Settings) (unpinned : st_config_version settings = None).

Lemma config_served cs :
  let w := cac_serve_all cs fresh_workspace in
  Forall versioning cs →
  let config := generated_config (k_contexts w) (k_default_configs w) (k_dimensions w) in
  generates w config ∧ graphs_decreasing (dimensions config) ∧ nothing_empty config ∧
  sdk_config (config_get_handler settings sdk_request client_query w).1 = Ok (config_output config).
Proof using Ook Rok clock unpinned.
  intros w Hcs config. destruct (cac_reachable_good cs) as (G & _ & _ & I). fold w in G, I.
  assert (generates w config) as Hg by by apply generate_cac_ok.
  split_and!; [done|by apply dims_graphs_decreasing| |].
  - split.
    + intros k o Ho%collect_map_Some. apply list_elem_of_fmap in Ho as (x & [= -> ->] & Hx).
      apply elem_of_sorted_contexts in Hx as [id Hx]. by destruct (G _ _ Hx).
    + intros c Hc. cbn in Hc. apply elem_of_lookup_imap in Hc as (i & x & -> & Hx%list_elem_of_lookup_2).
      apply elem_of_sorted_contexts in Hx as [id Hx]. by destruct (G _ _ Hx).
  - destruct (generate_latest w config (up_to_date_serve_all clock cs _ Hcs up_to_date_fresh) Hg)
      as [version Hlatest].
    destruct (max_created_at w) as (o & Hmax & _).
    unfold config_get_handler, mbind, ST_bind, lift. rewrite Hmax, unconditional by done.
    unfold get_config_version. cbn [cq_version client_query]. rewrite unpinned. cbn [lift].
    by rewrite Hlatest.
Qed.
(** The experiments a provider holds, when it was made with any. *)
Definition holding (experiments : option (list FfiExperiment * list FfiExperimentGroup))
    : option ExperimentationConfig :=
  (λ '(exps, groups), mkExperimentationConfig default_strategy (Some exps) (Some groups) None false)
    <$> experiments.

(** The variants of a request, by the experiments held. *)
Definition variants_held (fuel : nat) (config : Config)
    (experiments : option (list FfiExperiment * list FfiExperimentGroup)) (ev : EvaluationContext)
    : option (list string) :=
  match experiments with
  | None => Some []
  | Some (exps, groups) =>
      get_applicable_variants fuel (dimensions config) exps groups
        (get_context_from_evaluation_context ev).1 (default "" (ev_targeting_key ev)) None
  end.

(** C23. A provider that has polled resolves as the service is configured.
    Under a clock that strictly increases and settings of the workspace that pin
    no version, after any requests to the service but approved reductions, when
    the answer to a poll was taken in, the configuration's numbers are ones that
    JSON documents hold ([values_ok]) and the fuel is at least [cohort_fuel] of
    its dimensions, every request is resolved without an error in the
    configuration that the tables of the service generate, for its fields and
    the variants of the experiments held, under the strategy MERGE; and a flag
    is that of the resolution, or not found when the key is not there or has
    another type. *)
Theorem provider_serves_current cs now status self experiments ev fuel :
  let w := cac_serve_all cs fresh_workspace in
  let config := generated_config (k_contexts w) (k_default_configs w) (k_dimensions w) in
  let answer := (config_get_handler settings sdk_request client_query w).1 in
  let provider := mkProvider status (Some (cac_poll now (sdk_config answer) self))
    (holding experiments) in
  Forall versioning cs → values_ok config → cohort_fuel (dimensions config) ≤ fuel →
  ∃ variants r, variants_held fuel config experiments ev = Some variants ∧
    eval_config fuel (default_configs config) (contexts config) (overrides config)
      (dimensions config) (<["variantIds" := strings variants]>
        (get_context_from_evaluation_context ev).1) MERGE None = Some (Ok r) ∧
    provider_eval_config fuel provider ev = Some (Ok r) ∧
    ∀ A (read : Value → option A) flag,
      resolve_flag read fuel provider flag ev = Some (ok_or (r !! flag ≫= read) flag_not_found).
Proof using Ook Rok clock unpinned.
  intros w config answer provider Hcs Hv Hf.
  destruct (config_served cs Hcs) as (Hg & Hdec & Hne & Hsdk). fold w config in Hg, Hdec, Hne, Hsdk.
  fold answer in Hsdk.
  assert (pc_cached_config (cac_poll now (sdk_config answer) self) = Some config) as Hcached.
  { unfold cac_poll, get_config. rewrite Hsdk. cbn [map_err mbind result_bind].
    by rewrite config_converted. }
  assert (∃ variants, variants_held fuel config experiments ev = Some variants) as [variants Hvs].
  { unfold variants_held. destruct experiments as [[exps groups]|]; [|by exists [] ].
    unfold get_applicable_variants.
    destruct (evaluate_local_cohorts_is_Some (dimensions config) Hdec fuel
      (get_context_from_evaluation_context ev).1 Hf) as [mq ->]. cbn. eauto. }
  set (q := <["variantIds" := strings variants]> (get_context_from_evaluation_context ev).1).
  destruct (evaluate_local_cohorts_is_Some (dimensions config) Hdec fuel q Hf) as [mq Hmq].
  destruct (eval_config_spec fuel (default_configs config) (contexts config) (overrides config)
    (dimensions config) q MERGE None mq Hmq) as (r & Hr & _).
  assert (provider_eval_config fuel provider ev = Some (Ok r)) as He.
  { unfold provider_eval_config. destruct (get_context_from_evaluation_context ev) as [ctx key] eqn:Hctx.
    assert (key = ev_targeting_key ev) as -> by by injection Hctx.
    assert ((match sp_exp_config provider with
             | Some exp_config => provider_applicable_variants fuel exp_config
                 (get_dimensions_info provider) ctx (ev_targeting_key ev)
             | None => Some (Ok [])
             end) = Some (Ok variants)) as ->.
    { unfold variants_held in Hvs. rewrite Hctx in Hvs. cbn [sp_exp_config provider].
      unfold get_dimensions_info, get_cached_config. cbn [sp_cac_config provider mbind option_bind].
      rewrite Hcached.
      destruct experiments as [[exps groups]|]; cbn [holding fmap option_fmap option_map]; [|by simplify_eq].
      unfold provider_applicable_variants. cbn in Hvs |- *. by rewrite Hvs. }
    cbn [mbind option_bind sp_cac_config provider]. unfold evaluate_config. rewrite Hcached.
    change (VArray (VString <$> variants)) with (strings variants).
    change ctx with (ctx, ev_targeting_key ev).1. fold q. by rewrite Hr. }
  exists variants, r. split_and!; [done|done|done|].
  intros A read flag. unfold resolve_flag. by rewrite He.
Qed.
End provider.

(** ** The experiments *)

Definition variant_output (v : Variant) : SdkVariant :=
  mkSdkVariant (v_id v) (SdkKnown (v_variant_type v)) (v_context_id v) (v_override_id v)
    (map_output (v_overrides v)).

Definition experiment_output (r : ExperimentResponse) : SdkExperiment :=
  let e := r_experiment r in
  mkSdkExperiment (r_id r) (SdkKnown (e_status e)) (e_traffic_percentage e) (map_output (e_context e))
    (variant_output <$> e_variants e).

Definition group_output (g : ExperimentGroup) : SdkExperimentGroup :=
  mkSdkGroup (pretty (g_id g)) (map_output (g_context g)) (g_traffic_percentage g)
    (pretty <$> g_member_experiment_ids g) (g_buckets g) (SdkKnown (g_group_type g)).

Definition sdk_experiments (answer : Result ListAnswer) : result string (list SdkExperiment) :=
  match answer with
  | Ok (Listed response) => Ok (experiment_output <$> pr_data response)
  | Ok NotModified => Err "unhandled error"
  | Err e => Err (AppError.error_response e).2
  end.
Definition sdk_groups (answer : Result (Paginated ExperimentGroup))
    : result string (list SdkExperimentGroup) :=
  match answer with
  | Ok response => Ok (group_output <$> pr_data response)
  | Err e => Err (AppError.error_response e).2
  end.

(** What the types of the requests ensure of the rows. *)
Definition context_plain (context : Map) : Prop := map_ok context ∧ context !! "variantIds" = None.

Record experiment_plain (e : Experiment) : Prop := {
  xp_context : context_plain (e_context e);
  xp_traffic : u8 (e_traffic_percentage e);
  xp_variants : Forall (λ v, map_ok (v_overrides v) ∧ v_overrides v ≠ ∅) (e_variants e);
}.
Record group_plain (g : ExperimentGroup) : Prop := {
  gp_context : context_plain (g_context g);
  gp_traffic : u8 (g_traffic_percentage g);
}.
Definition rows_plain (w : World) : Prop :=
  map_Forall (λ _, experiment_plain) (w_experiments w) ∧ map_Forall (λ _, group_plain) (w_groups w).

Section experiments.
Context {O : MapOrder} {Ook : MapOrderOk O}.

Lemma context_converted context : context_plain context →
  convert_condition_document (map_output context) = Ok context ∧
  exp_condition_try_from context = Ok context.
Proof using Ook.
  intros [Hm Hv]. split; [by apply map_round_trip|].
  unfold exp_condition_try_from, Condition.validate_data_for_exp. by rewrite Hv.
Qed.

Lemma variant_converted v : map_ok (v_overrides v) → v_overrides v ≠ ∅ →
  convert_variant (variant_output v) = Ok v.
Proof using Ook.
  destruct v as [id t cid oid o]. cbn [v_overrides]. intros Ho Hne.
  unfold convert_variant, variant_output.
  cbn [sv_id sv_variant_type sv_context_id sv_override_id sv_overrides v_id v_variant_type
    v_context_id v_override_id v_overrides known mbind result_bind].
  change (hashmap_to_map (map_output o)) with (convert_condition_document (map_output o)).
  rewrite (map_round_trip o Ho). cbn. unfold exp_overrides_try_from, Overrides.validate_data.
  by rewrite bool_decide_false.
Qed.

Lemma experiment_converted e : experiment_plain e →
  convert_experiment (experiment_output (ExperimentResponse_from e)) = Ok (FfiExperiment_from e).
Proof using Ook.
  intros [Hc Ht Hv]. destruct (context_converted _ Hc) as [Hc1 Hc2].
  unfold convert_experiment, experiment_output, FfiExperiment_from. cbn.
  rewrite Hc1. cbn [mbind result_bind].
  assert (try_map convert_variant (variant_output <$> e_variants e) = Ok (e_variants e)) as ->.
  { apply try_map_ok, Forall2_fmap_l, Forall_Forall2_diag. eapply Forall_impl; [exact Hv|].
    intros v [Ho Hne]. by apply variant_converted. }
  cbn [mbind result_bind]. rewrite Hc2. cbn. by rewrite wrap8_id.
Qed.

Lemma group_converted g : group_plain g → length (g_buckets g) = 100 →
  convert_experiment_group (group_output g) = Ok (FfiExperimentGroup_from g).
Proof using Ook.
  intros [Hc Ht] Hb. destruct (context_converted _ Hc) as [Hc1 Hc2].
  unfold convert_experiment_group, group_output, FfiExperimentGroup_from. cbn.
  rewrite Hc1. cbn [mbind result_bind]. rewrite Hc2. cbn. unfold Buckets.try_from.
  rewrite bool_decide_true by done. cbn. by rewrite wrap8_id.
Qed.
End experiments.

(** A request obtains the variant [v] of the experiment [e] as the core library
    decides: the bucket at its index, which the hash of the group's id as a text
    gives, in the group of [e] holds the variant; the contexts of both apply,
    and the experiment runs at enough traffic. *)
Record core_serves {JL : JsonLogic} (es : gmap Z Experiment) (gs : gmap Z ExperimentGroup)
    (context : Map) (identifier : string) (e : Experiment) (v : Variant) : Prop := {
  cs_identifier : identifier ≠ "";
  cs_experiment : ∃ id, es !! id = Some e;
  cs_variant : v ∈ e_variants e;
  cs_status : e_status e = INPROGRESS;
  cs_context : apply (e_context e) context = true;
  cs_bucket : ∃ gid g b,
    e_experiment_group_id e = Some gid ∧ gs !! gid = Some g ∧
    hits (FfiExperimentGroup_from g) context identifier b ∧ b_variant_id b = v_id v ∧
    (toss_of (FfiExperimentGroup_from g) identifier ≤
       e_traffic_percentage e * Z.of_nat (length (e_variants e)))%Z;
}.

Section served.
Context {JL : JsonLogic} {O : MapOrder} {Ook : MapOrderOk O}.
Variables (es : gmap Z Experiment) (gs : gmap Z ExperimentGroup).
Hypothesis G : good (es, gs).
Variables (rows : list Experiment) (groups : list ExperimentGroup).
Hypothesis rows_active : rows ≡ₚ filter active (map_to_list es).*2.
Hypothesis groups_all : groups ≡ₚ (map_to_list gs).*2.

Lemma elem_of_active e : e ∈ rows ↔ es !! e_id e = Some e ∧ active e.
Proof using G rows_active.
  rewrite rows_active, list_elem_of_filter, list_elem_of_fmap. split.
  - intros [Ha ([id e'] & -> & He%elem_of_map_to_list)]. cbn in *.
    by rewrite (ro_id _ _ (good_row _ _ _ _ G He)).
  - intros [He Ha]. split; [done|]. exists (e_id e, e). by rewrite elem_of_map_to_list.
Qed.

Lemma elem_of_groups g : g ∈ groups ↔ ∃ gid, gs !! gid = Some g.
Proof using groups_all.
  rewrite groups_all, list_elem_of_fmap. split.
  - intros ([gid g'] & -> & Hg%elem_of_map_to_list). by exists gid.
  - intros [gid Hg]. exists (gid, g). by rewrite elem_of_map_to_list.
Qed.

Lemma NoDup_active : NoDup (be_id <$> (FfiExperiment_from <$> rows)).
Proof using G rows_active.
  rewrite <- list_fmap_compose, rows_active.
  eapply sublist_NoDup; [|apply fmap_sublist, (sublist_filter active)].
  apply (NoDup_row_texts es e_id). intros id e He. by apply (good_row es gs).
Qed.

Lemma elem_of_core_variants context identifier vid :
  vid ∈ variants_of_context
    (get_satisfied_experiments (FfiExperiment_from <$> rows) context None)
    (FfiExperimentGroup_from <$> groups) context identifier ↔
  ∃ e v, core_serves es gs context identifier e v ∧ vid = v_id v.
Proof using All.
  unfold variants_of_context. destruct (decide (identifier = "")) as [->|Hne].
  { unfold get_applicable_buckets_from_group. rewrite bool_decide_true by done. cbn.
    rewrite elem_of_nil. split; [done|]. intros (e & v & [? _ _ _ _ _] & _). done. }
  rewrite response_selected by done. rewrite list_elem_of_omap.
  setoid_rewrite selected_variant_Some. unfold get_satisfied_experiments.
  setoid_rewrite (collect_satisfied _ _ _ _ _ NoDup_active). split.
  - intros (g' & (g & -> & [gid Hg]%elem_of_groups)%list_elem_of_fmap & b & exp & Hb &
      (exp' & (e & -> & [He Ha]%elem_of_active)%list_elem_of_fmap & Hk & _ & [= <-]) & Hc & Ht & ->).
    pose proof (hi_bucket _ _ _ _ Hb) as Hbk. cbn in Hk, Hc, Ht.
    destruct (good_owner _ _ _ _ _ _ G Hg Hbk) as (id & e0 & He0 & Hl & _ & Hid & Hv).
    rewrite Hid in Hk. apply (inj pretty) in Hk. rewrite Hk in He. simplify_eq.
    assert (e_status e ≠ CREATED) as Hs by by eapply created_holds_none.
    unfold variant_ids in Hv. apply list_elem_of_fmap in Hv as (v & Hbv & Hv).
    exists e, v. split; [|done]. split; [exact Hne|by exists (e_id e)|exact Hv| |exact Hc|].
    + clear -Ha Hs. unfold active in Ha. cbn in Ha. set_solver.
    + exists gid, g, b. split_and!; [exact Hl|exact Hg|exact Hb|exact Hbv|exact Ht].
  - intros (e & v & [_ [id He] Hv Hst Hc (gid & g & b & Hl & Hg & Hb & Hbv & Ht)] & ->).
    destruct (bucket_of_variant es gs G gid g _ b id e v Hg (hi_bucket _ _ _ _ Hb) He Hv Hbv) as [_ Hid].
    exists (FfiExperimentGroup_from g). split; [apply list_elem_of_fmap_2, elem_of_groups; by exists gid|].
    exists b, (FfiExperiment_from e). split_and!; [exact Hb| |exact Hc|exact Ht|by symmetry].
    exists (FfiExperiment_from e). split_and!; [|by rewrite Hid; cbn; rewrite (ro_id _ _ (good_row _ _ _ _ G He))| |done].
    + apply list_elem_of_fmap_2, elem_of_active. rewrite (ro_id _ _ (good_row _ _ _ _ G He)).
      split; [done|]. unfold active. rewrite Hst. clear. cbn. set_solver.
    + by apply apply_partial_apply.
Qed.
End served.

Section polled.
Context `{Env} `{SetOrder} `{KeyOrder} `{FloatText} `{Blake3} `{JsonText}.
Context `{RowOrder} `{MapOrder} `{JsonLogic} `{TimeText} `{SqlLike} `{Collation}.
Context {Rok : RowOrderOk _} {Mok : MapOrderOk _} {Sok : SetOrderOk _}.

(** What a provider asks the service for, and what it makes of the answers. *)
Definition experiments_answer (w : World) : result string (list SdkExperiment) :=
  sdk_experiments (list_handler None None PaginationParams.all_entries experiments_filter ∅ w).1.
Definition groups_answer (w : World) : result string (list SdkExperimentGroup) :=
  sdk_groups (group_list_handler PaginationParams.all_entries no_group_filter w).1.

Lemma answers_converted w : good (tables w) → rows_plain w →
  ∃ rows groups, fetch_both (experiments_answer w) (groups_answer w) =
      Ok (FfiExperiment_from <$> rows, FfiExperimentGroup_from <$> groups) ∧
    rows ≡ₚ filter active (map_to_list (w_experiments w)).*2 ∧
    groups ≡ₚ (map_to_list (w_groups w)).*2.
Proof using All.
  intros G [He Hg]. destruct (group_rows w) as (groups & Hgroups & Hperm).
  pose proof (fetched_rows (w_experiments w)) as Hrows.
  rewrite list_experiments_all in Hrows. cbn [pr_data list_all] in Hrows.
  set (rows := listed experiments_filter ∅ (w_experiments w)) in *.
  assert (rows ≡ₚ filter active (map_to_list (w_experiments w)).*2) as Hr.
  { apply (fmap_Permutation r_experiment) in Hrows. rewrite <- !list_fmap_compose in Hrows.
    rewrite !(list_fmap_ext (r_experiment ∘ ExperimentResponse_from) id) in Hrows by done.
    by rewrite !list_fmap_id in Hrows. }
  exists rows, groups. split_and!; [|done|done].
  assert (try_map convert_experiment (experiment_output <$> (ExperimentResponse_from <$> rows)) =
    Ok (FfiExperiment_from <$> rows)) as Hexps.
  { rewrite <- list_fmap_compose.
    apply try_map_ok, Forall2_fmap, Forall_Forall2_diag, Forall_forall. intros e Hin.
    apply experiment_converted. rewrite Hr in Hin. apply list_elem_of_filter in Hin as [_ Hin].
    apply list_elem_of_fmap in Hin as ([id e'] & -> & Hin%elem_of_map_to_list). by apply (He id). }
  assert (try_map convert_experiment_group (group_output <$> groups) =
    Ok (FfiExperimentGroup_from <$> groups)) as Hgrps.
  { apply try_map_ok, Forall2_fmap, Forall_Forall2_diag, Forall_forall. intros g Hin.
    rewrite Hperm in Hin. apply list_elem_of_fmap in Hin as ([gid g'] & -> & Hin%elem_of_map_to_list).
    apply group_converted; [by apply (Hg gid)|]. destruct G as [I _].
    by apply (inv_size _ I gid (abs_group g')), abs_group_lookup. }
  unfold fetch_both, experiments_answer, groups_answer. rewrite Hgroups.
  unfold list_handler. cbn [fst sdk_experiments sdk_groups pr_data list_all].
  rewrite list_experiments_all. cbn [pr_data list_all].
  unfold fetch_experiments, fetch_groups, convert_experiments_response, convert_experiment_groups_response.
  cbn [map_err mbind result_bind]. fold rows. rewrite Hexps. cbn [mbind result_bind]. by rewrite Hgrps.
Qed.

(** C24. The variants of a provider. In every reachable state of the service
    whose rows are as the types of the requests make them, a provider that has
    taken in the experiments and the groups finds, for every request whose
    cohorts evaluate, exactly the variants that the buckets, contexts and traffic
    of the tables justify, by the hash of the core library. *)
Theorem provider_variants_exact rs now self fuel dims context identifier evaluated :
  let w := serve_all rs empty_world in
  rows_plain w →
  evaluate_local_cohorts fuel dims context = Some evaluated →
  ∃ variants,
    provider_applicable_variants fuel (exp_poll now (experiments_answer w) (groups_answer w) self)
      dims context identifier = Some (Ok variants) ∧
    ∀ vid, vid ∈ variants ↔ ∃ e v,
      core_serves (w_experiments w) (w_groups w) evaluated (default "" identifier) e v ∧ vid = v_id v.
Proof using All.
  intros w Hp Hev. pose proof (reachable_good rs) as G. fold w in G.
  destruct (answers_converted w G Hp) as (rows & groups & Hf & Hr & Hg).
  unfold exp_poll. rewrite Hf. unfold provider_applicable_variants. cbn [set_experiments
    px_cached_experiments px_cached_experiment_groups].
  unfold get_applicable_variants. rewrite Hev. cbn [mbind option_bind].
  eexists. split; [done|]. intros vid. by apply elem_of_core_variants.
Qed.
End polled.

(** ** Without the service *)

Section unreachable.
Context {O : MapOrder} {Ook : MapOrderOk O} `{JsonLogic} `{DimensionInfoJson} `{ProviderText}.

Lemma start_refresh_cached self : pc_cached_config (start_refresh self) = pc_cached_config self.
Proof. unfold start_refresh. by destruct (pc_refresh_strategy self). Qed.

(** No request is answered. *)
Definition failed {A} (r : result string A) : Prop := ∃ e, r = Err e.

Definition no_answers (answers : SdkAnswers) : Prop :=
  failed (an_config answers) ∧ failed (an_experiments answers) ∧ failed (an_groups answers).

Definition no_experiments : SuperpositionError :=
  ConfigError "No cached experiments or experiment groups available".

(** With experimentation a provider fails to initialise, whatever its fallback. *)
Lemma unreachable_experiments now answers strategy fallback experiments :
  no_answers answers →
  ∃ cac, initialize now answers (provider_new fallback strategy (Some experiments)) =
    mkProvider Error (Some cac) (Some (experimentation_config_new experiments)).
Proof.
  intros (_ & [e He] & _). unfold initialize, provider_init. cbn [provider_new set_status
    sp_cac_config sp_exp_config sp_status fmap option_fmap option_map].
  destruct (cac_create_config _ _ _) as [[u|err] cac]; cbn; [|by exists cac].
  unfold exp_create_config, fetch_both, fetch_experiments. rewrite He. cbn. by exists cac.
Qed.

Lemma flags_not_found {A} (read : Value → option A) fuel provider ev flag e :
  provider_eval_config fuel provider ev = Some (Err e) →
  resolve_flag read fuel provider flag ev = Some (Err flag_not_found).
Proof. intros He. unfold resolve_flag. by rewrite He. Qed.

(** Without experimentation, what a fallback keeps. *)
Lemma unreachable_fallback now answers strategy config :
  no_answers answers → Forall context_fits (contexts config) →
  map_Forall (λ _ o, o ≠ ∅) (overrides config) →
  initialize now answers (provider_new (Some (config_to_legacy_format config)) strategy None) =
    mkProvider Ready (Some (start_refresh (mkCacConfig (Some (config_to_legacy_format config))
      strategy (Some (without_dimensions config)) None false))) None.
Proof using Ook.
  intros ([e He] & _) Hc Ho. unfold initialize, provider_init, cac_create_config, get_config.
  cbn [provider_new set_status sp_cac_config]. rewrite He.
  cbn [map_err mbind result_bind pc_cached_config cac_config_new pc_fallback_config].
  by rewrite legacy_format_read.
Qed.

Lemma unreachable_alone now answers strategy :
  no_answers answers →
  initialize now answers (provider_new None strategy None) =
    mkProvider Ready (Some (start_refresh (cac_config_new None strategy))) None.
Proof.
  intros ([e He] & _). unfold initialize, provider_init, cac_create_config, get_config.
  cbn [provider_new set_status sp_cac_config]. by rewrite He.
Qed.

(** C38. A provider whose service cannot be reached: its requests for the
    configuration, the experiments and the groups fail. Made without
    experimentation it is ready: with a fallback that is the older format of a
    configuration whose contexts have conditions that are not empty and
    priorities and weights that fit 32 bits, and whose overrides are not empty,
    it resolves every request without an error in that configuration without
    its dimensions; without a fallback it finds no flag. Made with
    experimentation its status is Error, and whatever its fallback it resolves
    no request and finds no flag. *)
Theorem provider_without_service now answers strategy fallback experimentation fuel ev :
  let provider := initialize now answers (provider_new fallback strategy experimentation) in
  no_answers answers →
  match experimentation, fallback with
  | None, Some map => ∀ config,
      map = config_to_legacy_format config → Forall context_fits (contexts config) →
      map_Forall (λ _ o, o ≠ ∅) (overrides config) →
      sp_status provider = Ready ∧
      ∃ r, eval_config fuel (default_configs config) (contexts config) (overrides config) ∅
          (<["variantIds" := strings [] ]> (get_context_from_evaluation_context ev).1) MERGE None =
          Some (Ok r) ∧
        resolve_full_config fuel provider ev = Some (Ok r)
  | None, None =>
      sp_status provider = Ready ∧
      ∀ A (read : Value → option A) flag,
        resolve_flag read fuel provider flag ev = Some (Err flag_not_found)
  | Some _, _ =>
      sp_status provider = Error ∧
      resolve_full_config fuel provider ev = Some (Err no_experiments) ∧
      ∀ A (read : Value → option A) flag,
        resolve_flag read fuel provider flag ev = Some (Err flag_not_found)
  end.
Proof using Ook.
  intros provider Hn. destruct experimentation as [experiments|]; [|destruct fallback as [map|]].
  - destruct (unreachable_experiments now answers strategy fallback experiments Hn) as [cac E].
    unfold provider. rewrite E.
    assert (provider_eval_config fuel (mkProvider Error (Some cac)
      (Some (experimentation_config_new experiments))) ev = Some (Err no_experiments)) as He by done.
    split_and!; [done|exact He|]. intros A read flag. by eapply flags_not_found.
  - intros config -> Hc Ho. unfold provider. rewrite unreachable_fallback by done. split; [done|].
    set (q := <["variantIds" := strings [] ]> (get_context_from_evaluation_context ev).1).
    assert (graphs_decreasing ∅) as Hdec by by intros root info cur x ?%lookup_empty_Some.
    destruct (evaluate_local_cohorts_is_Some ∅ Hdec fuel q) as [mq Hmq];
      [unfold cohort_fuel; rewrite map_to_list_empty; apply Nat.le_0_l|].
    destruct (eval_config_spec fuel (default_configs config) (contexts config) (overrides config)
      ∅ q MERGE None mq Hmq) as (r & Hr & _).
    exists r. split; [exact Hr|]. unfold resolve_full_config, provider_eval_config.
    cbn [get_context_from_evaluation_context sp_exp_config sp_cac_config mbind option_bind].
    unfold evaluate_config. rewrite start_refresh_cached.
    cbn [pc_cached_config without_dimensions default_configs contexts overrides dimensions].
    change (VArray (VString <$> [])) with (strings []).
    unfold q in Hr. cbn [get_context_from_evaluation_context fst] in Hr. by rewrite Hr.
  - unfold provider. rewrite unreachable_alone by done. split; [done|].
    intros A read flag. by destruct strategy.
Qed.
End unreachable.

(** ** A provider that polls, and samples *)

#[local] Instance sample_info_json : DimensionInfoJson := λ _, Err "not read".
#[local] Instance sample_provider_text : ProviderText :=
  {| date_to_string := λ t, pretty t; debug_value := λ _, "a value" |}.

Lemma ticking_clock n m : n < m → (cac_now n < cac_now m)%Z.
Proof. cbn. lia. Qed.

Definition pune_fields : EvaluationContext :=
  mkEvaluationContext (Some "user 7") {[ "city" := FieldString "pune" ]}.
Definition polling_provider : SuperpositionProvider :=
  mkProvider Ready
    (Some (cac_poll 0 (sdk_config (config_get_handler open_settings sdk_request client_query cac_world).1)
      (cac_config_new None (PollingStrategy 60 None)))) (holding None).

Example pune_flags :
  resolve_bool_value 100 polling_provider "fee" pune_fields = Some (Ok true) ∧
  resolve_string_value 100 polling_provider "label" pune_fields = Some (Ok "south") ∧
  resolve_bool_value 100 polling_provider "label" pune_fields = Some (Err flag_not_found).
Proof. split_and!; vm_compute; reflexivity. Qed.

Lemma provider_serves_current_witness :
  ∃ r, provider_eval_config 200 polling_provider pune_fields = Some (Ok r) ∧
    resolve_flag as_bool 200 polling_provider "fee" pune_fields =
      Some (ok_or (r !! "fee" ≫= as_bool) flag_not_found).
Proof.
  destruct (provider_serves_current (Rok:=list_rows_ok) ticking_clock open_settings eq_refl cac_run 0
    Ready (cac_config_new None (PollingStrategy 60 None)) None pune_fields 200)
    as (variants & r & _ & _ & Hr & Hflags).
  - repeat constructor; discriminate.
  - apply values_okb_ok. vm_compute. reflexivity.
  - apply Nat.leb_le. vm_compute. reflexivity.
  - exact (ex_intro _ r (conj Hr (Hflags bool as_bool "fee"))).
Defined.

(** The rows of a state, checked. *)
Definition context_plainb (context : Map) : bool :=
  map_okb context && bool_decide (context !! "variantIds" = None).
Definition experiment_plainb (e : Experiment) : bool :=
  context_plainb (e_context e) && bool_decide (u8 (e_traffic_percentage e)) &&
  forallb (λ v, map_okb (v_overrides v) && negb (bool_decide (v_overrides v = ∅))) (e_variants e).
Definition rows_plainb (w : World) : bool :=
  forallb (λ e, experiment_plainb e.2) (map_to_list (w_experiments w)) &&
  forallb (λ g, context_plainb (g_context g.2) && bool_decide (u8 (g_traffic_percentage g.2)))
    (map_to_list (w_groups w)).

Lemma context_plainb_ok context : context_plainb context = true → context_plain context.
Proof. intros [Hm Hv]%andb_true_iff. split; [by apply map_okb_ok|by apply bool_decide_eq_true in Hv]. Qed.

Lemma rows_plainb_ok w : rows_plainb w = true → rows_plain w.
Proof.
  unfold rows_plainb. rewrite andb_true_iff, !forallb_forall. intros [He Hg]. split.
  - intros id e Hin. specialize (He (id, e)). cbn in He. unfold experiment_plainb in He.
    rewrite !andb_true_iff, bool_decide_eq_true, forallb_forall in He.
    destruct He as [[Hc Ht] Hv]; [by apply list_elem_of_In, elem_of_map_to_list|].
    split; [by apply context_plainb_ok|done|]. apply Forall_forall. intros v Hin'%list_elem_of_In.
    apply Hv, andb_true_iff in Hin' as [Hm Hne]. split; [by apply map_okb_ok|].
    apply negb_true_iff in Hne. by apply bool_decide_eq_false in Hne.
  - intros gid g Hin. specialize (Hg (gid, g)). cbn in Hg.
    rewrite andb_true_iff, bool_decide_eq_true in Hg.
    destruct Hg as [Hc Ht]; [by apply list_elem_of_In, elem_of_map_to_list|].
    split; [by apply context_plainb_ok|done].
Qed.

(** The experiment of [sample_run], as a provider has it. *)
#[local] Instance provider_sql_like : SqlLike := λ text name,
  bool_decide (String.index 0 text name ≠ None).
#[local] Instance provider_collation : Collation := str_leb.

Definition provider_world : World := serve_all (H:=sample_env true) sample_run empty_world.
Definition polled_experiments : ExperimentationConfig :=
  exp_poll 0 (experiments_answer provider_world) (groups_answer provider_world)
    (experimentation_config_new (PollingStrategy 60 None)).

Lemma provider_variants_exact_witness :
  ∃ variants,
    provider_applicable_variants 1 polled_experiments ∅ user_a (Some "user-3") = Some (Ok variants).
Proof.
  destruct (provider_variants_exact (H:=sample_env true) sample_run 0
    (experimentation_config_new (PollingStrategy 60 None)) 1 ∅ user_a (Some "user-3") user_a)
    as (variants & Hv & _).
  - apply rows_plainb_ok. vm_compute. reflexivity.
  - vm_compute. reflexivity.
  - exact (ex_intro _ variants Hv).
Defined.

(** The configuration of a fallback. *)
Definition kept_config : Config :=
  mkConfig [mkContext "c" {[ "city" := VString "pune" ]} 1 1 "o"] {[ "o" := {[ "fee" := VBool true ]} ]}
    {[ "fee" := VBool false ]} ∅.
Definition offline : SdkAnswers := mkSdkAnswers (Err "timeout") (Err "timeout") (Err "timeout").
Definition offline_provider : SuperpositionProvider :=
  initialize 0 offline (provider_new (Some (config_to_legacy_format kept_config)) default_strategy None).

Lemma offline_unanswered : no_answers offline.
Proof. split_and!; by eexists. Qed.

Lemma provider_without_service_witness :
  (sp_status offline_provider = Ready ∧
   ∃ r, resolve_full_config 0 offline_provider pune_fields = Some (Ok r)) ∧
  sp_status (initialize 0 offline (provider_new (Some (config_to_legacy_format kept_config))
    default_strategy (Some default_strategy))) = Error.
Proof.
  split.
  - destruct (provider_without_service 0 offline default_strategy
      (Some (config_to_legacy_format kept_config)) None 0 pune_fields offline_unanswered kept_config eq_refl)
      as (Hs & r & _ & Hr).
    + repeat constructor; discriminate.
    + apply map_Forall_singleton. discriminate.
    + exact (conj Hs (ex_intro _ r Hr)).
  - exact (proj1 (provider_without_service 0 offline default_strategy
      (Some (config_to_legacy_format kept_config)) (Some default_strategy) 0 pune_fields offline_unanswered)).
Defined.

(** ** What the provider does not do *)

(** A refresh that is due and succeeds never returns: the write of
    [last_updated] waits for the guard that read it. *)
Theorem on_demand_blocks {O : MapOrder} now ttl use_stale response config self :
  pc_last_updated self = None → get_config response = Ok config →
  cac_on_demand_config now ttl use_stale response self = Blocked.
Proof. intros Hl Hr. unfold cac_on_demand_config, should_refresh. by rewrite Hl, Hr. Qed.

(** Without an answer and without a fallback it is ready nevertheless. *)
Example ready_without_configuration :
  let provider := initialize 0 offline (provider_new None default_strategy None) in
  sp_status provider = Ready ∧
  resolve_bool_value 100 provider "fee" pune_fields = Some (Err flag_not_found).
Proof. split; vm_compute; reflexivity. Qed.

(** Two contexts, of which the second has the higher priority. *)
Definition ranked_config : Config :=
  mkConfig
    [mkContext "low" {[ "city" := VString "pune" ]} 1 1 "low";
     mkContext "high" {[ "os" := VString "ios" ]} 2 2 "high"]
    (<["low" := {[ "fee" := VString "low" ]}]> {[ "high" := {[ "fee" := VString "high" ]} ]})
    {[ "fee" := VString "none" ]} ∅.
Definition pune_ios : Map := <["city" := VString "pune"]> {[ "os" := VString "ios" ]}.

(** The older evaluation lets the lower priority win; the core library the
    higher. *)
Example legacy_evaluation_differs :
  (legacy_evaluate_config 10 ranked_config pune_ios None ≫= (.!! "fee")) = Some (VString "low") ∧
  match eval_config 10 (default_configs ranked_config) (contexts ranked_config)
          (overrides ranked_config) ∅ pune_ios MERGE None with
  | Some (Ok r) => r !! "fee"
  | _ => None
  end = Some (VString "high").
Proof. split; vm_compute; reflexivity. Qed.

(** It applies contexts of which the request says nothing as well. *)
Example legacy_evaluation_partial :
  (legacy_evaluate_config 10 ranked_config {[ "city" := VString "pune" ]} None ≫= (.!! "fee")) =
    Some (VString "low") ∧
  (legacy_evaluate_config 10 ranked_config ∅ None ≫= (.!! "fee")) = Some (VString "low").
Proof. split; vm_compute; reflexivity. Qed.

(** The floats nearest to integers. *)
Example f64_samples :
  f64_of_int 1 = 4607182418800017408%N ∧ f64_of_int (-2) = (2 ^ 63 + 4611686018427387904)%N ∧
  f64_of_int (2 ^ 53 + 1) = f64_of_int (2 ^ 53) ∧ f64_of_int (2 ^ 53 + 3) = f64_of_int (2 ^ 53 + 4) ∧
  f64_of_int (2 ^ 64 - 1) = f64_of_int (2 ^ 64).
Proof. split_and!; vm_compute; reflexivity. Qed.

(** The same user obtains one variant from a provider and another from the
    server. *)
Example provider_variant_differs :
  provider_applicable_variants 1 polled_experiments ∅ user_a (Some "user-3") = Some (Ok ["100-test"]) ∧
  match (get_applicable_variants_helper 1 user_a (mkConfig [] ∅ ∅ ∅) "user-3" provider_world).1 with
  | Ok (variants, _) => variants
  | Err _ => []
  end = ["100-control"].
Proof. split; vm_compute; reflexivity. Qed.
