(* ===== verification/Frontend.v ===== *)
(** * The web interface

    What [crates/frontend] computes between the requests it sends and the pages
    it shows: the types it reads in schemas and the values typed into inputs
    ([schema.rs], [components/input.rs]), conditions ([logic.rs]), listings
    grouped into folders ([pages/default_config_list/utils.rs]), the state of
    its forms with one step per callback, and the requests they build. What is
    drawn is left out. *)

From S2P Require Import Prelude Json Types Text Effects ExpModels CacClient CacToml ExpChecks CacStore CacConfig Contexts Dimensions DefaultConfigs Functions QueryStrings Store Experiments Provider.

(** ** Types of values *)

Inductive JsonSchemaType : Type :=
  | TBoolean
  | TNumber
  | TString
  | TInteger
  | TArray
  | TObject
  | TNull.

#[export] Instance JsonSchemaType_eq_dec : EqDecision JsonSchemaType.
Proof. solve_decision. Defined.

Module JsonSchemaType.
(** strum's [EnumString] with [lowercase]. *)
Definition from_str (s : string) : option JsonSchemaType :=
  if bool_decide (s = "boolean") then Some TBoolean
  else if bool_decide (s = "number") then Some TNumber
  else if bool_decide (s = "string") then Some TString
  else if bool_decide (s = "integer") then Some TInteger
  else if bool_decide (s = "array") then Some TArray
  else if bool_decide (s = "object") then Some TObject
  else if bool_decide (s = "null") then Some TNull
  else None.

Definition of_value (value : Value) : JsonSchemaType :=
  match value with
  | VString _ => TString
  | VNumber _ => TNumber
  | VArray _ => TArray
  | VObject _ => TObject
  | VNull => TNull
  | VBool _ => TBoolean
  end.

Definition precedence (self : JsonSchemaType) : nat :=
  match self with
  | TNull | TBoolean | TInteger => 1
  | TNumber | TArray | TObject => 2
  | TString => 3
  end.
End JsonSchemaType.

Inductive SchemaType : Type :=
  | Multiple (types : list JsonSchemaType)
  | Single (type : JsonSchemaType).

Module SchemaType.
Definition default : SchemaType := Single TNull.

Definition default_value (self : SchemaType) : Value :=
  match self with
  | Multiple _ => VString ""
  | Single TString => VString ""
  | Single TNumber => VNumber (PosInt 0)
  | Single TInteger => VNumber (PosInt 0)
  | Single TBoolean => VBool false
  | Single TObject => VObject ∅
  | Single TArray => VArray []
  | Single TNull => VString "null"
  end.

Definition not_a_type : string := "not a valid JsonSchema type".

Definition parse_from_array (arr : list Value) : result string SchemaType :=
  types ← ok_or (mapM (λ v, match v with VString s => JsonSchemaType.from_str s | _ => None end) arr)
    not_a_type;
  Ok (Multiple types).

Definition parse_from_string (s : string) : result string SchemaType :=
  type ← ok_or (JsonSchemaType.from_str s) not_a_type;
  Ok (Single type).

Definition try_from (schema : Map) : result string SchemaType :=
  type_ ← ok_or (schema !! "type") "type not defined in schema";
  match type_ with
  | VArray arr => parse_from_array arr
  | VString s => parse_from_string s
  | _ => Err "type should be either a string or an array of strings"
  end.

Definition try_from_value (schema : Value) : result string SchemaType :=
  schema ← ok_or (as_object schema) "schema is not an object";
  try_from schema.
End SchemaType.

Module EnumVariants.
Definition try_from (schema : Map) : result string (list Value) :=
  match default (VArray []) (schema !! "enum") with
  | VArray arr => Ok arr
  | _ => Err "enum should be an array of options"
  end.

Definition try_from_value (schema : Value) : result string (list Value) :=
  schema ← ok_or (as_object schema) "schema is not an object";
  try_from schema.
End EnumVariants.

(** ** Values as text *)

Section display.
Context `{FloatText} `{JsonText}.

(** [HtmlDisplay for Value]. *)
Definition html_display (value : Value) : string :=
  match value with
  | VBool v => bool_to_string v
  | VNumber v => number_to_string v
  | VString v => v
  | VNull => "null"
  | VArray arr => "[" +:+ CacClient.join "," (json_to_string <$> arr) +:+ "]"
  | VObject obj =>
      "{" +:+ CacClient.join ", " ((λ '(k, v), quote k +:+ ": " +:+ json_to_string v) <$> sorted_entries obj)
      +:+ "}"
  end.
End display.

(** ** Inputs *)

Inductive InputType : Type :=
  | IText
  | INumber
  | IInteger
  | IToggle
  | IMonaco (suggestions : list Value)
  | ISelect (options : list Value)
  | IDisabled.

Module InputType.
Definition to_html_input_type (self : InputType) : string :=
  match self with
  | IText | IDisabled | IToggle | IMonaco _ | ISelect _ => "text"
  | INumber | IInteger => "number"
  end.

Definition from (schema_type : SchemaType) (enum_variants : list Value) : InputType :=
  match enum_variants with
  | _ :: _ => ISelect enum_variants
  | [] =>
      match schema_type with
      | Single TNumber => INumber
      | Single TInteger => IInteger
      | Single TBoolean => IToggle
      | Single TString => IText
      | Single TNull => IDisabled
      | Single TArray | Single TObject => IMonaco []
      | Multiple types =>
          if bool_decide (TObject ∈ types) || bool_decide (TArray ∈ types) then IMonaco [] else IText
      end
  end.
End InputType.

Section inputs.
Context `{F64} `{JsonParse}.

(** [json!(v)] of an [f64]: what is not finite is null. *)
Definition json_of_f64 (bits : N) : Value :=
  match number_from_f64 bits with Some n => VNumber n | None => VNull end.

Definition parse (s : string) (type_ : JsonSchemaType) : result string Value :=
  match type_ with
  | TString => Ok (VString s)
  | TNumber => v ← ok_or (f64_parse s) "not a valid number"; Ok (json_of_f64 v)
  | TInteger =>
      match parse_i64 s with
      | Ok v => Ok (VNumber (number_from_i64 v))
      | Err _ => Err "not a valid integer"
      end
  | TBoolean => v ← ok_or (parse_bool s) "value should be either true or false"; Ok (VBool v)
  | TArray =>
      match json_from_str s with Some (VArray l) => Ok (VArray l) | _ => Err "not a valid array" end
  | TObject =>
      match json_from_str s with Some (VObject m) => Ok (VObject m) | _ => Err "not a valid object" end
  | TNull => if bool_decide (s = "null") then Ok VNull else Err "not a null value"
  end.

(** [types.sort_by_key(|a| a.precedence())], which keeps the order of equals. *)
Definition sort_by_precedence (types : list JsonSchemaType) : list JsonSchemaType :=
  [1; 2; 3] ≫= λ p, List.filter (λ t, JsonSchemaType.precedence t =? p) types.

Fixpoint parse_first (value : string) (types : list JsonSchemaType) : result string Value :=
  match types with
  | [] => Err "not of valid type"
  | type :: types => match parse value type with Ok v => Ok v | Err _ => parse_first value types end
  end.

Definition parse_input (value : string) (schema_type : SchemaType) : result string Value :=
  match schema_type with
  | Single type => parse value type
  | Multiple types => parse_first value (sort_by_precedence types)
  end.
End inputs.

(** The options of [array_input], with the key that adds one and the pill that
    removes it. *)
Definition add_option {T} `{EqDecision T} (read : string → option T) (unique : bool) (value : string)
    (options : list T) : result string (list T) :=
  let value := trim value in
  if bool_decide (value = "") then Ok options
  else
    value_t ← ok_or (read value) "Invalid input value";
    if negb unique || negb (bool_decide (value_t ∈ options)) then Ok (options ++ [value_t])
    else Err "Option already exists".

(** [Vec::remove] panics out of range. *)
Definition remove_option {T} (idx : nat) (options : list T) : option (list T) :=
  if idx <? length options then Some (delete idx options) else None.

(** ** Conditions *)

Inductive Expression : Type :=
  | Is (c : Value)
  | Has (c : Value).

Inductive Operator : Type := OpIs | OpHas.

Module Expression.
Definition to_operator (self : Expression) : Operator :=
  match self with Is _ => OpIs | Has _ => OpHas end.

Definition to_value (self : Expression) : Value := match self with Is c | Has c => c end.

Definition from (type : SchemaType) (operator : Operator) : Expression :=
  match operator with
  | OpIs => Is (SchemaType.default_value type)
  | OpHas => Has (SchemaType.default_value type)
  end.

Definition to_expression_query_str `{FloatText} `{JsonText} (self : Expression) (var : string)
    : option string :=
  match self with Is c => Some (var +:+ "=" +:+ html_display c) | Has _ => None end.
End Expression.

Definition operator_to_string (self : Operator) : string :=
  match self with OpHas => "has" | OpIs => "==" end.

(** [Condition] of [logic.rs]. *)
Record FormCondition : Type := mkFormCondition {
  fc_variable : string;
  fc_expression : Expression;
}.

Definition new_with_default_expression (var : string) (type : SchemaType) : FormCondition :=
  mkFormCondition var (Is (SchemaType.default_value type)).

Definition to_condition_query_str `{FloatText} `{JsonText} (self : FormCondition) : option string :=
  Expression.to_expression_query_str (fc_expression self) (fc_variable self).

Module Conditions.
Definition includes (self : list FormCondition) (variable : string) : bool :=
  existsb (λ c, bool_decide (fc_variable c = variable)) self.

Definition from_context_json (context : Map) : result string (list FormCondition) :=
  Ok ((λ '(k, v), mkFormCondition k (if bool_decide (k = "variantIds") then Has v else Is v))
        <$> sorted_entries context).

Definition from_resolve_context (context : Map) : list FormCondition :=
  (λ '(k, v), mkFormCondition k (Is v)) <$> sorted_entries context.

Definition try_from_resolve_context_str `{JsonParse} (context : string)
    : result string (list FormCondition) :=
  parsed ← ok_or (json_from_str context) "failed to parse context string as JSON";
  parsed ← ok_or (as_object parsed) "not a valid context JSON";
  Ok (from_resolve_context parsed).

(** [collect] into a map: of two conditions on a variable the later stays. *)
Definition as_context_json (self : list FormCondition) : Map :=
  foldl (λ m c, <[fc_variable c := Expression.to_value (fc_expression c)]> m) ∅ self.

Definition as_resolve_context (self : list FormCondition) : Map := as_context_json self.
End Conditions.

Module jsonlogic.
(** The first operand that is an object with a text under [var]. *)
Fixpoint find_var (operands : list Value) : option string :=
  match operands with
  | [] => None
  | o :: operands =>
      match v ← as_object o; s ← v !! "var"; as_str s with
      | Some s => Some s
      | None => find_var operands
      end
  end.

(** [source.keys().next()] with its value. *)
Definition first_entry (source : Map) : option (string * Value) := head (sorted_entries source).

Definition try_var_from_condition_map (source : Map) : result string string :=
  match first_entry source with
  | Some (_, operands) =>
      operands ← ok_or (as_array operands) "Invalid operands list for context";
      ok_or (find_var operands) "variable doesn't exist in operands"
  | None => Err "not a valid condition map"
  end.

Definition is_variable (v : Value) : bool :=
  match v with VObject v => bool_decide (is_Some (v !! "var")) | _ => false end.
Definition is_constant (v : Value) : bool := negb (is_variable v).

Definition try_from_expression_map (source : Map) : result string Expression :=
  match first_entry source with
  | Some (operator, operands) =>
      operands ← ok_or (as_array operands) "Invalid operands list for context";
      match operands with
      | [o1; o2] =>
          if bool_decide (operator = "==") && is_variable o1 && is_constant o2 then Ok (Is o2)
          else if bool_decide (operator = "in") && is_variable o2 && is_constant o1 then Ok (Has o1)
          else Err "unsupported operator"
      | _ => Err "unsupported operator"
      end
  | None => Err "not a valid expression map"
  end.

Definition to_expression_json (expr : Expression) (var : string) : Value :=
  match expr with
  | Is c => VObject {[ "==" := VArray [VObject {[ "var" := VString var ]}; c] ]}
  | Has c => VObject {[ "in" := VArray [c; VObject {[ "var" := VString var ]}] ]}
  end.

Definition try_from_condition_map (source : Map) : result string FormCondition :=
  variable ← try_var_from_condition_map source;
  expression ← try_from_expression_map source;
  Ok (mkFormCondition variable expression).

Definition try_from_condition_json (source : Value) : result string FormCondition :=
  obj ← ok_or (as_object source) "not a valid condition value, should be an object";
  try_from_condition_map obj.

Definition to_condition_json (value : FormCondition) : Value :=
  to_expression_json (fc_expression value) (fc_variable value).
End jsonlogic.

(** ** Listings in folders *)

Record BreadCrums : Type := mkBreadCrums {
  bc_key : string;
  bc_value : option string;
  bc_is_link : bool;
}.

(** [trim_matches('.')]. *)
Fixpoint trim_start_char (c : ascii) (s : string) : string :=
  match s with
  | String d s' => if bool_decide (d = c) then trim_start_char c s' else s
  | EmptyString => EmptyString
  end.
Fixpoint trim_end_char (c : ascii) (s : string) : string :=
  match s with
  | EmptyString => EmptyString
  | String d s =>
      match trim_end_char c s with
      | EmptyString => if bool_decide (d = c) then EmptyString else String d EmptyString
      | s => String d s
      end
  end.
Definition trim_matches (c : ascii) (s : string) : string := trim_end_char c (trim_start_char c s).

Fixpoint crumbs_from (prefix : string) (parts : list string) : list BreadCrums :=
  match parts with
  | [] => []
  | ele :: parts =>
      let prefix := prefix +:+ ele +:+ "." in
      mkBreadCrums ele (Some prefix) true :: crumbs_from prefix parts
  end.

(** The last crumb is where the reader is. *)
Fixpoint unlink_last (crumbs : list BreadCrums) : list BreadCrums :=
  match crumbs with
  | [] => []
  | [crumb] => [mkBreadCrums (bc_key crumb) (bc_value crumb) false]
  | crumb :: crumbs => crumb :: unlink_last crumbs
  end.

Definition get_bread_crums (key_prefix : option string) (initial_key : string) : list BreadCrums :=
  let default_bread_crums := [mkBreadCrums initial_key None true] in
  unlink_last
    match key_prefix with
    | Some prefix =>
        let (first, rest) := split_char "." (trim_matches "." prefix) in
        default_bread_crums ++ crumbs_from "" (first :: rest)
    | None => default_bread_crums
    end.

Definition row_key (key_col : string) (ele : Map) : string :=
  default "" (v ← ele !! key_col; as_str v).

(** What the key has after the prefix of the page. *)
Definition subkey (key_prefix : option string) (key : string) : option string :=
  match key_prefix with None => Some key | Some p => strip_prefix p key end.

Definition folder_row (cols : list string) (key_col folder : string) (ele : Map) : Map :=
  foldl (λ ele col, <[col := VString (if bool_decide (col = key_col) then folder else "-")]> ele)
    ele cols.

(** The [filter_map] of [modify_rows], with the set of the folders so far. *)
Fixpoint group_rows (key_prefix : option string) (cols : list string) (key_col : string)
    (groups : gset string) (rows : list Map) : list Map :=
  match rows with
  | [] => []
  | ele :: rows =>
      match subkey key_prefix (row_key key_col ele) with
      | None => group_rows key_prefix cols key_col groups rows
      | Some filtered_key =>
          match split_char "." filtered_key with
          | (key, []) => <[key_col := VString key]> ele :: group_rows key_prefix cols key_col groups rows
          | (key, _) =>
              let folder := key +:+ "." in
              if bool_decide (folder ∈ groups) then group_rows key_prefix cols key_col groups rows
              else folder_row cols key_col folder ele
                :: group_rows key_prefix cols key_col ({[folder]} ∪ groups) rows
          end
      end
  end.

(** The sort is stable and puts the keys with a dot before the others. *)
Definition folders_first (key_col : string) (rows : list Map) : list Map :=
  let is_folder r := str_contains (row_key key_col r) "." in
  List.filter is_folder rows ++ List.filter (λ r, negb (is_folder r)) rows.

Definition modify_rows (filtered_rows : list Map) (key_prefix : option string) (cols : list string)
    (key_col : string) : list Map :=
  folders_first key_col (group_rows key_prefix cols key_col ∅ filtered_rows).

(** The page of a prefix: the columns are those of the first row. *)
Definition grouped_page (rows : list Map) (key_prefix : option string) (key_col : string) : list Map :=
  let cols := match rows with row :: _ => (sorted_entries row).*1 | [] => [] end in
  modify_rows rows key_prefix cols key_col.

(** [label.ends_with('.')]: the labels that link to a page of their own. *)
Fixpoint is_folder (label : string) : bool :=
  match label with
  | EmptyString => false
  | String c label =>
      match label with EmptyString => bool_decide (c = "."%char) | String _ _ => is_folder label end
  end.

(** The prefix that the link of a folder leads to. *)
Definition open_folder (prefix : option string) (label : string) : string :=
  match prefix with None => label | Some p => p +:+ label end.

(** ** The query of a page *)

(** [use_param_updater]: where to navigate to, and whether the entry of the
    history is replaced, when the parameters are not those of the location. *)
Definition param_update (service_prefix pathname current_query_string : string)
    (params defaults : list string) : option (string * bool) :=
  let non_empty := List.filter (λ s, negb (bool_decide (s = ""))) in
  let desired_query := CacClient.join "&" (non_empty params) in
  let query_string := if bool_decide (desired_query = "") then "" else "?" +:+ desired_query in
  if bool_decide (current_query_string = query_string) then None
  else
    let prefix_stripped_path := default pathname (strip_prefix ("/" +:+ service_prefix) pathname) in
    let default_query := CacClient.join "&" (non_empty defaults) in
    let replace := bool_decide (default_query = desired_query)
      && bool_decide (current_query_string = "") in
    Some (prefix_stripped_path +:+ query_string, replace).

(** The first parameter of that name takes the value. *)
Fixpoint set_param (param value : string) (params : list string) : option (list string) :=
  match params with
  | [] => None
  | p :: params =>
      if starts_with p (param +:+ "=") then Some ((param +:+ "=" +:+ value) :: params)
      else (λ params, p :: params) <$> set_param param value params
  end.

(** [use_update_url_query]. *)
Definition update_url_query (search param : string) (value : option string) : string :=
  let (first, rest) := split_char "&" search in
  let params := first :: rest in
  let params :=
    match value with
    | Some value => default (params ++ [param +:+ "=" +:+ value]) (set_param param value params)
    | None => List.filter (λ p, negb (starts_with p (param +:+ "="))) params
    end in
  "?" +:+ CacClient.join "&" params.

(** [pagination]: the links and the field to jump. *)
Definition next_page (current_page total_pages : Z) : Z :=
  let current_page := Z.max 1 current_page in
  let total_pages := Z.max 1 total_pages in
  if (current_page <? total_pages)%Z then (current_page + 1)%Z else current_page.

Definition previous_page (current_page : Z) : Z :=
  let current_page := Z.max 1 current_page in
  if (1 <? current_page)%Z then (current_page - 1)%Z else current_page.

(** The page to go to, if any; an error marks the field. *)
Definition handle_jump (input_page : string) (current_page total_pages : Z)
    : result unit (option Z) :=
  let current_page := Z.max 1 current_page in
  let total_pages := Z.max 1 total_pages in
  match parse_i64 input_page with
  | Ok page =>
      if (page <? 1)%Z || (total_pages <? page)%Z then Err tt
      else Ok (if (page =? current_page)%Z then None else Some page)
  | Err _ => Err tt
  end.

(** ** Answers, alerts and texts *)

Inductive AlertType : Type := AlertInfo | AlertSuccess | AlertWarning | AlertError.

(** [request_with_skip_error] on the status of an answer and the message read
    from its body: what the caller gets, and the alerts that are shown. *)
Definition response_outcome (skip_error : list Z) (status : Z) (message : option string)
    : result string unit * list string :=
  let refused :=
    let error_msg := default "Something went wrong" message in (Err error_msg, [error_msg]) in
  if bool_decide (status ∈ skip_error) then (Ok tt, [])
  else if is_client_error status then refused
  else if bool_decide (500 ≤ status < 600)%Z then
    if (status =? 512)%Z then (Ok tt, ["Webhook Call Failed, Please Check the Logs."])
    else refused
  else (Ok tt, []).

(** [parse_json_response] on a body that is read or not. *)
Definition parse_json_response {A} (body : result string A) : result string A * list string :=
  match body with Ok a => (Ok a, []) | Err err => (Err err, [err]) end.

(** [conclude_experiment] on an answer: a refused precondition is a result.
    [message] and [body] are its body read as an error and as an experiment. *)
Definition conclude_outcome {A} (status : Z) (message : result string string) (body : result string A)
    : result string (result string A) * list string :=
  match response_outcome [412%Z] status (match message with Ok m => Some m | Err _ => None end) with
  | (Err e, alerts) => (Err e, alerts)
  | (Ok _, alerts) =>
      if (status =? 412)%Z then
        match parse_json_response message with
        | (Ok message, _) => (Ok (Err message), alerts)
        | (Err e, more) => (Err e, alerts ++ more)
        end
      else
        let (response, more) := parse_json_response body in (Ok response, alerts ++ more)
  end.

Record Alert : Type := mkAlert {
  al_id : N;
  al_text : string;
  al_type : AlertType;
  al_timeout : N;
}.

Record AlertQueue : Type := mkAlertQueue {
  aq_counter : N;
  aq_alerts : list Alert;
}.

Definition empty_queue : AlertQueue := mkAlertQueue 0 [].

Definition enqueue_alert (text : string) (alert_type : AlertType) (timeout : N) (q : AlertQueue)
    : AlertQueue :=
  mkAlertQueue (aq_counter q + 1)
    (aq_alerts q ++ [mkAlert (aq_counter q) text alert_type timeout]).

(** The timer of an alert. *)
Fixpoint remove_alert (id : N) (alerts : list Alert) : list Alert :=
  match alerts with
  | [] => []
  | item :: alerts => if (al_id item =? id)%N then alerts else item :: remove_alert id alerts
  end.
Definition dismiss_alert (id : N) (q : AlertQueue) : AlertQueue :=
  mkAlertQueue (aq_counter q) (remove_alert id (aq_alerts q)).

Definition add_prefix (o_str prefix : string) : string :=
  if bool_decide (prefix = "" ∨ prefix = "/") then o_str else o_str +:+ "/" +:+ prefix.

(** [set_function]: what is left in the field. *)
Definition set_function (selected_function : string) : option string :=
  if bool_decide (selected_function = "None") then None else Some selected_function.

Definition string_to_vec `{JsonParse} (parse_error : string) (input : string)
    : result string (list string) :=
  value ← ok_or (json_from_str input) ("Failed to parse JSON: " +:+ parse_error);
  match value with
  | VArray arr => try_map (λ v, ok_or (as_str v) "Non-string element in array") arr
  | _ => Err "Input is not a JSON array"
  end.

(** The characters of a text, each as its bytes, and the tables of Unicode. *)
Fixpoint chars (s : string) : list string :=
  match s with
  | EmptyString => []
  | String c s =>
      let continued := match s with String d _ => is_continuation d | EmptyString => false end in
      match chars s with
      | x :: xs => if continued then String c x :: xs else String c EmptyString :: x :: xs
      | [] => [String c EmptyString]
      end
  end.

Class UnicodeCase := {
  char_is_uppercase : string → bool;
  char_to_uppercase : string → string;
  str_to_lowercase : string → string;
}.

Section title.
Context `{UnicodeCase}.

Definition push_word (current_word : string) (words : list string) : list string :=
  if bool_decide (current_word = "") then words else words ++ [current_word].

(** The loop of [to_title_case] at a byte offset; [None] is the panic of
    [nth(i - 1).unwrap()], which counts characters. *)
Fixpoint title_words (input : list string) (i : nat) (cs : list string) (current_word : string)
    (words : list string) : option (list string) :=
  match cs with
  | [] => Some (push_word current_word words)
  | c :: cs =>
      let i' := i + String.length c in
      if bool_decide (c = "_") then title_words input i' cs "" (push_word current_word words)
      else if char_is_uppercase c && negb (i =? 0) then
        previous ← input !! (i - 1);
        if char_is_uppercase previous then title_words input i' cs (current_word +:+ c) words
        else title_words input i' cs c (push_word current_word words)
      else title_words input i' cs (current_word +:+ c) words
  end.

Definition capitalize (w : string) : string :=
  match chars w with
  | [] => ""
  | f :: rest => char_to_uppercase f +:+ str_to_lowercase (String.concat "" rest)
  end.

Definition to_title_case (input : string) : option string :=
  words ← title_words (chars input) 0 (chars input) "" [];
  Some (CacClient.join " " (capitalize <$> words)).
End title.

(** [gen_change_table]: the rows of a summary, for the keys of both maps. *)
Definition change_row (key_column : string) (old_values new_values : Map) (key : string)
    : option Map :=
  let old_value := default (VString "##NOT_PRESENT##") (old_values !! key) in
  let new_value := default (VString "##DELETED##") (new_values !! key) in
  if bool_decide (old_value = new_value) then None
  else Some (<["New Value" := new_value]> (<["Old Value" := old_value]> {[ key_column := VString key ]})).

Definition gen_change_table `{KeyOrder} (key_column : string) (old_values new_values : Map) : list Map :=
  omap (change_row key_column old_values new_values) (key_order (dom old_values ∪ dom new_values)).

(** The table of [compare_overrides]: one row for a key, one column for a
    context that was resolved, beside the default configuration. *)
Definition comparison_cell (key_column context_key : string) (table : gmap string Map)
    (entry : string * Value) : gmap string Map :=
  let '(config_key, resolved_value) := entry in
  <[config_key := <[context_key := resolved_value]>
      (<[key_column := VString config_key]> (default ∅ (table !! config_key)))]> table.

Definition comparison_table `{MapOrder} (key_column : string)
    (resolved : list (string * option Map)) : gmap string Map :=
  foldl (λ table '(context_key, config),
      match config with
      | Some config => foldl (comparison_cell key_column context_key) table (map_order config)
      | None => table
      end) ∅ resolved.

(** ** The form of a context *)

(** A dimension as the service answers it, with whether it is mandatory. *)
Abbreviation FormDimension := (Dimension * bool)%type.

Definition default_expression_of (schema : Map) : SchemaType :=
  match SchemaType.try_from schema with Ok t => t | Err _ => SchemaType.default end.

Definition push_dimension (context : list FormCondition) (dimension : FormDimension)
    : list FormCondition :=
  context ++ [new_with_default_expression (dm_dimension dimension.1)
    (default_expression_of (dm_schema dimension.1))].

Definition insert_dimension (context : list FormCondition) (dimension : FormDimension)
    : list FormCondition :=
  if Conditions.includes context (dm_dimension dimension.1) then context
  else push_dimension context dimension.

Definition mandatory_dimensions (dimensions : list FormDimension) : list FormDimension :=
  List.filter snd dimensions.

Definition context_form_init (disabled resolve_mode : bool) (dimensions : list FormDimension)
    (context : list FormCondition) : list FormCondition :=
  if negb disabled && negb resolve_mode
  then foldl insert_dimension context (mandatory_dimensions dimensions)
  else context.

Definition select_dimension (resolve_mode : bool) (context : list FormCondition)
    (selected_dimension : FormDimension) : list FormCondition :=
  if resolve_mode then push_dimension context selected_dimension
  else insert_dimension context selected_dimension.

Definition set_expression (idx : nat) (expression : Expression) (context : list FormCondition)
    : list FormCondition :=
  alter (λ c, mkFormCondition (fc_variable c) expression) idx context.

Inductive ContextEvent : Type :=
  | DimensionSelected (dimension : FormDimension)
  | ExpressionChanged (idx : nat) (expression : Expression)
  | ConditionRemoved (idx : nat).

(** One callback; [Vec::remove] panics out of range. *)
Definition context_form_step (resolve_mode : bool) (context : list FormCondition) (e : ContextEvent)
    : option (list FormCondition) :=
  match e with
  | DimensionSelected d => Some (select_dimension resolve_mode context d)
  | ExpressionChanged idx expression => Some (set_expression idx expression context)
  | ConditionRemoved idx => if idx <? length context then Some (delete idx context) else None
  end.

(** [invalid_dimensions]: a dimension that is used beside one that it derives
    from, with the one shown as its parent. *)
Definition invalid_step (dimension_map : gmap string Dimension) (invalid_dims : gmap string string)
    (pair : string * string) : gmap string string :=
  let '(dim, dep_dim) := pair in
  match invalid_dims !! dep_dim with
  | Some existing =>
      match dimension_map !! dim with
      | Some dimension_info =>
          if bool_decide (is_Some (dm_dependency_graph dimension_info !! existing))
          then <[dep_dim := dim]> invalid_dims else invalid_dims
      | None => invalid_dims
      end
  | None => <[dep_dim := dim]> invalid_dims
  end.

(** The pairs that the two loops visit and the first condition keeps. *)
Definition invalid_pairs `{KeyOrder} `{MapOrder} (dimension_map : gmap string Dimension)
    (used_dimensions : gset string) : list (string * string) :=
  key_order used_dimensions ≫= λ dim,
    match dimension_map !! dim with
    | Some dimension_info =>
        omap (λ '(dep_dim, _),
          if bool_decide (dep_dim ≠ dim) && bool_decide (dep_dim ∈ used_dimensions)
          then Some (dim, dep_dim) else None) (map_order (dm_dependency_graph dimension_info))
    | None => []
    end.

Definition invalid_dimensions `{KeyOrder} `{MapOrder} (dimension_map : gmap string Dimension)
    (used_dimensions : gset string) : gmap string string :=
  foldl (invalid_step dimension_map) ∅ (invalid_pairs dimension_map used_dimensions).

(** ** The form of overrides *)

Record OverrideFormState : Type := mkOverrideForm {
  of_overrides : list (string * Value);
  of_override_keys : gset string;
}.

Definition override_form_init (overrides : list (string * Value)) : OverrideFormState :=
  mkOverrideForm overrides (list_to_set overrides.*1).

(** [handle_config_key_select]. *)
Definition select_config_key (auto_fill_from_default : bool) (default_config : DefaultConfig)
    (s : OverrideFormState) : OverrideFormState :=
  match SchemaType.try_from (dc_schema default_config) with
  | Ok config_type =>
      let def_value :=
        if auto_fill_from_default then dc_value default_config
        else SchemaType.default_value config_type in
      mkOverrideForm (of_overrides s ++ [(dc_key default_config, def_value)])
        ({[dc_key default_config]} ∪ of_override_keys s)
  | Err _ => s
  end.

(** The first entry of the key takes the value. *)
Fixpoint set_override (key : string) (value : Value) (overrides : list (string * Value))
    : list (string * Value) :=
  match overrides with
  | [] => []
  | (k, v) :: overrides =>
      if bool_decide (k = key) then (k, value) :: overrides
      else (k, v) :: set_override key value overrides
  end.

Fixpoint remove_override (key : string) (overrides : list (string * Value)) : list (string * Value) :=
  match overrides with
  | [] => []
  | (k, v) :: overrides =>
      if bool_decide (k = key) then overrides else (k, v) :: remove_override key overrides
  end.

Definition unused_config_keys (default_config : list DefaultConfig) (override_keys : gset string)
    : list DefaultConfig :=
  List.filter (λ config, negb (bool_decide (dc_key config ∈ override_keys))) default_config.

Inductive OverrideEvent : Type :=
  | ConfigKeySelected (default_config : DefaultConfig)
  | OverrideChanged (key : string) (value : Value)
  | OverrideRemoved (key : string).

Definition override_form_step (auto_fill_from_default : bool) (s : OverrideFormState)
    (e : OverrideEvent) : OverrideFormState :=
  match e with
  | ConfigKeySelected d => select_config_key auto_fill_from_default d s
  | OverrideChanged key value =>
      mkOverrideForm (set_override key value (of_overrides s)) (of_override_keys s)
  | OverrideRemoved key =>
      mkOverrideForm (remove_override key (of_overrides s)) (of_override_keys s ∖ {[key]})
  end.

(** ** The form of variants *)

Record VariantFormT : Type := mkVariantForm {
  vf_id : string;
  vf_variant_type : VariantType;
  vf_overrides : list (string * Value);
}.

Definition set_vf_overrides (v : VariantFormT) (overrides : list (string * Value)) : VariantFormT :=
  mkVariantForm (vf_id v) (vf_variant_type v) overrides.
Definition set_vf_id (v : VariantFormT) (id : string) : VariantFormT :=
  mkVariantForm id (vf_variant_type v) (vf_overrides v).

Definition default_with_overrides (overrides : list (string * Value)) : list VariantFormT :=
  [mkVariantForm "control" CONTROL overrides; mkVariantForm "experimental" EXPERIMENTAL overrides].

Definition variant_form_of (value : Variant) : VariantFormT :=
  mkVariantForm (v_id value) (v_variant_type value) (sorted_entries (v_overrides value)).

(** [collect] into a map: the later of two entries stays. *)
Definition entries_to_map (entries : list (string * Value)) : Map :=
  foldl (λ m '(k, v), <[k := v]> m) ∅ entries.

Definition try_variant (value : VariantFormT) : result string Variant :=
  overrides ← exp_overrides_try_from (entries_to_map (vf_overrides value));
  Ok (mkVariant (vf_id value) (vf_variant_type value) None None overrides).

Definition try_variant_update (value : VariantFormT) : result string VariantUpdateRequest :=
  overrides ← exp_overrides_try_from (entries_to_map (vf_overrides value));
  Ok (mkVariantUpdate (vf_id value) overrides).

Record VariantFormState : Type := mkVariantFormState {
  ff_variants : list (string * VariantFormT);
  ff_override_keys : gset string;
}.

Definition set_ff_variants (s : VariantFormState) (vs : list (string * VariantFormT))
    : VariantFormState :=
  mkVariantFormState vs (ff_override_keys s).

Definition get_override_keys_from_variants (variants : list (string * VariantFormT)) : gset string :=
  list_to_set (variants ≫= λ '(_, variant), (vf_overrides variant).*1).

(** [get_init_state] of the form of an experiment, then of its variants. *)
Definition variant_form_init (variants : list VariantFormT) : VariantFormState :=
  let variants := (λ v, (vf_id v, v)) <$> variants in
  mkVariantFormState variants (get_override_keys_from_variants variants).

(** A change to the overrides of the variant at an index. *)
Definition alter_overrides (f : list (string * Value) → list (string * Value))
    (kv : string * VariantFormT) : string * VariantFormT :=
  (kv.1, set_vf_overrides kv.2 (f (vf_overrides kv.2))).

Class KeyOrderOk (K : KeyOrder) : Prop := key_order_perm s : key_order s ≡ₚ elements s.

Section variant_form.
Context `{KeyOrder}.
(** The default configuration and the settings of the workspace. *)
Context (default_config : list DefaultConfig) (auto_populate : bool).

Definition key_to_type : gmap string (option SchemaType) :=
  foldl (λ m d,
      <[dc_key d := match SchemaType.try_from (dc_schema d) with Ok t => Some t | Err _ => None end]> m)
    ∅ default_config.

Definition on_key_remove (removed_key : string) (s : VariantFormState) : VariantFormState :=
  mkVariantFormState (alter_overrides (remove_override removed_key) <$> ff_variants s)
    (ff_override_keys s ∖ {[removed_key]}).

Definition on_override_change (variant_idx : nat) (updated_overrides : list (string * Value))
    (s : VariantFormState) : VariantFormState :=
  set_ff_variants s (alter (alter_overrides (λ _, updated_overrides)) variant_idx (ff_variants s)).

Definition on_key_select (resolved_config : Map) (d : DefaultConfig) (s : VariantFormState)
    : VariantFormState :=
  match SchemaType.try_from (dc_schema d) with
  | Ok config_type =>
      let def_value := SchemaType.default_value config_type in
      let resolved_val :=
        default def_value (if auto_populate then resolved_config !! dc_key d else None) in
      mkVariantFormState
        ((λ kv, alter_overrides (λ overrides, overrides ++ [(dc_key d,
            if bool_decide (vf_variant_type kv.2 = CONTROL) then resolved_val else def_value)]) kv)
          <$> ff_variants s)
        ({[dc_key d]} ∪ ff_override_keys s)
  | Err _ => s
  end.

Definition auto_populate_control (resolved_config : Map) (idx : nat) (s : VariantFormState)
    : VariantFormState :=
  let control_overrides :=
    omap (λ k, (λ v, (k, v)) <$> resolved_config !! k) (key_order (ff_override_keys s)) in
  set_ff_variants s (alter (alter_overrides (λ _, control_overrides)) idx (ff_variants s)).

Definition on_add_variant (now : Z) (s : VariantFormState) : VariantFormState :=
  let overrides :=
    omap (λ key, (λ type, (key, SchemaType.default_value type)) <$> mjoin (key_to_type !! key))
      (key_order (ff_override_keys s)) in
  set_ff_variants s (ff_variants s ++ [(pretty now, mkVariantForm "" EXPERIMENTAL overrides)]).

Definition show_remove_btn (kv : string * VariantFormT) : bool :=
  negb (bool_decide (kv.1 = "control-variant")) && negb (bool_decide (kv.1 = "experimental-variant"))
  && negb (bool_decide (vf_variant_type kv.2 = CONTROL)).

(** The first variant under the key is removed. *)
Fixpoint remove_variant (key : string) (variants : list (string * VariantFormT))
    : list (string * VariantFormT) :=
  match variants with
  | [] => []
  | (k, v) :: variants => if bool_decide (k = key) then variants else (k, v) :: remove_variant key variants
  end.

Inductive VariantEvent : Type :=
  | KeyRemoved (removed_key : string)
  | ValueChanged (variant_idx : nat) (key : string) (value : Value)
  | KeySelected (resolved_config : Map) (config : DefaultConfig)
  | ControlPopulated (resolved_config : Map) (idx : nat)
  | VariantAdded (now : Z)
  | VariantRemoved (key : string)
  | IdChanged (idx : nat) (variant_id : string).

Definition variant_form_step (s : VariantFormState) (e : VariantEvent) : VariantFormState :=
  match e with
  | KeyRemoved removed_key => on_key_remove removed_key s
  | ValueChanged idx key value =>
      match ff_variants s !! idx with
      | Some kv => on_override_change idx (set_override key value (vf_overrides kv.2)) s
      | None => s
      end
  | KeySelected resolved_config config => on_key_select resolved_config config s
  | ControlPopulated resolved_config idx => auto_populate_control resolved_config idx s
  | VariantAdded now => on_add_variant now s
  | VariantRemoved key => set_ff_variants s (remove_variant key (ff_variants s))
  | IdChanged idx variant_id =>
      set_ff_variants s (alter (λ kv, (kv.1, set_vf_id kv.2 variant_id)) idx (ff_variants s))
  end.

(** What the page offers: the keys that are not used, the control variant to
    populate, and the button that removes a variant. *)
Definition variant_event_offered (s : VariantFormState) (e : VariantEvent) : Prop :=
  match e with
  | KeySelected _ config => config ∈ unused_config_keys default_config (ff_override_keys s)
  | ControlPopulated _ idx => ∃ kv, ff_variants s !! idx = Some kv ∧ vf_variant_type kv.2 = CONTROL
  | VariantRemoved key => ∃ v, (key, v) ∈ ff_variants s ∧ show_remove_btn (key, v) = true
  | _ => True
  end.

(** Runs of the form in which the answers of the service satisfy [answered]. *)
Inductive variant_form_steps (answered : VariantEvent → Prop)
    : VariantFormState → VariantFormState → Prop :=
  | form_refl s : variant_form_steps answered s s
  | form_step s1 s2 e :
      variant_form_steps answered s1 s2 → variant_event_offered s2 e → answered e →
      variant_form_steps answered s1 (variant_form_step s2 e).
End variant_form.

(** ** The form of variants that delete overrides *)

Section delete_form.
Context `{KeyOrder}.
(** The overrides of the context. *)
Context (overrides : Map).

Definition control_keys (variants : list (string * VariantFormT)) : gset string :=
  list_to_set (variants ≫= λ '(_, v),
    if bool_decide (vf_variant_type v = CONTROL) then [] else (vf_overrides v).*1).

(** [update_control_variant], on the first control variant. *)
Fixpoint set_first_control (control_overrides : list (string * Value))
    (variants : list (string * VariantFormT)) : list (string * VariantFormT) :=
  match variants with
  | [] => []
  | kv :: variants =>
      if bool_decide (vf_variant_type kv.2 = CONTROL)
      then alter_overrides (λ _, control_overrides) kv :: variants
      else kv :: set_first_control control_overrides variants
  end.

Definition update_control_variant (variants : list (string * VariantFormT))
    : list (string * VariantFormT) :=
  set_first_control
    (omap (λ k, (λ v, (k, v)) <$> overrides !! k) (key_order (control_keys variants))) variants.

Inductive DeleteEvent : Type :=
  | DeleteKeyAdded (idx : nat) (config : DefaultConfig)
  | DeleteKeyRemoved (idx : nat) (removed_key : string)
  | DeleteIdChanged (idx : nat) (variant_id : string)
  | DeleteVariantRemoved (idx : nat)
  | DeleteVariantAdded (now : Z).

Definition delete_form_step (variants : list (string * VariantFormT)) (e : DeleteEvent)
    : list (string * VariantFormT) :=
  match e with
  | DeleteKeyAdded idx config =>
      update_control_variant
        (alter (alter_overrides (λ ovs, ovs ++ [(dc_key config, dc_value config)])) idx variants)
  | DeleteKeyRemoved idx removed_key =>
      update_control_variant
        (alter (alter_overrides (List.filter (λ '(k, _), negb (bool_decide (k = removed_key))))) idx variants)
  | DeleteIdChanged idx variant_id =>
      update_control_variant (alter (λ kv, (kv.1, set_vf_id kv.2 variant_id)) idx variants)
  | DeleteVariantRemoved idx => update_control_variant (delete idx variants)
  | DeleteVariantAdded now => variants ++ [(pretty now, mkVariantForm "" EXPERIMENTAL [])]
  end.

(** The keys offered are those of the overrides, with what the configuration
    resolves to without the context. *)
Definition delete_options (default_config : list DefaultConfig) (resolved_config : Map)
    : list DefaultConfig :=
  omap (λ d, (λ v, mkDefaultConfig (dc_key d) v (dc_created_at d) (dc_created_by d) (dc_schema d)
      (dc_value_validation_function_name d) (dc_last_modified_at d) (dc_last_modified_by d)
      (dc_description d) (dc_change_reason d) (dc_value_compute_function_name d))
      <$> resolved_config !! dc_key d)
    (List.filter (λ d, bool_decide (dc_key d ∈ dom overrides)) default_config).

(** The variants shown are not the control; the second entry stays. *)
Definition delete_event_offered (options : list DefaultConfig) (variants : list (string * VariantFormT))
    (e : DeleteEvent) : Prop :=
  let shown idx := ∃ kv, variants !! idx = Some kv ∧ vf_variant_type kv.2 ≠ CONTROL in
  match e with
  | DeleteKeyAdded idx config =>
      ∃ kv, variants !! idx = Some kv ∧ vf_variant_type kv.2 ≠ CONTROL ∧
        config ∈ unused_config_keys options (list_to_set (vf_overrides kv.2).*1)
  | DeleteKeyRemoved idx _ | DeleteIdChanged idx _ => shown idx
  | DeleteVariantRemoved idx => shown idx ∧ idx ≠ 1
  | DeleteVariantAdded _ => True
  end.

Inductive delete_form_steps (options : list DefaultConfig)
    : list (string * VariantFormT) → list (string * VariantFormT) → Prop :=
  | delete_refl vs : delete_form_steps options vs vs
  | delete_step vs1 vs2 e :
      delete_form_steps options vs1 vs2 → delete_event_offered options vs2 e →
      delete_form_steps options vs1 (delete_form_step vs2 e).
End delete_form.

(** ** The form of a cohort schema *)

Record CohortSchemaFormat : Type := mkCohortSchema {
  cs_enum : list string;
  cs_definitions : Map;
  cs_type : string;
}.

Module CohortSchemaFormat.
Definition default : CohortSchemaFormat := mkCohortSchema ["otherwise"] ∅ "string".

(** The derived [Deserialize] and [Serialize]. *)
Definition from_value (value : Value) : option CohortSchemaFormat :=
  schema ← as_object value;
  enum ← v ← schema !! "enum"; l ← as_array v; mapM as_str l;
  definitions ← v ← schema !! "definitions"; as_object v;
  type ← v ← schema !! "type"; as_str v;
  Some (mkCohortSchema enum definitions type).

Definition to_value (self : CohortSchemaFormat) : Map :=
  <["enum" := strings (cs_enum self)]> (<["definitions" := VObject (cs_definitions self)]>
    {[ "type" := VString (cs_type self) ]}).
End CohortSchemaFormat.

Definition cohort_form_init (dimension_schema : Value) : CohortSchemaFormat :=
  default CohortSchemaFormat.default (CohortSchemaFormat.from_value dimension_schema).

Definition validate_cohort_info (enum_name : string) (enum_value : Value) : result string string :=
  let enum_name := trim enum_name in
  if bool_decide (enum_name = "") then Err "Cohort name cannot be empty"
  else if bool_decide (enum_name = "otherwise") then Err "Cohort name cannot be 'otherwise'"
  else if bool_decide (enum_value = VNull) then Err "Cohort definition cannot be empty"
  else Ok enum_name.

(** [Vec::insert] at [len() - 1]: on an empty enum the subtraction overflows. *)
Definition insert_before_last {A} (x : A) (l : list A) : option (list A) :=
  match l with
  | [] => None
  | _ => Some (take (length l - 1) l ++ x :: drop (length l - 1) l)
  end.

Inductive CohortEvent : Type :=
  | CohortsSorted (new_items : list string)
  | CohortAdded (enum_name : string) (enum_definition : Value)
  | CohortUpdated (cohort_name : string) (enum_definition : Value)
  | CohortRemoved (cohort_name : string).

(** The options that can be sorted and edited. *)
Definition cohort_items (s : CohortSchemaFormat) : list string :=
  List.filter (λ e, negb (bool_decide (e = "otherwise"))) (cs_enum s).

(** A callback, with the message of a refusal; [None] is a panic. *)
Definition cohort_form_step (s : CohortSchemaFormat) (e : CohortEvent)
    : option (result string CohortSchemaFormat) :=
  match e with
  | CohortsSorted new_items =>
      Some (Ok (mkCohortSchema
        (List.filter (λ e, negb (bool_decide (e = "otherwise"))) new_items ++ ["otherwise"])
        (cs_definitions s) (cs_type s)))
  | CohortAdded enum_name enum_definition =>
      match validate_cohort_info enum_name enum_definition with
      | Err e => Some (Err e)
      | Ok enum_name =>
          if bool_decide (enum_name ∈ cs_enum s) then Some (Err "Cohort name must be unique")
          else
            enum ← insert_before_last enum_name (cs_enum s);
            Some (Ok (mkCohortSchema enum (<[enum_name := enum_definition]> (cs_definitions s))
              (cs_type s)))
      end
  | CohortUpdated cohort_name enum_definition =>
      Some (enum_name ← validate_cohort_info cohort_name enum_definition;
        Ok (mkCohortSchema (cs_enum s) (<[enum_name := enum_definition]> (cs_definitions s)) (cs_type s)))
  | CohortRemoved cohort_name =>
      Some (Ok (mkCohortSchema
        (List.filter (λ e, negb (bool_decide (e = cohort_name))) (cs_enum s))
        (delete cohort_name (cs_definitions s)) (cs_type s)))
  end.

(** What the page offers: the options in another order, and a form for one. *)
Definition cohort_event_offered (s : CohortSchemaFormat) (e : CohortEvent) : Prop :=
  match e with
  | CohortsSorted new_items => new_items ≡ₚ cohort_items s
  | CohortAdded _ _ => True
  | CohortUpdated cohort_name _ | CohortRemoved cohort_name => cohort_name ∈ cohort_items s
  end.

Inductive cohort_form_steps : CohortSchemaFormat → CohortSchemaFormat → Prop :=
  | cohort_refl s : cohort_form_steps s s
  | cohort_step s1 s2 s3 e :
      cohort_form_steps s1 s2 → cohort_event_offered s2 e →
      cohort_form_step s2 e = Some (Ok s3) → cohort_form_steps s1 s3.

(** The kinds of definition that [cohort_form] offers for a type, in order. *)
Inductive CohortInputType : Type := StringArray | NumberArray | SimpleCondition | CustomLogic.

Definition filter_option (schema_type : SchemaType) (option : CohortInputType) : bool :=
  match option with
  | StringArray =>
      match schema_type with
      | Single TString => true
      | Single _ => false
      | Multiple types => bool_decide (TString ∈ types)
      end
  | NumberArray =>
      match schema_type with
      | Single TNumber | Single TInteger => true
      | Single _ => false
      | Multiple types => bool_decide (TNumber ∈ types) || bool_decide (TInteger ∈ types)
      end
  | _ => true
  end.

Definition cohort_input_types (schema : Map) : list CohortInputType :=
  List.filter (filter_option (default_expression_of schema))
    [StringArray; NumberArray; SimpleCondition; CustomLogic].

(** The definition that a list of options makes, and the options read back. *)
Definition array_definition (cohort_based_on : string) (new_val : list Value) : Value :=
  VObject {[ "in" := VArray [VObject {[ "var" := VString cohort_based_on ]}; VArray new_val] ]}.

Definition string_options (value : Value) : list string :=
  default [] (obj ← as_object value; v ← obj !! "in"; arr ← as_array v; o ← arr !! 1;
    arr ← as_array o; Some (omap as_str (arr : list Value))).

(** The condition shown for a definition, and the definition of one changed. *)
Definition simple_condition (dimension : string) (schema_type : SchemaType) (value : Value)
    : FormCondition :=
  match jsonlogic.try_from_condition_json value with
  | Ok condition => condition
  | Err _ => new_with_default_expression dimension schema_type
  end.

Definition change_simple_condition (dimension : string) (schema_type : SchemaType) (value : Value)
    (new_expr : Expression) : Value :=
  jsonlogic.to_expression_json new_expr (fc_variable (simple_condition dimension schema_type value)).

Inductive DimensionTypeOptions : Type := RegularOption | LocalCohortOption | RemoteCohortOption.

Definition to_dimension_type (self : DimensionTypeOptions) (cohort : string) : DimensionType :=
  match self with
  | RegularOption => Regular
  | LocalCohortOption => LocalCohort cohort
  | RemoteCohortOption => RemoteCohort cohort
  end.
Definition dimension_type_option (dim_type : DimensionType) : DimensionTypeOptions :=
  match dim_type with
  | Regular => RegularOption
  | LocalCohort _ => LocalCohortOption
  | RemoteCohort _ => RemoteCohortOption
  end.

(** ** The requests that the forms send *)

(** [ExtendedMap::try_from]. *)
Definition extended_map (value : Value) : result string Map :=
  ok_or (as_object value) "expected a JSON object".

(** [validate_data] of the names that a regular expression checks. *)
Definition checked_name `{RegexEngine} (kind : RegexEnum) (name : string) : result string string :=
  let name := trim name in
  _ ← RegexEnum.match_regex kind name; Ok name.

Definition option_i64_from_value (value : Value) : result string (option Z) :=
  match value with
  | VString val =>
      match parse_i64 val with
      | Ok num => Ok (Some num)
      | Err _ => Err "Expected a bigint string as the value."
      end
  | VNull => Ok None
  | _ => Err "Expected a bigint string or null literal as the value."
  end.

(** The request of [create_context], read back by the service. *)
Definition context_payload (overrides : Map) (conditions : list FormCondition)
    (description change_reason : string) : Value :=
  VObject (<["override" := VObject overrides]>
    (<["context" := VObject (Conditions.as_context_json conditions)]>
    (<["description" := VString description]> {[ "change_reason" := VString change_reason ]}))).

Definition try_update_context_payload (context_id : string) (overrides : Map)
    (description change_reason : string) : result string UpdateRequest :=
  override_ ← cac_overrides_try_from overrides;
  description ← Description.try_from description;
  change_reason ← ChangeReason.try_from change_reason;
  Ok (mkUpdateRequest (Id context_id) override_ (Some description) change_reason).

Definition default_config_create_payload `{RegexEngine} (key : string) (value schema : Value)
    (value_validation_function_name value_compute_function_name : option string)
    (description change_reason : string) : result string DefaultConfigCreateRequest :=
  key ← checked_name DefaultConfigKey key;
  schema ← extended_map schema;
  description ← Description.try_from description;
  change_reason ← ChangeReason.try_from change_reason;
  Ok (mkDefaultConfigCreate key value schema value_validation_function_name description change_reason
    value_compute_function_name).

Definition default_config_update_payload (value schema : Value)
    (value_validation_function_name value_compute_function_name : option string)
    (description change_reason : string) : result string DefaultConfigUpdateRequest :=
  schema ← extended_map schema;
  description ← Description.try_from description;
  change_reason ← ChangeReason.try_from change_reason;
  Ok (mkDefaultConfigUpdate (Some value) (Some schema) (Some value_validation_function_name)
    (Some value_compute_function_name) (Some description) change_reason).

Definition dimension_update_payload (position : Z) (schema : Value)
    (value_validation_function_name value_compute_function_name : option string)
    (description change_reason : string) : result string DimensionUpdate :=
  schema ← extended_map schema;
  description ← Description.try_from description;
  change_reason ← ChangeReason.try_from change_reason;
  Ok (mkDimensionUpdate (Some (Position.from_u32 position)) (Some schema)
    (Some value_validation_function_name) (Some value_compute_function_name) (Some description)
    change_reason).

Definition type_create_payload `{RegexEngine} (type_name : string) (type_schema : Value)
    (description change_reason : string) : result string TypeTemplateCreateRequest :=
  type_name ← checked_name TypeTemplateName type_name;
  type_schema ← extended_map type_schema;
  description ← Description.try_from description;
  change_reason ← ChangeReason.try_from change_reason;
  Ok (mkTypeTemplateCreate type_schema type_name description change_reason).

Definition type_update_payload (schema : Value) (description change_reason : string)
    : result string TypeTemplateUpdateRequest :=
  type_schema ← extended_map schema;
  description ← Description.try_from description;
  change_reason ← ChangeReason.try_from change_reason;
  Ok (mkTypeTemplateUpdate type_schema (Some description) change_reason).

Definition function_create_payload `{RegexEngine} (function_name function : string)
    (runtime_version : FunctionRuntimeVersion) (description change_reason : string)
    (function_type : FunctionType) : result string CreateFunctionRequest :=
  function_name ← checked_name FunctionName function_name;
  description ← Description.try_from description;
  change_reason ← ChangeReason.try_from change_reason;
  Ok (mkCreateFunction function_name function function_type runtime_version description change_reason).

Definition function_update_payload (function : string) (runtime_version : FunctionRuntimeVersion)
    (description change_reason : string) : result string UpdateFunctionRequest :=
  description ← Description.try_from description;
  change_reason ← ChangeReason.try_from change_reason;
  Ok (mkUpdateFunction (Some function) (Some runtime_version) (Some description) change_reason).

Definition variable_update_payload (value description change_reason : string)
    : result string UpdateVariableRequest :=
  description ← Description.try_from description;
  change_reason ← ChangeReason.try_from change_reason;
  Ok (mkUpdateVariable (Some value) (Some description) change_reason).

Definition ramp_payload (percent : Z) (change_reason : option string) : result string RampRequest :=
  change_reason ← ChangeReason.try_from (default ("ramping to " +:+ pretty percent) change_reason);
  traffic_percentage ← TrafficPercentage.try_from percent;
  Ok (mkRamp traffic_percentage change_reason).

Definition conclude_payload (variant_id change_reason : string) : result string ConcludeExperimentRequest :=
  change_reason ← ChangeReason.try_from change_reason;
  Ok (mkConclude variant_id None change_reason).

Definition validate_experiment (experiment : ExperimentCreateRequest) : result string unit :=
  if bool_decide (rc_name experiment = "") then Err "experiment name should not be empty" else Ok tt.

(** [create_experiment], up to the request. *)
Definition experiment_create_payload (conditions : list FormCondition) (variants : list VariantFormT)
    (metrics : option Metrics) (name : string) (experiment_type : ExperimentType)
    (description change_reason : string) (experiment_group_id : Value)
    : result string ExperimentCreateRequest :=
  variants ← try_map try_variant variants;
  context ← exp_condition_try_from (Conditions.as_context_json conditions);
  description ← Description.try_from description;
  change_reason ← ChangeReason.try_from change_reason;
  experiment_group_id ← map_err (λ e, "Invalid experiment group id: " +:+ e)
    (option_i64_from_value experiment_group_id);
  let payload := mkCreate name context variants metrics experiment_type description change_reason
    experiment_group_id in
  _ ← validate_experiment payload;
  Ok payload.

(** [try_update_payload] of the form of an experiment. *)
Definition experiment_update_payload (variants : list VariantFormT) (metrics : option Metrics)
    (description change_reason : string) (experiment_group_id : Value)
    : result string OverrideKeysUpdateRequest :=
  variants ← try_map try_variant_update variants;
  description ← Description.try_from description;
  change_reason ← ChangeReason.try_from change_reason;
  experiment_group_id ← map_err (λ e, "Invalid experiment group id: " +:+ e)
    (I64Update.deserialize experiment_group_id);
  Ok (mkUpdate variants metrics (Some description) change_reason (Some experiment_group_id)).
