(* ===== verification/FrontendClaims.v ===== *)
(** * Theorems on the web interface *)

From S2P Require Import Prelude Json Types Text Effects ExpModels CacClient CacToml ExpChecks CacStore CacConfig Contexts Dimensions DefaultConfigs Functions QueryStrings Store Experiments Spec Provider Frontend.

(** ** Listings in folders *)

Lemma strip_prefix_Some p s t : strip_prefix p s = Some t ↔ s = p +:+ t.
Proof.
  revert s. induction p as [|c p IH]; intros s.
  - simpl. split; [by intros [= ->]|by intros ->].
  - destruct s as [|d s]; simpl; [split; discriminate|].
    case_bool_decide as Hc; [rewrite IH|].
    + subst d. split; [by intros ->|by intros [= ->]].
    + split; [discriminate|]. by intros [= -> _].
Qed.

Definition has_dot (s : string) : bool := str_contains s ".".

Lemma has_dot_cons c s : has_dot (String c s) = bool_decide (c = "."%char) || has_dot s.
Proof. unfold has_dot. cbn [str_contains starts_with]. f_equal. by rewrite andb_true_r, (bool_decide_ext (_ = _) (c = "."%char)) by done. Qed.

Lemma has_dot_app s t : has_dot (s +:+ t) = has_dot s || has_dot t.
Proof.
  induction s as [|c s IH]; [done|].
  change (String c s +:+ t) with (String c (s +:+ t)). by rewrite !has_dot_cons, IH, orb_assoc.
Qed.

Lemma split_dot s :
  match split_char "." s with
  | (f, []) => f = s ∧ has_dot s = false
  | (f, r :: rs) => ∃ t, s = f +:+ "." +:+ t ∧ has_dot f = false ∧ split_char "." t = (r, rs)
  end.
Proof.
  induction s as [|c s IH]; [done|]. cbn [split_char].
  destruct (split_char "." s) as [f rest] eqn:Hs. case_bool_decide as Hc.
  - subst c. by exists s.
  - destruct rest as [|r rs].
    + destruct IH as [-> Hd]. split; [done|]. rewrite has_dot_cons, Hd. by rewrite bool_decide_false.
    + destruct IH as (t & -> & Hd & Ht). exists t. split_and!; [done| |done].
      rewrite has_dot_cons, Hd. by rewrite bool_decide_false.
Qed.

Lemma no_dot_split s : has_dot s = false → split_char "." s = (s, []).
Proof.
  intros Hs. pose proof (split_dot s) as H. destruct (split_char "." s) as [f [|r rs]].
  - by destruct H as [-> _].
  - destruct H as (t & -> & _). rewrite !has_dot_app in Hs. cbn in Hs. by rewrite orb_true_r in Hs.
Qed.

Lemma dot_split f t : has_dot f = false → ∃ r, split_char "." (f +:+ "." +:+ t) = (f, r) ∧ r ≠ [].
Proof.
  induction f as [|c f IH]; intros Hf.
  - change ("" +:+ "." +:+ t) with (String "." t). cbn [split_char].
    destruct (split_char "." t) as [x xs]. exists (x :: xs). by rewrite bool_decide_true.
  - rewrite has_dot_cons in Hf. apply orb_false_iff in Hf as [Hc Hf]. apply bool_decide_eq_false in Hc.
    destruct (IH Hf) as (r & Hr & Hne). exists r. change (String c f +:+ "." +:+ t) with (String c (f +:+ "." +:+ t)).
    cbn [split_char]. rewrite Hr. by rewrite bool_decide_false.
Qed.

Lemma no_dot_folder s : has_dot s = false → is_folder s = false.
Proof.
  induction s as [|c s IH]; [done|]. rewrite has_dot_cons, orb_false_iff. intros [Hc Hs].
  destruct s; [exact Hc|by apply IH].
Qed.

Lemma dot_folder f : is_folder (f +:+ ".") = true.
Proof.
  induction f as [|c f IH]; [done|]. change (String c f +:+ ".") with (String c (f +:+ ".")).
  cbn [is_folder]. destruct (f +:+ ".") eqn:E; [by destruct f|exact IH].
Qed.

Section listing.
Context (key_col : string).

(** What a row is on the page of a prefix: its leaf or its folder. *)
Definition leaf_of (P : option string) (row : Map) : option string :=
  k ← subkey P (row_key key_col row); if has_dot k then None else Some k.
Definition folder_of (P : option string) (row : Map) : option string :=
  k ← subkey P (row_key key_col row);
  if has_dot k then Some ((split_char "." k).1 +:+ ".") else None.

Definition labels (rows : list Map) (P : option string) : list string :=
  row_key key_col <$> grouped_page rows P key_col.

(** Opening folders from the first page on. *)
Inductive opened (rows : list Map) : option string → Prop :=
  | opened_root : opened rows None
  | opened_folder P label :
      opened rows P → label ∈ labels rows P → is_folder label = true →
      opened rows (Some (open_folder P label)).

Lemma row_key_insert key ele : row_key key_col (<[key_col := VString key]> ele) = key.
Proof. unfold row_key. by rewrite lookup_insert_eq. Qed.

Lemma row_key_folder cols folder ele : key_col ∈ cols → row_key key_col (folder_row cols key_col folder ele) = folder.
Proof.
  unfold folder_row. revert ele. induction cols as [|col cols IH] using rev_ind; intros ele Hin.
  { by apply elem_of_nil in Hin. }
  rewrite foldl_app. cbn [foldl]. destruct (decide (col = key_col)) as [->|Hne].
  - rewrite bool_decide_true by done. apply row_key_insert.
  - rewrite bool_decide_false by done. unfold row_key. rewrite lookup_insert_ne by done. apply IH.
    apply elem_of_app in Hin as [Hin|Hin]; [done|]. by apply list_elem_of_singleton in Hin.
Qed.

Lemma subkey_spec P key k : subkey P key = Some k ↔ key = default "" P +:+ k.
Proof.
  destruct P as [p|]; cbn [subkey default]; [apply strip_prefix_Some|].
  split; [by intros [= ->]|by intros ->].
Qed.

(** The labels of the page that is being built. *)
Lemma elem_of_group_rows P cols groups rows label :
  key_col ∈ cols →
  label ∈ row_key key_col <$> group_rows P cols key_col groups rows ↔
  (∃ row, row ∈ rows ∧ leaf_of P row = Some label) ∨
  (label ∉ groups ∧ ∃ row, row ∈ rows ∧ folder_of P row = Some label).
Proof.
  intros Hc. revert groups. induction rows as [|ele rows IH]; intros groups; cbn [group_rows].
  { rewrite elem_of_nil. set_solver. }
  setoid_rewrite elem_of_cons. destruct (subkey P (row_key key_col ele)) as [k|] eqn:Hk; cycle 1.
  { assert (leaf_of P ele = None ∧ folder_of P ele = None) as [Hl Hf]
      by (unfold leaf_of, folder_of; by rewrite Hk).
    rewrite IH. split; [intros [(row & ? & ?)|(? & row & ? & ?)]; eauto 10|].
    intros [(row & [->|?] & Hr)|(? & row & [->|?] & Hr)]; try congruence; eauto 10. }
  pose proof (split_dot k) as Hd. destruct (split_char "." k) as [f [|r rs]] eqn:Hs.
  - destruct Hd as [-> Hd].
    assert (leaf_of P ele = Some k ∧ folder_of P ele = None) as [Hl Hf]
      by (unfold leaf_of, folder_of; rewrite Hk; cbn; by rewrite Hd).
    rewrite fmap_cons, elem_of_cons, row_key_insert, IH. split.
    + intros [->|[(row & ? & ?)|(? & row & ? & ?)]]; eauto 10.
    + intros [(row & [->|?] & Hr)|(? & row & [->|?] & Hr)]; [left; congruence|..|congruence|]; eauto 10.
  - destruct Hd as (t & -> & Hd & Ht).
    assert (leaf_of P ele = None ∧ folder_of P ele = Some (f +:+ ".")) as [Hl Hf].
    { unfold leaf_of, folder_of. rewrite Hk. cbn. rewrite !has_dot_app. cbn. by rewrite orb_true_r, Hs. }
    case_bool_decide as Hg.
    + rewrite IH. split; [intros [(row & ? & ?)|(? & row & ? & ?)]; eauto 10|].
      intros [(row & [->|?] & Hr)|(? & row & [->|?] & Hr)]; try congruence; eauto 10.
    + rewrite fmap_cons, elem_of_cons, (row_key_folder _ _ _ Hc), IH. split.
      * intros [->|[(row & ? & ?)|(Hn & row & ? & ?)]]; [by eauto 10..|].
        right. split; [set_solver|]. eauto.
      * destruct (decide (label = f +:+ ".")) as [->|Hne]; [by left|].
        intros [(row & [->|?] & Hr)|(? & row & [->|?] & Hr)]; try congruence; [by eauto 10|].
        right. right. split; [set_solver|]. eauto.
Qed.

Lemma leaf_row P cols groups rows row label :
  row ∈ rows → leaf_of P row = Some label →
  <[key_col := VString label]> row ∈ group_rows P cols key_col groups rows.
Proof.
  intros Hin Hl. revert groups. induction Hin as [row rows|row ele rows Hin IH]; intros groups;
    cbn [group_rows].
  - unfold leaf_of in Hl. destruct (subkey P (row_key key_col row)) as [k|]; [|done]. cbn in Hl.
    destruct (has_dot k) eqn:Hd; [done|]. injection Hl as ->. rewrite no_dot_split by done. by left.
  - destruct (subkey _ _); [|by auto]. destruct (split_char _ _) as [f [|r rs]]; [right; by auto|].
    case_bool_decide; [by auto|]. right. auto.
Qed.

Lemma leaf_of_dot P row label : leaf_of P row = Some label → has_dot label = false.
Proof.
  unfold leaf_of. destruct (subkey _ _) as [k|]; [|done]. cbn. destruct (has_dot k) eqn:Hd; congruence.
Qed.

Lemma folder_of_spec P row label :
  folder_of P row = Some label ↔
  ∃ f t, label = f +:+ "." ∧ has_dot f = false ∧ row_key key_col row = default "" P +:+ label +:+ t.
Proof.
  unfold folder_of. split.
  - destruct (subkey _ _) as [k|] eqn:Hk; [|done]. apply subkey_spec in Hk. cbn.
    pose proof (split_dot k) as H. destruct (has_dot k) eqn:Hd; [|done].
    destruct (split_char "." k) as [f [|r rs]]; [by destruct H; congruence|].
    destruct H as (t & -> & Hf & _). intros [= <-]. exists f, t. split_and!; [done..|].
    by rewrite Hk, append_assoc.
  - intros (f & t & -> & Hf & Hk). rewrite append_assoc in Hk. apply subkey_spec in Hk. rewrite Hk. cbn.
    rewrite !has_dot_app. cbn. rewrite orb_true_r. by destruct (dot_split f t Hf) as (r & -> & _).
Qed.

Lemma folder_of_dot P row label : folder_of P row = Some label → has_dot label = true.
Proof. intros (f & t & -> & _)%folder_of_spec. rewrite has_dot_app. cbn. by rewrite orb_true_r. Qed.

Lemma folder_of_folder P row label : folder_of P row = Some label → is_folder label = true.
Proof. intros (f & t & -> & _)%folder_of_spec. apply dot_folder. Qed.

Definition keyed (rows : list Map) : Prop :=
  ∀ row, row ∈ rows → ∃ k, row !! key_col = Some (VString k).

Lemma keyed_cols rows row : keyed rows → row ∈ rows →
  key_col ∈ match rows with row :: _ => (sorted_entries row).*1 | [] => [] end.
Proof.
  intros Hk Hin. destruct rows as [|first rows]; [by apply elem_of_nil in Hin|].
  destruct (Hk first) as [k Hf]; [by left|]. apply list_elem_of_fmap.
  exists (key_col, VString k). split; [done|]. by apply elem_of_sorted_entries.
Qed.

Lemma filter_both {A} (p : A → bool) (l : list A) x :
  x ∈ List.filter p l ++ List.filter (λ x, negb (p x)) l ↔ x ∈ l.
Proof.
  rewrite elem_of_app, !list_elem_of_In, !filter_In, <-list_elem_of_In. destruct (p x); naive_solver.
Qed.

Lemma elem_of_labels rows P label : keyed rows →
  label ∈ labels rows P ↔
  ∃ row, row ∈ rows ∧ (leaf_of P row = Some label ∨ folder_of P row = Some label).
Proof.
  intros Hk. unfold labels, grouped_page, modify_rows, folders_first.
  destruct rows as [|first rows].
  { cbn. rewrite elem_of_nil. set_solver. }
  pose proof (keyed_cols _ first Hk ltac:(by left)) as Hc.
  rewrite list_elem_of_fmap. setoid_rewrite filter_both. rewrite <-list_elem_of_fmap.
  rewrite (elem_of_group_rows _ _ _ _ _ Hc). set_solver.
Qed.
End listing.

Section navigation.
Context (rows : list Map) (key_col : string) (Hk : keyed key_col rows).

(** Every key below an opened page is found by opening folders from it. *)
Lemma key_below P row rest :
  row ∈ rows → opened key_col rows P → row_key key_col row = default "" P +:+ rest →
  ∃ P' label, opened key_col rows P' ∧ row_key key_col row = open_folder P' label ∧
    leaf_of key_col P' row = Some label.
Proof.
  intros Hin. remember (String.length rest) as n eqn:Hn. revert P rest Hn.
  induction (lt_wf n) as [n _ IH]; intros P rest -> Ho Hrow.
  pose proof (split_dot rest) as Hs. destruct (split_char "." rest) as [f [|r rs]].
  - destruct Hs as [-> Hd]. exists P, rest. split_and!; [done|by destruct P|].
    unfold leaf_of. apply subkey_spec in Hrow as ->. cbn. by rewrite Hd.
  - destruct Hs as (t & -> & Hd & _).
    assert (folder_of key_col P row = Some (f +:+ ".")) as Hf.
    { apply folder_of_spec. exists f, t. split_and!; [done|done|]. by rewrite Hrow, append_assoc. }
    apply (IH (String.length t)) with (P := Some (open_folder P (f +:+ "."))) (rest := t); [|done|..].
    + rewrite !string_length_app. cbn. lia.
    + apply opened_folder; [done| |apply dot_folder]. apply elem_of_labels; eauto.
    + rewrite Hrow. cbn [default]. destruct P as [p|]; cbn; by rewrite ?append_assoc.
Qed.

Lemma folders_once P cols groups :
  key_col ∈ cols →
  NoDup (List.filter has_dot (row_key key_col <$> group_rows P cols key_col groups rows)).
Proof.
  clear Hk. intros Hc. revert groups. induction rows as [|ele l IH]; intros groups; cbn [group_rows]; [constructor|].
  destruct (subkey P (row_key key_col ele)) as [k|] eqn:Hsub; [|by apply IH].
  pose proof (split_dot k) as Hs. destruct (split_char "." k) as [f [|r rs]].
  - destruct Hs as [-> Hd]. rewrite fmap_cons, row_key_insert. cbn [List.filter]. rewrite Hd. apply IH.
  - case_bool_decide as Hg; [by apply IH|]. rewrite fmap_cons, (row_key_folder _ _ _ _ Hc). cbn [List.filter].
    destruct (has_dot (f +:+ ".")); [|by apply IH]. apply NoDup_cons. split; [|by apply IH].
    rewrite list_elem_of_In, filter_In, <-list_elem_of_In, (elem_of_group_rows _ _ _ _ _ _ Hc).
    intros [[(row & _ & Hl)|(Hn & _)] Hdot]; [apply leaf_of_dot in Hl; congruence|].
    set_solver.
Qed.
End navigation.

Lemma filter_row_key key_col (p : string → bool) (l : list Map) :
  row_key key_col <$> List.filter (λ r, p (row_key key_col r)) l = List.filter p (row_key key_col <$> l).
Proof.
  induction l as [|r l IH]; [done|]. rewrite fmap_cons. cbn [List.filter].
  destruct (p (row_key key_col r)); [rewrite fmap_cons|]; by rewrite IH.
Qed.

Lemma filter_filter {A} (p q : A → bool) (l : list A) :
  List.filter p (List.filter q l) = List.filter (λ x, q x && p x) l.
Proof.
  induction l as [|x l IH]; [done|]. cbn [List.filter]. destruct (q x); cbn [List.filter andb]; by rewrite IH.
Qed.

Lemma filter_none {A} (p : A → bool) (l : list A) : (∀ x, p x = false) → List.filter p l = [].
Proof. intros Hp. induction l as [|x l IH]; [done|]. cbn [List.filter]. by rewrite Hp. Qed.

Section pages.
Context (rows : list Map) (key_col : string) (Hk : keyed key_col rows).

Lemma label_dot P label : label ∈ labels key_col rows P → is_folder label = has_dot label.
Proof.
  intros (row & _ & [Hl|Hf])%elem_of_labels; [|..|done].
  - apply leaf_of_dot in Hl. rewrite Hl. by apply no_dot_folder.
  - rewrite (folder_of_dot _ _ _ _ Hf). by eapply folder_of_folder.
Qed.

Lemma label_row P label : label ∈ labels key_col rows P → ∃ row, row ∈ rows ∧
  if is_folder label then starts_with (row_key key_col row) (open_folder P label) = true
  else row_key key_col row = open_folder P label.
Proof.
  intros Hlabel. rewrite (label_dot _ _ Hlabel).
  apply elem_of_labels in Hlabel as (row & Hin & [Hl|Hf]); [..|done]; exists row; (split; [done|]).
  - rewrite (leaf_of_dot _ _ _ _ Hl). unfold leaf_of in Hl.
    destruct (subkey _ _) as [k|] eqn:Hs; [|done]. apply subkey_spec in Hs. rewrite Hs. cbn in Hl.
    destruct (has_dot k); [done|]. injection Hl as ->. by destruct P.
  - rewrite (folder_of_dot _ _ _ _ Hf). apply starts_with_prefix.
    apply folder_of_spec in Hf as (f & t & -> & _ & Hrow). exists t. rewrite Hrow.
    destruct P; cbn; by rewrite ?append_assoc.
Qed.

Lemma page_order P : NoDup (List.filter is_folder (labels key_col rows P)) ∧
  ∃ folders names, labels key_col rows P = folders ++ names ∧
    Forall (λ l, is_folder l = true) folders ∧ Forall (λ l, is_folder l = false) names.
Proof.
  pose proof (label_dot P) as Hdot. erewrite (filter_ext_in is_folder has_dot)
    by (intros l Hl%list_elem_of_In; by apply Hdot).
  revert Hdot. unfold labels, grouped_page, modify_rows, folders_first.
  rewrite fmap_app, (filter_row_key key_col has_dot), (filter_row_key key_col (λ l, negb (has_dot l))).
  intros Hdot. split.
  - rewrite List.filter_app, !filter_filter, (filter_none (λ x, negb (has_dot x) && has_dot x)), app_nil_r
      by (intros x; by destruct (has_dot x)).
    destruct rows as [|first rows'] eqn:E; [constructor|].
    erewrite filter_ext; [|intros x; apply andb_diag]. apply folders_once.
    apply (keyed_cols key_col (first :: rows') first Hk). by left.
  - eexists _, _. split; [done|]. rewrite !Forall_forall.
    split; intros l Hl; rewrite Hdot by (rewrite elem_of_app; auto);
      apply list_elem_of_In, filter_In in Hl as [_ Hl]; by destruct (has_dot l).
Qed.
End pages.

(** C39. Keys grouped into folders. In a listing whose rows have a text as their
    key, every key is found by opening folders from the first page, and there
    its row is shown with the other columns untouched; a page that is reached
    shows nothing else: a name without a dot is the end of a key that begins
    with the prefix of the page, a folder the beginning of one; no page shows a
    folder twice, and the folders come before the names. *)
Theorem listing_navigable (rows : list Map) (key_col : string) :
  keyed key_col rows →
  (∀ row, row ∈ rows → ∃ P label, opened key_col rows P ∧
    row_key key_col row = open_folder P label ∧ is_folder label = false ∧
    <[key_col := VString label]> row ∈ grouped_page rows P key_col) ∧
  (∀ P label, label ∈ labels key_col rows P → ∃ row, row ∈ rows ∧
    if is_folder label then starts_with (row_key key_col row) (open_folder P label) = true
    else row_key key_col row = open_folder P label) ∧
  (∀ P, NoDup (List.filter is_folder (labels key_col rows P)) ∧
    ∃ folders names, labels key_col rows P = folders ++ names ∧
      Forall (λ l, is_folder l = true) folders ∧ Forall (λ l, is_folder l = false) names).
Proof.
  intros Hk. split_and!; [|by apply label_row|by apply page_order].
  intros row Hin.
  destruct (key_below rows key_col Hk None row (row_key key_col row) Hin) as (P & label & Ho & Hrow & Hl);
    [constructor|done|].
  exists P, label. split_and!; [done..|by eapply no_dot_folder, leaf_of_dot|].
  apply filter_both. by apply leaf_row.
Qed.

(** ** The form of variants *)

Lemma remove_override_spec k ovs : NoDup ovs.*1 →
  NoDup (remove_override k ovs).*1 ∧
  (list_to_set (remove_override k ovs).*1 : gset string) = list_to_set ovs.*1 ∖ {[k]}.
Proof.
  induction ovs as [|[k' v] ovs IH]; [set_solver|]. cbn [remove_override fmap list_fmap fst].
  intros [Hn Hnd]%NoDup_cons. destruct (IH Hnd) as [Hd He]. case_bool_decide as Hk.
  - subst k'. split; [done|]. cbn. set_solver.
  - cbn [fmap list_fmap fst list_to_set]. split.
    + apply NoDup_cons. split; [|done]. intros Hin. apply Hn.
      assert (k' ∈ (list_to_set (remove_override k ovs).*1 : gset string)) as Hin' by by apply elem_of_list_to_set.
      rewrite He in Hin'. set_solver.
    + rewrite He. set_solver.
Qed.

Lemma set_override_keys k v ovs : (set_override k v ovs).*1 = ovs.*1.
Proof.
  induction ovs as [|[k' v'] ovs IH]; [done|]. cbn. case_bool_decide; cbn; by rewrite ?IH.
Qed.

Lemma entries_to_map_dom l : dom (entries_to_map l) = list_to_set l.*1.
Proof.
  unfold entries_to_map. induction l as [|[k v] l IH] using rev_ind; [done|].
  rewrite foldl_app, fmap_app, list_to_set_app_L. cbn. rewrite dom_insert_L, IH. set_solver.
Qed.

Section variant_claims.
Context `{KeyOrder} `{!KeyOrderOk _} (default_config : list DefaultConfig) (auto_populate : bool).

(** The types of the schemas are known, as the service checks of a schema. *)
Definition typed : Prop :=
  ∀ d, d ∈ default_config → ∃ t, SchemaType.try_from (dc_schema d) = Ok t.
Definition known (keys : gset string) : Prop := ∀ k, k ∈ keys → ∃ d, d ∈ default_config ∧ dc_key d = k.
(** A resolved configuration has every key. *)
Definition answers_complete (e : VariantEvent) : Prop :=
  match e with
  | ControlPopulated resolved _ => ∀ d, d ∈ default_config → is_Some (resolved !! dc_key d)
  | _ => True
  end.

Definition overrides_keys (keys : gset string) (ovs : list (string * Value)) : Prop :=
  NoDup ovs.*1 ∧ list_to_set ovs.*1 = keys.

Record form_ok (s : VariantFormState) : Prop := {
  ok_keys : ∀ kv, kv ∈ ff_variants s → overrides_keys (ff_override_keys s) (vf_overrides kv.2);
  ok_control : ∃ c rest, ff_variants s = ("control", c) :: rest ∧ vf_variant_type c = CONTROL ∧
    ∀ kv, kv ∈ rest → vf_variant_type kv.2 = EXPERIMENTAL ∧ kv.1 ≠ "control";
  ok_known : known (ff_override_keys s);
}.

Lemma key_to_type_known k : typed → (∃ d, d ∈ default_config ∧ dc_key d = k) →
  ∃ t, key_to_type default_config !! k = Some (Some t).
Proof.
  unfold typed, key_to_type. induction default_config as [|d l IH] using rev_ind; intros Ht (d' & Hin & <-).
  { by apply elem_of_nil in Hin. }
  rewrite foldl_app. cbn. destruct (Ht d) as [t Hd]; [set_solver|]. rewrite Hd.
  destruct (decide (dc_key d = dc_key d')) as [->|Hne]; [rewrite lookup_insert_eq; eauto|].
  rewrite lookup_insert_ne by done. apply IH; [set_solver|].
  apply elem_of_app in Hin as [Hin|Hin%list_elem_of_singleton]; [eauto|by subst].
Qed.

(** Entries chosen for every key of a set, in some order. *)
Lemma omap_keys {B} (f : string → option B) (keys : gset string) :
  (∀ k, k ∈ keys → is_Some (f k)) →
  (omap (λ k, (λ b, (k, b)) <$> f k) (key_order keys)).*1 ≡ₚ elements keys.
Proof.
  intros Hf. rewrite <-(key_order_perm keys).
  assert (∀ l, (∀ k, k ∈ l → is_Some (f k)) → (omap (λ k, (λ b, (k, b)) <$> f k) l).*1 = l) as Hl.
  { induction l as [|k l IH]; intros Hin; [done|]. cbn. destruct (Hin k) as [b ->]; [by left|]. cbn.
    f_equal. apply IH. intros k' Hk'. apply Hin. by right. }
  rewrite Hl; [done|]. intros k Hk. apply Hf. rewrite key_order_perm in Hk. by apply elem_of_elements in Hk.
Qed.

Lemma overrides_keys_perm keys ovs : ovs.*1 ≡ₚ elements keys → overrides_keys keys ovs.
Proof.
  intros Hp. split; [rewrite Hp; apply NoDup_elements|]. rewrite Hp. apply list_to_set_elements_L.
Qed.

Lemma form_ok_init overrides :
  NoDup overrides.*1 → known (list_to_set overrides.*1) →
  form_ok (variant_form_init (default_with_overrides overrides)).
Proof.
  intros Hnd Hk. unfold variant_form_init, default_with_overrides, get_override_keys_from_variants.
  cbn [fmap list_fmap vf_id mbind list_bind ff_variants ff_override_keys].
  assert (list_to_set ((vf_overrides (mkVariantForm "control" CONTROL overrides)).*1 ++
    (vf_overrides (mkVariantForm "experimental" EXPERIMENTAL overrides)).*1 ++ []) =
    (list_to_set overrides.*1 : gset string)) as Hset by (cbn; set_solver).
  split; cbn [ff_variants ff_override_keys].
  - rewrite Hset. intros kv [->|[->|[]%elem_of_nil]%elem_of_cons]%elem_of_cons; done.
  - eexists _, _. split_and!; [done|done|]. intros kv ->%list_elem_of_singleton. by split.
  - by rewrite Hset.
Qed.

(** The variants: the control first, under its name, which no other has. *)
Definition control_first (vs : list (string * VariantFormT)) : Prop :=
  ∃ c rest, vs = ("control", c) :: rest ∧ vf_variant_type c = CONTROL ∧
    ∀ kv, kv ∈ rest → vf_variant_type kv.2 = EXPERIMENTAL ∧ kv.1 ≠ "control".

Definition same_kind (g : string * VariantFormT → string * VariantFormT) : Prop :=
  ∀ kv, (g kv).1 = kv.1 ∧ vf_variant_type (g kv).2 = vf_variant_type kv.2.

Lemma same_kind_overrides f : same_kind (alter_overrides f).
Proof. by intros [k v]. Qed.
Lemma same_kind_id id : same_kind (λ kv, (kv.1, set_vf_id kv.2 id)).
Proof. by intros [k v]. Qed.

Lemma elem_of_alter {A} (f : A → A) (i : nat) (l : list A) x :
  x ∈ alter f i l → x ∈ l ∨ ∃ y, l !! i = Some y ∧ x = f y.
Proof.
  intros [j Hj]%list_elem_of_lookup. destruct (decide (i = j)) as [->|Hne].
  - rewrite list_lookup_alter_eq in Hj. destruct (l !! j) as [y|]; [|done]. injection Hj as <-. eauto.
  - rewrite list_lookup_alter_ne in Hj by done. left. by eapply list_elem_of_lookup_2.
Qed.

Lemma control_first_fmap g vs : same_kind g → control_first vs → control_first (g <$> vs).
Proof.
  intros Hg (c & rest & -> & Hc & Hrest). destruct (Hg ("control", c)) as [H1 H2].
  destruct (g ("control", c)) as [k c'] eqn:E. cbn in H1, H2. subst k. exists c', (g <$> rest).
  split_and!; [cbn; by rewrite E|congruence|].
  intros kv (kv' & -> & Hin)%list_elem_of_fmap. destruct (Hg kv') as [-> ->]. by apply Hrest.
Qed.

Lemma control_first_alter g i vs : same_kind g → control_first vs → control_first (alter g i vs).
Proof.
  intros Hg (c & rest & -> & Hc & Hrest). destruct i as [|i]; cbn.
  - destruct (Hg ("control", c)) as [H1 H2]. destruct (g ("control", c)) as [k c'] eqn:E.
    cbn in H1, H2. subst k. exists c', rest. split_and!; [done|congruence|done].
  - exists c, (alter g i rest). split_and!; [done..|].
    intros kv [Hin|(y & Hy & ->)]%elem_of_alter; [by apply Hrest|].
    destruct (Hg y) as [-> ->]. apply Hrest. by eapply list_elem_of_lookup_2.
Qed.

Lemma pretty_not_control (z : Z) : pretty z ≠ "control".
Proof.
  intros Hz. destruct (pretty_Z_digits z) as [[Hd _]|(s & Hs & _)]; rewrite Hz in *; done.
Qed.

Lemma control_first_app (now : Z) ovs vs :
  control_first vs → control_first (vs ++ [(pretty now, mkVariantForm "" EXPERIMENTAL ovs)]).
Proof.
  intros (c & rest & -> & Hc & Hrest). eexists c, _. split_and!; [reflexivity|done|].
  intros kv [Hin| ->%list_elem_of_singleton]%elem_of_app; [by apply Hrest|].
  split; [done|]. apply pretty_not_control.
Qed.

Lemma elem_of_remove_variant key vs kv : kv ∈ remove_variant key vs → kv ∈ vs.
Proof.
  induction vs as [|[k v] vs IH]; [done|]. cbn. case_bool_decide; [by right|].
  rewrite !elem_of_cons. naive_solver.
Qed.

Lemma control_first_remove key vs : key ≠ "control" → control_first vs → control_first (remove_variant key vs).
Proof.
  intros Hk (c & rest & -> & Hc & Hrest). cbn. rewrite bool_decide_false by done.
  exists c, (remove_variant key rest). split_and!; [done..|].
  intros kv Hin%elem_of_remove_variant. by apply Hrest.
Qed.

(** A shown variant is not the control. *)
Lemma shown_not_control vs key v :
  control_first vs → (key, v) ∈ vs → vf_variant_type v ≠ CONTROL → key ≠ "control".
Proof.
  intros (c & rest & -> & Hc & Hrest) [Heq|Hin]%elem_of_cons Hv; [congruence|]. by apply (Hrest (key, v)).
Qed.

Lemma form_ok_set s vs :
  form_ok s → control_first vs →
  (∀ kv, kv ∈ vs → overrides_keys (ff_override_keys s) (vf_overrides kv.2)) →
  form_ok (set_ff_variants s vs).
Proof. intros [_ _ Hk] Hc Hvs. by split. Qed.

Lemma form_ok_alter s g i :
  form_ok s → same_kind g →
  (∀ kv, ff_variants s !! i = Some kv → overrides_keys (ff_override_keys s) (vf_overrides (g kv).2)) →
  form_ok (set_ff_variants s (alter g i (ff_variants s))).
Proof.
  intros Hs Hg Hi. apply form_ok_set; [done|apply control_first_alter, Hs; done|].
  intros kv [Hin|(y & Hy & ->)]%elem_of_alter; [by apply Hs|by apply Hi].
Qed.

Lemma form_ok_key_remove k s : form_ok s → form_ok (on_key_remove k s).
Proof.
  intros [Hkeys Hc Hk]. split; cbn.
  - intros kv (kv' & -> & Hin)%list_elem_of_fmap. destruct (Hkeys kv' Hin) as [Hnd <-]. cbn.
    by apply remove_override_spec.
  - apply control_first_fmap; [apply same_kind_overrides|done].
  - intros k' Hk'. apply Hk. set_solver.
Qed.

Lemma form_ok_key_select resolved d s :
  form_ok s → d ∈ unused_config_keys default_config (ff_override_keys s) →
  form_ok (on_key_select auto_populate resolved d s).
Proof.
  intros Hs Hd. unfold on_key_select. destruct (SchemaType.try_from _) as [t|]; [|done].
  destruct Hs as [Hkeys Hc Hk].
  apply list_elem_of_In, filter_In in Hd as [Hd Hn]. apply list_elem_of_In in Hd.
  apply negb_true_iff, bool_decide_eq_false in Hn. split; cbn.
  - intros kv (kv' & -> & Hin)%list_elem_of_fmap. destruct (Hkeys kv' Hin) as [Hnd Heq]. cbn.
    set (value := if bool_decide _ then _ else _). clearbody value.
    unfold overrides_keys. rewrite fmap_app. cbn. rewrite <-Heq in *. split.
    + apply NoDup_app. split_and!; [done| |apply NoDup_singleton].
      intros x Hx ->%list_elem_of_singleton. apply Hn. by apply elem_of_list_to_set.
    + rewrite list_to_set_app_L. cbn. set_solver.
  - apply control_first_fmap; [|done]. intros kv. apply same_kind_overrides.
  - intros k [->%elem_of_singleton|Hk']%elem_of_union; [eauto|by apply Hk].
Qed.

Lemma form_ok_step s e :
  typed → form_ok s → variant_event_offered default_config s e → answers_complete e →
  form_ok (variant_form_step default_config auto_populate s e).
Proof.
  intros Ht Hs Ho Ha. destruct e as [k|i k v|resolved d|resolved i|now|key|i id]; cbn [variant_form_step].
  - by apply form_ok_key_remove.
  - destruct (ff_variants s !! i) as [kv|] eqn:Hi; [|done]. apply form_ok_alter; [done|apply same_kind_overrides|].
    intros kv' Hkv'. cbn. unfold overrides_keys. rewrite set_override_keys. apply Hs.
    by eapply list_elem_of_lookup_2.
  - by apply form_ok_key_select.
  - apply form_ok_alter; [done|apply same_kind_overrides|]. intros kv _. cbn. apply overrides_keys_perm, omap_keys.
    intros k (d & Hd & <-)%(ok_known _ Hs). by apply Ha.
  - unfold on_add_variant. apply form_ok_set; [done|apply control_first_app, Hs|].
    intros kv [Hin| ->%list_elem_of_singleton]%elem_of_app; [by apply Hs|]. cbn.
    apply overrides_keys_perm.
    pose proof (omap_keys (λ key, SchemaType.default_value <$> mjoin (key_to_type default_config !! key))
      (ff_override_keys s)) as Hkeys.
    erewrite list_omap_ext; [apply Hkeys|].
    + intros k Hk. destruct (key_to_type_known k Ht (ok_known _ Hs k Hk)) as [t ->]. by eexists.
    + apply Forall2_same_length_lookup_2; [done|]. intros j k k' Hj Hj'. simplify_eq.
      by destruct (mjoin _).
  - destruct Ho as (v & Hin & Hshow). unfold show_remove_btn in Hshow. cbn in Hshow.
    apply andb_true_iff in Hshow as [_ Hv]. apply negb_true_iff, bool_decide_eq_false in Hv.
    apply form_ok_set; [done| |].
    + apply control_first_remove, Hs. eapply shown_not_control; [apply Hs|done..].
    + intros kv Hkv%elem_of_remove_variant. by apply Hs.
  - apply form_ok_alter; [done|apply same_kind_id|]. intros kv Hi. cbn. apply Hs.
    by eapply list_elem_of_lookup_2.
Qed.
End variant_claims.

Lemma form_ok_steps `{KeyOrder} `{!KeyOrderOk _} default_config auto_populate s s' :
  typed default_config → form_ok default_config s →
  variant_form_steps default_config auto_populate (answers_complete default_config) s s' →
  form_ok default_config s'.
Proof.
  intros Ht Hs Hsteps. induction Hsteps as [s|s s1 e Hsteps IH Ho Ha]; [done|].
  apply form_ok_step; [done|by apply IH|done..].
Qed.

Lemma countb_control {K} (rest : list (K * VariantFormT)) (p : VariantType → bool) (b : bool) vs :
  (∀ kv, kv ∈ rest → p (vf_variant_type kv.2) = b) →
  Forall2 (λ v w, vf_variant_type v = v_variant_type w) rest.*2 vs →
  countb (λ v, p (v_variant_type v)) vs = if b then length vs else 0.
Proof.
  revert vs. induction rest as [|kv rest IH]; intros vs Hp Hvs; cbn in Hvs.
  - apply Forall2_nil_inv_l in Hvs as ->. by destruct b.
  - apply Forall2_cons_inv_l in Hvs as (w & vs' & Hw & Hvs & ->). rewrite countb_cons.
    rewrite <-Hw, (Hp kv) by by left. rewrite (IH vs') by (try done; intros; apply Hp; by right).
    by destruct b.
Qed.

Lemma try_map_err {E A B} (f : A → result E B) l e :
  try_map f l = Err e → ∃ a, a ∈ l ∧ f a = Err e.
Proof.
  induction l as [|a l IH]; cbn; [done|]. destruct (f a) as [b|e'] eqn:Ha; cbn.
  - destruct (try_map f l) as [bs|e'']; [done|]. intros [= ->].
    destruct IH as (a' & ? & ?); [done|]. exists a'. split; [by right|done].
  - intros [= ->]. exists a. split; [by left|done].
Qed.

Lemma try_variant_ok v w :
  try_variant v = Ok w →
  v_variant_type w = vf_variant_type v ∧ v_overrides w = entries_to_map (vf_overrides v).
Proof.
  unfold try_variant, exp_overrides_try_from. destruct (Overrides.validate_data _) as [o|] eqn:Ho; [|done].
  apply overrides_try_from_ok in Ho as [_ ->]. by intros [= <-].
Qed.

Lemma try_variant_err v e : try_variant v = Err e → (vf_overrides v).*1 = [].
Proof.
  unfold try_variant, exp_overrides_try_from, Overrides.validate_data. case_bool_decide as Hm; [|done].
  intros _. apply (f_equal dom) in Hm. rewrite entries_to_map_dom, dom_empty_L in Hm.
  destruct (vf_overrides v) as [|[k x] l]; [done|]. cbn in Hm. set_solver.
Qed.

(** C40. The variants of a new experiment. Whatever is done in the form, from
    the variants of a context or none, when the keys of the default
    configuration have a type and the answers of the service are complete: the
    request it sends is never refused for the keys of its variants, which are
    those of the form without repetition, nor for the number of its control
    variants, as long as one other is left; and it is held back only while no
    key was chosen. *)
Theorem variant_form_admissible `{KeyOrder} `{!KeyOrderOk _} default_config auto_populate overrides s :
  typed default_config → NoDup overrides.*1 → known default_config (list_to_set overrides.*1) →
  variant_form_steps default_config auto_populate (answers_complete default_config)
    (variant_form_init (default_with_overrides overrides)) s →
  let keys := elements (ff_override_keys s) in
  match try_map try_variant (ff_variants s).*2 with
  | Ok variants =>
      validate_override_keys keys = Ok tt ∧
      check_variants_override_coverage (v_overrides <$> variants) keys = true ∧
      (1 < length variants → check_variant_types variants = Ok tt)
  | Err _ => ff_override_keys s = ∅
  end.
Proof.
  intros Ht Hnd Hk Hsteps keys.
  apply form_ok_steps in Hsteps as [Hkeys (c & rest & Hvs & Hc & Hrest) _]; [|done|by apply form_ok_init].
  destruct (try_map _ _) as [variants|e] eqn:Htry.
  - apply try_map_ok in Htry. split_and!.
    + unfold validate_override_keys. rewrite (proj2 (insert_all_spec keys ∅)); [done|].
      split; [apply NoDup_elements|set_solver].
    + apply forallb_True. intros o (w & -> & Hw)%list_elem_of_fmap.
      apply list_elem_of_lookup in Hw as [i Hi].
      destruct (Forall2_lookup_r _ _ _ _ _ Htry Hi) as (v & Hv & Hvw).
      apply try_variant_ok in Hvw as [_ ->].
      apply check_variant_override_coverage_iff; [apply NoDup_elements|].
      rewrite entries_to_map_dom. unfold keys. rewrite list_to_set_elements_L.
      apply list_elem_of_lookup_2, list_elem_of_fmap in Hv as (kv & -> & Hkv). by apply Hkeys.
    + rewrite Hvs in Htry. cbn in Htry. apply Forall2_cons_inv_l in Htry as (w & ws & Hw & Hws & ->).
      apply try_variant_ok in Hw as [Hw _].
      assert (Forall2 (λ v w, vf_variant_type v = v_variant_type w) rest.*2 ws) as Htypes
        by (eapply Forall2_impl; [exact Hws|]; intros v w' Hv; symmetry; by apply try_variant_ok).
      pose proof (countb_control rest (λ t, bool_decide (t = CONTROL)) false ws) as Hcontrol.
      pose proof (countb_control rest (λ t, bool_decide (t = EXPERIMENTAL)) true ws) as Hexp.
      cbv beta in Hcontrol, Hexp. intros Hlen. unfold check_variant_types.
      rewrite !countb_cons, Hw, Hc, Hcontrol, Hexp
        by (try done; intros kv Hkv; by destruct (Hrest kv Hkv) as [-> _]).
      cbn in *. destruct (length ws); [lia|done].
  - apply try_map_err in Htry as (v & Hv & He%try_variant_err).
    apply list_elem_of_fmap in Hv as (kv & -> & Hkv). destruct (Hkeys kv Hkv) as [_ <-]. by rewrite He.
Qed.

(** ** The form of variants that delete overrides *)

Lemma entries_to_map_lookup l k v :
  NoDup l.*1 → entries_to_map l !! k = Some v ↔ (k, v) ∈ l.
Proof.
  unfold entries_to_map. induction l as [|[k' v'] l IH] using rev_ind; [intros _; set_solver|].
  rewrite fmap_app. intros (Hnd & Hd & _)%NoDup_app. rewrite foldl_app. cbn.
  rewrite elem_of_app, list_elem_of_singleton, <-IH by done.
  destruct (decide (k = k')) as [->|Hne].
  - rewrite lookup_insert_eq. split; [intros [= ->]; by right|].
    intros [Hin%IH|[= ->]]; [|done..]. exfalso. apply (Hd k'); [|set_solver].
    apply list_elem_of_fmap. by exists (k', v).
  - rewrite lookup_insert_ne by done. naive_solver.
Qed.

Section delete_claims.
Context `{KeyOrder} `{!KeyOrderOk _} (overrides resolved : Map) (default_config : list DefaultConfig).
Let options := delete_options overrides default_config resolved.

(** The entries of a variant: keys of the context, with the resolved values. *)
Definition chosen (ovs : list (string * Value)) : Prop :=
  NoDup ovs.*1 ∧ ∀ k v, (k, v) ∈ ovs → k ∈ dom overrides ∧ resolved !! k = Some v.

Definition others_chosen (vs : list (string * VariantFormT)) : Prop :=
  ∃ k c rest, vs = (k, c) :: rest ∧ vf_variant_type c = CONTROL ∧
    ∀ kv, kv ∈ rest → vf_variant_type kv.2 = EXPERIMENTAL ∧ chosen (vf_overrides kv.2).

Definition control_exact (vs : list (string * VariantFormT)) : Prop :=
  ∀ kv, kv ∈ vs → vf_variant_type kv.2 = CONTROL →
    entries_to_map (vf_overrides kv.2) = filter (λ '(k, _), k ∈ control_keys vs) overrides.

Lemma restrict_omap (keys : gset string) :
  entries_to_map (omap (λ k, (λ v, (k, v)) <$> overrides !! k) (key_order keys)) =
  filter (λ '(k, _), k ∈ keys) overrides.
Proof.
  assert (∀ l, NoDup l →
    NoDup (omap (λ k, (λ v, (k, v)) <$> overrides !! k) l).*1 ∧
    ∀ k v, (k, v) ∈ omap (λ k, (λ v, (k, v)) <$> overrides !! k) l ↔ k ∈ l ∧ overrides !! k = Some v) as Hl.
  { induction l as [|k l IH]; [set_solver|]. intros [Hn Hnd]%NoDup_cons. destruct (IH Hnd) as [Hnd' Hin].
    cbn. destruct (overrides !! k) as [v|] eqn:Hk; cbn; (split; [|set_solver]); [|done].
    apply NoDup_cons. split; [|done]. intros ([k' v'] & -> & Hkv)%list_elem_of_fmap. naive_solver. }
  destruct (Hl (key_order keys)) as [Hnd Hin]; [rewrite key_order_perm; apply NoDup_elements|].
  apply map_eq. intros k. apply option_eq. intros v. rewrite entries_to_map_lookup by done.
  rewrite Hin, key_order_perm, elem_of_elements, map_lookup_filter_Some. tauto.
Qed.

(** The keys do not depend on the overrides of the control. *)
Lemma control_keys_cons k c rest : vf_variant_type c = CONTROL → control_keys ((k, c) :: rest) = control_keys rest.
Proof. intros Hc. unfold control_keys. cbn. by rewrite bool_decide_true. Qed.

Lemma update_exact vs : others_chosen vs →
  others_chosen (update_control_variant overrides vs) ∧ control_exact (update_control_variant overrides vs).
Proof.
  intros (k & c & rest & -> & Hc & Hrest). unfold update_control_variant. cbn [set_first_control snd].
  rewrite bool_decide_true by done. unfold alter_overrides. cbn [fst snd]. split.
  - eexists k, _, rest. by split_and!.
  - intros kv [->|Hin]%elem_of_cons Hkv; [|destruct (Hrest kv Hin); congruence].
    rewrite !control_keys_cons by done. apply restrict_omap.
Qed.

Lemma others_chosen_alter g i vs :
  same_kind g → others_chosen vs →
  (∀ kv, vs !! i = Some kv → vf_variant_type kv.2 ≠ CONTROL → chosen (vf_overrides kv.2) →
    chosen (vf_overrides (g kv).2)) →
  others_chosen (alter g i vs).
Proof.
  intros Hg (k & c & rest & -> & Hc & Hrest) Hi. destruct i as [|i]; cbn.
  - destruct (Hg (k, c)) as [_ Ht]. destruct (g (k, c)) as [k' c'] eqn:E. exists k', c', rest.
    split_and!; [done|cbn in *; congruence|done].
  - exists k, c, (alter g i rest). split_and!; [done..|].
    intros kv [Hin|(y & Hy & ->)]%elem_of_alter; [by apply Hrest|].
    destruct (Hrest y) as [Hyt Hyc]; [by eapply list_elem_of_lookup_2|].
    destruct (Hg y) as [_ ->]. split; [done|]. apply Hi; [done|congruence|done].
Qed.

Lemma others_chosen_delete i vs : i ≠ 0 → others_chosen vs → others_chosen (delete i vs).
Proof.
  intros Hi (k & c & rest & -> & Hc & Hrest). destruct i as [|i]; [done|]. cbn.
  exists k, c, (delete i rest). split_and!; [done..|]. intros kv Hin%list_elem_of_delete_inv. by apply Hrest.
Qed.

Lemma elem_of_options d :
  d ∈ options → dc_key d ∈ dom overrides ∧ resolved !! dc_key d = Some (dc_value d).
Proof.
  unfold options, delete_options. intros (d' & Hin & Hd)%list_elem_of_omap.
  apply list_elem_of_In, filter_In in Hin as [_ Hin%bool_decide_eq_true].
  destruct (resolved !! dc_key d') as [v|] eqn:Hr; [|done]. by injection Hd as <-.
Qed.

Lemma delete_form_step_ok vs e :
  others_chosen vs → control_exact vs → delete_event_offered options vs e →
  others_chosen (delete_form_step overrides vs e) ∧ control_exact (delete_form_step overrides vs e).
Proof.
  intros Hvs Hx Ho. destruct e as [i d|i k|i id|i|now]; cbn [delete_form_step]; try apply update_exact.
  - destruct Ho as (kv & Hi & Hkv & Hd). apply others_chosen_alter; [apply same_kind_overrides|done|].
    intros kv' Hi' _ [Hnd Hc]. simplify_eq. apply list_elem_of_In, filter_In in Hd as [Hd Hn].
    apply list_elem_of_In, elem_of_options in Hd as [Hdom Hr]. cbn. split.
    + rewrite fmap_app. apply NoDup_app. split_and!; [done| |apply NoDup_singleton].
      intros x Hxin ->%list_elem_of_singleton. apply negb_true_iff, bool_decide_eq_false in Hn. apply Hn.
      by apply elem_of_list_to_set.
    + intros k v [Hin|[= -> ->]%list_elem_of_singleton]%elem_of_app; [by apply Hc|done].
  - apply others_chosen_alter; [apply same_kind_overrides|done|]. intros kv _ _ [Hnd Hc]. cbn. split.
    + assert (∀ l, NoDup l.*1 → NoDup (List.filter (λ '(k0, _), negb (bool_decide (k0 = k))) l : list (string * Value)).*1) as Hf.
      { induction l as [|[k0 v0] l IH]; [done|]. cbn. intros [Hn Hl]%NoDup_cons. case_bool_decide; cbn; [by apply IH|].
        apply NoDup_cons. split; [|by apply IH]. intros (p & Hp & Hin)%list_elem_of_fmap. apply Hn.
        apply list_elem_of_fmap. exists p. split; [done|]. apply list_elem_of_In, filter_In in Hin as [Hin _].
        by apply list_elem_of_In. }
      by apply Hf.
    + intros k0 v [Hin _]%list_elem_of_In%filter_In. by apply Hc, list_elem_of_In.
  - apply others_chosen_alter; [apply same_kind_id|done|]. by intros kv _ _ Hc.
  - destruct Ho as [(kv & Hi & Hkv) _]. apply others_chosen_delete; [|done]. intros ->.
    destruct Hvs as (k & c & rest & -> & Hc & _). cbn in Hi. by simplify_eq.
  - destruct Hvs as (k & c & rest & -> & Hc & Hrest). split.
    + exists k, c, (rest ++ [(pretty now, mkVariantForm "" EXPERIMENTAL [])]). split_and!; [done..|].
      intros kv [Hin| ->%list_elem_of_singleton]%elem_of_app; [by apply Hrest|].
      split; [done|]. split; [constructor|]. by intros ? ? ?%elem_of_nil.
    + assert (control_keys (((k, c) :: rest) ++ [(pretty now, mkVariantForm "" EXPERIMENTAL [])]) =
        control_keys ((k, c) :: rest)) as Hkeys.
      { unfold control_keys. rewrite bind_app. cbn. by rewrite app_nil_r. }
      intros kv [Hin| ->%list_elem_of_singleton]%elem_of_app Hkv; [|done]. rewrite Hkeys. by apply Hx.
Qed.
End delete_claims.

Section delete_checks.
Context `{KeyOrder} (overrides resolved : Map) (default_config : list DefaultConfig).

Lemma others_variants rest ws :
  (∀ kv, kv ∈ rest → vf_variant_type kv.2 = EXPERIMENTAL ∧ chosen overrides resolved (vf_overrides kv.2)) →
  Forall2 (λ a b, try_variant a = Ok b) rest.*2 ws →
  List.filter (λ v, negb (bool_decide (v_variant_type v = CONTROL))) ws = ws ∧
  (∀ w, w ∈ ws → v_overrides w ⊆ resolved ∧ dom (v_overrides w) ⊆ dom overrides) ∧
  (list_to_set ((v_overrides <$> ws) ≫= λ o, (map_to_list o).*1) : gset string) = control_keys rest.
Proof.
  revert ws. induction rest as [|kv rest IH]; intros ws Hrest Hws; cbn in Hws.
  { apply Forall2_nil_inv_l in Hws as ->. split_and!; [done|by intros ? ?%elem_of_nil|done]. }
  apply Forall2_cons_inv_l in Hws as (w & ws' & Hw & Hws & ->).
  destruct (IH ws') as (Hf & Hsub & Hset); [intros; apply Hrest; by right|done|].
  destruct (Hrest kv) as [Ht [Hnd Hch]]; [by left|]. apply try_variant_ok in Hw as [Hwt Hwo].
  split_and!.
  - cbn. by rewrite Hwt, Ht, Hf.
  - intros w' [->|Hin]%elem_of_cons; [|by apply Hsub]. rewrite Hwo. split.
    + apply map_subseteq_spec. intros k v Hk%entries_to_map_lookup; [|done]. by apply Hch.
    + rewrite entries_to_map_dom. intros k ([k' v] & -> & Hin)%elem_of_list_to_set%list_elem_of_fmap.
      by eapply Hch.
  - destruct kv as [key v]. cbn. rewrite list_to_set_app_L, Hset, Hwo. unfold control_keys. cbn.
    rewrite bool_decide_false by (cbn in Ht; congruence). rewrite list_to_set_app_L. f_equal.
    rewrite <-(entries_to_map_dom (vf_overrides v)). apply set_eq. intros k. rewrite elem_of_list_to_set, elem_of_dom.
    split.
    + intros ([k' x] & -> & Hin%elem_of_map_to_list)%list_elem_of_fmap. by exists x.
    + intros [x Hx]. apply list_elem_of_fmap. exists (k, x). split; [done|]. by apply elem_of_map_to_list.
Qed.

Lemma delete_checks_pass vs variants :
  others_chosen overrides resolved vs → control_exact overrides vs →
  try_map try_variant vs.*2 = Ok variants →
  check_delete_experiment_variants overrides resolved variants = Ok tt.
Proof.
  intros (k & c & rest & -> & Hc & Hrest) Hx Htry%try_map_ok. cbn in Htry.
  apply Forall2_cons_inv_l in Htry as (w & ws & Hw & Hws & ->).
  destruct (others_variants rest ws Hrest Hws) as (Hf & Hsub & Hset).
  apply try_variant_ok in Hw as [Hwt Hwo].
  specialize (Hx (k, c) ltac:(by left) Hc). rewrite control_keys_cons in Hx by done. cbn in Hx.
  rewrite <-Hwo in Hx. clear Hwo.
  assert (∀ key, key ∈ control_keys rest → is_Some (overrides !! key)) as Hdom.
  { intros key. rewrite <-Hset, elem_of_list_to_set, list_elem_of_bind.
    intros (o & (kv & -> & Hin)%list_elem_of_fmap & (w' & -> & Hw')%list_elem_of_fmap).
    destruct kv as [k' v]. apply elem_of_map_to_list in Hin. apply elem_of_dom, (Hsub w' Hw').
    apply elem_of_dom. by exists v. }
  assert (dom (v_overrides w) = control_keys rest) as Hwdom.
  { rewrite Hx. apply set_eq. intros key. rewrite elem_of_dom. split.
    - intros [v [_ Hin]%map_lookup_filter_Some]. done.
    - intros Hin. destruct (Hdom key Hin) as [v Hv]. exists v. by apply map_lookup_filter_Some. }
  unfold check_delete_experiment_variants. cbn [List.find List.filter].
  rewrite Hwt, Hc, bool_decide_true by done. cbn. rewrite Hf.
  unfold validate_variants_delete_keys. rewrite collect_delete_keys_spec, bool_decide_true; cycle 1.
  { apply Forall_forall. intros key Hkey.
    assert (key ∈ control_keys rest) as Hin by (rewrite <-Hset; by apply elem_of_list_to_set).
    split; [|by apply elem_of_dom; rewrite Hwdom]. destruct (Hdom key Hin) as [v Hv].
    apply list_elem_of_fmap. exists (key, v). split; [done|]. by apply elem_of_map_to_list. }
  rewrite union_empty_r_L, Hset, <-Hwdom, size_dom, Nat.eqb_refl. cbn.
  rewrite (proj2 (forallb_True _ (v_overrides <$> ws))); cycle 1.
  { intros o (w' & -> & Hw')%list_elem_of_fmap. apply validate_keys_from_source_spec. by apply Hsub. }
  cbn. unfold validate_variants_control_override_value.
  rewrite (proj2 (validate_keys_from_source_spec _ _)); [done|]. rewrite Hx. apply map_filter_subseteq.
Qed.
End delete_checks.

(** Whatever is done in the form of an experiment that deletes overrides, the
    request it sends passes the checks of the service against the overrides of
    the context and what the configuration resolves to without it. *)
Theorem delete_form_admissible `{KeyOrder} `{!KeyOrderOk _} overrides resolved default_config vs variants :
  delete_form_steps overrides (delete_options overrides default_config resolved)
    (ff_variants (variant_form_init (default_with_overrides []))) vs →
  try_map try_variant vs.*2 = Ok variants →
  check_delete_experiment_variants overrides resolved variants = Ok tt.
Proof.
  intros Hsteps. assert (others_chosen overrides resolved vs ∧ control_exact overrides vs) as [Ho Hx].
  { remember (ff_variants _) as vs0 eqn:E. induction Hsteps as [vs|vs0 vs e Hsteps IH He]; subst.
    - split.
      + eexists _, _, _. split_and!; [done|done|]. intros kv ->%list_elem_of_singleton. split; [done|].
        split; [constructor|]. by intros ? ? ?%elem_of_nil.
      + intros kv [->|[->|[]%elem_of_nil]%elem_of_cons]%elem_of_cons Hkv; [|done].
        transitivity (∅ : Map); [done|]. apply map_eq. intros k. rewrite lookup_empty. symmetry.
        apply map_lookup_filter_None. right. by intros v _ ?%elem_of_empty.
    - destruct IH as [IH1 IH2]; [done|]. by eapply delete_form_step_ok. }
  by apply delete_checks_pass.
Qed.

(** ** The form of a cohort schema *)

Lemma trim_end_cons c s : trim_end (String c s) =
  match trim_end s with
  | EmptyString => if is_space c then "" else String c ""
  | s => String c s
  end.
Proof. done. Qed.

Lemma trim_end_idemp s : trim_end (trim_end s) = trim_end s.
Proof.
  induction s as [|c s IH]; [done|]. rewrite trim_end_cons. destruct (trim_end s) as [|d t].
  - destruct (is_space c) eqn:Hc; [done|]. cbn. by rewrite Hc.
  - by rewrite trim_end_cons, IH.
Qed.

Lemma trim_start_head s :
  trim_start s = "" ∨ ∃ c t, trim_start s = String c t ∧ is_space c = false.
Proof.
  induction s as [|c s IH]; [by left|]. cbn. destruct (is_space c) eqn:Hc; [done|]. right. eauto.
Qed.

Lemma trim_idemp s : trim (trim s) = trim s.
Proof.
  unfold trim. destruct (trim_start_head s) as [->|(c & t & -> & Hc)]; [done|].
  assert (∃ t', trim_end (String c t) = String c t') as [t' Ht'].
  { cbn. destruct (trim_end t); [rewrite Hc|]; eauto. }
  rewrite <-(trim_end_idemp (String c t)) at 2. rewrite Ht'. cbn [trim_start]. by rewrite Hc.
Qed.

Record cohort_ok (items : list string) (s : CohortSchemaFormat) : Prop := {
  co_enum : cs_enum s = items ++ ["otherwise"];
  co_nodup : NoDup items;
  co_names : ∀ x, x ∈ items → x ≠ "otherwise" ∧ trim x = x;
  co_definitions : dom (cs_definitions s) = list_to_set items;
}.

Lemma filter_items (p : string → bool) items :
  List.filter p (items ++ ["otherwise"]) = List.filter p items ++ List.filter p ["otherwise"].
Proof. apply List.filter_app. Qed.

Lemma filter_id {A} (p : A → bool) l : (∀ x, x ∈ l → p x = true) → List.filter p l = l.
Proof.
  induction l as [|x l IH]; intros Hp; [done|]. cbn. rewrite Hp by by left. f_equal.
  apply IH. intros y Hy. apply Hp. by right.
Qed.

Lemma cohort_items_ok items s : cohort_ok items s → cohort_items s = items.
Proof.
  intros [He _ Hn _]. unfold cohort_items. rewrite He, List.filter_app. cbn. rewrite app_nil_r.
  apply filter_id. intros x Hx. apply negb_true_iff, bool_decide_eq_false. by apply Hn.
Qed.

Lemma insert_last {A} (x y : A) l : insert_before_last x (l ++ [y]) = Some (l ++ [x; y]).
Proof.
  unfold insert_before_last. replace (length (l ++ [y]) - 1) with (length l) by (rewrite length_app; cbn; lia).
  rewrite take_app_length, drop_app_length. by destruct l.
Qed.

Lemma validate_cohort_info_ok name v x :
  validate_cohort_info name v = Ok x → x = trim name ∧ x ≠ "otherwise".
Proof. unfold validate_cohort_info. repeat case_bool_decide; try done. by intros [= <-]. Qed.

Lemma cohort_step_ok items s e s' :
  cohort_ok items s → cohort_event_offered s e → cohort_form_step s e = Some (Ok s') →
  ∃ items', cohort_ok items' s'.
Proof.
  intros Hs Ho. pose proof (cohort_items_ok _ _ Hs) as Hitems. destruct Hs as [He Hnd Hn Hd].
  destruct e as [new_items|name v|name v|name]; cbn [cohort_form_step].
  - intros [= <-]. cbn in Ho. rewrite Hitems in Ho. exists new_items.
    rewrite filter_id by (intros x Hx; rewrite Ho in Hx;
      apply negb_true_iff, bool_decide_eq_false; by apply Hn).
    split; cbn; [done|by rewrite Ho|intros x; rewrite Ho; apply Hn|by rewrite Hd, Ho].
  - destruct (validate_cohort_info name v) as [x|err] eqn:Hv; [|done].
    apply validate_cohort_info_ok in Hv as [-> Hx]. case_bool_decide as Hin; [done|].
    rewrite He, insert_last. intros [= <-]. rewrite He in Hin. exists (items ++ [trim name]).
    split; cbn.
    + by rewrite <-app_assoc.
    + apply NoDup_app. split_and!; [done| |apply NoDup_singleton].
      intros y Hy ->%list_elem_of_singleton. set_solver.
    + intros y [Hy| ->%list_elem_of_singleton]%elem_of_app; [by apply Hn|]. split; [done|apply trim_idemp].
    + rewrite dom_insert_L, list_to_set_app_L, Hd. cbn. set_solver.
  - cbn in Ho. rewrite Hitems in Ho. destruct (Hn _ Ho) as [_ Htrim].
    destruct (validate_cohort_info name v) as [x|err] eqn:Hv; [|done].
    apply validate_cohort_info_ok in Hv as [-> _]. rewrite Htrim. intros [= <-].
    exists items. split; cbn; [done..|]. rewrite dom_insert_L, Hd. set_solver.
  - intros [= <-]. cbn in Ho. rewrite Hitems in Ho. destruct (Hn _ Ho) as [Hno _].
    exists (List.filter (λ e, negb (bool_decide (e = name))) items). split; cbn.
    + rewrite He, List.filter_app. cbn. by rewrite bool_decide_false.
    + clear -Hnd. induction Hnd as [|x l Hx Hnd IH]; [constructor|]. cbn. case_bool_decide; [done|].
      apply NoDup_cons. split; [|done]. rewrite list_elem_of_In, filter_In, <-list_elem_of_In. naive_solver.
    + intros x Hx%list_elem_of_In%filter_In. apply Hn, list_elem_of_In, Hx.
    + rewrite dom_delete_L, Hd. apply set_eq. intros x.
      rewrite elem_of_difference, !elem_of_list_to_set, elem_of_singleton, !list_elem_of_In, filter_In,
        negb_true_iff, bool_decide_eq_false. done.
Qed.

Lemma cohort_check_ok items s : cohort_ok items s →
  check_cohort_options (sorted_entries (cs_definitions s)).*1 (cs_enum s) = Ok tt.
Proof.
  intros [He Hnd Hn Hd]. unfold check_cohort_options. rewrite He.
  assert (length (sorted_entries (cs_definitions s)).*1 = length items) as Hlen.
  { rewrite length_fmap. unfold sorted_entries. rewrite merge_sort_Permutation.
    rewrite <-(size_list_to_set (C := gset string) items) by done. by rewrite <-Hd, size_dom, length_map_to_list. }
  rewrite Hlen, length_app. cbn [length].
  rewrite (proj2 (Z.eqb_eq _ _)) by lia. cbn [negb].
  destruct (List.find _ _) as [cohort|] eqn:Hf; [exfalso|done].
  apply find_some in Hf as [Hin Hno]. apply negb_true_iff, bool_decide_eq_false in Hno. apply Hno.
  apply list_elem_of_In, list_elem_of_fmap in Hin as ([k v] & -> & Hkv%elem_of_sorted_entries).
  apply elem_of_app. left. apply (elem_of_list_to_set (C := gset string)). rewrite <-Hd.
  apply elem_of_dom. by exists v.
Qed.

(** A schema made in the form of a cohort, whatever the options that are added,
    sorted, edited and removed, keeps [otherwise] as its last option and passes
    the comparison of the service between options and definitions; no callback
    panics. *)
Theorem cohort_form_admissible s :
  cohort_form_steps CohortSchemaFormat.default s →
  (∃ items, cs_enum s = items ++ ["otherwise"] ∧ NoDup items) ∧
  check_cohort_options (sorted_entries (cs_definitions s)).*1 (cs_enum s) = Ok tt ∧
  ∀ e, cohort_form_step s e ≠ None.
Proof.
  intros Hsteps. assert (∃ items, cohort_ok items s) as [items Hs].
  { remember CohortSchemaFormat.default as s0 eqn:E. induction Hsteps as [s|s0 s s' e Hsteps IH Ho Hs]; subst.
    - exists []. split; [done|constructor|by intros ? ?%elem_of_nil|done].
    - destruct IH as [items IH]; [done|]. by eapply cohort_step_ok. }
  split_and!; [exists items; split; by destruct Hs|by eapply cohort_check_ok|].
  intros e. destruct e as [l|name v|name v|name]; cbn [cohort_form_step]; try done.
  destruct (validate_cohort_info name v); [|done]. case_bool_decide; [done|].
  rewrite (co_enum _ _ Hs), insert_last. done.
Qed.

(** ** Conditions *)

Lemma as_context_json_entries (l : list FormCondition) :
  Conditions.as_context_json l =
  entries_to_map ((λ c, (fc_variable c, Expression.to_value (fc_expression c))) <$> l).
Proof.
  unfold Conditions.as_context_json, entries_to_map. generalize (∅ : Map). induction l as [|c l IH]; intros m; [done|].
  cbn. apply IH.
Qed.

Lemma sorted_entries_map (m : Map) : entries_to_map (sorted_entries m) = m.
Proof.
  assert (NoDup (sorted_entries m).*1) as Hnd.
  { unfold sorted_entries. rewrite merge_sort_Permutation. apply NoDup_fst_map_to_list. }
  apply map_eq. intros k. apply option_eq. intros v.
  by rewrite entries_to_map_lookup, elem_of_sorted_entries.
Qed.

(** The conditions shown for a context are sent back as that context. *)
Theorem context_round_trip (context : Map) :
  ∃ conditions, Conditions.from_context_json context = Ok conditions ∧
    Conditions.as_context_json conditions = context ∧
    Conditions.as_resolve_context (Conditions.from_resolve_context context) = context.
Proof.
  eexists. split; [reflexivity|]. unfold Conditions.as_resolve_context, Conditions.from_resolve_context.
  rewrite !as_context_json_entries, <-!list_fmap_compose.
  split; rewrite <-(sorted_entries_map context) at 2; f_equal; etransitivity.
  2,4: apply list_fmap_id. all: apply list_fmap_ext; intros i [k v] _; cbn.
  - by destruct (bool_decide _).
  - done.
Qed.

Lemma first_entry_singleton k v : jsonlogic.first_entry {[k := v]} = Some (k, v).
Proof. unfold jsonlogic.first_entry, sorted_entries. by rewrite map_to_list_singleton. Qed.

Lemma find_var_constant v operands :
  jsonlogic.is_constant v = true → jsonlogic.find_var (v :: operands) = jsonlogic.find_var operands.
Proof.
  unfold jsonlogic.is_constant, jsonlogic.is_variable. destruct v as [| | | | |m]; try done.
  cbn. destruct (m !! "var") as [x|]; [|done]. by rewrite bool_decide_true by eauto.
Qed.

(** A condition is read back from its rule, when its value is not an object
    that names a variable. *)
Theorem condition_round_trip (c : FormCondition) :
  jsonlogic.is_constant (Expression.to_value (fc_expression c)) = true →
  jsonlogic.try_from_condition_json (jsonlogic.to_condition_json c) = Ok c.
Proof.
  destruct c as [var [v|v]]; intros Hc; cbn in Hc; unfold jsonlogic.to_condition_json;
    cbn [fc_expression fc_variable jsonlogic.to_expression_json];
    unfold jsonlogic.try_from_condition_json, jsonlogic.try_from_condition_map,
      jsonlogic.try_var_from_condition_map, jsonlogic.try_from_expression_map; cbn [as_object ok_or mbind result_bind];
    rewrite first_entry_singleton; cbn [as_array ok_or mbind result_bind].
  - cbn. by rewrite Hc.
  - rewrite find_var_constant by done. cbn. by rewrite Hc.
Qed.

Lemma condition_round_trip_witness :
  jsonlogic.is_constant (VString "pune") = true ∧
  jsonlogic.try_from_condition_json (jsonlogic.to_condition_json (mkFormCondition "city" (Is (VString "pune")))) =
    Ok (mkFormCondition "city" (Is (VString "pune"))).
Proof. split; [done|]. by apply (condition_round_trip (mkFormCondition "city" (Is (VString "pune")))). Defined.

(** ** The form of a context *)

Lemma includes_spec l x : Conditions.includes l x = true ↔ x ∈ fc_variable <$> l.
Proof.
  unfold Conditions.includes. rewrite existsb_True. setoid_rewrite bool_decide_eq_true.
  rewrite list_elem_of_fmap. naive_solver.
Qed.

Lemma insert_dimension_nodup l d :
  NoDup (fc_variable <$> l) → NoDup (fc_variable <$> insert_dimension l d).
Proof.
  intros Hnd. unfold insert_dimension. destruct (Conditions.includes _ _) eqn:Hi; [done|].
  unfold push_dimension. rewrite fmap_app. apply NoDup_app. split_and!; [done| |apply NoDup_singleton].
  intros x Hx%includes_spec ->%list_elem_of_singleton. cbn in Hx. congruence.
Qed.

Lemma set_expression_variables i e l : fc_variable <$> set_expression i e l = fc_variable <$> l.
Proof.
  unfold set_expression. revert i. induction l as [|c l IH]; intros [|i]; cbn; [done..|]. f_equal. apply IH.
Qed.

Lemma context_step_nodup l e l' :
  NoDup (fc_variable <$> l) → context_form_step false l e = Some l' → NoDup (fc_variable <$> l').
Proof.
  intros Hnd. destruct e as [d|i e|i]; cbn [context_form_step select_dimension].
  - intros [= <-]. by apply insert_dimension_nodup.
  - intros [= <-]. by rewrite set_expression_variables.
  - destruct (i <? length l); [|done]. intros [= <-].
    eapply sublist_NoDup; [exact Hnd|]. apply fmap_sublist, sublist_delete.
Qed.

Lemma context_init_nodup disabled resolve_mode dimensions context :
  NoDup (fc_variable <$> context) →
  NoDup (fc_variable <$> context_form_init disabled resolve_mode dimensions context).
Proof.
  intros Hnd. unfold context_form_init. destruct (_ && _); [|done].
  generalize (mandatory_dimensions dimensions) as ds. intros ds. revert context Hnd.
  induction ds as [|d ds IH]; intros context Hnd; [done|]. cbn. by apply IH, insert_dimension_nodup.
Qed.

Definition run_context_form (l : list FormCondition) (events : list ContextEvent)
    : option (list FormCondition) :=
  foldl (λ l e, l ← l; context_form_step false l e) (Some l) events.

Lemma context_run_nodup l events l' :
  NoDup (fc_variable <$> l) → run_context_form l events = Some l' → NoDup (fc_variable <$> l').
Proof.
  unfold run_context_form. revert l'. induction events as [|e events IH] using rev_ind; intros l' Hl.
  - by intros [= <-].
  - rewrite foldl_app. cbn. destruct (foldl _ _ events) as [l1|] eqn:Hf; [|done]. cbn. intros Hs.
    eapply context_step_nodup; [|exact Hs]. by apply IH.
Qed.

Lemma insert_dimension_keeps ds x l :
  x ∈ fc_variable <$> l → x ∈ fc_variable <$> foldl insert_dimension l ds.
Proof.
  revert l. induction ds as [|d ds IH]; intros l Hx; [done|]. cbn. apply IH.
  unfold insert_dimension. destruct (Conditions.includes _ _); [done|].
  unfold push_dimension. rewrite fmap_app. set_solver.
Qed.

Lemma mandatory_present dimensions context d :
  d ∈ dimensions → d.2 = true →
  dm_dimension d.1 ∈ fc_variable <$> context_form_init false false dimensions context.
Proof.
  intros Hd Hm. unfold context_form_init. cbn.
  assert (d ∈ mandatory_dimensions dimensions) as Hin
    by (unfold mandatory_dimensions; apply list_elem_of_In, filter_In; by rewrite <-list_elem_of_In).
  revert Hin. generalize (mandatory_dimensions dimensions) as ds. intros ds. revert context.
  induction ds as [|d' ds IH]; intros context; [by intros ?%elem_of_nil|]. cbn.
  intros [->|Hin]%elem_of_cons; [|by apply IH]. apply insert_dimension_keeps. unfold insert_dimension.
  destruct (Conditions.includes _ _) eqn:Hi; [by apply includes_spec|].
  unfold push_dimension. rewrite fmap_app. cbn. set_solver.
Qed.

(** No two conditions of the form of a context are on the same variable, so
    the context that is sent has the value of every condition; and the form
    starts with all dimensions that are mandatory. *)
Theorem context_form_exact dimensions context events l :
  NoDup (fc_variable <$> context) →
  run_context_form (context_form_init false false dimensions context) events = Some l →
  (∀ c, c ∈ l → Conditions.as_context_json l !! fc_variable c = Some (Expression.to_value (fc_expression c))) ∧
  dom (Conditions.as_context_json l) = list_to_set (fc_variable <$> l) ∧
  ∀ d, d ∈ dimensions → d.2 = true →
    dm_dimension d.1 ∈ fc_variable <$> context_form_init false false dimensions context.
Proof.
  intros Hnd Hrun. assert (NoDup (fc_variable <$> l)) as Hl
    by (eapply context_run_nodup; [by apply context_init_nodup|exact Hrun]).
  rewrite as_context_json_entries. split_and!; [| |intros d; apply mandatory_present].
  - intros c Hc. apply entries_to_map_lookup.
    + rewrite <-list_fmap_compose. exact Hl.
    + apply list_elem_of_fmap. by exists c.
  - rewrite entries_to_map_dom, <-list_fmap_compose. done.
Qed.

(** ** Dimensions that derive from others in use *)

Section invalid.
Context `{KeyOrder} `{!KeyOrderOk _} `{MapOrder} `{!MapOrderOk _}.

Lemma invalid_fold map pairs m :
  dom (foldl (invalid_step map) m pairs) = dom m ∪ list_to_set pairs.*2.
Proof.
  revert m. induction pairs as [|[dim dep] pairs IH]; intros m; [set_solver|]. cbn [foldl]. rewrite IH.
  assert (dom (invalid_step map m (dim, dep)) = {[dep]} ∪ dom m) as ->; [|set_solver].
  unfold invalid_step. destruct (m !! dep) as [existing|] eqn:Hm; [|apply dom_insert_L].
  assert (dep ∈ dom m) by (apply elem_of_dom; eauto).
  destruct (map !! dim) as [info|]; [case_bool_decide|]; rewrite ?dom_insert_L; set_solver.
Qed.

(** A dimension is marked exactly when it is used beside another in whose graph
    it is. *)
Theorem invalid_dimensions_exact map used dim :
  is_Some (invalid_dimensions map used !! dim) ↔
  dim ∈ used ∧ ∃ other info, other ∈ used ∧ other ≠ dim ∧ map !! other = Some info ∧
    is_Some (dm_dependency_graph info !! dim).
Proof.
  unfold invalid_dimensions. rewrite <-elem_of_dom, invalid_fold, dom_empty_L, union_empty_l_L,
    elem_of_list_to_set, list_elem_of_fmap. unfold invalid_pairs. split.
  - intros ([other dep] & -> & (x & Hx & Hin)%list_elem_of_bind). cbn.
    rewrite key_order_perm, elem_of_elements in Hin.
    destruct (map !! x) as [info|] eqn:Hinfo; [|by apply elem_of_nil in Hx].
    apply list_elem_of_omap in Hx as ([d g] & Hg & Hp).
    destruct (bool_decide (d ≠ x)) eqn:Hne; [|done]. destruct (bool_decide (d ∈ used)) eqn:Hu; [|done].
    injection Hp as -> ->. rewrite bool_decide_eq_true in Hne, Hu.
    rewrite map_order_perm, elem_of_map_to_list in Hg. split; [done|]. eauto 10.
  - intros (Hdim & other & info & Ho & Hne & Hinfo & [g Hg]). exists (other, dim). split; [done|].
    apply list_elem_of_bind. exists other. rewrite key_order_perm, elem_of_elements, Hinfo. split; [|done].
    apply list_elem_of_omap. exists (dim, g). rewrite map_order_perm, elem_of_map_to_list.
    split; [done|]. by rewrite !bool_decide_true by done.
Qed.
End invalid.

(** ** The way back from a folder *)

Definition path (folders : list string) : string := foldr (λ f s, f +:+ "." +:+ s) "" folders.

Lemma crumbs_from_values prefix fs :
  bc_value <$> crumbs_from prefix fs = (λ n, Some (prefix +:+ path (take n fs))) <$> seq 1 (length fs).
Proof.
  revert prefix. induction fs as [|f fs IH]; intros prefix; [done|]. cbn [crumbs_from fmap list_fmap length seq].
  f_equal. rewrite IH, <-(fmap_S_seq 1), <-list_fmap_compose. apply list_fmap_ext. intros i n _. cbn.
  by rewrite !append_assoc.
Qed.

Lemma path_dots fs : fs ≠ [] → path fs = CacClient.join "." fs +:+ ".".
Proof.
  induction fs as [|f [|f' fs] IH]; intros Hne; [done|done|]. change (path (f :: f' :: fs)) with
    (f +:+ "." +:+ path (f' :: fs)). rewrite IH by done.
  change (CacClient.join "." (f :: f' :: fs)) with (f +:+ "." +:+ CacClient.join "." (f' :: fs)).
  by rewrite !append_assoc.
Qed.

Lemma split_join fs : fs ≠ [] → Forall (λ f, has_dot f = false) fs →
  ∃ f rest, split_char "." (CacClient.join "." fs) = (f, rest) ∧ f :: rest = fs.
Proof.
  intros Hne Hfs. destruct fs as [|f fs]; [done|]. exists f, fs. split; [|done]. clear Hne.
  revert f Hfs. induction fs as [|f' fs IH]; intros f [Hf Hfs]%Forall_cons.
  - by apply no_dot_split.
  - change (CacClient.join "." (f :: f' :: fs)) with (f +:+ "." +:+ CacClient.join "." (f' :: fs)).
    pose proof (split_dot (f +:+ "." +:+ CacClient.join "." (f' :: fs))) as H.
    destruct (dot_split f (CacClient.join "." (f' :: fs)) Hf) as (r & Hr & Hne).
    rewrite Hr in *. destruct r as [|x xs]; [done|]. destruct H as (t & Ht & _ & Hsplit).
    apply strip_prefix_Some in Ht. rewrite (proj2 (strip_prefix_Some f _ _) eq_refl) in Ht. injection Ht as Ht.
    change (CacClient.join "." (f' :: fs) = t) in Ht. subst t.
    rewrite (IH f' Hfs) in Hsplit. congruence.
Qed.

Lemma trim_end_dot s : trim_end_char "." (s +:+ ".") = trim_end_char "." s.
Proof.
  induction s as [|c s IH]; [done|]. change (String c s +:+ ".") with (String c (s +:+ ".")).
  cbn [trim_end_char]. by rewrite IH.
Qed.

Lemma trim_end_none s : is_folder s = false → trim_end_char "." s = s.
Proof.
  induction s as [|c s IH]; [done|]. intros Hs. cbn [trim_end_char].
  destruct s as [|d s]; cbn [is_folder] in Hs.
  - cbn. by rewrite Hs.
  - rewrite (IH Hs). done.
Qed.

Lemma join_ends fs f : f ≠ "" → has_dot f = false → is_folder (CacClient.join "." (fs ++ [f])) = false.
Proof.
  intros Hf Hd. assert (∀ s, is_folder (s +:+ f) = false) as Happ.
  { intros s. induction s as [|c s IH]; [by apply no_dot_folder|].
    change (String c s +:+ f) with (String c (s +:+ f)). cbn [is_folder].
    destruct (s +:+ f) eqn:E; [|exact IH]. destruct s; destruct f; done. }
  induction fs as [|f0 fs IH]; [apply (Happ "")|]. cbn [app].
  destruct (fs ++ [f]) as [|x l] eqn:E; [by destruct fs|].
  change (CacClient.join "." (f0 :: x :: l)) with (f0 +:+ "." +:+ CacClient.join "." (x :: l)).
  assert (∀ s t, t ≠ "" → is_folder (s +:+ t) = is_folder t) as Hsuffix.
  { intros s t Ht. induction s as [|c s IHs]; [done|]. change (String c s +:+ t) with (String c (s +:+ t)).
    cbn [is_folder]. destruct (s +:+ t) eqn:E'; [by destruct s|done]. }
  rewrite Hsuffix by done. rewrite (Hsuffix "."); [exact IH|].
  intros Hj. rewrite <-E in Hj. destruct fs as [|y fs]; cbn in Hj; [done|]. destruct (fs ++ [f]) eqn:E2; [by destruct fs|].
  by destruct y.
Qed.

Lemma unlink_last_fields crumbs :
  bc_key <$> unlink_last crumbs = bc_key <$> crumbs ∧ bc_value <$> unlink_last crumbs = bc_value <$> crumbs.
Proof.
  induction crumbs as [|c [|c' crumbs] IH]; [done..|]. destruct IH as [IHk IHv].
  change (unlink_last (c :: c' :: crumbs)) with (c :: unlink_last (c' :: crumbs)). cbn [fmap list_fmap].
  split; f_equal; [exact IHk|exact IHv].
Qed.

Lemma unlink_last_links crumbs :
  crumbs ≠ [] → Forall (λ c, bc_is_link c = true) crumbs →
  bc_is_link <$> unlink_last crumbs = replicate (length crumbs - 1) true ++ [false].
Proof.
  induction crumbs as [|c [|c' crumbs] IH]; intros Hne Hl; [done|done|].
  apply Forall_cons in Hl as [Hc Hl].
  change (unlink_last (c :: c' :: crumbs)) with (c :: unlink_last (c' :: crumbs)). cbn [fmap list_fmap].
  rewrite Hc. change (bc_is_link <$> unlink_last (c' :: crumbs)) with (bc_is_link <$> unlink_last (c' :: crumbs)).
  rewrite (IH ltac:(done) Hl). cbn. by rewrite Nat.sub_0_r.
Qed.

Lemma crumbs_from_rest prefix fs :
  bc_key <$> crumbs_from prefix fs = fs ∧ Forall (λ c, bc_is_link c = true) (crumbs_from prefix fs) ∧
  length (crumbs_from prefix fs) = length fs.
Proof.
  revert prefix. induction fs as [|f fs IH]; intros prefix; [done|]. cbn.
  destruct (IH (prefix +:+ f +:+ ".")) as (Hk & Hl & Hn). split_and!; [by f_equal|by constructor|by f_equal].
Qed.

Lemma trim_start_other c d s : d ≠ c → trim_start_char c (String d s) = String d s.
Proof. intros Hd. unfold trim_start_char. by rewrite bool_decide_false. Qed.

Lemma trimmed_path fs : fs ≠ [] → Forall (λ f, f ≠ "" ∧ has_dot f = false) fs →
  trim_matches "." (path fs) = CacClient.join "." fs.
Proof.
  intros Hne Hfs. unfold trim_matches. rewrite path_dots by done.
  assert (trim_start_char "." (CacClient.join "." fs +:+ ".") = CacClient.join "." fs +:+ ".") as ->.
  { destruct fs as [|f fs]; [done|]. apply Forall_cons in Hfs as [[Hf Hd] _].
    destruct f as [|c f]; [done|]. rewrite has_dot_cons in Hd. apply orb_false_iff in Hd as [Hc _].
    assert (∃ t, CacClient.join "." (String c f :: fs) = String c t) as [t ->] by (destruct fs; eexists; reflexivity).
    apply trim_start_other. by apply bool_decide_eq_false in Hc. }
  rewrite trim_end_dot. apply trim_end_none. destruct fs as [|f fs _] using rev_ind; [done|].
  apply Forall_app in Hfs as [_ [[Hf Hd] _]%Forall_cons]. by apply join_ends.
Qed.

(** On the page of a folder, the crumbs are the folders that were opened, each
    with the prefix of its page, and all but the last are links. *)
Theorem crumbs_lead_back fs initial_key :
  fs ≠ [] → Forall (λ f, f ≠ "" ∧ has_dot f = false) fs →
  let crumbs := get_bread_crums (Some (path fs)) initial_key in
  bc_key <$> crumbs = initial_key :: fs ∧
  bc_value <$> crumbs = None :: ((λ n, Some (path (take n fs))) <$> seq 1 (length fs)) ∧
  bc_is_link <$> crumbs = replicate (length fs) true ++ [false].
Proof.
  intros Hne Hfs crumbs. unfold crumbs, get_bread_crums. rewrite trimmed_path by done.
  destruct (split_join fs Hne) as (f & rest & -> & ->); [by eapply Forall_impl; [exact Hfs|]; intros f []|].
  destruct (unlink_last_fields ([mkBreadCrums initial_key None true] ++ crumbs_from "" fs)) as [-> ->].
  destruct (crumbs_from_rest "" fs) as (Hk & Hl & Hn).
  rewrite unlink_last_links by (try done; by constructor). cbn [app fmap list_fmap bc_key bc_value length].
  split_and!; [by f_equal|f_equal; apply crumbs_from_values|]. by rewrite Hn, Nat.sub_1_r.
Qed.

(** ** Inputs *)

Section input_claims.
Context `{FloatText} `{JsonText} `{F64} `{JsonParse}.

(** The values of a type that are texts, integers, truth values or null. *)
Definition plain_value (t : JsonSchemaType) (v : Value) : Prop :=
  match t, v with
  | TString, VString _ | TBoolean, VBool _ | TNull, VNull => True
  | TInteger, VNumber (PosInt n) => (Z.of_N n < 2 ^ 63)%Z
  | TInteger, VNumber (NegInt z) => (- 2 ^ 63 ≤ z < 0)%Z
  | _, _ => False
  end.

(** What an input shows of such a value is read back as the value. *)
Theorem input_round_trip t v : plain_value t v → parse_input (html_display v) (Single t) = Ok v.
Proof.
  destruct t, v as [|b|[n|z|bits]|s|l|m]; cbn [plain_value]; try done; intros Hv;
    cbn [parse_input parse html_display number_to_string].
  - by destruct b.
  - replace (pretty n) with (pretty (Z.of_N n)) by (by destruct n).
    unfold parse_i64. rewrite parse_int_pretty by lia.
    unfold number_from_i64. rewrite bool_decide_false by lia. by rewrite N2Z.id.
  - unfold parse_i64. rewrite parse_int_pretty by lia.
    unfold number_from_i64. by rewrite bool_decide_true by lia.
Qed.
End input_claims.

(** ** Pages, alerts and summaries *)

(** A page is only left for another one that exists. *)
Theorem jump_in_bounds input current total page :
  handle_jump input current total = Ok (Some page) →
  (1 ≤ page ≤ Z.max 1 total ∧ page ≠ Z.max 1 current)%Z.
Proof.
  unfold handle_jump. destruct (parse_i64 input) as [n|]; [|done].
  destruct ((n <? 1)%Z || _) eqn:Hb; [done|]. apply orb_false_iff in Hb as [H1 H2].
  destruct (n =? _)%Z eqn:Hn; intros [= <-]. lia.
Qed.

Theorem neighbours_in_bounds current total :
  (1 ≤ current ≤ total)%Z →
  (current ≤ next_page current total ≤ total ∧ 1 ≤ previous_page current ≤ current)%Z ∧
  (current < total → previous_page (next_page current total) = current)%Z.
Proof.
  intros H. unfold next_page, previous_page. cbv zeta.
  rewrite (Z.max_r 1 current), (Z.max_r 1 total) by lia.
  destruct (current <? total)%Z eqn:?, (1 <? current)%Z eqn:?; split; try lia; intros _.
  all: rewrite (Z.max_r 1 (current + 1)) by lia; destruct (1 <? current + 1)%Z eqn:?; lia.
Qed.

(** The identifiers of the alerts that are shown are below the counter. *)
Record queue_ok (q : AlertQueue) : Prop := {
  queue_distinct : NoDup (al_id <$> aq_alerts q);
  queue_below : ∀ a, a ∈ aq_alerts q → (al_id a < aq_counter q)%N;
}.

Lemma remove_alert_spec id alerts : NoDup (al_id <$> alerts) →
  remove_alert id alerts `sublist_of` alerts ∧
  ∀ a, a ∈ remove_alert id alerts ↔ a ∈ alerts ∧ al_id a ≠ id.
Proof.
  induction alerts as [|a l IH]; [intros _; split; [done|set_solver]|].
  cbn [fmap list_fmap remove_alert]. intros [Hn Hd]%NoDup_cons. destruct (IH Hd) as [Hs He].
  destruct (N.eqb_spec (al_id a) id) as [<-|Hne].
  - split; [by apply sublist_cons|]. intros b. rewrite elem_of_cons.
    split; [|intros [[->|Hb] Hne]; done]. intros Hb. split; [by right|]. intros He'. apply Hn.
    rewrite <-He'. by apply list_elem_of_fmap_2.
  - split; [by apply sublist_skip|]. intros b. rewrite !elem_of_cons, He. naive_solver.
Qed.

(** An alert is dismissed by its own timer and by no other. *)
Theorem alerts_dismissed q text type timeout id : queue_ok q →
  queue_ok (enqueue_alert text type timeout q) ∧ queue_ok (dismiss_alert id q) ∧
  ∀ a, a ∈ aq_alerts (dismiss_alert id q) ↔ a ∈ aq_alerts q ∧ al_id a ≠ id.
Proof.
  intros [Hd Hb]. destruct (remove_alert_spec id _ Hd) as [Hs Hf].
  split_and!; [| |exact Hf].
  - split; cbn.
    + rewrite fmap_app. apply NoDup_app. split_and!; [done| |apply NoDup_singleton].
      intros i (a & -> & Ha)%list_elem_of_fmap ?%list_elem_of_singleton. specialize (Hb a Ha). cbn in *. lia.
    + intros a [Ha| ->%list_elem_of_singleton]%elem_of_app; [specialize (Hb a Ha)|cbn]; lia.
  - split; cbn; [|intros a [Ha _]%Hf; by apply Hb].
    eapply sublist_NoDup; [exact Hd|]. by apply fmap_sublist.
Qed.

Lemma refusal_range skip_error status message e alerts :
  response_outcome skip_error status message = (Err e, alerts) →
  status ∉ skip_error ∧ (400 ≤ status < 600)%Z.
Proof.
  unfold response_outcome, is_client_error. case_bool_decide as Hs; [done|].
  case_bool_decide as Hc; [intros _; split; [done|lia]|]. case_bool_decide as Hd; [|done]. intros _. split; [done|lia].
Qed.

(** An answer that is refused is shown as the message the caller gets; the
    precondition of a conclusion is a result of its own, shown by the page. *)
Theorem refusal_shown skip_error status message e alerts :
  response_outcome skip_error status message = (Err e, alerts) →
  alerts = [e] ∧ status ∉ skip_error ∧ (400 ≤ status < 600 ∧ status ≠ 512)%Z.
Proof.
  unfold response_outcome, is_client_error. case_bool_decide; [done|]. case_bool_decide.
  { intros [= <- <-]. split_and!; [done|done|lia..]. }
  case_bool_decide; [|done]. destruct (Z.eqb_spec status 512); [done|].
  intros [= <- <-]. split_and!; [done|done|lia..].
Qed.

Theorem conclusion_outcomes {A} status (message : result string string) (body : result string A) :
  match (conclude_outcome status message body).1 with
  | Ok (Ok experiment) => body = Ok experiment ∧ (status < 400 ∨ 600 ≤ status ∨ status = 512)%Z
  | Ok (Err e) => status = 412%Z ∧ message = Ok e ∨ body = Err e
  | Err e => status = 412%Z ∧ message = Err e ∨ (status ≠ 412 ∧ 400 ≤ status < 600)%Z
  end.
Proof.
  unfold conclude_outcome. destruct (response_outcome _ _ _) as [[[]|e] alerts] eqn:Hr.
  - destruct (Z.eqb_spec status 412) as [->|Hne].
    + destruct message; cbn; auto.
    + revert Hr. unfold response_outcome, is_client_error.
      rewrite bool_decide_false by (by rewrite list_elem_of_singleton).
      destruct body; [|by right]. case_bool_decide; [done|]. case_bool_decide; [|intros _; split; [done|lia]].
      destruct (Z.eqb_spec status 512); [|done]. intros _. split; [done|]. by right; right.
  - apply refusal_range in Hr as [Hn Hr]. rewrite list_elem_of_singleton in Hn. by right.
Qed.

(** The summary of a change has one row for every property that differs, but
    for a value that is the mark of its absence. *)
Theorem change_table_exact `{KeyOrder} `{!KeyOrderOk _} key_column old_values new_values row :
  row ∈ gen_change_table key_column old_values new_values ↔ ∃ key, 
    (is_Some (old_values !! key) ∨ is_Some (new_values !! key)) ∧
    change_row key_column old_values new_values key = Some row.
Proof.
  unfold gen_change_table. rewrite list_elem_of_omap. apply exist_proper. intros key.
  rewrite key_order_perm, elem_of_elements, elem_of_union, !elem_of_dom. done.
Qed.

(** ** Concrete pages *)

#[local] Instance web_key_order : KeyOrder := λ s, elements s.
#[local] Instance web_key_order_ok : KeyOrderOk web_key_order.
Proof. by intros s. Qed.

Definition sample_row (key : string) (value : Value) : Map :=
  <["key" := VString key]> {["value" := value]}.
Definition sample_rows : list Map :=
  [sample_row "tax.city.rate" (VString "12%"); sample_row "name" (VBool true);
   sample_row "tax.floor" VNull; sample_row "tax.city.name" VNull].

Lemma sample_rows_keyed : keyed "key" sample_rows.
Proof.
  refine (proj1 (Forall_forall _ _) _). repeat constructor; eexists; vm_compute; reflexivity.
Qed.

(** The pages of the rows: the first one, and the one of a folder. *)
Example sample_pages :
  labels "key" sample_rows None = ["tax."; "name"] ∧
  labels "key" sample_rows (Some "tax.") = ["city."; "floor"] ∧
  labels "key" sample_rows (Some (open_folder (Some "tax.") "city.")) = ["rate"; "name"].
Proof. split_and!; vm_compute; reflexivity. Qed.

Lemma listing_navigable_witness :
  keyed "key" sample_rows ∧
  (∀ row, row ∈ sample_rows → ∃ P label, opened "key" sample_rows P ∧
    row_key "key" row = open_folder P label ∧ is_folder label = false ∧
    <["key" := VString label]> row ∈ grouped_page sample_rows P "key").
Proof.
  split; [exact sample_rows_keyed|]. apply (listing_navigable sample_rows "key" sample_rows_keyed).
Defined.

Definition sample_config (key type : string) : DefaultConfig :=
  mkDefaultConfig key VNull 0 "web" {["type" := VString type]} None 0 "web" "d" "r" None.
Definition sample_default_config : list DefaultConfig :=
  [sample_config "rate" "number"; sample_config "floor" "integer"].

Lemma sample_typed : typed sample_default_config.
Proof.
  refine (proj1 (Forall_forall _ _) _). repeat constructor; eexists; vm_compute; reflexivity.
Qed.
Lemma sample_known : known sample_default_config (list_to_set (@nil string)).
Proof. intros k Hk. by apply elem_of_empty in Hk. Qed.

(** A key is chosen, its value changed, a variant added and another removed. *)
Definition sample_state : VariantFormState :=
  let step := variant_form_step sample_default_config false in
  step (step (step (step (variant_form_init (default_with_overrides []))
    (KeySelected ∅ (sample_config "rate" "number")))
    (ValueChanged 1 "rate" (VNumber (PosInt 7))))
    (VariantAdded 1700000000))
    (VariantRemoved "1700000000").

Lemma sample_steps : variant_form_steps sample_default_config false
  (answers_complete sample_default_config) (variant_form_init (default_with_overrides [])) sample_state.
Proof.
  unfold sample_state.
  repeat (apply form_step; [|cbn [variant_event_offered]|exact I]); [apply form_refl|..].
  - by left.
  - exact I.
  - exact I.
  - eexists. split; [right; right; left; reflexivity|vm_compute; reflexivity].
Qed.

Lemma variant_form_admissible_witness :
  typed sample_default_config ∧ known sample_default_config (list_to_set (@nil string)) ∧
  match try_map try_variant (ff_variants sample_state).*2 with
  | Ok variants =>
      validate_override_keys (elements (ff_override_keys sample_state)) = Ok tt ∧
      check_variants_override_coverage (v_overrides <$> variants) (elements (ff_override_keys sample_state)) = true ∧
      (1 < length variants → check_variant_types variants = Ok tt)
  | Err _ => ff_override_keys sample_state = ∅
  end.
Proof.
  split; [exact sample_typed|]. split; [exact sample_known|].
  apply (variant_form_admissible sample_default_config false [] sample_state sample_typed
    NoDup_nil_2 sample_known sample_steps).
Defined.

(** The request of the sample: two variants with the key, the second changed. *)
Example sample_request : ∃ variants,
  try_map try_variant (ff_variants sample_state).*2 = Ok variants ∧
  (λ v, (v_id v, v_variant_type v, sorted_entries (v_overrides v))) <$> variants =
    [("control", CONTROL, [("rate", VNumber (PosInt 0))]);
     ("experimental", EXPERIMENTAL, [("rate", VNumber (PosInt 7))])].
Proof. eexists. split; vm_compute; reflexivity. Qed.

(** The button that removes a variant is hidden for two keys that no form has:
    the only experimental variant can be removed, and the request that is left
    is refused by the service. *)
Example experimental_removable :
  let s := variant_form_step sample_default_config false (variant_form_init (default_with_overrides []))
    (KeySelected ∅ (sample_config "rate" "number")) in
  let left := variant_form_step sample_default_config false s (VariantRemoved "experimental") in
  variant_event_offered sample_default_config s (VariantRemoved "experimental") ∧
  ∃ variants e, try_map try_variant (ff_variants left).*2 = Ok variants ∧
    check_variant_types variants = Err e.
Proof.
  split; [|eexists _, _; split; vm_compute; reflexivity].
  eexists. split; [right; left; reflexivity|reflexivity].
Qed.

(** Two variants added in the same second have the same key: the button of the
    second removes the first. *)
Example added_in_a_second :
  let step := variant_form_step sample_default_config false in
  let s := step (step (step (step (variant_form_init (default_with_overrides []))
    (VariantAdded 5)) (IdChanged 2 "blue")) (VariantAdded 5)) (IdChanged 3 "green") in
  (λ kv, vf_id kv.2) <$> ff_variants s = ["control"; "experimental"; "blue"; "green"] ∧
  ff_variants s !! 3 = Some ("5", mkVariantForm "green" EXPERIMENTAL []) ∧
  (λ kv, vf_id kv.2) <$> ff_variants (step s (VariantRemoved "5")) = ["control"; "experimental"; "green"].
Proof. split_and!; vm_compute; reflexivity. Qed.

(** When the service does not answer, the configuration is empty and the button
    that populates the control variant empties its overrides, while the keys of
    the form stay. *)
Example populated_by_a_failure :
  let step := variant_form_step sample_default_config true in
  let s := step (variant_form_init (default_with_overrides []))
    (KeySelected ∅ (sample_config "rate" "number")) in
  let s' := step s (ControlPopulated ∅ 0) in
  variant_event_offered sample_default_config s (ControlPopulated ∅ 0) ∧
  vf_overrides <$> (ff_variants s').*2 = [[]; [("rate", VNumber (PosInt 0))]] ∧
  elements (ff_override_keys s') = ["rate"].
Proof.
  split_and!; [eexists; by split; [reflexivity|]|vm_compute; reflexivity..].
Qed.

(** A text of digits that is shown in an input of several types is read back as
    a number. *)
Example digits_become_a_number `{FloatText} `{JsonText} `{F64} `{JsonParse} :
  parse_input (html_display (VString "5")) (Multiple [TString; TInteger]) =
    Ok (VNumber (PosInt 5)).
Proof. reflexivity. Qed.

(** A definition changed under a name with spaces around it: the definition of
    the name stays, and another appears that is no option. *)
Example cohort_renamed :
  cohort_form_step (mkCohortSchema [" north"; "otherwise"] {[" north" := VBool true]} "string")
    (CohortUpdated " north" (VBool false)) =
  Some (Ok (mkCohortSchema [" north"; "otherwise"]
    {[" north" := VBool true; "north" := VBool false]} "string")).
Proof.
  vm_compute. reflexivity.
Qed.

(** The summary of a change hides a new value equal to its mark of a deletion. *)
Example deletion_marked :
  gen_change_table "Property" ∅ {["k" := VString "##NOT_PRESENT##"]} = [] ∧
  gen_change_table "Property" {["k" := VString "##DELETED##"]} ∅ = [].
Proof. split; vm_compute; reflexivity. Qed.

(** With the [?] of the location, the first parameter is not found. *)
Example first_parameter_missed :
  update_url_query "?page=2&count=10" "page" (Some "3") = "??page=2&count=10&page=3" ∧
  update_url_query "page=2&count=10" "page" (Some "3") = "?page=3&count=10".
Proof. split; vm_compute; reflexivity. Qed.

(** A capital after a letter of two bytes: the offset is past the characters. *)
Example title_panics `{UnicodeCase} :
  let e_acute := String (ascii_of_nat 195) (String (ascii_of_nat 169) EmptyString) in
  char_is_uppercase e_acute = false → char_is_uppercase "X" = true →
  to_title_case (e_acute +:+ e_acute +:+ "X") = None.
Proof.
  intros e He Hx. unfold to_title_case. change (chars _) with [e; e; "X"]. cbn. by rewrite !He, Hx.
Qed.
